(* ===== verification/_CoqProject ===== *)
-Q . S2P
Prelude.v
GoStd.v
Encoding.v
Floats.v
Duration.v
XorTrie.v
TrieFacts.v
TrieSpec.v
IdGen.v
IdGenFacts.v
IdGenSpec.v
Interfaces.v
IdGenClean.v
IdGenRace.v
Utils.v
Metrics.v
MetricsSpec.v
Tasks.v
TasksSpec.v
Stores.v
StoresSpec.v
HttpApi.v
HttpApiSpec.v
IdGenDelegated.v
IdGenSession.v
Fleet.v
DynamoDB.v
DynamoDBSpec.v
Finder.v
FinderSpec.v
PrefetchSpec.v
HeadOptions.v
Head.v
Bootstrap.v
BootstrapSpec.v
Hydra.v
HydraSpec.v
HeadStores.v
HydraBoot.v
HeadTesting.v
Ui.v
MainConfig.v
MainSpec.v
Process.v
ProcessSpec.v
ProcessFleet.v
UiSpec.v
Exporter.v
