(* ===== verification/Prelude.v ===== *)
(** * Hydra Booster: a verification development

    Hydra Booster (src/) is a node of the Kademlia DHT of libp2p that runs many
    DHT nodes, its heads, in one process. The heads share a datastore, a store
    of provider records, and a generator of identities that spreads them evenly
    over the key space. This library models the program's own logic in Rocq and
    proves what makes it correct. The Go code is embedded shallowly: a
    function is a Rocq function, a struct a record, a method takes the receiver
    and returns it; concurrent code is a step function on events or a step relation.

    ** The program and its models

    - [main] (src/main.go) turns flags and environment variables into the options
      of a hydra and chooses an identity generator. MainConfig is that
      computation, [configure], in the order of the code; MainSpec characterises
      when the program refuses to start and which variables it reads. Process is
      the rest of [main]: the generator, [NewHydra], the services that run in
      goroutines of their own, the ways in which the process ends, and the deferred
      [Clean]; ProcessSpec shows what is left in the memory
      of a local or remote generator in each case, and that hydras on one seed
      with offsets apart share no identity.
    - [NewHydra] (src/hydra/hydra.go) opens the stores and spawns the heads.
      Hydra holds its options, the strings that choose datastore and
      provider store, the list of options of every head, the loop
      [spawn] and what is started on the way, as a list of [HydraEffect]s;
      HydraSpec shows that the heads get different identities and
      the configuration that the options ask for, and what a hydra has started.
      HeadStores has the bodies of the closures that build the heads' provider
      stores, and shows how heads on one DynamoDB table and one finder work together.
    - [NewHead] (src/head/head.go, src/head/opts/options.go): HeadOptions is the
      options record with one definition per option, [Defaults] and [Apply];
      Head is [NewHead] with the options it hands to libp2p and to the DHT,
      the resource manager that [buildRcmgr] makes, and what it starts, a list of
      [HeadEffect]s. Its goroutine that connects to
      the bootstrap peers under a limiter shared by all heads, with the loop
      of the hydra that reads its reports, is the step function [bstep] of
      Bootstrap; BootstrapSpec has its invariant and its progress, and HydraBoot
      applies them to the goroutines that a started hydra has.
    - Identities (src/idgen): XorTrie is the trie on keys read bit by bit, with
      [insert], [remove], [shrink] and [depth]; IdGen the balanced
      generator, which keeps of two candidates the one that lies less deep;
      IdGenClean the wrapper that remembers what it handed out and gives it back
      in [Clean]; IdGenRace cuts the methods of that wrapper at its lock and lets
      goroutines interleave, as a step relation. TrieFacts and IdGenFacts hold the invariants and lemmas,
      TrieSpec and IdGenSpec the theorems. The interface [IdentityGenerator] of
      the code is the class of the same name in Interfaces, with laws in
      [IdentityGeneratorLaws]: the balanced and the cleaning generator satisfy
      them, [Clean] and [NewHydra] are proved against them.
    - A remote generator is used through a cleaning generator around a delegated
      one (below); IdGenSession is the invariant of that combination over a network
      that may lose messages. Fleet runs several hydras with one of them as the
      server of the identities: the step function [fleet_step] on the calls of all
      processes. ProcessFleet shows that [main] is one process of it.
    - Provider stores (src/providers): Stores holds the interface
      [ProviderStore] over a world of type [W] that stores may share, and the
      no-op, unsupported, caching, combined and HTTP stores; DynamoDB the
      DynamoDB store; Finder the finder that answers the caching store's misses
      in the background, as a step function [fstep] on the events of its
      callers, workers and metrics. StoresSpec, DynamoDBSpec and FinderSpec
      have their theorems; PrefetchSpec has what the caching store, the finder and the
      DynamoDB store do together, for HeadStores.
    - Metrics (src/metrics): Metrics holds every measure, tag and default view as
      data, the reporter of the resource manager and the middleware of the
      AWS client. What the program records is a log of [Recording]s, which the
      other files add to. MetricsSpec has the theorems. Exporter is the set-up of the
      metrics server, and of the PostgreSQL datastore (src/datastore).
    - Helpers (src/utils) are Utils; the functions of Go's standard library that
      the code uses on strings are GoStd and, for [strings.Split], Utils; float64
      with its text is Floats, [time.ParseDuration] is Duration.
    - The HTTP API (src/httpapi) is HttpApi: every handler on a response writer,
      the routes and the dispatch [ServeHTTP]; Encoding holds base64 and the JSON
      text of strings, which its identity endpoints use. The generator that
      delegates to such an API (src/idgen/delegated.go) is IdGenDelegated, which
      joins client and server by a network that may lose or cut messages, and
      shows that over a reliable one it satisfies [IdentityGeneratorLaws] again.
    - The periodic tasks (src/metricstasks, src/periodictasks) and what a hydra
      records of connections are Tasks: the counting tasks as functions, the
      runner as a step function [tstep] with a clock. TasksSpec has the theorems.
    - The terminal UI (src/ui) is Ui: options, the sums over samples, the screen
      with its log, a ring buffer, the loop of [Render] in both themes and the
      goroutine that polls the metrics; UiSpec shows what is on the screen.
    - The heads that the packages offer to tests (src/head/testing.go) are
      HeadTesting.

    ** How the code is translated

    A call that can panic or run forever has the type [outcome]: [Ret], [Panic]
    (nil dereference, index out of range, send on a closed channel, negative
    [make]) or [Diverge]. An error is [inl] of [result] or a [Some] of
    [option goerror]; an error keeps its message and what it wraps. Machine
    integers are [Z] with their wrap-around written out: [wrap_int] (64 bits),
    [wrap_i32], [wrap_i64], [wrap_u32]. A byte string is a [list byte], a Go
    string a [string] (a [list byte] in the encodings). A [map] is a [gmap] where its order does not matter; where
    the code ranges over a map, the order is that of the class [MapRange]
    and can differ from one loop to the next. Code that starts goroutines and tasks
    before it returns has the type [started]: what it has started, in order, and its
    result. Goroutines
    are numbered, and an interleaving is a list of events: each event
    is a stretch of code that holds at most one lock.

    Code of other modules is a parameter: [KeyMaterial] (key derivation,
    Ed25519, peer and Kademlia IDs), [PrivKeyEquals], [MultiError], [TagLib] and
    [LibMetrics] (OpenCensus and the metrics that libraries define), [Libp2p]
    (multiaddresses, ID validation), [DDBClient] and [PeerStore], [TimeCache],
    [OptTypes], [HeadLibs], [RcmgrLibs], [HydraLibs] and [HostLibs] (libp2p, the
    DHT, the resource manager, the datastores), [KeyCodec] (the encoding of
    keys), [MuxLaws] (gorilla/mux), [HyperLogLog], [Humanize], [ExporterLibs] and [TableLaws] (a
    DynamoDB table that is available, of which queries may see rows late). A class
    whose name ends in [Laws] holds the documented behaviour that theorems rely
    on; the main theorems that use one have a witness at a concrete instance.

    ** What the theorems show

    - The trie: [trie_refines_set] (the methods refine a finite set),
      [Insert_correct], [Remove_correct], [Depth_correct] (results, depths and
      bounds), [Insert_panics_iff] (the one panic there is),
      [trie_history_independent], [Remove_undoes_Insert].
    - The generator: [generator_invariant], [AddBalanced_two_choices],
      [count_bound] (the count never overflows), [genUniqueID_first_unused],
      [genUniqueID_terminates_iff],
      [AddBalanced_then_Remove], [FromSeed_offset]; for the wrapper
      [Clean_after_session] and [Clean_restores_balanced], and
      [concurrent_cleaning] when goroutines share it.
    - The hydra: [NewHydra_identities], [NewHydra_heads], [NewHydra_starts],
      [provider_store_strings], [configure_error], [configure_reads],
      [bootstrap_bounded], [bootstrap_completes], [hydra_bootstraps].
    - The whole program: [main_remote] (what a remote generator keeps, by the way
      the process ends and by the messages that go wrong), [main_local],
      [offsets_disjoint]; several programs: [fleet_identities] (all heads of all
      hydras have different identities), [fleet_one_generator] (the fleet is balanced
      as one hydra is), [main_in_fleet] and [server_in_fleet].
    - The stores: [combined_GetProviders_merges], [combined_errors_lost],
      [ddb_GetProviders_first_page] (what the code reads: it never gets to a second
      page), [ddb_GetProviders_terminates],
      [ddb_same_second_lost], [finder_invariant], [finder_drains],
      [finder_negative_cache], [caching_prefetch],
      [hydra_prefetches] (from the options of a hydra to the answers of its heads),
      [http_GetProviders_spec].
    - The metrics: [rcmgr_report_tags], [rcmgr_counts_events],
      [DefaultViews_consistent], [aws_request_recorded], [exporter_views]; the datastore: [postgres_order].
    - The helpers: [ParseOptsString_spec], [ParseOptsString_roundtrip],
      [PortSelector_sequence], [ParseDuration_whole].
    - The API: [recordFetch_spec], [api_listings]; the delegated generator:
      [delegated_is_transparent], [delegated_faults].
    - The tasks: [provider_records_task], [task_rate]; the UI:
      [render_shows_latest], [log_shows_last].

    ** Bounds and fuel

    - [insert] of the trie recurses on a fuel of one more than the number of
      bits of the key it inserts, after which the code itself would index out of
      range; [remove], [shrink] and [depth] are structural.
    - [genUniqueID] has no bound in the code. Its fuel counts the tries;
      [genUniqueID_terminates_iff] says when some fuel is enough, and the laws
      of the interface ask for partial correctness of [AddBalanced] only.
    - [ddb_GetProviders] has a fuel for the queries of its loop;
      [ddb_GetProviders_terminates] shows that the query limit is enough (one if
      the limit is not positive).
    - The work queue of the finder is modelled for sizes from 1 on (a buffered
      channel).
    - [skip_ids], [spawn] and the loops over slices are structural.
    - A generator stores keys of the 2^32 salts of its seed only ([bg_inv]), so that
      [count], a 64-bit integer, is at most 2^32.

    ** What is not modelled

    The libraries themselves: what they do is a parameter, with the laws that are
    documented. Of the program: the parsing of the flags (the package flag); the
    bodies of the servers beyond their handlers and their failure; the printing
    of messages; what a started goroutine does that only calls a library (the one
    that closes a head's node when its context ends is a [HeadEffect] and no more);
    the constants of colours and the test hooks of the finder, which nothing uses;
    and the tests. A process that serves its API gets no requests in [main_local];
    with requests it is the server of Fleet. A process that is killed in
    the middle of a request to its remote generator is a run in which the response
    of that request is lost. *)
From Stdlib Require Import Strings.Byte.
From stdpp Require Export prelude gmap strings list fin_maps sorting.

(** ** Outcomes of Go code *)

Inductive outcome (A : Type) : Type :=
| Ret (a : A)
| Panic
| Diverge.
Arguments Ret {A} _.
Arguments Panic {A}.
Arguments Diverge {A}.

#[export] Instance outcome_ret : MRet outcome := @Ret.
#[export] Instance outcome_bind : MBind outcome := fun A B f m =>
  match m with
  | Ret a => f a
  | Panic => Panic
  | Diverge => Diverge
  end.

(** Go's [&&] on operands that may panic: the right one is evaluated only when
    the left one is true. *)
Definition andM (x y : outcome bool) : outcome bool :=
  b ← x; if (b : bool) then y else Ret false.

(** An error value of Go: [errors.New msg], or [fmt.Errorf] with a [%w] verb
    that wraps another error. *)
Inductive goerror : Type :=
| ErrorMsg (msg : string)
| Errorf (msg : string) (wrapped : goerror).

#[export] Instance goerror_eq_dec : EqDecision goerror.
Proof. solve_decision. Defined.

(** A Go result pair [(T, error)] whose value is the zero value on error. *)
Abbreviation result A := (goerror + A)%type.

(** Code that starts things: what it has started when it ends, in order, and its
    value or error. What was started before an error stays in the list. *)
Definition started (E A : Type) : Type := list E * result A.

#[export] Instance started_ret E : MRet (started E) := fun A a => ([], inr a).
#[export] Instance started_bind E : MBind (started E) := fun A B f m =>
  match m with
  | (es, inl err) => (es, inl err)
  | (es, inr a) => let '(es', r) := f a in (es ++ es', r)
  end.

(** To start something; to start it if a condition holds; a call that starts
    nothing and can fail, with the text that wraps its error. *)
Definition start {E} (e : E) : started E unit := ([e], inr tt).
Definition start_if {E} (b : bool) (e : E) : started E unit := (if b then [e] else [], inr tt).
Definition call {E A} (r : result A) : started E A := ([], r).
Definition wrap_error {A} (msg : string) (r : result A) : result A :=
  match r with inl err => inl (Errorf msg err) | inr a => inr a end.
Definition option_to_result {A} (e : option goerror) (a : A) : result A :=
  match e with Some err => inl err | None => inr a end.

(** A [uint32] counter: arithmetic is modulo 2^32. *)
Definition wrap_u32 (z : Z) : Z := (z `mod` 2 ^ 32)%Z.

(** A signed integer of [w] bits wraps to the range [-2^(w-1), 2^(w-1)). *)
Definition wrap_signed (w : Z) (z : Z) : Z :=
  ((z + 2 ^ (w - 1)) `mod` 2 ^ w - 2 ^ (w - 1))%Z.
Definition wrap_i32 (z : Z) : Z := wrap_signed 32 z.
Definition wrap_i64 (z : Z) : Z := wrap_signed 64 z.

(** [int] has 64 bits on the platforms the program is built for. *)
Definition wrap_int (z : Z) : Z := wrap_signed 64 z.

Abbreviation byte := Byte.byte.

#[export] Instance byte_eq_dec : EqDecision byte := Byte.byte_eq_dec.
#[export] Program Instance byte_countable : Countable byte :=
  inj_countable Byte.to_N Byte.of_N _.
Next Obligation. intros x. apply Byte.of_to_N. Qed.

(** ** Longest common prefix of two lists *)

Fixpoint lcp {A} `{EqDecision A} (l1 l2 : list A) : nat :=
  match l1, l2 with
  | x :: l1, y :: l2 => if decide (x = y) then S (lcp l1 l2) else 0
  | _, _ => 0
  end.

Section lcp.
Context {A : Type} `{EqDecision A}.
Implicit Types (l p : list A) (x y : A).

Lemma lcp_app p l1 l2 : lcp (p ++ l1) (p ++ l2) = length p + lcp l1 l2.
Proof. induction p; simpl; [done|]. rewrite decide_True by done. lia. Qed.

Lemma lcp_comm l1 l2 : lcp l1 l2 = lcp l2 l1.
Proof. revert l2; induction l1; intros [|??]; simpl; repeat case_decide; naive_solver. Qed.

Lemma lcp_le l1 l2 : lcp l1 l2 <= length l1.
Proof.
  revert l2; induction l1 as [|x l1 IH]; intros [|y l2]; simpl; try lia.
  case_decide; [specialize (IH l2)|]; lia.
Qed.

Lemma lcp_lt l1 l2 : length l1 = length l2 -> l1 <> l2 -> lcp l1 l2 < length l1.
Proof.
  revert l2; induction l1 as [|x l1 IH]; intros [|y l2] Hlen Hne; simpl in *; try done.
  case_decide as Hxy; [subst|lia].
  assert (lcp l1 l2 < length l1) by (apply IH; [lia|congruence]). lia.
Qed.

(** Two lists below a common prefix that continue differently. *)
Lemma lcp_split p x y l1 l2 :
  (p ++ [x]) `prefix_of` l1 -> (p ++ [y]) `prefix_of` l2 -> x <> y ->
  lcp l1 l2 = length p.
Proof.
  intros [k1 ->] [k2 ->] Hne. rewrite <-!app_assoc, lcp_app. simpl.
  rewrite decide_False by done. lia.
Qed.

Lemma lcp_prefix p l1 l2 :
  p `prefix_of` l1 -> p `prefix_of` l2 -> length p <= lcp l1 l2.
Proof. intros [k1 ->] [k2 ->]. rewrite lcp_app. lia. Qed.

Lemma lcp_app_ne l1 l2 r1 r2 :
  length l1 = length l2 -> l1 <> l2 -> lcp (l1 ++ r1) (l2 ++ r2) = lcp l1 l2.
Proof.
  revert l2; induction l1 as [|x l1 IH]; intros [|y l2] Hlen Hne; simpl in *; try done.
  case_decide; [|done]. f_equal. apply IH; [lia|congruence].
Qed.

Lemma prefix_snoc_lookup p x l : (p ++ [x]) `prefix_of` l -> l !! length p = Some x.
Proof. intros [k ->]. rewrite <-app_assoc. simpl. by rewrite list_lookup_middle. Qed.

Lemma prefix_snoc_weaken p x l : (p ++ [x]) `prefix_of` l -> p `prefix_of` l.
Proof. intros [k ->]. exists ([x] ++ k). by rewrite <-app_assoc. Qed.

Lemma prefix_snoc p x l :
  p `prefix_of` l -> l !! length p = Some x -> (p ++ [x]) `prefix_of` l.
Proof.
  intros [[|y k] ->] Hl.
  - rewrite app_nil_r, lookup_ge_None_2 in Hl by lia. done.
  - rewrite list_lookup_middle in Hl by done. injection Hl as ->.
    exists k. by rewrite <-app_assoc.
Qed.

Lemma prefix_snoc_inj p x y l :
  (p ++ [x]) `prefix_of` l -> (p ++ [y]) `prefix_of` l -> x = y.
Proof. intros Hx%prefix_snoc_lookup Hy%prefix_snoc_lookup. congruence. Qed.
End lcp.

(** ** Safety of an outcome: no panic, and [P] of the value if there is one *)

Definition safe {A} (P : A -> Prop) (o : outcome A) : Prop :=
  match o with
  | Ret a => P a
  | Panic => False
  | Diverge => True
  end.

Lemma safe_bind {A B} (P : A -> Prop) (Q : B -> Prop) (o : outcome A) (f : A -> outcome B) :
  safe P o -> (forall a, P a -> safe Q (f a)) -> safe Q (o ≫= f).
Proof. destruct o; simpl; auto. Qed.

Lemma safe_mono {A} (P Q : A -> Prop) (o : outcome A) :
  (forall a, P a -> Q a) -> safe P o -> safe Q o.
Proof. destruct o; simpl; auto. Qed.

(** Runs a bind on a call whose outcome is known. *)
Ltac run := cbn [mbind outcome_bind].

Lemma outcome_bind_assoc {A B C} (m : outcome A) (f : A -> outcome B) (g : B -> outcome C) :
  (m ≫= f) ≫= g = m ≫= (fun x => f x ≫= g).
Proof. by destruct m. Qed.

Lemma outcome_bind_ext {A B} (m : outcome A) (f g : A -> outcome B) :
  (forall a, f a = g a) -> m ≫= f = m ≫= g.
Proof. destruct m; simpl; auto. Qed.

(** ** Bytes as numbers *)

(** The conversion [byte(z)]: the low 8 bits. *)
Definition byte_of_Z (z : Z) : byte :=
  match Byte.of_N (Z.to_N (z `mod` 256)) with Some b => b | None => Byte.x00 end.

Lemma wrap_u32_range z : (0 <= wrap_u32 z < 2 ^ 32)%Z.
Proof. apply Z.mod_pos_bound. lia. Qed.

Lemma wrap_u32_add_l a b : wrap_u32 (wrap_u32 a + b) = wrap_u32 (a + b).
Proof. unfold wrap_u32. by rewrite Zplus_mod_idemp_l. Qed.

Lemma wrap_u32_small z : (0 <= z < 2 ^ 32)%Z -> wrap_u32 z = z.
Proof. intros. unfold wrap_u32. by rewrite Z.mod_small. Qed.

Lemma wrap_signed_range w z : (0 < w)%Z ->
  (- 2 ^ (w - 1) <= wrap_signed w z < 2 ^ (w - 1))%Z.
Proof.
  intros Hw. unfold wrap_signed.
  assert (2 ^ w = 2 * 2 ^ (w - 1))%Z as ->
    by (rewrite <-Z.pow_succ_r by lia; f_equal; lia).
  pose proof (Z.pow_pos_nonneg 2 (w - 1)).
  pose proof (Z.mod_pos_bound (z + 2 ^ (w - 1)) (2 * 2 ^ (w - 1))). lia.
Qed.

Lemma wrap_signed_small w z : (0 < w)%Z ->
  (- 2 ^ (w - 1) <= z < 2 ^ (w - 1))%Z -> wrap_signed w z = z.
Proof.
  intros Hw Hz. unfold wrap_signed.
  assert (2 ^ w = 2 * 2 ^ (w - 1))%Z as ->
    by (rewrite <-Z.pow_succ_r by lia; f_equal; lia).
  rewrite Z.mod_small; lia.
Qed.

Lemma wrap_signed_congr w a b :
  (a `mod` 2 ^ w = b `mod` 2 ^ w)%Z -> wrap_signed w a = wrap_signed w b.
Proof. intros Hab. unfold wrap_signed. f_equal. by rewrite Zplus_mod, Hab, <-Zplus_mod. Qed.

Lemma wrap_signed_mod w z : (0 < w)%Z -> (wrap_signed w z `mod` 2 ^ w = z `mod` 2 ^ w)%Z.
Proof.
  intros Hw. unfold wrap_signed. rewrite Zminus_mod_idemp_l. f_equal. lia.
Qed.

Lemma wrap_i32_small z : (- 2 ^ 31 <= z < 2 ^ 31)%Z -> wrap_i32 z = z.
Proof. intros. by apply wrap_signed_small. Qed.
Lemma wrap_i64_small z : (- 2 ^ 63 <= z < 2 ^ 63)%Z -> wrap_i64 z = z.
Proof. intros. by apply wrap_signed_small. Qed.
Lemma wrap_int_small z : (- 2 ^ 63 <= z < 2 ^ 63)%Z -> wrap_int z = z.
Proof. apply wrap_i64_small. Qed.

(** Arithmetic that stays in range: [autorewrite with wrap]. *)
Create Rewrite HintDb wrap.
#[export] Hint Rewrite wrap_u32_small wrap_i32_small wrap_i64_small wrap_int_small using lia : wrap.

(** ** Bounded search *)

Lemma first_failure (P : nat -> Prop) `{!forall n, Decision (P n)} (N : nat) :
  (forall i, i < N -> P i) \/ exists n, n < N /\ (forall i, i < n -> P i) /\ ~ P n.
Proof.
  induction N as [|N [IH|(n & Hn & Hall & HP)]]; [left; lia| |right; exists n; naive_solver lia].
  destruct (decide (P N)) as [HN|HN].
  - left. intros i Hi. destruct (decide (i = N)) as [->|]; [done|]. apply IH. lia.
  - right. exists N. split_and!; auto.
Qed.

(** ** Lists *)

(** Changing one element of a list changes its share of a bind. *)
Lemma bind_insert_perm {A B} (f : A -> list B) (l : list A) i x :
  l !! i = Some x -> exists rest, l ≫= f ≡ₚ f x ++ rest /\
  forall y, <[i := y]> l ≫= f ≡ₚ f y ++ rest.
Proof.
  intros Hi. exists ((take i l ≫= f) ++ (drop (S i) l ≫= f)).
  pose proof (lookup_lt_Some _ _ _ Hi) as Hlt. split.
  - rewrite <-(take_drop_middle l i x Hi) at 1. rewrite bind_app. cbn.
    rewrite !app_assoc. apply Permutation_app_tail, Permutation_app_comm.
  - intros y. rewrite insert_take_drop by done. rewrite bind_app. cbn.
    rewrite !app_assoc. apply Permutation_app_tail, Permutation_app_comm.
Qed.

(** ** Set algebra *)

Section sets.
Context `{Countable K}.
Implicit Types (M O : gset K) (k : K).

Lemma disjoint_grow M O k : M ## O -> k ∉ M ∪ O -> M ## {[k]} ∪ O.
Proof. set_solver. Qed.

Lemma union_grow M O k : {[k]} ∪ (M ∪ O) = M ∪ ({[k]} ∪ O).
Proof. set_solver. Qed.

Lemma disjoint_shrink M O (O' : gset K) k :
  M ## O -> (forall k', k' ∈ O' <-> k' ∈ O /\ k' <> k) -> M ## O'.
Proof. set_solver. Qed.

Lemma union_shrink M O (O' : gset K) k :
  M ## O -> k ∈ O -> (forall k', k' ∈ O' <-> k' ∈ O /\ k' <> k) ->
  (M ∪ O) ∖ {[k]} = M ∪ O'.
Proof. intros Hd Hk HO. apply set_eq. intros x. specialize (HO x). set_solver. Qed.

(** A set whose elements are values of [f] at numbers below [n]. *)
Lemma size_image_le (f : Z -> option K) (n : Z) M :
  (0 <= n)%Z -> (forall k, k ∈ M -> exists z, (0 <= z < n)%Z /\ f z = Some k) ->
  (Z.of_nat (size M) <= n)%Z.
Proof.
  intros Hn HM.
  assert (length (elements M) <= length (seqZ 0 n)) as Hle; [|rewrite length_seqZ in Hle; unfold size, set_size; simpl; lia].
  rewrite <-(length_fmap Some (elements M)), <-(length_fmap f (seqZ 0 n)).
  apply submseteq_length, NoDup_submseteq; [apply (NoDup_fmap_2 Some), NoDup_elements|].
  intros k' (k & -> & (z & Hz & <-)%elem_of_elements%HM)%list_elem_of_fmap.
  apply list_elem_of_fmap_2, elem_of_seqZ. lia.
Qed.
End sets.
