(* ===== verification/GoStd.v ===== *)
(** * What the program uses of Go's standard library

    [strings.HasPrefix], [strings.TrimPrefix], [strconv.ParseInt] in base 10,
    [strconv.Atoi] and [strconv.ParseBool]. [Split] and [Join] are in Utils. *)
From Stdlib Require Import Strings.Ascii Strings.String.
From stdpp Require Import pretty.
From S2P Require Import Prelude.

(** ** Prefixes *)

Fixpoint HasPrefix (s p : string) : bool :=
  match p, s with
  | EmptyString, _ => true
  | String c p, String c' s => bool_decide (c = c') && HasPrefix s p
  | String _ _, EmptyString => false
  end.

Fixpoint drop_chars (n : nat) (s : string) : string :=
  match n, s with
  | S n, String _ s => drop_chars n s
  | _, _ => s
  end.

Definition TrimPrefix (s p : string) : string :=
  if HasPrefix s p then drop_chars (String.length p) s else s.

Lemma HasPrefix_app p s : HasPrefix (p +:+ s) p = true.
Proof. induction p as [|c p IH]; simpl; [by destruct s|]. by rewrite bool_decide_eq_true_2. Qed.

Lemma TrimPrefix_app p s : TrimPrefix (p +:+ s) p = s.
Proof. unfold TrimPrefix. rewrite HasPrefix_app. induction p as [|c p IH]; [done|exact IH]. Qed.

Lemma HasPrefix_split s p : HasPrefix s p = true -> s = p +:+ TrimPrefix s p.
Proof.
  intros Hp. unfold TrimPrefix. rewrite Hp. revert s Hp.
  induction p as [|c p IH]; intros s; [done|].
  destruct s as [|c' s]; simpl; [done|]. rewrite andb_true_iff, bool_decide_eq_true.
  intros [-> Hp]. apply (f_equal (String c')). by apply IH.
Qed.

(** ** Numbers *)

Definition digit_of (c : ascii) : option Z :=
  let n := Z.of_N (N_of_ascii c) in
  if decide (48 <= n <= 57)%Z then Some (n - 48)%Z else None.

Definition err_syntax : goerror := ErrorMsg "invalid syntax".
Definition err_range : goerror := ErrorMsg "value out of range".

(** The loop of [ParseUint] in base 10. *)
Fixpoint parse_digits (bits : Z) (s : string) (n : Z) : result Z :=
  match s with
  | EmptyString => inr n
  | String c s =>
      match digit_of c with
      | None => inl err_syntax
      | Some d =>
          let n1 := (n * 10 + d)%Z in
          if (2 ^ bits <=? n1)%Z then inl err_range else parse_digits bits s n1
      end
  end.

Definition ParseUint (s : string) (bits : Z) : result Z :=
  if decide (s = ""%string) then inl err_syntax else parse_digits bits s 0.

Definition ParseInt (s : string) (bits : Z) : result Z :=
  let '(neg, digits) :=
    match s with
    | String "+" s' => (false, s')
    | String "-" s' => (true, s')
    | _ => (false, s)
    end in
  match ParseUint digits bits with
  | inl err => inl err
  | inr un =>
      let cutoff := (2 ^ (bits - 1))%Z in
      if negb neg && (cutoff <=? un)%Z then inl err_range
      else if neg && (cutoff <? un)%Z then inl err_range
      else inr (if neg then (- un)%Z else un)
  end.

(** An [int] has 64 bits. *)
Definition Atoi (s : string) : result Z := ParseInt s 64.

Definition ParseBool (s : string) : result bool :=
  if decide (s ∈ ["1"; "t"; "T"; "true"; "TRUE"; "True"]%string) then inr true
  else if decide (s ∈ ["0"; "f"; "F"; "false"; "FALSE"; "False"]%string) then inr false
  else inl err_syntax.

Lemma parse_digits_range bits s n z :
  (0 <= n < 2 ^ bits)%Z -> parse_digits bits s n = inr z -> (0 <= z < 2 ^ bits)%Z.
Proof.
  revert n. induction s as [|c s IH]; intros n Hn; simpl; [by intros [= <-]|].
  destruct (digit_of c) as [d|] eqn:Hd; [|done].
  destruct (Z.leb_spec (2 ^ bits) (n * 10 + d)) as [|Hlt]; [done|]. apply IH.
  unfold digit_of in Hd. case_decide; [|done]. injection Hd as <-. lia.
Qed.

(** A number that [ParseInt] accepts fits in its width. *)
Lemma ParseInt_range s bits z :
  (0 < bits)%Z -> ParseInt s bits = inr z -> (- 2 ^ (bits - 1) <= z < 2 ^ (bits - 1))%Z.
Proof.
  intros Hbits. unfold ParseInt.
  assert (0 < 2 ^ (bits - 1))%Z by (apply Z.pow_pos_nonneg; lia).
  assert (forall neg digits, match ParseUint digits bits with
    | inl err => inl err
    | inr un => if negb neg && (2 ^ (bits - 1) <=? un)%Z then inl err_range
        else if neg && (2 ^ (bits - 1) <? un)%Z then inl err_range
        else inr (if neg then (- un)%Z else un)
    end = inr z -> (- 2 ^ (bits - 1) <= z < 2 ^ (bits - 1))%Z) as Hgo.
  { intros neg digits. unfold ParseUint. case_decide; [done|].
    destruct (parse_digits bits digits 0) as [err|un] eqn:Hp; [done|].
    apply parse_digits_range in Hp; [|split; [lia|apply Z.pow_pos_nonneg; lia]].
    destruct neg; simpl;
      repeat match goal with |- context [(?a <=? ?b)%Z] => destruct (Z.leb_spec a b)
                           | |- context [(?a <? ?b)%Z] => destruct (Z.ltb_spec a b) end;
      intros [= <-]; lia. }
  match goal with |- (let '(_, _) := ?e in _) = _ -> _ => destruct e as [neg digits] end.
  apply Hgo.
Qed.

(** ** Numbers and their text

    [pretty] is [strconv.Itoa] and [strconv.FormatInt] in base 10. *)

Lemma digit_of_pretty (x : N) : (x < 10)%N -> digit_of (pretty_N_char x) = Some (Z.of_N x).
Proof.
  intros Hx. assert (exists n : nat, n < 10 /\ x = N.of_nat n) as (n & Hn & ->) by (exists (N.to_nat x); lia).
  do 10 (destruct n as [|n]; [done|]). lia.
Qed.

(** Reading the digits of [x] and then [s], starting from 0, is reading [s] from [x]. *)
Lemma parse_digits_pretty (bits : Z) (x : N) : forall s,
  (Z.of_N x < 2 ^ bits)%Z -> parse_digits bits (pretty_N_go x s) 0 = parse_digits bits s (Z.of_N x).
Proof.
  induction (N.lt_wf_0 x) as [x _ IH]; intros s Hx.
  assert (x = 0 \/ 0 < x)%N as [->|Hpos] by lia; [by rewrite pretty_N_go_0|].
  pose proof (N.mod_lt x 10 ltac:(lia)) as Hm. pose proof (N.div_mod x 10 ltac:(lia)) as Hdm.
  pose proof (N.div_lt x 10 Hpos ltac:(lia)) as Hlt.
  rewrite pretty_N_go_step, IH by (done || lia). cbn [parse_digits].
  rewrite digit_of_pretty by done.
  replace (Z.of_N (x `div` 10) * 10 + Z.of_N (x `mod` 10))%Z with (Z.of_N x) by lia.
  by rewrite (proj2 (Z.leb_gt _ _)).
Qed.

(** The text of a positive number starts with a digit. *)
Lemma pretty_N_go_digit (x : N) s : (0 < x)%N ->
  exists y s', (y < 10)%N /\ pretty_N_go x s = String (pretty_N_char y) s'.
Proof.
  revert s. induction (N.lt_wf_0 x) as [x _ IH]; intros s Hx. rewrite pretty_N_go_step by done.
  destruct (N.eq_0_gt_0_cases (x `div` 10)) as [->|Hd].
  - rewrite pretty_N_go_0. exists (x `mod` 10)%N, s. split; [|done]. by apply N.mod_lt.
  - apply IH; [by apply N.div_lt|done].
Qed.

Lemma ParseUint_pretty (bits : Z) (p : positive) :
  (Z.pos p < 2 ^ bits)%Z -> ParseUint (pretty (N.pos p)) bits = inr (Z.pos p).
Proof.
  intros Hp. unfold ParseUint. change (pretty (N.pos p)) with (pretty_N_go (N.pos p) "").
  destruct (pretty_N_go_digit (N.pos p) "" eq_refl) as (y & s' & _ & Hs).
  rewrite decide_False by (by rewrite Hs). by rewrite parse_digits_pretty by done.
Qed.

(** A text that starts with a digit has no sign. *)
Lemma ParseInt_digit (bits : Z) (y : N) s : (y < 10)%N ->
  ParseInt (String (pretty_N_char y) s) bits =
  match ParseUint (String (pretty_N_char y) s) bits with
  | inl err => inl err
  | inr un => if (2 ^ (bits - 1) <=? un)%Z then inl err_range else inr un
  end.
Proof.
  intros Hy. assert (exists n : nat, n < 10 /\ y = N.of_nat n) as (n & Hn & ->) by (exists (N.to_nat y); lia).
  do 10 (destruct n as [|n]; [reflexivity|]). lia.
Qed.

(** A number in the range of its width is read back from its text. *)
Lemma ParseInt_pretty (bits z : Z) :
  (1 < bits)%Z -> (- 2 ^ (bits - 1) <= z < 2 ^ (bits - 1))%Z -> ParseInt (pretty z) bits = inr z.
Proof.
  intros Hb Hz. assert (2 ^ bits = 2 * 2 ^ (bits - 1))%Z as Hpow
    by (rewrite <-Z.pow_succ_r by lia; f_equal; lia).
  assert (1 <= 2 ^ (bits - 1))%Z by (apply (Z.pow_le_mono_r 2 0); lia).
  destruct z as [|p|p].
  - change (pretty 0%Z) with "0"%string. unfold ParseInt, ParseUint. rewrite decide_False by done. cbn [parse_digits].
    change (digit_of "0") with (Some 0%Z). cbn [negb andb].
    by rewrite !(proj2 (Z.leb_gt _ _)) by lia.
  - change (pretty (Z.pos p)) with (pretty_N_go (N.pos p) "").
    destruct (pretty_N_go_digit (N.pos p) "" eq_refl) as (y & s' & Hy & Hs).
    assert (ParseUint (String (pretty_N_char y) s') bits = inr (Z.pos p)) as Hu
      by (rewrite <-Hs; apply ParseUint_pretty; lia).
    by rewrite Hs, ParseInt_digit, Hu, (proj2 (Z.leb_gt _ _)) by (done || lia).
  - change (pretty (Z.neg p)) with (String "-" (pretty (N.pos p))). unfold ParseInt. cbn -[ParseUint Z.pow pretty].
    rewrite ParseUint_pretty by lia. cbn [negb andb]. by rewrite (proj2 (Z.ltb_ge _ _)) by lia.
Qed.
