(* ===== verification/Encoding.v ===== *)
(** * encoding/base64 and encoding/json, as src/httpapi and src/idgen use them

    [base64.StdEncoding], and the JSON text of a string: [json.Marshal],
    [Encoder.Encode] and [Decoder.Decode] into an empty string variable. A body
    is a list of bytes, and so is a Go string here. *)
From Stdlib Require Import Strings.Byte Strings.String.
From S2P Require Import Prelude.
Local Open Scope N_scope.

(** A byte is its value modulo 256: [byte(n)]. *)
Definition byte_of (n : N) : byte := default Byte.x00 (Byte.of_N (n mod 256)).
Abbreviation val := Byte.to_N.

(** ** base64.StdEncoding *)

Definition encodeStd : list byte :=
  list_byte_of_string "ABCDEFGHIJKLMNOPQRSTUVWXYZabcdefghijklmnopqrstuvwxyz0123456789+/".
Definition padChar : byte := Byte.x3d.

Definition enc6 (v : N) : byte := nth (N.to_nat (N.land v 63)) encodeStd Byte.x00.

(** [decodeMap]: [None] is the entry 0xff. *)
Fixpoint index_of (b : byte) (l : list byte) : option N :=
  match l with
  | [] => None
  | c :: l => if Byte.eqb c b then Some 0 else N.succ <$> index_of b l
  end.
Definition dec6 (b : byte) : option N := index_of b encodeStd.

(** [EncodeToString] *)
Fixpoint b64_encode (src : list byte) : list byte :=
  match src with
  | [] => []
  | [a] =>
      let v := N.shiftl (val a) 16 in
      [enc6 (N.shiftr v 18); enc6 (N.shiftr v 12); padChar; padChar]
  | [a; b] =>
      let v := N.lor (N.shiftl (val a) 16) (N.shiftl (val b) 8) in
      [enc6 (N.shiftr v 18); enc6 (N.shiftr v 12); enc6 (N.shiftr v 6); padChar]
  | a :: b :: c :: src =>
      let v := N.lor (N.lor (N.shiftl (val a) 16) (N.shiftl (val b) 8)) (val c) in
      enc6 (N.shiftr v 18) :: enc6 (N.shiftr v 12) :: enc6 (N.shiftr v 6) :: enc6 v :: b64_encode src
  end.

(** The message names the offset of the bad byte; it is left out here. *)
Definition CorruptInputError : goerror := ErrorMsg "illegal base64 data".

Definition quantum (x0 x1 x2 x3 : N) : N :=
  N.lor (N.lor (N.lor (N.shiftl x0 18) (N.shiftl x1 12)) (N.shiftl x2 6)) x3.

(** The decoder's quanta, on input without newlines. *)
Fixpoint decode_quanta (src : list byte) : result (list byte) :=
  match src with
  | [] => inr []
  | c0 :: c1 :: c2 :: c3 :: src =>
      match dec6 c0, dec6 c1, dec6 c2, dec6 c3 with
      | Some x0, Some x1, Some x2, Some x3 =>
          let v := quantum x0 x1 x2 x3 in
          match decode_quanta src with
          | inl err => inl err
          | inr dst => inr (byte_of (N.shiftr v 16) :: byte_of (N.shiftr v 8) :: byte_of v :: dst)
          end
      | Some x0, Some x1, Some x2, None =>
          if Byte.eqb c3 padChar && bool_decide (src = []) then
            let v := quantum x0 x1 x2 0 in
            inr [byte_of (N.shiftr v 16); byte_of (N.shiftr v 8)]
          else inl CorruptInputError
      | Some x0, Some x1, None, _ =>
          if Byte.eqb c2 padChar && Byte.eqb c3 padChar && bool_decide (src = []) then
            inr [byte_of (N.shiftr (quantum x0 x1 0 0) 16)]
          else inl CorruptInputError
      | _, _, _, _ => inl CorruptInputError
      end
  | _ => inl CorruptInputError
  end.

Definition is_newline (b : byte) : bool := Byte.eqb b Byte.x0a || Byte.eqb b Byte.x0d.

(** [DecodeString]: line feeds and carriage returns are skipped everywhere. *)
Definition b64_decode (src : list byte) : result (list byte) :=
  decode_quanta (List.filter (fun b => negb (is_newline b)) src).

(** ** UTF-8 *)

Definition RuneError : N := 0xFFFD.

(** [utf8.EncodeRune] of a rune that is no surrogate. *)
Definition EncodeRune (r : N) : list byte :=
  if r <? 0x80 then [byte_of r]
  else if r <? 0x800 then [byte_of (0xC0 + N.shiftr r 6); byte_of (0x80 + N.land r 0x3F)]
  else if r <? 0x10000 then
    [byte_of (0xE0 + N.shiftr r 12); byte_of (0x80 + N.land (N.shiftr r 6) 0x3F);
     byte_of (0x80 + N.land r 0x3F)]
  else
    [byte_of (0xF0 + N.shiftr r 18); byte_of (0x80 + N.land (N.shiftr r 12) 0x3F);
     byte_of (0x80 + N.land (N.shiftr r 6) 0x3F); byte_of (0x80 + N.land r 0x3F)].

Definition in_range (lo hi : N) (b : byte) : bool := (lo <=? val b) && (val b <=? hi).
Definition cont : byte -> bool := in_range 0x80 0xBF.

(** The number of continuation bytes of the rune that starts with [c] and goes
    on with [s], if it is well-formed: [utf8.DecodeRune]'s table. *)
Definition rune_tail (c : byte) (s : list byte) : option nat :=
  let n := val c in
  match s with
  | c1 :: s =>
      if (0xC2 <=? n) && (n <=? 0xDF) then (if cont c1 then Some 1%nat else None)
      else match s with
      | c2 :: s =>
          let lo := if n =? 0xE0 then 0xA0 else 0x80 in
          let hi := if n =? 0xED then 0x9F else 0xBF in
          if (0xE0 <=? n) && (n <=? 0xEF) then
            (if in_range lo hi c1 && cont c2 then Some 2%nat else None)
          else match s with
          | c3 :: _ =>
              let lo := if n =? 0xF0 then 0x90 else 0x80 in
              let hi := if n =? 0xF4 then 0x8F else 0xBF in
              if (0xF0 <=? n) && (n <=? 0xF4) then
                (if in_range lo hi c1 && cont c2 && cont c3 then Some 3%nat else None)
              else None
          | [] => None
          end
      | [] => None
      end
  | [] => None
  end.

(** ** JSON strings *)

Definition quote : byte := Byte.x22.
Definition backslash : byte := Byte.x5c.

Definition hex_digit (n : N) : byte := nth (N.to_nat n) (list_byte_of_string "0123456789abcdef") Byte.x00.

(** [htmlSafeSet], on bytes below 0x80. *)
Definition html_safe (b : byte) : bool :=
  (0x20 <=? val b) && negb (bool_decide (b ∈ [quote; backslash; Byte.x3c; Byte.x3e; Byte.x26])).

(** The loop of the encoder; the first [pend] bytes belong to a rune. *)
Fixpoint json_escape (pend : nat) (s : list byte) : list byte :=
  match s with
  | [] => []
  | c :: s =>
      match pend with
      | S n => c :: json_escape n s
      | O =>
          if val c <? 0x80 then
            if html_safe c then c :: json_escape 0 s
            else if Byte.eqb c quote || Byte.eqb c backslash then backslash :: c :: json_escape 0 s
            else if Byte.eqb c Byte.x0a then backslash :: Byte.x6e :: json_escape 0 s
            else if Byte.eqb c Byte.x0d then backslash :: Byte.x72 :: json_escape 0 s
            else if Byte.eqb c Byte.x09 then backslash :: Byte.x74 :: json_escape 0 s
            else list_byte_of_string "\u00" ++
              hex_digit (N.shiftr (val c) 4) :: hex_digit (N.land (val c) 15) :: json_escape 0 s
          else
            match rune_tail c s with
            | None => list_byte_of_string "\ufffd" ++ json_escape 0 s
            | Some n =>
                if bool_decide (take 3 (c :: s) = [Byte.xe2; Byte.x80; Byte.xa8])
                then list_byte_of_string "\u2028" ++ drop 2 (json_escape n s)
                else if bool_decide (take 3 (c :: s) = [Byte.xe2; Byte.x80; Byte.xa9])
                then list_byte_of_string "\u2029" ++ drop 2 (json_escape n s)
                else c :: json_escape n s
            end
      end
  end.

(** [json.Marshal] of a string, and [Encoder.Encode], which ends the line. *)
Definition json_Marshal (s : list byte) : list byte := quote :: json_escape 0 s ++ [quote].
Definition json_Encode (s : list byte) : list byte := json_Marshal s ++ [Byte.x0a].

Definition hex_val (b : byte) : option N :=
  let n := val b in
  if (48 <=? n) && (n <=? 57) then Some (n - 48)
  else if (97 <=? n) && (n <=? 102) then Some (n - 87)
  else if (65 <=? n) && (n <=? 70) then Some (n - 55)
  else None.

(** [getu4] on what follows [\u]. *)
Definition hex4 (s : list byte) : option N :=
  match s with
  | a :: b :: c :: d :: _ =>
      x ← hex_val a; y ← hex_val b; z ← hex_val c; t ← hex_val d;
      Some (((x * 16 + y) * 16 + z) * 16 + t)
  | _ => None
  end.

Definition getu4 (s : list byte) : option N :=
  match s with
  | c :: u :: s => if Byte.eqb c backslash && Byte.eqb u Byte.x75 then hex4 s else None
  | _ => None
  end.

(** [utf16.DecodeRune], [None] when the pair is no pair of surrogates. *)
Definition surrogate_pair (r1 : N) (r2 : option N) : option N :=
  r2 ← r2;
  if (0xD800 <=? r1) && (r1 <? 0xDC00) && (0xDC00 <=? r2) && (r2 <? 0xE000)
  then Some (N.lor (N.shiftl (r1 - 0xD800) 10) (r2 - 0xDC00) + 0x10000) else None.

Definition is_surrogate (r : N) : bool := (0xD800 <=? r) && (r <? 0xE000).

(** The one-letter escapes. *)
Definition simple_escape (b : byte) : option byte :=
  if bool_decide (b ∈ [quote; backslash; Byte.x2f]) then Some b
  else if Byte.eqb b Byte.x62 then Some Byte.x08
  else if Byte.eqb b Byte.x66 then Some Byte.x0c
  else if Byte.eqb b Byte.x6e then Some Byte.x0a
  else if Byte.eqb b Byte.x72 then Some Byte.x0d
  else if Byte.eqb b Byte.x74 then Some Byte.x09
  else None.

(** The next bytes belong to a rune that is copied, or to an escape that is
    done. *)
Inductive str_mode : Type :=
| CopyRune (n : nat)
| SkipEscape (n : nat).

(** The bytes of a string after its opening quote, up to the closing one, which
    must be there; a control character or a bad escape is an error. What follows
    the closing quote is not looked at. *)
Fixpoint json_unquote (m : str_mode) (s : list byte) : option (list byte) :=
  match s with
  | [] => None
  | c :: s =>
      match m with
      | CopyRune (S n) => cons c <$> json_unquote (CopyRune n) s
      | SkipEscape (S n) => json_unquote (SkipEscape n) s
      | _ =>
          if Byte.eqb c quote then Some []
          else if val c <? 0x20 then None
          else if Byte.eqb c backslash then
            match s with
            | [] => None
            | e :: s' =>
                if Byte.eqb e Byte.x75 then
                  rr ← hex4 s';
                  if is_surrogate rr then
                    match surrogate_pair rr (getu4 (drop 4 s')) with
                    | Some r => app (EncodeRune r) <$> json_unquote (SkipEscape 11) s
                    | None => app (EncodeRune RuneError) <$> json_unquote (SkipEscape 5) s
                    end
                  else app (EncodeRune rr) <$> json_unquote (SkipEscape 5) s
                else
                  b ← simple_escape e; cons b <$> json_unquote (SkipEscape 1) s
            end
          else if val c <? 0x80 then cons c <$> json_unquote (CopyRune 0) s
          else
            match rune_tail c s with
            | Some n => cons c <$> json_unquote (CopyRune n) s
            | None => app (EncodeRune RuneError) <$> json_unquote (CopyRune 0) s
            end
      end
  end.

Definition json_space (b : byte) : bool :=
  bool_decide (b ∈ [Byte.x20; Byte.x09; Byte.x0d; Byte.x0a]).

Fixpoint skip_space (s : list byte) : list byte :=
  match s with
  | c :: s' => if json_space c then skip_space s' else s
  | [] => []
  end.

(** [Decoder.Decode] into a string variable that is empty: the first value of
    the input must be a string, or [null], which leaves the variable as it is.
    Every other value, and malformed text, is an error. *)
Definition json_Decode (body : list byte) : result (list byte) :=
  match skip_space body with
  | [] => inl (ErrorMsg "EOF")
  | c :: s =>
      if Byte.eqb c quote then
        match json_unquote (CopyRune 0) s with
        | Some v => inr v
        | None => inl (ErrorMsg "invalid JSON string")
        end
      else if bool_decide (take 4 (c :: s) = list_byte_of_string "null") then inr []
      else inl (ErrorMsg "invalid JSON, or not a string")
  end.

(** ** Base64 decodes what it encodes *)

Lemma lor_add (a b k : N) : b < 2 ^ k -> N.lor (a * 2 ^ k) b = a * 2 ^ k + b.
Proof.
  intros Hb. rewrite <-N.shiftl_mul_pow2. assert (N.land (N.shiftl a k) b = 0) as Hz.
  { apply N.bits_inj_0. intros i. rewrite N.land_spec. destruct (N.lt_ge_cases i k) as [Hi|Hi].
    - by rewrite N.shiftl_spec_low.
    - apply andb_false_intro2. rewrite <-(N.mod_small _ _ Hb). by apply N.mod_pow2_bits_high. }
  by rewrite <-N.lxor_lor, <-N.add_nocarry_lxor.
Qed.

Lemma val_bound (b : byte) : val b < 256.
Proof. pose proof (Byte.to_N_bounded b). lia. Qed.

Lemma byte_of_val (b : byte) n : n mod 256 = val b -> byte_of n = b.
Proof. unfold byte_of. intros ->. by rewrite Byte.of_to_N. Qed.

Lemma byte_range (P : byte -> Prop) :
  (forall n, (n < 256)%nat -> P (byte_of (N.of_nat n))) -> forall b, P b.
Proof.
  intros HP b. specialize (HP (N.to_nat (val b))). pose proof (val_bound b).
  rewrite N2Nat.id, (byte_of_val b) in HP by (by apply N.mod_small). apply HP. lia.
Qed.

(** What the encoder writes: bytes of the alphabet, and padding. *)
Definition b64_char (b : byte) : bool :=
  Byte.eqb b padChar || bool_decide (b ∈ encodeStd).

Lemma dec6_enc6 v : dec6 (enc6 v) = Some (v mod 64) /\ b64_char (enc6 v) = true.
Proof.
  unfold enc6. change 63 with (N.ones 6). rewrite N.land_ones. change (2 ^ 6) with 64.
  assert (v mod 64 < 64) as Hv by (by apply N.mod_lt). revert Hv. generalize (v mod 64). clear v.
  intros v Hv. assert (forall i, (i < 64)%nat -> dec6 (nth i encodeStd Byte.x00) = Some (N.of_nat i) /\
    b64_char (nth i encodeStd Byte.x00) = true) as Hall.
  { intros i Hi. do 64 (destruct i as [|i]; [by vm_compute|]). lia. }
  specialize (Hall (N.to_nat v)). rewrite N2Nat.id in Hall. apply Hall. lia.
Qed.

Lemma quantum_sum x0 x1 x2 x3 :
  x1 < 64 -> x2 < 64 -> x3 < 64 ->
  quantum x0 x1 x2 x3 = x0 * 262144 + x1 * 4096 + x2 * 64 + x3.
Proof.
  intros. unfold quantum. rewrite !N.shiftl_mul_pow2.
  rewrite (lor_add x0 (x1 * 2 ^ 12) 18) by (change (2 ^ 12) with 4096; change (2 ^ 18) with 262144; lia).
  replace (x0 * 2 ^ 18 + x1 * 2 ^ 12) with ((x0 * 64 + x1) * 2 ^ 12)
    by (change (2 ^ 12) with 4096; change (2 ^ 18) with 262144; lia).
  rewrite lor_add by (change (2 ^ 12) with 4096; change (2 ^ 6) with 64; lia).
  replace ((x0 * 64 + x1) * 2 ^ 12 + x2 * 2 ^ 6) with (((x0 * 64 + x1) * 64 + x2) * 2 ^ 6)
    by (change (2 ^ 12) with 4096; change (2 ^ 6) with 64; lia).
  rewrite lor_add by (change (2 ^ 6) with 64; lia). change (2 ^ 6) with 64. lia.
Qed.

(** The three bytes as one number, and back. *)
Lemma pack_sum a b c :
  N.lor (N.lor (N.shiftl (val a) 16) (N.shiftl (val b) 8)) (val c) = val a * 65536 + val b * 256 + val c.
Proof.
  pose proof (val_bound a); pose proof (val_bound b); pose proof (val_bound c).
  rewrite !N.shiftl_mul_pow2. rewrite (lor_add (val a) (val b * 2 ^ 8) 16)
    by (change (2 ^ 8) with 256; change (2 ^ 16) with 65536; lia).
  replace (val a * 2 ^ 16 + val b * 2 ^ 8) with ((val a * 256 + val b) * 2 ^ 8)
    by (change (2 ^ 8) with 256; change (2 ^ 16) with 65536; lia).
  rewrite lor_add by (change (2 ^ 8) with 256; lia). change (2 ^ 8) with 256. lia.
Qed.
Lemma pack2_sum a b : N.lor (N.shiftl (val a) 16) (N.shiftl (val b) 8) = val a * 65536 + val b * 256.
Proof. pose proof (pack_sum a b Byte.x00) as Hp. rewrite N.lor_0_r in Hp. rewrite Hp. simpl. lia. Qed.

#[local] Ltac div_lia := rewrite ?N.shiftr_div_pow2;
  change (2 ^ 18) with 262144; change (2 ^ 16) with 65536; change (2 ^ 12) with 4096;
  change (2 ^ 8) with 256; change (2 ^ 6) with 64; zify; Z.to_euclidean_division_equations; lia.

Lemma quantum_digits v :
  v < 2 ^ 24 ->
  quantum (N.shiftr v 18 mod 64) (N.shiftr v 12 mod 64) (N.shiftr v 6 mod 64) (v mod 64) = v.
Proof.
  intros Hv. rewrite quantum_sum by (by apply N.mod_lt). change (2 ^ 24) with 16777216 in Hv. div_lia.
Qed.

Lemma byte_of_digit (b : byte) n k v : v = (k * 256 + val b) * 2 ^ n + (v mod 2 ^ n) -> byte_of (N.shiftr v n) = b.
Proof.
  intros Hv. apply byte_of_val. rewrite N.shiftr_div_pow2.
  assert (2 ^ n <> 0) by (by apply N.pow_nonzero).
  pose proof (N.mod_lt v (2 ^ n)). rewrite Hv, N.div_add_l, (N.div_small (v mod 2 ^ n)) by tauto.
  rewrite N.add_0_r, N.add_comm, N.Div0.mod_add. apply N.mod_small, val_bound.
Qed.

(** The three bytes of a number below 2^24. *)
Lemma unpack a b c v :
  v = val a * 65536 + val b * 256 + val c ->
  v < 2 ^ 24 /\ byte_of (N.shiftr v 16) = a /\ byte_of (N.shiftr v 8) = b /\ byte_of v = c.
Proof.
  pose proof (val_bound a); pose proof (val_bound b); pose proof (val_bound c). intros Hv.
  split_and!.
  - change (2 ^ 24) with 16777216. lia.
  - apply (byte_of_digit _ _ 0). change (2 ^ 16) with 65536. zify; Z.to_euclidean_division_equations; lia.
  - apply (byte_of_digit _ _ (val a)). change (2 ^ 8) with 256. zify; Z.to_euclidean_division_equations; lia.
  - apply byte_of_val. zify; Z.to_euclidean_division_equations; lia.
Qed.

Lemma list_ind3 {A} (P : list A -> Prop) :
  P [] -> (forall a, P [a]) -> (forall a b, P [a; b]) ->
  (forall a b c l, P l -> P (a :: b :: c :: l)) -> forall l, P l.
Proof.
  intros H0 H1 H2 H3. fix IH 1. intros [|a [|b [|c l]]]; [exact H0|apply H1|apply H2|].
  apply H3, IH.
Qed.

Lemma b64_encode_chars src : Forall (fun b => b64_char b = true) (b64_encode src).
Proof.
  induction src as [|a|a b|a b c src IH] using list_ind3; cbn [b64_encode];
    repeat constructor; try done; by apply dec6_enc6.
Qed.

Lemma decode_quanta_encode src : decode_quanta (b64_encode src) = inr src.
Proof.
  induction src as [|a|a b|a b c src IH] using list_ind3; [done|..]; cbn [b64_encode decode_quanta];
    rewrite !(proj1 (dec6_enc6 _)).
  - set (v := N.shiftl (val a) 16). assert (v = val a * 65536 + val Byte.x00 * 256 + val Byte.x00) as Hs.
    { unfold v. rewrite N.shiftl_mul_pow2. simpl. lia. }
    destruct (unpack _ _ _ _ Hs) as (Hv & Ha & _). pose proof (quantum_digits v Hv) as Hq.
    assert (N.shiftr v 6 mod 64 = 0) as E6 by (simpl in Hs; div_lia).
    assert (v mod 64 = 0) as E0 by (simpl in Hs; div_lia). rewrite E6, E0 in Hq.
    change (dec6 padChar) with (@None N). cbn -[quantum]. by rewrite Hq, Ha.
  - rewrite pack2_sum. set (v := val a * 65536 + val b * 256).
    assert (v = val a * 65536 + val b * 256 + val Byte.x00) as Hs by (unfold v; simpl; lia).
    destruct (unpack _ _ _ _ Hs) as (Hv & Ha & Hb & _). pose proof (quantum_digits v Hv) as Hq.
    assert (v mod 64 = 0) as E0 by (simpl in Hs; div_lia). rewrite E0 in Hq.
    change (dec6 padChar) with (@None N). cbn -[quantum]. by rewrite Hq, Ha, Hb.
  - rewrite IH, pack_sum. set (v := val a * 65536 + val b * 256 + val c).
    destruct (unpack a b c v eq_refl) as (Hv & Ha & Hb & Hc). cbn zeta.
    by rewrite (quantum_digits v Hv), Ha, Hb, Hc.
Qed.

Lemma b64_char_props (b : byte) :
  b64_char b = true -> is_newline b = false /\ html_safe b = true /\ val b < 0x80 /\
    Byte.eqb b quote = false /\ (val b <? 0x20) = false /\ Byte.eqb b backslash = false.
Proof. destruct b; intros Hb; by vm_compute in Hb |- *. Qed.

(** Decoding takes back what encoding wrote. *)
Lemma b64_roundtrip src : b64_decode (b64_encode src) = inr src.
Proof.
  unfold b64_decode. rewrite forallb_filter_id; [apply decode_quanta_encode|].
  apply forallb_forall. intros b Hb.
  pose proof (proj1 (List.Forall_forall _ _) (b64_encode_chars src) b Hb) as Hc.
  by rewrite (proj1 (b64_char_props b Hc)).
Qed.

(** A string of base64 is its own JSON text, between quotes. *)
Lemma json_escape_plain s : Forall (fun b => b64_char b = true) s -> json_escape 0 s = s.
Proof.
  induction 1 as [|b s Hb _ IH]; [done|]. cbn [json_escape].
  destruct (b64_char_props b Hb) as (_ & Hsafe & Hlt & _).
  by rewrite (proj2 (N.ltb_lt _ _) Hlt), Hsafe, IH.
Qed.

Lemma json_unquote_plain s rest :
  Forall (fun b => b64_char b = true) s -> json_unquote (CopyRune 0) (s ++ quote :: rest) = Some s.
Proof.
  induction 1 as [|b s Hb _ IH]; [done|]. cbn [json_unquote app].
  destruct (b64_char_props b Hb) as (_ & _ & Hlt & Hq & Hctl & Hbs).
  by rewrite Hq, Hctl, Hbs, (proj2 (N.ltb_lt _ _) Hlt), IH.
Qed.

(** What a server sends for a key is what its client reads. *)
Lemma json_b64_roundtrip src rest :
  json_Decode (json_Marshal (b64_encode src) ++ rest) = inr (b64_encode src).
Proof.
  unfold json_Marshal. rewrite json_escape_plain by apply b64_encode_chars.
  unfold json_Decode. cbn [skip_space app]. change (json_space quote) with false.
  change (Byte.eqb quote quote) with true. cbn match.
  rewrite <-app_assoc. cbn [app]. by rewrite json_unquote_plain by apply b64_encode_chars.
Qed.

(** A text that is cut short is an error, or nothing of the string is lost. *)
Lemma json_unquote_cut s rest n :
  Forall (fun b => b64_char b = true) s ->
  json_unquote (CopyRune 0) (take n (s ++ quote :: rest)) ∈ [None; Some s].
Proof.
  intros Hs. revert n. induction Hs as [|b s Hb _ IH]; intros [|n]; [by left|by right; left|by left|].
  cbn [take app json_unquote]. destruct (b64_char_props b Hb) as (_ & _ & Hlt & Hq & Hctl & Hbs).
  rewrite Hq, Hctl, Hbs, (proj2 (N.ltb_lt _ _) Hlt).
  specialize (IH n). rewrite !elem_of_cons, elem_of_nil in IH.
  destruct IH as [->|[->|[]]]; [by left|by right; left].
Qed.

Lemma json_b64_cut src rest n :
  json_Decode (take n (json_Marshal (b64_encode src) ++ rest)) = inr (b64_encode src) \/
  exists err, json_Decode (take n (json_Marshal (b64_encode src) ++ rest)) = inl err.
Proof.
  unfold json_Marshal. rewrite json_escape_plain by apply b64_encode_chars.
  destruct n as [|n]; [by right; eexists|]. cbn [take app]. unfold json_Decode. cbn [skip_space].
  change (json_space quote) with false. change (Byte.eqb quote quote) with true. cbn match.
  rewrite <-app_assoc. cbn [app].
  pose proof (json_unquote_cut (b64_encode src) rest n (b64_encode_chars src)) as Hc.
  rewrite !elem_of_cons, elem_of_nil in Hc. destruct Hc as [->|[->|[]]]; [by right; eexists|by left].
Qed.
