(* ===== verification/Floats.v ===== *)
(** * Floating-point numbers of Go

    A float64 is a [spec_float] of the Standard Library, with 53 bits of precision:
    its arithmetic, its conversions, and its text under the verb [%v] of fmt. *)
From Stdlib Require Import Strings.Ascii Strings.String SpecFloat.
From stdpp Require Import pretty.
From S2P Require Import Prelude GoStd.
Local Open Scope Z_scope.

(** ** float64 *)

Abbreviation float64 := spec_float.
Definition f64_mul : float64 -> float64 -> float64 := SFmul 53 1024.
Definition f64_div : float64 -> float64 -> float64 := SFdiv 53 1024.
Definition f64_add : float64 -> float64 -> float64 := SFadd 53 1024.

Definition f64_zero : float64 := S754_zero false.

(** [float64(z)] of an integer: rounded to nearest even. *)
Definition f64_of_Z (z : Z) : float64 := binary_normalize 53 1024 z 0 false.

(** Conversion of a finite number to an integer: towards zero. *)
Definition f64_trunc (f : float64) : Z :=
  match f with
  | S754_finite s m e =>
      let n := if 0 <=? e then Z.pos m * 2 ^ e else Z.pos m / 2 ^ (- e) in
      if s then - n else n
  | _ => 0
  end.

(** [int64(f)], and [int(f)]: what has no value in range the language leaves to the
    implementation; on amd64 it is the least integer. *)
Definition f64_to_int64 (f : float64) : Z :=
  match f with
  | S754_nan | S754_infinity _ => - 2 ^ 63
  | _ =>
      let n := f64_trunc f in
      if (- 2 ^ 63 <=? n) && (n <? 2 ^ 63) then n else - 2 ^ 63
  end.

(** ** Text *)

(** The [n]-digit decimals next to [num / den], which lies below [10^dp] and not
    below [10^(dp-1)]: as digits, the nearer one first. *)
Definition candidates (num den dp n : Z) : list Z :=
  let '(num, den) := if 0 <=? n - dp then (num * 10 ^ (n - dp), den) else (num, den * 10 ^ (dp - n)) in
  let q := num / den in
  let r := num - q * den in
  if r =? 0 then [q]
  else if 2 * r <? den then [q; q + 1]
  else if den <? 2 * r then [q + 1; q]
  else if Z.even q then [q; q + 1] else [q + 1; q].

(** An integer as a float of any number of digits. *)
Definition f64_exact (z : Z) : float64 :=
  match z with
  | Z0 => S754_zero false
  | Zpos p => S754_finite false p 0
  | Zneg p => S754_finite true p 0
  end.

(** The float64 next to [d * 10^k]. *)
Definition f64_of_decimal (d k : Z) : float64 :=
  if 0 <=? k then f64_of_Z (d * 10 ^ k) else f64_div (f64_exact d) (f64_exact (10 ^ (- k))).

(** The least number of digits that read back as [f]: the digits, and the place of
    the decimal point. Seventeen digits are always enough. *)
Fixpoint shortest (f : float64) (num den dp n : Z) (fuel : nat) : Z * Z :=
  match fuel with
  | O => (0, dp)
  | S fuel =>
      match List.find (fun d => SFeqb (f64_of_decimal d (dp - n)) f) (candidates num den dp n) with
      | Some d => (d, dp - n)
      | None => shortest f num den dp (n + 1) fuel
      end
  end.

(** The place of the decimal point of [num / den]. *)
Fixpoint leading_zeros (num den : Z) (fuel : nat) : Z :=
  match fuel with
  | O => 0
  | S fuel => if den <=? num * 10 then 0 else leading_zeros (num * 10) den fuel - 1
  end.
Definition decimal_point (num den : Z) : Z :=
  if den <=? num then Z.of_nat (String.length (pretty (num / den))) else leading_zeros num den 400.

(** The digits without the zeros at the end, and the place of the point. *)
Fixpoint strip_zeros (d k : Z) (fuel : nat) : Z * Z :=
  match fuel with
  | O => (d, k)
  | S fuel => if d `mod` 10 =? 0 then strip_zeros (d / 10) (k + 1) fuel else (d, k)
  end.

Fixpoint zeros (n : nat) : string := match n with O => ""%string | S n => "0" +:+ zeros n end.

(** An exponent has a sign and at least two digits. *)
Definition exponent (e : Z) : string :=
  (if e <? 0 then "e-" else "e+") +:+ (if Z.abs e <? 10 then "0" else "") +:+ pretty (Z.abs e).

(** The format g with the least number of digits: with an exponent when that is
    below -4 or at least 6. *)
Definition fmt_digits (d k : Z) : string :=
  let ds := pretty d in
  let nd := Z.of_nat (String.length ds) in
  let dp := nd + k in
  let e := dp - 1 in
  if (e <? -4) || (6 <=? e) then
    substring 0 1 ds +:+
      (if nd =? 1 then "" else "." +:+ substring 1 (String.length ds - 1) ds) +:+ exponent e
  else if dp <=? 0 then "0." +:+ zeros (Z.to_nat (- dp)) +:+ ds
  else if nd <=? dp then ds +:+ zeros (Z.to_nat (dp - nd))
  else substring 0 (Z.to_nat dp) ds +:+ "." +:+ substring (Z.to_nat dp) (String.length ds - Z.to_nat dp) ds.

(** [fmt.Sprint] of a float64. *)
Definition Sprint (f : float64) : string :=
  match f with
  | S754_nan => "NaN"
  | S754_infinity s => if s then "-Inf" else "+Inf"
  | S754_zero s => if s then "-0" else "0"
  | S754_finite s m e =>
      let num := if 0 <=? e then Z.pos m * 2 ^ e else Z.pos m in
      let den := if 0 <=? e then 1 else 2 ^ (- e) in
      let '(d, k) := shortest (S754_finite false m e) num den (decimal_point num den) 1 17 in
      let '(d, k) := strip_zeros d k 20 in
      (if s then "-" else "") +:+ fmt_digits d k
  end.
#[global] Arguments Sprint : simpl never.

Lemma Sprint_examples :
  Sprint (f64_of_Z 42) = "42"%string /\ Sprint (f64_of_Z 999999) = "999999"%string /\
  Sprint (f64_of_Z 1000000) = "1e+06"%string /\ Sprint (f64_of_Z 11553080) = "1.155308e+07"%string /\
  Sprint (f64_div (f64_of_Z 1) (f64_of_Z 3)) = "0.3333333333333333"%string /\
  Sprint (f64_div (f64_of_Z 5) (f64_of_Z (-4))) = "-1.25"%string /\
  Sprint (f64_div (f64_of_Z 15) (f64_of_Z 1000000)) = "1.5e-05"%string /\
  Sprint (f64_add (f64_div (f64_of_Z 1) (f64_of_Z 10)) (f64_div (f64_of_Z 2) (f64_of_Z 10))) =
    "0.30000000000000004"%string /\
  Sprint (f64_of_Z (2 ^ 53)) = "9.007199254740992e+15"%string.
Proof. vm_compute. repeat split. Qed.
