(* ===== verification/Duration.v ===== *)
(** * Durations of Go

    [time.ParseDuration] (Go 1.18), with the float64 arithmetic that it uses for
    fractions, and the parts of [time.Duration] that the UI shows. *)
From Stdlib Require Import Strings.Ascii Strings.String.
From S2P Require Import Prelude GoStd Floats.
Local Open Scope Z_scope.

(** ** Parsing *)

Definition wrap_u64 (z : Z) : Z := z `mod` 2 ^ 64.

Definition is_digit (c : ascii) : bool := match digit_of c with Some _ => true | None => false end.

(** [leadingInt]: the number and the rest, or [None] on an overflow. *)
Fixpoint leadingInt (x : Z) (s : string) : option (Z * string) :=
  match s with
  | EmptyString => Some (x, s)
  | String c s' =>
      match digit_of c with
      | None => Some (x, s)
      | Some d =>
          if 2 ^ 63 `div` 10 <? x then None
          else let x := x * 10 + d in
               if 2 ^ 63 <? x then None else leadingInt x s'
      end
  end.

(** [leadingFraction]: digits that do not fit are skipped. *)
Fixpoint leadingFraction (x : Z) (scale : float64) (overflow : bool) (s : string)
    : Z * float64 * string :=
  match s with
  | EmptyString => (x, scale, s)
  | String c s' =>
      match digit_of c with
      | None => (x, scale, s)
      | Some d =>
          if overflow then leadingFraction x scale true s'
          else if (2 ^ 63 - 1) `div` 10 <? x then leadingFraction x scale true s'
          else let y := x * 10 + d in
               if 2 ^ 63 <? y then leadingFraction x scale true s'
               else leadingFraction y (f64_mul scale (f64_of_Z 10)) false s'
      end
  end.

(** The unit: all up to the next period or digit. *)
Fixpoint span_unit (s : string) : string * string :=
  match s with
  | EmptyString => (EmptyString, EmptyString)
  | String c s' =>
      if bool_decide (c = "."%char) || is_digit c then (EmptyString, s)
      else let '(u, rest) := span_unit s' in (String c u, rest)
  end.

Definition micro (b0 b1 : nat) : string :=
  String (ascii_of_nat b0) (String (ascii_of_nat b1) "s").

(** [unitMap]; the two signs for micro are U+00B5 and U+03BC in UTF-8. *)
Definition unitMap (u : string) : option Z :=
  if decide (u = "ns"%string) then Some 1
  else if decide (u = "us"%string) then Some 1000
  else if decide (u = micro 0xC2 0xB5) then Some 1000
  else if decide (u = micro 0xCE 0xBC) then Some 1000
  else if decide (u = "ms"%string) then Some 1000000
  else if decide (u = "s"%string) then Some 1000000000
  else if decide (u = "m"%string) then Some 60000000000
  else if decide (u = "h"%string) then Some 3600000000000
  else None.

(** The messages quote the duration; the quotes are left out here. *)
Definition invalid_duration : goerror := ErrorMsg "time: invalid duration".
Definition missing_unit : goerror := ErrorMsg "time: missing unit in duration".
Definition unknown_unit : goerror := ErrorMsg "time: unknown unit in duration".

(** A period and a fraction, if the string starts with one: the fraction, its
    scale, the rest, and whether there were digits. *)
Definition parse_fraction (s : string) : Z * float64 * string * bool :=
  match s with
  | String c s' =>
      if bool_decide (c = "."%char) then
        let '(f, scale, rest) := leadingFraction 0 (f64_of_Z 1) false s' in
        (f, scale, rest, negb (String.length rest =? String.length s')%nat)
      else (0, f64_of_Z 1, s, false)
  | EmptyString => (0, f64_of_Z 1, s, false)
  end.

(** One turn of the loop: what it adds, and the rest of the string. *)
Definition parse_component (s : string) : result (Z * string) :=
  match s with
  | EmptyString => inl invalid_duration
  | String c _ =>
      if negb (bool_decide (c = "."%char) || is_digit c) then inl invalid_duration else
      match leadingInt 0 s with
      | None => inl invalid_duration
      | Some (v, s1) =>
          let pre := negb (String.length s1 =? String.length s)%nat in
          let '(f, scale, s2, post) := parse_fraction s1 in
          if negb pre && negb post then inl invalid_duration else
          let '(u, s3) := span_unit s2 in
          if decide (u = ""%string) then inl missing_unit else
          match unitMap u with
          | None => inl unknown_unit
          | Some unit =>
              if 2 ^ 63 `div` unit <? v then inl invalid_duration else
              let v := v * unit in
              if 0 <? f then
                let v := wrap_u64 (v + f64_trunc (f64_mul (f64_of_Z f) (f64_div (f64_of_Z unit) scale))) in
                if 2 ^ 63 <? v then inl invalid_duration else inr (v, s3)
              else inr (v, s3)
          end
      end
  end.

(** The loop; every turn shortens the string, so that its length is enough. *)
Fixpoint parse_components (fuel : nat) (s : string) (d : Z) : result Z :=
  match s with
  | EmptyString => inr d
  | _ =>
      match fuel with
      | O => inl invalid_duration
      | S fuel =>
          match parse_component s with
          | inl err => inl err
          | inr (v, s) =>
              let d := wrap_u64 (d + v) in
              if 2 ^ 63 <? d then inl invalid_duration else parse_components fuel s d
          end
      end
  end.

Definition ParseDuration (s : string) : result Z :=
  let '(neg, s) :=
    match s with
    | String "-" s => (true, s)
    | String "+" s => (false, s)
    | _ => (false, s)
    end in
  if decide (s = "0"%string) then inr 0
  else if decide (s = ""%string) then inl invalid_duration
  else
    match parse_components (String.length s) s 0 with
    | inl err => inl err
    | inr d =>
        if (neg : bool) then inr (wrap_i64 (- wrap_i64 d))
        else if 2 ^ 63 - 1 <? d then inl invalid_duration
        else inr d
    end.

#[global] Arguments ParseDuration : simpl never.

(** ** Hours, minutes and seconds *)

Definition Second : Z := 1000000000.
Definition Minute : Z := 60 * Second.
Definition Hour : Z := 60 * Minute.

(** [Duration.Hours], [Minutes] and [Seconds]: a whole part and a fraction, added
    in floating point. *)
Definition in_units (unit d : Z) : float64 :=
  f64_add (f64_of_Z (Z.quot d unit)) (f64_div (f64_of_Z (Z.rem d unit)) (f64_of_Z unit)).
Definition Hours (d : Z) : float64 := in_units Hour d.
Definition Minutes (d : Z) : float64 := in_units Minute d.
Definition Seconds (d : Z) : float64 := in_units Second d.

(** ** What is parsed *)

(** The loop has enough fuel: every turn consumes a character. *)
Lemma leadingInt_length x s x' s' : leadingInt x s = Some (x', s') -> (String.length s' <= String.length s)%nat.
Proof.
  revert x. induction s as [|c s IH]; intros x; simpl; [by intros [= _ <-]|].
  destruct (digit_of c); [|by intros [= _ <-]].
  destruct (_ <? x); [done|]. destruct (_ <? _); [done|]. intros Hl%IH. lia.
Qed.

Lemma leadingFraction_length x sc o s : (String.length (leadingFraction x sc o s).2 <= String.length s)%nat.
Proof.
  revert x sc o. induction s as [|c s IH]; intros x sc o; simpl; [done|].
  destruct (digit_of c); [|done]. destruct o; [apply le_S, IH|].
  destruct (_ <? x); [apply le_S, IH|]. destruct (_ <? _); apply le_S, IH.
Qed.

Lemma parse_fraction_length s : (String.length (parse_fraction s).1.2 <= String.length s)%nat.
Proof.
  unfold parse_fraction. destruct s as [|c s]; [done|]. destruct (bool_decide _); [|done].
  pose proof (leadingFraction_length 0 (f64_of_Z 1) false s) as Hl.
  destruct (leadingFraction 0 (f64_of_Z 1) false s) as [[f sc] rest]. simpl in *. lia.
Qed.

Lemma span_unit_length s : (String.length (span_unit s).1 + String.length (span_unit s).2 = String.length s)%nat.
Proof.
  induction s as [|c s IH]; [done|]. simpl. destruct (_ || _); [done|].
  destruct (span_unit s). simpl in *. lia.
Qed.

Lemma parse_component_shorter s v s' :
  parse_component s = inr (v, s') -> (String.length s' < String.length s)%nat.
Proof.
  unfold parse_component. destruct s as [|c s]; [done|]. destruct (negb _); [done|].
  destruct (leadingInt 0 _) as [[x s1]|] eqn:Hi; [|done]. apply leadingInt_length in Hi. cbv zeta.
  pose proof (parse_fraction_length s1) as H2. destruct (parse_fraction s1) as [[[f sc] s2] post].
  cbn [fst snd] in H2.
  destruct (negb _ && negb _); [done|]. pose proof (span_unit_length s2) as Hu.
  destruct (span_unit s2) as [u s3]. case_decide as Hne; [done|].
  destruct u as [|cu u]; [done|]. simpl in Hu. intros Hr.
  assert (s3 = s') as <-; [|simpl in *; lia].
  destruct (unitMap _); [|done]. destruct (_ <? x); [done|].
  destruct (0 <? f); [|by injection Hr]. destruct (_ <? _); [done|by injection Hr].
Qed.

Lemma parse_components_fuel n s d :
  (String.length s <= n)%nat -> parse_components n s d = parse_components (String.length s) s d.
Proof.
  revert s d. induction n as [n IH] using lt_wf_ind. intros s d Hn.
  destruct s as [|c s]; [by destruct n|]. destruct n as [|n]; [simpl in Hn; lia|].
  cbn [String.length parse_components].
  destruct (parse_component (String c s)) as [err|[v s']] eqn:Hp; [done|].
  apply parse_component_shorter in Hp. simpl in Hp, Hn. destruct (_ <? _); [done|].
  rewrite (IH n) by lia. destruct (decide (String.length s = n)) as [->|Hne]; [by rewrite (IH n) by lia|].
  symmetry. apply IH; lia.
Qed.

(** *** Whole numbers of units *)

Definition unit_names : list string := ["ns"; "us"; "ms"; "s"; "m"; "h"]%string.

Fixpoint all_digits (s : string) : bool :=
  match s with EmptyString => true | String c s => is_digit c && all_digits s end.

(** The number that digits stand for, after [x]. *)
Fixpoint digits_value (x : Z) (s : string) : Z :=
  match s with
  | EmptyString => x
  | String c s => digits_value (x * 10 + default 0 (digit_of c)) s
  end.

(** A component of a duration: digits and a unit. *)
Definition component : Type := string * string.
Definition component_ok (c : component) : bool :=
  all_digits c.1 && bool_decide (c.1 <> ""%string) && bool_decide (c.2 ∈ unit_names).
Definition component_value (c : component) : Z := digits_value 0 c.1 * default 0 (unitMap c.2).
Definition total (cs : list component) : Z := foldr (fun c d => component_value c + d) 0 cs.
Definition render_duration (cs : list component) : string := foldr (fun c s => c.1 +:+ c.2 +:+ s) ""%string cs.

Lemma digit_of_range c d : digit_of c = Some d -> 0 <= d <= 9.
Proof. unfold digit_of. case_decide; [|done]. intros [= <-]. lia. Qed.

Lemma digits_value_ge x s : 0 <= x -> x <= digits_value x s.
Proof.
  revert x. induction s as [|c s IH]; intros x Hx; simpl; [lia|].
  assert (0 <= default 0 (digit_of c)) as Hd
    by (destruct (digit_of c) as [d|] eqn:Hc; [apply digit_of_range in Hc|]; simpl; lia).
  specialize (IH (x * 10 + default 0 (digit_of c))). lia.
Qed.

(** A string that does not go on with a digit. *)
Definition no_digit (s : string) : bool := match s with EmptyString => true | String c _ => negb (is_digit c) end.

Lemma leadingInt_digits x ds rest :
  0 <= x -> all_digits ds = true -> no_digit rest = true ->
  leadingInt x (ds +:+ rest) =
  if 2 ^ 63 <? digits_value x ds then (if decide (ds = ""%string) then Some (x, rest) else None)
  else Some (digits_value x ds, rest).
Proof.
  revert x. induction ds as [|c ds IH]; intros x Hx Hds Hrest.
  - cbn [digits_value]. rewrite decide_True by done. change (leadingInt x ("" +:+ rest)) with (leadingInt x rest).
    assert (leadingInt x rest = Some (x, rest)) as ->; [|by destruct (_ <? _)].
    destruct rest as [|c rest]; [done|]. simpl in Hrest |- *. unfold is_digit in Hrest.
    by destruct (digit_of c).
  - simpl in Hds. apply andb_true_iff in Hds as [Hc Hds]. unfold is_digit in Hc.
    change (String c ds +:+ rest) with (String c (ds +:+ rest)).
    cbn [leadingInt digits_value]. destruct (digit_of c) as [d|] eqn:Hd; [|done].
    change (default 0 (Some d)) with d. apply digit_of_range in Hd as Hr.
    pose proof (digits_value_ge (x * 10 + d) ds ltac:(lia)) as Hge.
    rewrite (decide_False (P := String c ds = ""%string)) by done.
    destruct (Z.ltb_spec (2 ^ 63 `div` 10) x) as [Hb|Hb].
    { change (2 ^ 63 `div` 10) with 922337203685477580 in Hb.
      by rewrite (proj2 (Z.ltb_lt (2 ^ 63) (digits_value _ _))) by lia. }
    destruct (Z.ltb_spec (2 ^ 63) (x * 10 + d)) as [Hb'|Hb'].
    { by rewrite (proj2 (Z.ltb_lt (2 ^ 63) (digits_value _ _))) by lia. }
    rewrite IH by (done || lia). destruct (Z.ltb_spec (2 ^ 63) (digits_value (x * 10 + d) ds)); [|done].
    case_decide as He; [|done]. subst ds. simpl in *. lia.
Qed.

#[local] Ltac each_unit Hu := set_unfold in Hu; destruct Hu as [->|[->|[->|[->|[->|[->|[]]]]]]].

Lemma no_digit_render cs : forallb component_ok cs = true -> forall c, component_ok c = true ->
  no_digit (c.2 +:+ render_duration cs) = true.
Proof.
  intros _ [ds u] Hc. unfold component_ok in Hc. apply andb_true_iff in Hc as [_ Hu].
  apply bool_decide_eq_true in Hu. cbn [snd] in *. by each_unit Hu.
Qed.

(** A unit ends where the next component begins. *)
Fixpoint unit_chars (u : string) : bool :=
  match u with
  | EmptyString => true
  | String c u => negb (bool_decide (c = "."%char) || is_digit c) && unit_chars u
  end.

Lemma span_unit_app u rest :
  unit_chars u = true -> (match rest with EmptyString => True | String c _ => is_digit c = true end) ->
  span_unit (u +:+ rest) = (u, rest).
Proof.
  intros Hu Hrest. induction u as [|c u IH].
  - change ("" +:+ rest)%string with rest. destruct rest as [|c rest]; [done|]. cbn [span_unit].
    by rewrite Hrest, orb_true_r.
  - cbn [unit_chars] in Hu. apply andb_true_iff in Hu as [Hc Hu]. apply negb_true_iff in Hc.
    change (String c u +:+ rest) with (String c (u +:+ rest)). cbn [span_unit]. by rewrite Hc, IH.
Qed.

Lemma render_head cs : forallb component_ok cs = true ->
  match render_duration cs with EmptyString => True | String c _ => is_digit c = true end.
Proof.
  destruct cs as [|[ds u] cs]; [done|]. simpl. intros [Hc _]%andb_true_iff.
  unfold component_ok in Hc. simpl in Hc. apply andb_true_iff in Hc as [Hc _].
  apply andb_true_iff in Hc as [Hds Hne]. apply bool_decide_eq_true in Hne.
  destruct ds as [|c ds]; [done|]. simpl in *. by apply andb_true_iff in Hds as [? _].
Qed.

Lemma unit_names_value u : u ∈ unit_names -> exists n, unitMap u = Some n /\ 0 < n.
Proof. intros Hu. each_unit Hu; by eexists. Qed.

Lemma component_value_nonneg c : component_ok c = true -> 0 <= component_value c.
Proof.
  unfold component_ok, component_value. intros [_ Hu]%andb_true_iff. apply bool_decide_eq_true in Hu.
  destruct (unit_names_value _ Hu) as (n & -> & Hn). change (default 0 (Some n)) with n.
  pose proof (digits_value_ge 0 c.1 ltac:(lia)). nia.
Qed.

Lemma total_nonneg cs : forallb component_ok cs = true -> 0 <= total cs.
Proof.
  induction cs as [|c cs IH]; [done|]. simpl. intros [Hc Hcs]%andb_true_iff.
  apply component_value_nonneg in Hc. specialize (IH Hcs). lia.
Qed.

Lemma render_not_empty c cs : component_ok c = true ->
  exists c0 s0, render_duration (c :: cs) = String c0 s0 /\ is_digit c0 = true /\ s0 <> ""%string.
Proof.
  destruct c as [ds u]. unfold component_ok. cbn [fst snd].
  intros [[Hds Hne]%andb_true_iff Hu]%andb_true_iff. apply bool_decide_eq_true in Hne, Hu.
  destruct ds as [|c0 ds]; [done|]. simpl in Hds. apply andb_true_iff in Hds as [Hc _].
  exists c0, (ds +:+ u +:+ render_duration cs). split_and!; [done..|].
  destruct ds; [|done]. change ("" +:+ (u +:+ render_duration cs))%string with (u +:+ render_duration cs).
  by each_unit Hu.
Qed.

Lemma append_length (s t : string) : String.length (s +:+ t) = (String.length s + String.length t)%nat.
Proof. induction s as [|c s IH]; [done|]. simpl. by rewrite IH. Qed.

(** One whole component. *)
Lemma parse_component_whole c cs :
  component_ok c = true -> forallb component_ok cs = true ->
  parse_component (render_duration (c :: cs)) =
  if 2 ^ 63 <? component_value c then inl invalid_duration
  else inr (component_value c, render_duration cs).
Proof.
  intros Hc Hcs. pose proof (no_digit_render cs Hcs c Hc) as Hnd. pose proof (render_head cs Hcs) as Hhd.
  destruct c as [ds u]. unfold component_ok in Hc. cbn [fst snd] in *.
  apply andb_true_iff in Hc as [[Hds Hne]%andb_true_iff Hu].
  apply bool_decide_eq_true in Hne, Hu. destruct (unit_names_value u Hu) as (unit & Hunit & Hpos).
  unfold component_value. cbn [fst snd]. rewrite Hunit. change (default 0 (Some unit)) with unit. cbn [render_duration foldr fst snd].
  fold (render_duration cs). pose proof (digits_value_ge 0 ds ltac:(lia)) as Hge.
  pose proof (leadingInt_digits 0 ds (u +:+ render_duration cs) ltac:(lia) Hds Hnd) as Hlead.
  rewrite (decide_False (P := ds = ""%string)) in Hlead by done.
  assert (String.length (u +:+ render_duration cs) <> String.length (ds +:+ u +:+ render_duration cs)) as Hpre.
  { rewrite (append_length ds). destruct ds; [done|]. simpl. lia. }
  remember (ds +:+ u +:+ render_duration cs) as s eqn:Hs. unfold parse_component.
  destruct s as [|c0 s0]; [by destruct ds|].
  assert (is_digit c0 = true) as Hc0.
  { destruct ds as [|c1 ds]; [done|]. simpl in Hs, Hds. injection Hs as -> _.
    by apply andb_true_iff in Hds as [? _]. }
  rewrite Hc0, orb_true_r. cbn [negb]. rewrite Hlead.
  assert (2 ^ 63 `div` unit < digits_value 0 ds <-> 2 ^ 63 < digits_value 0 ds * unit) as Hdiv.
  {
    pose proof (Z.div_mod (2 ^ 63) unit ltac:(lia)). pose proof (Z.mod_pos_bound (2 ^ 63) unit Hpos). nia. }
  destruct (Z.ltb_spec (2 ^ 63) (digits_value 0 ds)) as [Hbig|Hsmall].
  { rewrite (proj2 (Z.ltb_lt _ _)); [done|]. nia. }
  rewrite (proj2 (Nat.eqb_neq _ _) Hpre). cbn [negb andb].
  assert (parse_fraction (u +:+ render_duration cs) = (0, f64_of_Z 1, u +:+ render_duration cs, false))
    as Hdot by (by each_unit Hu).
  rewrite Hdot. cbn [negb andb]. rewrite (span_unit_app u) by (done || by each_unit Hu).
  rewrite decide_False by (by each_unit Hu).
  rewrite Hunit. change (0 <? 0) with false. cbn match.
  destruct (Z.ltb_spec (2 ^ 63 `div` unit) (digits_value 0 ds)), (Z.ltb_spec (2 ^ 63) (digits_value 0 ds * unit));
    first [done|lia].
Qed.

(** The components add up; the sum is checked after every step. *)
Lemma parse_components_whole cs d :
  forallb component_ok cs = true -> Forall (fun c => component_value c <> 2 ^ 63) cs -> 0 <= d <= 2 ^ 63 ->
  parse_components (String.length (render_duration cs)) (render_duration cs) d =
  if 2 ^ 63 <? d + total cs then inl invalid_duration else inr (d + total cs).
Proof.
  revert d. induction cs as [|c cs IH]; intros d Hok Hv Hd.
  - cbn. rewrite Z.add_0_r, (proj2 (Z.ltb_ge _ _)) by lia. done.
  - simpl in Hok. apply andb_true_iff in Hok as [Hc Hcs]. apply Forall_cons in Hv as [Hvc Hv].
    pose proof (parse_component_whole c cs Hc Hcs) as Hp.
    pose proof (total_nonneg cs Hcs) as Hge. pose proof (component_value_nonneg c Hc) as Hgec.
    cbn [total foldr]. fold (total cs).
    destruct (render_not_empty c cs Hc) as (c0 & s0 & Hs & _ & _). rewrite Hs in Hp |- *.
    cbn [String.length parse_components]. rewrite Hp. destruct (Z.ltb_spec (2 ^ 63) (component_value c)) as [Hbig|Hsmall].
    { by rewrite (proj2 (Z.ltb_lt (2 ^ 63) (d + _))) by lia. }
    cbv zeta. unfold wrap_u64. rewrite Z.mod_small by lia.
    destruct (Z.ltb_spec (2 ^ 63) (d + component_value c)) as [Hb|Hb].
    { by rewrite (proj2 (Z.ltb_lt (2 ^ 63) (d + (_ + _)))) by lia. }
    rewrite parse_components_fuel by (apply parse_component_shorter in Hp; simpl in Hp; lia).
    rewrite IH by (done || lia). by rewrite Z.add_assoc.
Qed.

(** A duration that is written in whole numbers of units, with or without a
    sign, parses to the sum of its components if that is an int64, and is
    refused otherwise. (A component of exactly 2^63 nanoseconds is left out: two
    of them wrap around to zero.) *)
Theorem ParseDuration_whole (sign : string) (cs : list component) :
  sign ∈ [""; "+"; "-"]%string -> cs <> [] -> forallb component_ok cs = true ->
  Forall (fun c => component_value c <> 2 ^ 63) cs ->
  ParseDuration (sign +:+ render_duration cs) =
  let d := if decide (sign = "-"%string) then - total cs else total cs in
  if bool_decide (- 2 ^ 63 <= d < 2 ^ 63) then inr d else inl invalid_duration.
Proof.
  intros Hsign Hne Hok Hv. destruct cs as [|c cs]; [done|].
  destruct (render_not_empty c cs) as (c0 & s0 & Hs & Hc0 & Hs0); [by apply andb_true_iff in Hok as [? _]|].
  pose proof (parse_components_whole (c :: cs) 0 Hok Hv ltac:(lia)) as Hp. rewrite Hs in Hp |- *.
  rewrite Z.add_0_l in Hp. set (T := total (c :: cs)) in *.
  assert (String c0 s0 <> "0"%string) as Hzero by (intros H0; injection H0 as _ ->; done).
  assert (ParseDuration (sign +:+ String c0 s0) =
    match parse_components (String.length (String c0 s0)) (String c0 s0) 0 with
    | inl err => inl err
    | inr d => if bool_decide (sign = "-"%string) then inr (wrap_i64 (- wrap_i64 d))
               else if 2 ^ 63 - 1 <? d then inl invalid_duration else inr d
    end) as ->.
  { unfold ParseDuration. set_unfold in Hsign. destruct Hsign as [->|[->|[->|[]]]].
    - change ("" +:+ String c0 s0)%string with (String c0 s0).
      destruct c0 as [[] [] [] [] [] [] [] []]; try discriminate Hc0; cbn match;
        by rewrite !decide_False.
    - change ("+" +:+ String c0 s0)%string with (String "+" (String c0 s0)). cbn match. by rewrite !decide_False.
    - change ("-" +:+ String c0 s0)%string with (String "-" (String c0 s0)). cbn match. by rewrite !decide_False. }
  rewrite Hp. cbv zeta. pose proof (total_nonneg (c :: cs) Hok) as HT. fold T in HT.
  destruct (Z.ltb_spec (2 ^ 63) T) as [Hbig|Hsmall].
  - rewrite bool_decide_eq_false_2; [done|]. case_decide; lia.
  - destruct (decide (sign = "-"%string)) as [->|Hs'].
    + rewrite bool_decide_eq_true_2 by done. rewrite bool_decide_eq_true_2 by lia.
      destruct (decide (T = 2 ^ 63)) as [->|]; [done|]. by rewrite !wrap_i64_small by (rewrite ?wrap_i64_small; lia).
    + rewrite bool_decide_eq_false_2 by done. destruct (Z.ltb_spec (2 ^ 63 - 1) T).
      * rewrite bool_decide_eq_false_2 by lia. done.
      * rewrite bool_decide_eq_true_2 by lia. done.
Qed.

Lemma ParseDuration_whole_witness :
  ParseDuration "-1h30m" = inr (-5400000000000) /\
  ParseDuration "2562048h" = inl invalid_duration.
Proof.
  split.
  - apply (ParseDuration_whole "-" [("1", "h"); ("30", "m")]%string).
    + do 2 right. left.
    + discriminate.
    + reflexivity.
    + repeat constructor; vm_compute; discriminate.
  - refine (ParseDuration_whole "" [("2562048", "h")]%string _ _ _ _).
    + left.
    + discriminate.
    + reflexivity.
    + repeat constructor; vm_compute; discriminate.
Defined.

(** Whatever is accepted is an int64. *)
Lemma parse_components_range n s d z :
  0 <= d <= 2 ^ 63 -> parse_components n s d = inr z -> 0 <= z <= 2 ^ 63.
Proof.
  revert s d. induction n as [|n IH]; intros s d Hd; (destruct s as [|c s]; [by intros [= <-]|]); [done|].
  cbn [parse_components]. destruct (parse_component _) as [err|[v s']]; [done|].
  destruct (Z.ltb_spec (2 ^ 63) (wrap_u64 (d + v))) as [|Hle]; [done|]. apply IH.
  split; [apply Z.mod_pos_bound; lia|done].
Qed.

Lemma ParseDuration_range s z : ParseDuration s = inr z -> - 2 ^ 63 <= z < 2 ^ 63.
Proof.
  unfold ParseDuration.
  match goal with |- (let '(_, _) := ?e in _) = _ -> _ => destruct e as [neg s'] end.
  case_decide; [intros [= <-]; lia|]. case_decide; [done|].
  destruct (parse_components _ _ _) as [err|d] eqn:Hp; [done|].
  apply parse_components_range in Hp; [|lia]. destruct neg.
  - intros [= <-]. by apply (wrap_signed_range 64).
  - destruct (Z.ltb_spec (2 ^ 63 - 1) d); [done|]. intros [= <-]. lia.
Qed.
