(* ===== verification/XorTrie.v ===== *)
(** * The XOR trie (src/idgen/xortrie.go)

    [TrieKey] and its bit access, the trie of pointers with the nil pointer as
    a constructor, and one definition per method: [insert], [remove],
    [shrink], [depth]. A nil dereference and an out-of-range index are the
    outcome [Panic]. The theory of these definitions is in TrieFacts. *)
From S2P Require Import Prelude.

(** ** TrieKey *)

(** [type TrieKey []byte] *)
Abbreviation TrieKey := (list byte).

(** [bs[offset/8]&(1<<(offset%8)) == 0]: the byte index may be out of range;
    the bit index counts from the least significant bit. *)
Definition BitAt (bs : TrieKey) (offset : nat) : outcome Z :=
  match bs !! (offset `div` 8) with
  | None => Panic
  | Some b =>
      if (N.land (Byte.to_N b) (N.shiftl 1 (N.of_nat (offset `mod` 8))) =? 0)%N
      then Ret 0%Z else Ret 1%Z
  end.

Definition BitLen (bs : TrieKey) : nat := 8 * length bs.

Definition TrieKeyEqual (x y : TrieKey) : bool := bool_decide (x = y).

(** ** The trie *)

(** A value of [*XorTrie]: the nil pointer or a node with its two branches and
    its key ([None] is the nil slice). The nodes of a trie are reached by one
    pointer only, so a tree is the heap it occupies. *)
Inductive XorTrie : Type :=
| nilTrie
| Node (branch0 branch1 : XorTrie) (key : option TrieKey).

Definition NewXorTrie : XorTrie := Node nilTrie nilTrie None.

Definition is_nil (t : XorTrie) : bool :=
  match t with nilTrie => true | Node _ _ _ => false end.

(** [trie.branch[b]]: nil receiver and index out of range panic. *)
Definition get_branch (t : XorTrie) (b : Z) : outcome XorTrie :=
  match t with
  | nilTrie => Panic
  | Node l r _ => if (b =? 0)%Z then Ret l else if (b =? 1)%Z then Ret r else Panic
  end.

(** The write of [trie.branch[b]]. *)
Definition set_branch (t : XorTrie) (b : Z) (c : XorTrie) : outcome XorTrie :=
  match t with
  | nilTrie => Panic
  | Node l r k =>
      if (b =? 0)%Z then Ret (Node c r k)
      else if (b =? 1)%Z then Ret (Node l c k) else Panic
  end.

Definition get_key (t : XorTrie) : outcome (option TrieKey) :=
  match t with nilTrie => Panic | Node _ _ k => Ret k end.

Definition set_key (t : XorTrie) (k : option TrieKey) : outcome XorTrie :=
  match t with nilTrie => Panic | Node l r _ => Ret (Node l r k) end.

(** [trie.depth(depth)]; both branches are visited unless both are nil. *)
Fixpoint depth (t : XorTrie) (d : nat) : outcome nat :=
  match t with
  | nilTrie => Panic
  | Node l r _ =>
      if is_nil l && is_nil r then Ret d
      else
        x ← depth l (S d);
        y ← depth r (S d);
        Ret (if y <? x then x else y)
  end.

Definition Depth (t : XorTrie) : outcome nat := depth t 0.

(** [trie.insert(depth, q)]: the node after the call, the depth reached and
    whether the key was inserted. The recursion is on [fuel]; [Insert] starts
    with enough for every input. *)
Fixpoint insert (fuel : nat) (d : nat) (trie : XorTrie) (q : TrieKey)
    : outcome (XorTrie * (nat * bool)) :=
  match fuel with
  | O => Diverge
  | S fuel =>
      b ← BitAt q d;
      qb ← get_branch trie b;
      if negb (is_nil qb) then
        '(qb, res) ← insert fuel (S d) qb q;
        trie ← set_branch trie b qb;
        Ret (trie, res)
      else
        k ← get_key trie;
        match k with
        | None =>
            trie ← set_key trie (Some q);
            Ret (trie, (d, true))
        | Some k =>
            if TrieKeyEqual k q then Ret (trie, (d, false))
            else
              let p := k in
              trie ← set_key trie None;
              trie ← set_branch trie 0 NewXorTrie;
              trie ← set_branch trie 1 NewXorTrie;
              bp ← BitAt p d;
              cp ← get_branch trie bp;
              '(cp, _) ← insert fuel (S d) cp p;
              trie ← set_branch trie bp cp;
              bq ← BitAt q d;
              cq ← get_branch trie bq;
              '(cq, res) ← insert fuel (S d) cq q;
              trie ← set_branch trie bq cq;
              Ret (trie, res)
        end
  end.

Definition Insert (trie : XorTrie) (q : TrieKey) : outcome (XorTrie * (nat * bool)) :=
  insert (S (BitLen q)) 0 trie q.

Definition isEmptyLeaf (t : XorTrie) : outcome bool :=
  match t with
  | nilTrie => Panic
  | Node l r k => Ret (bool_decide (k = None) && is_nil l && is_nil r)
  end.

Definition isNonEmptyLeaf (t : XorTrie) : outcome bool :=
  match t with
  | nilTrie => Panic
  | Node l r k => Ret (bool_decide (k <> None) && is_nil l && is_nil r)
  end.

(** The cases of the [switch] are tried in order. *)
Definition shrink (trie : XorTrie) : outcome XorTrie :=
  match trie with
  | nilTrie => Panic
  | Node b0 b1 _ =>
      c1 ← andM (isEmptyLeaf b0) (isEmptyLeaf b1);
      if (c1 : bool) then
        trie ← set_branch trie 0 nilTrie; set_branch trie 1 nilTrie
      else
        c2 ← andM (isEmptyLeaf b0) (isNonEmptyLeaf b1);
        if (c2 : bool) then
          k ← get_key b1;
          trie ← set_key trie k;
          trie ← set_branch trie 0 nilTrie; set_branch trie 1 nilTrie
        else
          c3 ← andM (isNonEmptyLeaf b0) (isEmptyLeaf b1);
          if (c3 : bool) then
            k ← get_key b0;
            trie ← set_key trie k;
            trie ← set_branch trie 0 nilTrie; set_branch trie 1 nilTrie
          else Ret trie
  end.

(** [trie.remove(depth, q)]: structural, since it only goes down. *)
Fixpoint remove (d : nat) (trie : XorTrie) (q : TrieKey)
    : outcome (XorTrie * (nat * bool)) :=
  b ← BitAt q d;
  match trie with
  | nilTrie => Panic
  | Node l r k =>
      let qb := if (b =? 0)%Z then l else r in
      if negb (is_nil qb) then
        '(qb', res) ← remove (S d) qb q;
        trie ← set_branch trie b qb';
        if (res.2 : bool) then
          trie ← shrink trie;
          Ret (trie, (res.1, true))
        else Ret (trie, (res.1, false))
      else
        match k with
        | Some k' =>
            if TrieKeyEqual q k' then
              trie ← set_key trie None;
              Ret (trie, (d, true))
            else Ret (trie, (d, false))
        | None => Ret (trie, (d, false))
        end
  end.

Definition Remove (trie : XorTrie) (q : TrieKey) : outcome (XorTrie * (nat * bool)) :=
  remove 0 trie q.

#[global] Arguments Insert : simpl never.
#[global] Arguments Remove : simpl never.
#[global] Arguments Depth : simpl never.
