(* ===== verification/TrieFacts.v ===== *)
(** * Theory of the XOR trie *)
From S2P Require Import Prelude XorTrie.

(** ** Bits of a key *)

Definition byte_bits (b : byte) : list bool :=
  (fun i => N.testbit (Byte.to_N b) (N.of_nat i)) <$> seq 0 8.

(** The bits of a key in the order the trie branches on them. *)
Definition bits (k : TrieKey) : list bool := k ≫= byte_bits.

Lemma length_byte_bits b : length (byte_bits b) = 8.
Proof. reflexivity. Qed.

Lemma length_bits k : length (bits k) = BitLen k.
Proof.
  unfold BitLen, bits. induction k as [|b k IH]; [done|].
  rewrite bind_cons, length_app, IH. simpl. lia.
Qed.

Lemma byte_bits_lookup b i :
  i < 8 -> byte_bits b !! i = Some (N.testbit (Byte.to_N b) (N.of_nat i)).
Proof.
  intros Hi. unfold byte_bits. rewrite list_lookup_fmap, lookup_seq_lt by done. done.
Qed.

Lemma bits_lookup k i :
  bits k !! i = (fun b => N.testbit (Byte.to_N b) (N.of_nat (i `mod` 8))) <$> k !! (i `div` 8).
Proof.
  unfold bits. revert i; induction k as [|b k IH]; intros i; [done|].
  rewrite bind_cons. destruct (decide (i < 8)) as [Hi|Hi].
  - rewrite lookup_app_l by (by rewrite length_byte_bits).
    rewrite byte_bits_lookup, Nat.div_small, Nat.mod_small by done. done.
  - rewrite lookup_app_r, length_byte_bits, IH by (rewrite length_byte_bits; lia).
    assert (i = (i - 8) + 1 * 8) as Hi8 by lia.
    replace (i `mod` 8) with ((i - 8) `mod` 8) by (rewrite Hi8 at 2; by rewrite Nat.Div0.mod_add).
    replace (i `div` 8) with (S ((i - 8) `div` 8)) by (rewrite Hi8 at 2; rewrite Nat.div_add; lia).
    done.
Qed.

Lemma land_pow2_testbit a n :
  (N.land a (N.shiftl 1 n) =? 0)%N = negb (N.testbit a n).
Proof.
  rewrite N.shiftl_1_l. destruct (N.testbit a n) eqn:Ht; simpl.
  - apply N.eqb_neq. intros H0.
    assert (N.testbit (N.land a (2 ^ n)) n = true) as Hb
      by (rewrite N.land_spec, Ht, N.pow2_bits_true; done).
    by rewrite H0, N.bits_0 in Hb.
  - apply N.eqb_eq, N.bits_inj. intros m. rewrite N.land_spec, N.bits_0.
    destruct (decide (n = m)) as [->|Hne].
    + by rewrite Ht.
    + rewrite N.pow2_bits_false by done. by rewrite andb_false_r.
Qed.

(** The byte arithmetic of [BitAt] reads the list of bits. *)
Lemma BitAt_bits k i :
  BitAt k i = match bits k !! i with Some b => Ret (Z.b2z b) | None => Panic end.
Proof.
  unfold BitAt. rewrite bits_lookup. destruct (k !! (i `div` 8)) as [b|]; [|done]. simpl.
  rewrite land_pow2_testbit. by destruct (N.testbit _ _).
Qed.

Lemma byte_bits_inj b1 b2 : byte_bits b1 = byte_bits b2 -> b1 = b2.
Proof.
  intros H.
  assert (Byte.to_N b1 = Byte.to_N b2) as HN.
  { apply N.bits_inj. intros n. destruct (decide (n < 8)%N) as [Hn|Hn].
    - assert (byte_bits b1 !! N.to_nat n = byte_bits b2 !! N.to_nat n) as Hl by congruence.
      rewrite !byte_bits_lookup in Hl by lia. rewrite N2Nat.id in Hl. congruence.
    - pose proof (Byte.to_N_bounded b1). pose proof (Byte.to_N_bounded b2).
      rewrite <-(N.mod_small (Byte.to_N b1) (2 ^ 8)), <-(N.mod_small (Byte.to_N b2) (2 ^ 8)) by lia.
      rewrite !N.mod_pow2_bits_high by lia. done. }
  apply (f_equal Byte.of_N) in HN. rewrite !Byte.of_to_N in HN. congruence.
Qed.

Lemma bits_inj k1 k2 : bits k1 = bits k2 -> k1 = k2.
Proof.
  revert k2; induction k1 as [|b1 k1 IH]; intros [|b2 k2] H; try done.
  - unfold bits in H. rewrite !bind_cons in H.
    apply app_inj_1 in H as [Hb Hk]; [|done].
    f_equal; [by apply byte_bits_inj|by apply IH].
Qed.

(** ** The keys of a trie and the invariant *)

Fixpoint keys (t : XorTrie) : list TrieKey :=
  match t with
  | nilTrie => []
  | Node l r k => option_list k ++ keys l ++ keys r
  end.

(** [neighbour_depth q ks]: one more than the longest prefix that [q] shares
    with another key of [ks]; 0 when there is none. *)
Fixpoint neighbour_depth (q : TrieKey) (ks : list TrieKey) : nat :=
  match ks with
  | [] => 0
  | k :: ks =>
      if decide (k = q) then neighbour_depth q ks
      else S (lcp (bits q) (bits k)) `max` neighbour_depth q ks
  end.

(** The trie node with child [c] on bit [b] and child [s] on the other bit. *)
Definition join (b : bool) (c s : XorTrie) : XorTrie :=
  if b then Node s c None else Node c s None.

Section invariant.
(** The common length of all keys, in bytes. *)
Context (L : nat).

(** [trie_ok p t]: [t] is a compact trie for the keys below the path [p].
    Keys are in the leaves only, a leaf lies on the path of its key and above
    the last bit, and every inner node has at least two keys below it. *)
Inductive trie_ok : list bool -> XorTrie -> Prop :=
| trie_ok_empty p :
    length p < 8 * L -> trie_ok p (Node nilTrie nilTrie None)
| trie_ok_leaf p k :
    length p < 8 * L -> length k = L -> p `prefix_of` bits k ->
    trie_ok p (Node nilTrie nilTrie (Some k))
| trie_ok_inner p l r :
    trie_ok (p ++ [false]) l -> trie_ok (p ++ [true]) r ->
    2 <= length (keys l) + length (keys r) ->
    trie_ok p (Node l r None).

(** No other key of [ks] agrees with [q] on all bits but the last. *)
Definition separated (q : TrieKey) (ks : list TrieKey) : Prop :=
  forall k, k ∈ ks -> k <> q -> S (lcp (bits q) (bits k)) < 8 * L.

Lemma trie_ok_length p t : trie_ok p t -> length p < 8 * L.
Proof. induction 1; try done. rewrite length_app in *. simpl in *. lia. Qed.

Lemma trie_ok_key p t k : trie_ok p t -> k ∈ keys t -> length k = L /\ p `prefix_of` bits k.
Proof.
  induction 1 as [p|p k' Hp Hlen Hpre|p l r Hl IHl Hr IHr Hsz]; simpl; intros Hk.
  - by apply not_elem_of_nil in Hk.
  - apply list_elem_of_singleton in Hk as ->. done.
  - apply elem_of_app in Hk as [Hk|Hk];
      [apply IHl in Hk as [??]|apply IHr in Hk as [??]]; eauto using prefix_snoc_weaken.
Qed.

Lemma trie_ok_not_nil p t : trie_ok p t -> is_nil t = false.
Proof. by destruct 1. Qed.

Lemma trie_ok_NoDup p t : trie_ok p t -> NoDup (keys t).
Proof.
  induction 1 as [p|p k' Hp Hlen Hpre|p l r Hl IHl Hr IHr Hsz]; simpl.
  - constructor.
  - apply NoDup_singleton.
  - apply NoDup_app. split_and!; [done| |done]. intros k Hkl Hkr.
    apply (trie_ok_key _ _ _ Hl) in Hkl as [_ Hkl].
    apply (trie_ok_key _ _ _ Hr) in Hkr as [_ Hkr].
    by pose proof (prefix_snoc_inj _ _ _ _ Hkl Hkr).
Qed.

(** *** The two sides of a node *)

Lemma Node_join b l r :
  Node l r None = join b (if b then r else l) (if b then l else r).
Proof. by destruct b. Qed.

Lemma keys_join b c s : keys (join b c s) ≡ₚ keys c ++ keys s.
Proof. destruct b; simpl; [apply Permutation_app_comm|done]. Qed.

Lemma get_branch_join b c s : get_branch (join b c s) (Z.b2z b) = Ret c.
Proof. by destruct b. Qed.

Lemma set_branch_join b c c' s : set_branch (join b c s) (Z.b2z b) c' = Ret (join b c' s).
Proof. by destruct b. Qed.

Lemma trie_ok_join p b c s :
  trie_ok (p ++ [b]) c -> trie_ok (p ++ [negb b]) s ->
  2 <= length (keys c) + length (keys s) -> trie_ok p (join b c s).
Proof. intros. destruct b; simpl in *; constructor; auto; lia. Qed.

Lemma trie_ok_join_inv p b l r :
  trie_ok (p ++ [false]) l -> trie_ok (p ++ [true]) r ->
  2 <= length (keys l) + length (keys r) ->
  exists c s, Node l r None = join b c s /\ trie_ok (p ++ [b]) c /\
    trie_ok (p ++ [negb b]) s /\ 2 <= length (keys c) + length (keys s).
Proof.
  intros. exists (if b then r else l), (if b then l else r).
  rewrite <-Node_join. destruct b; simpl; split_and!; auto; lia.
Qed.

(** The next bit of a key, as the code reads it. *)
Lemma next_bit p q :
  length q = L -> length p < 8 * L -> p `prefix_of` bits q ->
  exists b, (p ++ [b]) `prefix_of` bits q /\ BitAt q (length p) = Ret (Z.b2z b).
Proof.
  intros Hq Hp Hpre. rewrite BitAt_bits.
  destruct (bits q !! length p) as [b|] eqn:Hb.
  - exists b. split; [by apply prefix_snoc|done].
  - apply lookup_ge_None in Hb. rewrite length_bits in Hb. unfold BitLen in Hb. lia.
Qed.
End invariant.

Create HintDb trie.
#[export] Hint Constructors trie_ok : trie.
#[export] Hint Resolve trie_ok_join prefix_snoc_weaken : trie.

(** ** Facts on [neighbour_depth] *)

Lemma neighbour_depth_app q ks1 ks2 :
  neighbour_depth q (ks1 ++ ks2) = neighbour_depth q ks1 `max` neighbour_depth q ks2.
Proof. induction ks1 as [|k ks1 IH]; simpl; [done|]. case_decide; rewrite IH; lia. Qed.

#[export] Instance neighbour_depth_Permutation q :
  Proper ((≡ₚ) ==> (=)) (neighbour_depth q).
Proof. induction 1; simpl; repeat case_decide; lia. Qed.

Lemma neighbour_depth_le q ks n :
  neighbour_depth q ks <= n <->
  forall k, k ∈ ks -> k <> q -> S (lcp (bits q) (bits k)) <= n.
Proof.
  induction ks as [|k ks IH]; simpl.
  - split; [intros _ k Hk; by apply not_elem_of_nil in Hk|lia].
  - setoid_rewrite elem_of_cons. case_decide as Hkq.
    + rewrite IH. split; intros Hall k' Hk'; [destruct Hk' as [->|Hk']|]; auto; done.
    + rewrite Nat.max_lub_iff, IH. split.
      * intros [Hk Hall] k' [->|Hk']; auto.
      * intros Hall. split; [apply Hall|]; auto.
Qed.

Lemma neighbour_depth_ge q ks k :
  k ∈ ks -> k <> q -> S (lcp (bits q) (bits k)) <= neighbour_depth q ks.
Proof. intros Hk Hne. by eapply neighbour_depth_le. Qed.

(** Keys on the other side of a node branch off exactly there. *)
Lemma neighbour_depth_sibling p b q ks :
  (p ++ [b]) `prefix_of` bits q ->
  (forall k, k ∈ ks -> (p ++ [negb b]) `prefix_of` bits k) ->
  neighbour_depth q ks = if decide (ks = []) then 0 else S (length p).
Proof.
  intros Hq Hks.
  assert (forall k, k ∈ ks -> k <> q /\ lcp (bits q) (bits k) = length p) as Hlcp.
  { intros k Hk. specialize (Hks k Hk). split.
    - intros ->. pose proof (prefix_snoc_inj _ _ _ _ Hq Hks). by destruct b.
    - eapply lcp_split; eauto. by destruct b. }
  destruct ks as [|k ks]; [done|]. rewrite decide_False by done.
  apply Nat.le_antisymm.
  - apply neighbour_depth_le. intros k' Hk' _. by rewrite (proj2 (Hlcp k' Hk')).
  - destruct (Hlcp k) as [Hne Hl]; [left|]. rewrite <-Hl.
    apply neighbour_depth_ge; [left|done].
Qed.

(** Two distinct keys below [p]: one of them is a neighbour of [q] there. *)
Lemma neighbour_depth_two p q ks :
  NoDup ks -> 2 <= length ks -> p `prefix_of` bits q ->
  (forall k, k ∈ ks -> p `prefix_of` bits k) -> S (length p) <= neighbour_depth q ks.
Proof.
  intros Hnd Hlen Hq Hks. destruct ks as [|k1 [|k2 ks]]; simpl in Hlen; try lia.
  assert (exists k, k ∈ k1 :: k2 :: ks /\ k <> q) as (k & Hk & Hne).
  { destruct (decide (k1 = q)) as [->|]; [|exists k1; split; [left|done]].
    exists k2. split; [right; left|]. inversion Hnd as [|? ? Hn]; subst.
    intros ->. apply Hn. left. }
  etransitivity; [|eapply neighbour_depth_ge; eauto].
  pose proof (lcp_prefix p (bits q) (bits k) Hq (Hks k Hk)). lia.
Qed.

(** ** Insertion *)

Section insertion.
Context (L : nat).

Lemma inner_depth p b c s q :
  trie_ok L (p ++ [b]) c -> trie_ok L (p ++ [negb b]) s ->
  2 <= length (keys c) + length (keys s) -> (p ++ [b]) `prefix_of` bits q ->
  length (p ++ [b]) `max` neighbour_depth q (keys c) =
  length p `max` neighbour_depth q (keys c ++ keys s).
Proof.
  intros Hc Hs Hsz Hq. rewrite neighbour_depth_app, length_app.
  rewrite (neighbour_depth_sibling p b q (keys s)) by
    (try done; intros k Hk; by apply (trie_ok_key L) with (k := k) in Hs as [_ ?]).
  case_decide as Hs0; simpl; [|lia].
  assert (S (length (p ++ [b])) <= neighbour_depth q (keys c)) as Hc2.
  { apply neighbour_depth_two; [by eapply trie_ok_NoDup|rewrite Hs0 in Hsz; simpl in Hsz; lia|done|].
    intros k Hk. by apply (trie_ok_key L) with (k := k) in Hc as [_ ?]. }
  rewrite length_app in Hc2. simpl in Hc2. lia.
Qed.

Lemma elem_of_join b c s k : k ∈ keys (join b c s) <-> k ∈ keys c \/ k ∈ keys s.
Proof. by rewrite keys_join, elem_of_app. Qed.

(** A key below one side of a node is not among those of the other side. *)
Lemma not_elem_of_sibling p b s q :
  trie_ok L (p ++ [negb b]) s -> (p ++ [b]) `prefix_of` bits q -> q ∉ keys s.
Proof.
  intros Hs Hq Hin. apply (trie_ok_key L) with (k := q) in Hs as [_ Hs]; [|done].
  pose proof (prefix_snoc_inj _ _ _ _ Hq Hs). by destruct b.
Qed.

(** What [insert] returns on the node [t] of path [p]. *)
Definition insert_post (p : list bool) (t : XorTrie) (q : TrieKey)
    (o : outcome (XorTrie * (nat * bool))) : Prop :=
  exists t', o = Ret (t', (length p `max` neighbour_depth q (keys t),
                           bool_decide (q ∉ keys t))) /\
    trie_ok L p t' /\
    if decide (q ∈ keys t) then t' = t else keys t' ≡ₚ q :: keys t.

Lemma insert_unfold fuel d t q :
  insert (S fuel) d t q =
    (b ← BitAt q d;
     qb ← get_branch t b;
     if negb (is_nil qb) then
       '(qb, res) ← insert fuel (S d) qb q;
       trie ← set_branch t b qb;
       Ret (trie, res)
     else
       k ← get_key t;
       match k with
       | None => trie ← set_key t (Some q); Ret (trie, (d, true))
       | Some k =>
           if TrieKeyEqual k q then Ret (t, (d, false))
           else
             trie ← set_key t None;
             trie ← set_branch trie 0 NewXorTrie;
             trie ← set_branch trie 1 NewXorTrie;
             bp ← BitAt k d;
             cp ← get_branch trie bp;
             '(cp, _) ← insert fuel (S d) cp k;
             trie ← set_branch trie bp cp;
             bq ← BitAt q d;
             cq ← get_branch trie bq;
             '(cq, res) ← insert fuel (S d) cq q;
             trie ← set_branch trie bq cq;
             Ret (trie, res)
       end).
Proof. reflexivity. Qed.

Lemma insert_empty fuel p q :
  length p < 8 * L -> length q = L -> p `prefix_of` bits q ->
  insert (S fuel) (length p) NewXorTrie q =
    Ret (Node nilTrie nilTrie (Some q), (length p, true)).
Proof.
  intros Hp Hq Hpre. destruct (next_bit L p q) as (b & _ & Hb); [done..|].
  rewrite insert_unfold, Hb. by destruct b.
Qed.

(** The recursive call on the child of an inner node, put back. *)
Lemma insert_post_inner p b c s q o :
  trie_ok L (p ++ [b]) c -> trie_ok L (p ++ [negb b]) s ->
  2 <= length (keys c) + length (keys s) -> (p ++ [b]) `prefix_of` bits q ->
  insert_post (p ++ [b]) c q o ->
  insert_post p (join b c s) q
    ('(qb, res) ← o; trie ← set_branch (join b c s) (Z.b2z b) qb; Ret (trie, res)).
Proof.
  intros Hc Hs Hsz Hq (c' & -> & Hok & Hkeys). simpl.
  exists (join b c' s). rewrite set_branch_join. simpl.
  pose proof (not_elem_of_sibling p b s q Hs Hq) as Hns.
  split_and!.
  - rewrite (inner_depth p b c s q) by done. rewrite <-(keys_join b c s).
    do 3 f_equal. apply bool_decide_ext. rewrite elem_of_join. tauto.
  - apply trie_ok_join; [done..|]. case_decide; [by subst|].
    rewrite Hkeys. simpl. lia.
  - destruct (decide (q ∈ keys (join b c s))) as [Hin|Hin]; rewrite elem_of_join in Hin.
    + rewrite decide_True in Hkeys by tauto. by subst.
    + rewrite decide_False in Hkeys by tauto. by rewrite !keys_join, Hkeys.
Qed.

(** A leaf holding another key is split; the two keys are inserted below. *)
Definition split_leaf (fuel d : nat) (k q : TrieKey) : outcome (XorTrie * (nat * bool)) :=
  bp ← BitAt k d;
  cp ← get_branch (Node NewXorTrie NewXorTrie None) bp;
  '(cp, _) ← insert fuel (S d) cp k;
  trie ← set_branch (Node NewXorTrie NewXorTrie None) bp cp;
  bq ← BitAt q d;
  cq ← get_branch trie bq;
  '(cq, res) ← insert fuel (S d) cq q;
  trie ← set_branch trie bq cq;
  Ret (trie, res).

Abbreviation leaf k := (Node nilTrie nilTrie (Some k)).

Lemma insert_leaf_unfold fuel (p : list bool) k q b :
  BitAt q (length p) = Ret (Z.b2z b) ->
  insert (S fuel) (length p) (leaf k) q =
    if TrieKeyEqual k q then Ret (leaf k, (length p, false))
    else split_leaf fuel (length p) k q.
Proof. intros Hb. rewrite insert_unfold. unfold split_leaf. rewrite Hb. by destruct b. Qed.

Lemma split_leaf_ok fuel p k q :
  length p < 8 * L -> length k = L -> length q = L -> k <> q ->
  p `prefix_of` bits k -> p `prefix_of` bits q ->
  S (lcp (bits q) (bits k)) < 8 * L ->
  (forall b, (p ++ [b]) `prefix_of` bits k -> (p ++ [b]) `prefix_of` bits q ->
    insert_post (p ++ [b]) (leaf k) q (insert (S fuel) (S (length p)) (leaf k) q)) ->
  insert_post p (leaf k) q (split_leaf (S fuel) (length p) k q).
Proof.
  intros Hp Hk Hq Hne Hpk Hpq Hsep IH. unfold split_leaf.
  destruct (next_bit L p q) as (b & Hbq & Hb); [done..|].
  destruct (next_bit L p k) as (bk & Hbk & Hb'); [done..|].
  pose proof (lcp_prefix p (bits q) (bits k) Hpq Hpk) as Hlcp.
  assert (forall x : bool, length (p ++ [x]) = S (length p)) as Hlen
    by (intros; rewrite length_app; simpl; lia).
  rewrite Hb, Hb'. run.
  change (Node NewXorTrie NewXorTrie None) with (join false NewXorTrie NewXorTrie).
  replace (join false NewXorTrie NewXorTrie) with (join bk NewXorTrie NewXorTrie) by by destruct bk.
  rewrite get_branch_join. run.
  rewrite <-(Hlen bk), insert_empty by (rewrite ?Hlen; done || lia).
  rewrite Hlen. run. rewrite set_branch_join. run.
  assert (length (p ++ [negb b]) < 8 * L) by (rewrite Hlen; lia).
  destruct (decide (bk = b)) as [->|Hbne].
  - rewrite get_branch_join. run.
    destruct (IH b Hbk Hbq) as (c & -> & Hc & Hkeys).
    rewrite decide_False in Hkeys by (intros Hin%list_elem_of_singleton; by subst).
    exists (join b c NewXorTrie). run. rewrite set_branch_join.
    split_and!.
    + rewrite Hlen. pose proof (lcp_prefix _ _ _ Hbq Hbk) as Hl. rewrite Hlen in Hl.
      simpl. rewrite decide_False by done. do 3 f_equal. lia.
    + apply trie_ok_join; [done|by constructor|]. rewrite Hkeys. simpl. lia.
    + rewrite decide_False by (intros Hin%list_elem_of_singleton; by subst).
      rewrite keys_join, Hkeys. done.
  - replace bk with (negb b) in * by (by destruct b, bk).
    replace (join (negb b) (leaf k) NewXorTrie) with (join b NewXorTrie (leaf k)) by by destruct b.
    rewrite get_branch_join. run.
    rewrite <-(Hlen b), insert_empty by (rewrite ?Hlen; done || lia).
    run. rewrite set_branch_join.
    exists (join b (leaf q) (leaf k)). run.
    pose proof (lcp_split _ _ _ _ _ Hbq Hbk ltac:(by destruct b)) as Hl.
    split_and!.
    + rewrite Hlen. simpl. rewrite decide_False by done.
      rewrite bool_decide_true by (intros Hin%list_elem_of_singleton; by subst).
      do 3 f_equal. lia.
    + apply trie_ok_join; [constructor; rewrite ?Hlen; done || lia..|]. simpl. lia.
    + rewrite decide_False by (intros Hin%list_elem_of_singleton; by subst).
      by rewrite keys_join.
Qed.

Lemma insert_ok fuel p t q :
  trie_ok L p t -> length q = L -> p `prefix_of` bits q ->
  separated L q (keys t) -> 8 * L < fuel + length p ->
  insert_post p t q (insert fuel (length p) t q).
Proof.
  revert p t. induction fuel as [|fuel IH]; intros p t Hok Hlen Hpre Hsep Hfuel.
  { apply trie_ok_length in Hok. lia. }
  pose proof (trie_ok_length _ _ _ Hok) as Hp.
  destruct (next_bit L p q) as (b & Hbpre & Hb); [done..|].
  assert (forall x : bool, length (p ++ [x]) = S (length p)) as Hsnoc
    by (intros; rewrite length_app; simpl; lia).
  destruct Hok as [p _|p k _ Hk Hkpre|p l r Hl Hr Hsz].
  - rewrite insert_empty by done. exists (leaf q).
    simpl. rewrite Nat.max_0_r. split_and!; [done|by constructor|done].
  - rewrite (insert_leaf_unfold _ _ _ _ b) by done.
    unfold TrieKeyEqual. case_bool_decide as Hkq; [subst|].
    + exists (leaf q). simpl. rewrite decide_True, Nat.max_0_r by done.
      rewrite bool_decide_false by (intros Hn; apply Hn; left).
      split_and!; [done|by constructor|]. by rewrite decide_True by left.
    + assert (S (lcp (bits q) (bits k)) < 8 * L) as Hs by (apply Hsep; [left|done]).
      pose proof (lcp_prefix p (bits q) (bits k) Hpre Hkpre).
      destruct fuel as [|fuel]; [lia|].
      apply split_leaf_ok; try done. intros x Hxk Hxq.
      rewrite <-(Hsnoc x). apply IH; try done; [|rewrite Hsnoc; lia].
      constructor; [rewrite Hsnoc; lia|done..].
  - destruct (trie_ok_join_inv L p b l r) as (c & s & Heq & Hc & Hs & Hcs); [done..|].
    rewrite Heq in Hsep |- *. rewrite insert_unfold, Hb. run.
    rewrite get_branch_join. run.
    rewrite (trie_ok_not_nil _ _ _ Hc). cbn [negb].
    apply insert_post_inner; try done. rewrite <-(Hsnoc b).
    apply IH; try done; [|rewrite Hsnoc; lia].
    intros k Hk. apply Hsep. rewrite elem_of_join. by left.
Qed.
End insertion.

(** ** Removal *)

Section removal.
Context (L : nat).

Abbreviation leaf k := (Node nilTrie nilTrie (Some k)).

(** Evaluates [shrink] on a node whose children are known, and puts the
    invariant of the result together. *)
Ltac shrink_done :=
  simpl; repeat match goal with H : trie_ok _ _ _ |- _ =>
    rewrite (trie_ok_not_nil _ _ _ H); clear H end; simpl;
  split_and!;
  [ done
  | first [ by constructor; eauto with trie
          | constructor; [done..|]; simpl; rewrite ?length_app; simpl; lia ]
  | done ].

Lemma shrink_ok p l r :
  trie_ok L (p ++ [false]) l -> trie_ok L (p ++ [true]) r ->
  1 <= length (keys l) + length (keys r) ->
  exists t, shrink (Node l r None) = Ret t /\ trie_ok L p t /\
    keys t ≡ₚ keys l ++ keys r.
Proof.
  intros Hl Hr Hsz.
  assert (length p < 8 * L) as Hp
    by (apply trie_ok_length in Hl; rewrite length_app in Hl; simpl in Hl; lia).
  pose proof Hl as Hl'; pose proof Hr as Hr'.
  inversion Hl as [? _|? kl _ Hkl Hpl|? l1 l2 Hl1 Hl2 Hszl]; subst;
    inversion Hr as [? _|? kr _ Hkr Hpr|? r1 r2 Hr1 Hr2 Hszr]; subst;
    simpl in Hsz; try lia.
  - exists (leaf kr). shrink_done.
  - exists (Node NewXorTrie (Node r1 r2 None) None). shrink_done.
  - exists (leaf kl). shrink_done.
  - exists (Node (leaf kl) (leaf kr) None). shrink_done.
  - exists (Node (leaf kl) (Node r1 r2 None) None). shrink_done.
  - exists (Node (Node l1 l2 None) NewXorTrie None). shrink_done.
  - exists (Node (Node l1 l2 None) (leaf kr) None). shrink_done.
  - exists (Node (Node l1 l2 None) (Node r1 r2 None) None). shrink_done.
Qed.

Lemma remove_join d b c s q :
  BitAt q d = Ret (Z.b2z b) -> is_nil c = false ->
  remove d (join b c s) q =
    ('(c', res) ← remove (S d) c q;
     if (res.2 : bool) then
       trie ← shrink (join b c' s); Ret (trie, (res.1, true))
     else Ret (join b c' s, (res.1, false))).
Proof.
  intros Hb Hc. destruct b; simpl; rewrite Hb; simpl; rewrite Hc; simpl;
    by destruct (remove (S d) c q) as [[]| |].
Qed.

(** What [remove] returns on the node [t] of path [p]; the depth is that of
    the leaf of [q] when it is there. *)
Definition remove_post (p : list bool) (t : XorTrie) (q : TrieKey)
    (o : outcome (XorTrie * (nat * bool))) : Prop :=
  exists t' d, o = Ret (t', (d, bool_decide (q ∈ keys t))) /\
    trie_ok L p t' /\
    if decide (q ∈ keys t)
    then keys t ≡ₚ q :: keys t' /\ d = length p `max` neighbour_depth q (keys t)
    else t' = t.

(** An inner node, whose child on the path of [q] is [c], with the sibling [s]. *)
Lemma remove_join_ok p (b : bool) c s q :
  trie_ok L (p ++ [b]) c -> trie_ok L (p ++ [negb b]) s -> 2 <= length (keys c) + length (keys s) ->
  BitAt q (length p) = Ret (Z.b2z b) -> length q = L -> (p ++ [b]) `prefix_of` bits q ->
  remove_post (p ++ [b]) c q (remove (length (p ++ [b])) c q) ->
  remove_post p (join b c s) q (remove (length p) (join b c s) q).
Proof.
  intros Hc Hs Hcs Hb Hlen Hbpre IH.
  rewrite remove_join by (done || by eapply trie_ok_not_nil).
  rewrite length_app, Nat.add_1_r in IH.
  destruct IH as (c' & d & -> & Hc' & Hkeys). run.
  pose proof (not_elem_of_sibling L p b s q Hs Hbpre) as Hns.
  case_bool_decide as Hin; cbn.
  + rewrite decide_True in Hkeys by done. destruct Hkeys as [Hkeys ->].
    assert (exists t, shrink (join b c' s) = Ret t /\ trie_ok L p t /\
      keys t ≡ₚ keys c' ++ keys s) as (t & -> & Ht & Htk).
    { assert (length (keys c) = S (length (keys c'))) by by rewrite Hkeys.
      destruct b; simpl.
      - destruct (shrink_ok p s c') as (t & ? & ? & Ht); [done..|lia|].
        exists t. by rewrite Ht, (Permutation_app_comm (keys s)).
      - apply shrink_ok; [done..|lia]. }
    exists t, (length p `max` neighbour_depth q (keys (join b c s))).
    assert (q ∈ keys (join b c s)) by (rewrite elem_of_join; tauto).
    rewrite bool_decide_true, decide_True by done. cbn.
    split_and!; [|done| |done].
    * do 3 f_equal.
      rewrite keys_join, <-(inner_depth L p b c s q) by done.
      by rewrite length_app, Nat.add_1_r.
    * by rewrite keys_join, Htk, Hkeys.
  + rewrite decide_False in Hkeys by done. subst c'.
    exists (join b c s), d.
    assert (q ∉ keys (join b c s)) by (rewrite elem_of_join; tauto).
    rewrite bool_decide_false, decide_False by done. split_and!; [done| |done].
    by apply trie_ok_join.
Qed.

Lemma remove_ok p t q :
  trie_ok L p t -> length q = L -> p `prefix_of` bits q ->
  remove_post p t q (remove (length p) t q).
Proof.
  intros Hok. induction Hok as [p Hp|p k Hp Hk Hkpre|p l r Hl IHl Hr IHr Hsz];
    intros Hlen Hpre.
  - destruct (next_bit L p q) as (b & _ & Hb); [done..|].
    exists NewXorTrie, (length p). simpl. rewrite Hb. simpl.
    replace (if (Z.b2z b =? 0)%Z then nilTrie else nilTrie) with nilTrie by by destruct b.
    split_and!; [done|by constructor|done].
  - destruct (next_bit L p q) as (b & _ & Hb); [done..|]. simpl. rewrite Hb. simpl.
    replace (if (Z.b2z b =? 0)%Z then nilTrie else nilTrie) with nilTrie by by destruct b.
    simpl. unfold TrieKeyEqual. case_bool_decide as Hqk; simpl.
    + subst. exists NewXorTrie, (length p). rewrite bool_decide_true by left.
      split_and!; [done|by constructor|]. simpl. rewrite !decide_True by (done || left).
      split; [done|lia].
    + exists (leaf k), (length p).
      assert (q ∉ [k]) by (intros Hin%list_elem_of_singleton; done).
      rewrite bool_decide_false by done.
      split_and!; [done|by constructor|]. simpl. by rewrite decide_False.
  - assert (forall b : bool, trie_ok L (p ++ [b]) (if b then r else l)) as Hok by by intros [].
    assert (forall b, length q = L -> (p ++ [b]) `prefix_of` bits q ->
      remove_post (p ++ [b]) (if b then r else l) q
        (remove (length (p ++ [b])) (if b then r else l) q)) as IH by (intros []; auto).
    assert (length p < 8 * L) as Hp
      by (apply trie_ok_length in Hl; rewrite length_app in Hl; simpl in Hl; lia).
    destruct (next_bit L p q) as (b & Hbpre & Hb); [done..|].
    specialize (IH b Hlen Hbpre). pose proof (Hok b) as Hc. pose proof (Hok (negb b)) as Hs.
    rewrite (Node_join b l r). set (c := if b then r else l) in *.
    replace (if negb b then r else l) with (if b then l else r) in Hs by by destruct b.
    set (s := if b then l else r) in *.
    assert (2 <= length (keys c) + length (keys s)) as Hcs
      by (subst c s; destruct b; simpl in *; lia).
    clearbody c s.
    by apply remove_join_ok.
Qed.
End removal.

(** ** Tries are determined by their keys *)

Section canonical.
Context (L : nat).

Lemma child_keys p (b : bool) l r k :
  trie_ok L (p ++ [false]) l -> trie_ok L (p ++ [true]) r ->
  k ∈ keys (if b then r else l) <->
  k ∈ keys (Node l r None) /\ (p ++ [b]) `prefix_of` bits k.
Proof.
  intros Hl Hr. simpl. rewrite elem_of_app.
  pose proof (trie_ok_key L _ _ k Hl) as Hkl. pose proof (trie_ok_key L _ _ k Hr) as Hkr.
  split.
  - destruct b; intros Hk; split; [by right| |by left|]; by apply Hkr || by apply Hkl.
  - intros [[Hk|Hk] Hpre].
    + destruct (Hkl Hk) as [_ Hf]. by rewrite (prefix_snoc_inj _ _ _ _ Hpre Hf).
    + destruct (Hkr Hk) as [_ Hf]. by rewrite (prefix_snoc_inj _ _ _ _ Hpre Hf).
Qed.

Lemma trie_ok_canonical p t1 t2 :
  trie_ok L p t1 -> trie_ok L p t2 -> keys t1 ≡ₚ keys t2 -> t1 = t2.
Proof.
  intros H1. revert t2.
  induction H1 as [p Hp|p k Hp Hk Hkpre|p l r Hl IHl Hr IHr Hsz]; intros t2 H2 Hperm;
    pose proof (Permutation_length Hperm) as Hlen;
    inversion H2 as [? _|? k2 _ Hk2 Hpk2|? l2 r2 Hl2 Hr2 Hsz2]; subst; simpl in Hlen;
    rewrite ?length_app in Hlen; try lia; [done| |].
  - apply Permutation_singleton_inj in Hperm. by subst.
  - assert (forall b : bool, keys (if b then r else l) ≡ₚ keys (if b then r2 else l2)) as Hc.
    { intros b. apply NoDup_Permutation.
      - destruct b; by eapply trie_ok_NoDup.
      - destruct b; by eapply trie_ok_NoDup.
      - intros k. by rewrite !(child_keys p), Hperm. }
    by rewrite (IHl l2 Hl2 (Hc false)), (IHr r2 Hr2 (Hc true)).
Qed.
End canonical.

(** ** The panic of [insert]

    [insert] reads the bit of the depth it has reached before it looks at the
    key stored there, so two keys that differ in the last bit only make it
    read one bit too far. *)

Section insert_panic.
Context (L : nat).

Lemma insert_panic fuel p t q k :
  trie_ok L p t -> length q = L -> p `prefix_of` bits q ->
  k ∈ keys t -> k <> q -> 8 * L <= S (lcp (bits q) (bits k)) ->
  8 * L < fuel + length p ->
  insert fuel (length p) t q = Panic.
Proof.
  revert p t. induction fuel as [|fuel IH]; intros p t Hok Hlen Hpre Hk Hne Hlcp Hfuel.
  { apply trie_ok_length in Hok. lia. }
  pose proof (trie_ok_length _ _ _ Hok) as Hp.
  destruct (next_bit L p q) as (b & Hbq & Hb); [done..|].
  assert (forall x : bool, length (p ++ [x]) = S (length p)) as Hsnoc
    by (intros; rewrite length_app; simpl; lia).
  destruct Hok as [p _|p k' _ Hk' Hkpre|p l r Hl Hr Hsz].
  - by apply not_elem_of_nil in Hk.
  - apply list_elem_of_singleton in Hk as <-.
    rewrite (insert_leaf_unfold _ _ _ _ b) by done.
    unfold TrieKeyEqual. rewrite bool_decide_false by done. unfold split_leaf.
    destruct (next_bit L p k) as (bk & Hbk & Hb'); [done..|].
    rewrite Hb, Hb'. run.
    change (Node NewXorTrie NewXorTrie None) with (join false NewXorTrie NewXorTrie).
    replace (join false NewXorTrie NewXorTrie) with (join bk NewXorTrie NewXorTrie)
      by by destruct bk.
    rewrite get_branch_join. run.
    destruct fuel as [|fuel]; [lia|]. destruct (decide (S (length p) < 8 * L)) as [Hd|Hd].
    + rewrite <-(Hsnoc bk), insert_empty with (L := L) by (rewrite ?Hsnoc; done || lia).
      run. rewrite set_branch_join. run.
      destruct (decide (bk = b)) as [->|Hbne].
      * rewrite get_branch_join. run.
        rewrite (IH (p ++ [b])); try done; [constructor| left |]; try done.
        all: rewrite Hsnoc; lia.
      * pose proof (lcp_split _ _ _ _ _ Hbq Hbk ltac:(done)). lia.
    + rewrite insert_unfold, BitAt_bits, lookup_ge_None_2; [done|].
      rewrite length_bits. unfold BitLen. lia.
  - destruct (trie_ok_join_inv L p b l r) as (c & s & Heq & Hc & Hs & Hcs); [done..|].
    rewrite Heq in Hk |- *. rewrite insert_unfold, Hb. run.
    rewrite get_branch_join. run.
    rewrite (trie_ok_not_nil _ _ _ Hc). cbn [negb].
    pose proof (trie_ok_length _ _ _ Hc) as Hpc. rewrite Hsnoc in Hpc.
    apply elem_of_join in Hk as [Hk|Hk].
    + by rewrite <-(Hsnoc b), (IH (p ++ [b])) by (done || rewrite Hsnoc; lia).
    + apply (trie_ok_key L) with (k := k) in Hs as [_ Hsk]; [|done].
      pose proof (lcp_split _ _ _ _ _ Hbq Hsk ltac:(by destruct b)). lia.
Qed.
End insert_panic.

(** ** Depth *)

Fixpoint tree_depth (t : XorTrie) : nat :=
  match t with
  | nilTrie => 0
  | Node l r _ =>
      if is_nil l && is_nil r then 0 else S (tree_depth l `max` tree_depth r)
  end.

Section depth.
Context (L : nat).

Lemma depth_ok p t d : trie_ok L p t -> depth t d = Ret (d + tree_depth t).
Proof.
  intros Hok. revert d. induction Hok as [p|p k|p l r Hl IHl Hr IHr Hsz]; intros d; simpl.
  - by rewrite Nat.add_0_r.
  - by rewrite Nat.add_0_r.
  - rewrite (trie_ok_not_nil _ _ _ Hl). cbn [andb]. rewrite IHl, IHr.
    run.
    destruct (Nat.ltb_spec (S d + tree_depth r) (S d + tree_depth l)); f_equal; lia.
Qed.

Lemma tree_depth_bound p t : trie_ok L p t -> length p + tree_depth t < 8 * L.
Proof.
  induction 1 as [p|p k|p l r Hl IHl Hr IHr Hsz]; simpl; try lia.
  rewrite (trie_ok_not_nil _ _ _ Hl). simpl. rewrite length_app in *. simpl in *. lia.
Qed.

Lemma length_keys_depth p t : trie_ok L p t -> length (keys t) <= 2 ^ tree_depth t.
Proof.
  induction 1 as [p|p k|p l r Hl IHl Hr IHr Hsz]; simpl; try lia.
  rewrite (trie_ok_not_nil _ _ _ Hl), length_app. simpl andb. cbv iota.
  rewrite Nat.pow_succ_r'.
  assert (2 ^ tree_depth l <= 2 ^ (tree_depth l `max` tree_depth r))
    by (apply Nat.pow_le_mono_r; lia).
  assert (2 ^ tree_depth r <= 2 ^ (tree_depth l `max` tree_depth r))
    by (apply Nat.pow_le_mono_r; lia). lia.
Qed.

(** The deepest leaf belongs to a key, at the depth of its neighbour. *)
Lemma key_depth_le p t q :
  trie_ok L p t -> q ∈ keys t -> neighbour_depth q (keys t) <= length p + tree_depth t.
Proof.
  induction 1 as [p|p k|p l r Hl IHl Hr IHr Hsz]; intros Hq.
  - by apply not_elem_of_nil in Hq.
  - apply list_elem_of_singleton in Hq as ->. simpl. rewrite decide_True by done. lia.
  - simpl in *. rewrite (trie_ok_not_nil _ _ _ Hl), neighbour_depth_app. simpl.
    rewrite !length_app in *. simpl in *.
    apply elem_of_app in Hq as [Hq|Hq].
    + pose proof (trie_ok_key L _ _ _ Hl Hq) as [_ Hpre].
      rewrite (neighbour_depth_sibling p false q (keys r)) by
        (try done; intros k Hk; by apply (trie_ok_key L) with (k := k) in Hr as [_ ?]).
      specialize (IHl Hq). case_decide; lia.
    + pose proof (trie_ok_key L _ _ _ Hr Hq) as [_ Hpre].
      rewrite (neighbour_depth_sibling p true q (keys l)) by
        (try done; intros k Hk; by apply (trie_ok_key L) with (k := k) in Hl as [_ ?]).
      specialize (IHr Hq). case_decide; lia.
Qed.
End depth.
