(* ===== verification/TrieSpec.v ===== *)
(** * The XOR trie against its specification: a finite set of keys

    The abstract state of a trie is the set [key_set] of its keys. The methods
    of src/idgen/xortrie.go implement insertion and removal on that set; the
    depth they report is a function of the set alone, and the trie itself is
    determined by it. *)
From S2P Require Import Prelude XorTrie TrieFacts.

(** The keys stored in a trie. *)
Definition key_set (t : XorTrie) : gset TrieKey := list_to_set (keys t).
#[global] Arguments key_set : simpl never.

(** The representation invariant at the root, for keys of [L] bytes. *)
Definition trie_inv (L : nat) (t : XorTrie) : Prop := trie_ok L [] t.

(** The depth at which [q] sits in the trie of the set [X]. *)
Definition set_depth (q : TrieKey) (X : gset TrieKey) : nat :=
  neighbour_depth q (elements X).

(** No key of [X] differs from [q] in the last bit only. *)
Definition set_separated (L : nat) (q : TrieKey) (X : gset TrieKey) : Prop :=
  forall k, k ∈ X -> k <> q -> S (lcp (bits q) (bits k)) < 8 * L.

(** The specification: one step of a set with insertion and removal, each
    telling whether it changed the set. *)
Inductive trie_op := OpInsert (q : TrieKey) | OpRemove (q : TrieKey).

Definition op_key (o : trie_op) : TrieKey :=
  match o with OpInsert q | OpRemove q => q end.

Definition set_step (X : gset TrieKey) (o : trie_op) : gset TrieKey * bool :=
  match o with
  | OpInsert q => ({[q]} ∪ X, bool_decide (q ∉ X))
  | OpRemove q => (X ∖ {[q]}, bool_decide (q ∈ X))
  end.

Definition trie_step (t : XorTrie) (o : trie_op) : outcome (XorTrie * bool) :=
  '(t, (_, ok)) ← match o with OpInsert q => Insert t q | OpRemove q => Remove t q end;
  Ret (t, ok).

Fixpoint set_run (X : gset TrieKey) (os : list trie_op) : gset TrieKey * list bool :=
  match os with
  | [] => (X, [])
  | o :: os =>
      let '(X, ok) := set_step X o in
      let '(X, oks) := set_run X os in (X, ok :: oks)
  end.

Fixpoint trie_run (t : XorTrie) (os : list trie_op) : outcome (XorTrie * list bool) :=
  match os with
  | [] => Ret (t, [])
  | o :: os =>
      '(t, ok) ← trie_step t o;
      '(t, oks) ← trie_run t os;
      Ret (t, ok :: oks)
  end.

(** ** Lemmas at the root *)

Lemma elem_of_key_set t k : k ∈ key_set t <-> k ∈ keys t.
Proof. apply elem_of_list_to_set. Qed.

Lemma bool_decide_not_key_set t k : bool_decide (k ∉ keys t) = bool_decide (k ∉ key_set t).
Proof. apply bool_decide_ext. by rewrite elem_of_key_set. Qed.

Lemma bool_decide_key_set t k : bool_decide (k ∈ keys t) = bool_decide (k ∈ key_set t).
Proof. apply bool_decide_ext. by rewrite elem_of_key_set. Qed.

Lemma elem_of_set_step X o k : k ∈ (set_step X o).1 -> k ∈ X \/ k = op_key o.
Proof. destruct o; simpl; set_solver. Qed.

Section root.
Context (L : nat).

Lemma trie_inv_new : 0 < L -> trie_inv L NewXorTrie.
Proof. intros. constructor. simpl. lia. Qed.

Lemma key_set_new : key_set NewXorTrie = ∅.
Proof. reflexivity. Qed.

Lemma elements_key_set t : trie_inv L t -> elements (key_set t) ≡ₚ keys t.
Proof. intros Hok. apply elements_list_to_set. by eapply trie_ok_NoDup. Qed.

Lemma size_key_set t : trie_inv L t -> size (key_set t) = length (keys t).
Proof. intros Hok. unfold size, set_size. simpl. by rewrite elements_key_set. Qed.

Lemma set_depth_keys t q : trie_inv L t -> neighbour_depth q (keys t) = set_depth q (key_set t).
Proof. intros Hok. unfold set_depth. by rewrite elements_key_set. Qed.

Lemma key_length t k : trie_inv L t -> k ∈ key_set t -> length k = L.
Proof. intros Hok Hk%elem_of_key_set. by eapply trie_ok_key in Hok as [? _]. Qed.

Lemma Insert_ok t q :
  trie_inv L t -> length q = L -> set_separated L q (key_set t) ->
  exists t', Insert t q = Ret (t', (set_depth q (key_set t), bool_decide (q ∉ key_set t))) /\
    trie_inv L t' /\ key_set t' = {[q]} ∪ key_set t.
Proof.
  intros Hok Hq Hsep.
  destruct (insert_ok L (S (BitLen q)) [] t q) as (t' & He & Hok' & Hkeys);
    [done..|apply prefix_nil| |unfold BitLen; simpl; lia|].
  { intros k Hk. apply Hsep. by apply elem_of_key_set. }
  exists t'. rewrite <-(set_depth_keys t q Hok), <-bool_decide_not_key_set.
  split_and!; [done..|]. apply set_eq. intros k. rewrite elem_of_union, elem_of_singleton.
  rewrite !elem_of_key_set. case_decide as Hin.
  - subst. naive_solver.
  - by rewrite Hkeys, elem_of_cons.
Qed.

Lemma Remove_ok t q :
  trie_inv L t -> length q = L ->
  exists t' d, Remove t q = Ret (t', (d, bool_decide (q ∈ key_set t))) /\
    trie_inv L t' /\ key_set t' = key_set t ∖ {[q]} /\
    (q ∈ key_set t -> d = set_depth q (key_set t)).
Proof.
  intros Hok Hq.
  destruct (remove_ok L [] t q) as (t' & d & He & Hok' & Hkeys); [done..|apply prefix_nil|].
  exists t', d. rewrite <-(set_depth_keys t q Hok), <-bool_decide_key_set.
  pose proof (trie_ok_NoDup _ _ _ Hok) as Hnd.
  split_and!; [done..| |]; case_decide as Hin.
  - destruct Hkeys as [Hkeys _]. rewrite Hkeys in Hnd. apply NoDup_cons in Hnd as [Hn _].
    apply set_eq. intros k. rewrite elem_of_difference, elem_of_singleton, !elem_of_key_set.
    rewrite Hkeys, elem_of_cons. destruct (decide (k = q)); naive_solver.
  - subst. apply set_eq. intros k. rewrite elem_of_difference, elem_of_singleton.
    rewrite !elem_of_key_set. naive_solver.
  - intros _. apply Hkeys.
  - intros Hq'%elem_of_key_set. done.
Qed.

Lemma trie_inv_canonical t1 t2 :
  trie_inv L t1 -> trie_inv L t2 -> key_set t1 = key_set t2 -> t1 = t2.
Proof.
  intros H1 H2 Hset. eapply trie_ok_canonical; [done..|].
  by rewrite <-(elements_key_set t1), <-(elements_key_set t2), Hset.
Qed.

(** An insertion that is undone at once leaves no trace. *)
Lemma Insert_Remove_ok t q :
  trie_inv L t -> length q = L -> set_separated L q (key_set t) ->
  q ∉ key_set t ->
  exists t' d, Insert t q = Ret (t', (set_depth q (key_set t), true)) /\
    Remove t' q = Ret (t, (d, true)).
Proof.
  intros Hok Hq Hsep Hn.
  destruct (Insert_ok t q) as (t' & HI & Hok' & Hset'); [done..|].
  destruct (Remove_ok t' q) as (t'' & d & HR & Hok'' & Hset'' & _); [done..|].
  rewrite bool_decide_true in HI by done.
  rewrite bool_decide_true in HR by (rewrite Hset'; set_solver).
  assert (t'' = t) as -> by (apply trie_inv_canonical; [done..|]; rewrite Hset'', Hset'; set_solver).
  eauto.
Qed.

Lemma trie_step_ok t o :
  trie_inv L t -> length (op_key o) = L -> set_separated L (op_key o) (key_set t) ->
  exists t', trie_step t o = Ret (t', (set_step (key_set t) o).2) /\
    trie_inv L t' /\ key_set t' = (set_step (key_set t) o).1.
Proof.
  intros Hok Hq Hsep. destruct o as [q|q]; unfold trie_step; simpl in *.
  - destruct (Insert_ok t q) as (t' & -> & ? & ?); [done..|]. simpl. eauto.
  - destruct (Remove_ok t q) as (t' & d & -> & ? & ? & _); [done..|]. simpl. eauto.
Qed.

Lemma trie_run_ok t os :
  trie_inv L t -> Forall (fun o => length (op_key o) = L) os ->
  (forall o k, o ∈ os -> k ∈ key_set t \/ k ∈ op_key <$> os -> k <> op_key o ->
    S (lcp (bits (op_key o)) (bits k)) < 8 * L) ->
  exists t', trie_run t os = Ret (t', (set_run (key_set t) os).2) /\
    trie_inv L t' /\ key_set t' = (set_run (key_set t) os).1.
Proof.
  revert t. induction os as [|o os IH]; intros t Hok Hlen Hsep; cbn; [by eauto|].
  apply Forall_cons in Hlen as [Ho Hlen].
  destruct (trie_step_ok t o) as (t1 & -> & Hok1 & Hset1); [done..| |].
  { intros k Hk. apply Hsep; [left|by left]. }
  destruct (IH t1) as (t2 & HR & Hok2 & Hset2); [done..| |].
  { intros o' k Ho' Hk. apply Hsep; [by right|].
    destruct Hk as [Hk|Hk]; [|right; by right].
    rewrite Hset1 in Hk. apply elem_of_set_step in Hk as [Hk| ->]; [by left|right; left]. }
  rewrite Hset1 in HR, Hset2. destruct (set_step (key_set t) o) as [X ok].
  cbn in *. rewrite HR. cbn. destruct (set_run X os). cbn in *. eauto.
Qed.
End root.

(** ** Theorems *)

(** Keys that differ pairwise in more than their last bit. *)
Definition keys_separated (L : nat) (ks : list TrieKey) : Prop :=
  Forall (fun k1 => Forall (fun k2 => k2 <> k1 -> S (lcp (bits k1) (bits k2)) < 8 * L) ks) ks.

Lemma keys_separated_elim L ks k1 k2 :
  keys_separated L ks -> k1 ∈ ks -> k2 ∈ ks -> k2 <> k1 -> S (lcp (bits k1) (bits k2)) < 8 * L.
Proof.
  intros Hsep H1 H2 Hne. unfold keys_separated in Hsep.
  rewrite Forall_forall in Hsep. specialize (Hsep k1 H1). rewrite Forall_forall in Hsep. auto.
Qed.

(** C1. Refinement: any sequence of insertions and removals on a new trie, of keys of
    one positive length of which no two differ in their last bit only, runs without
    panic, answers exactly as the same sequence on a finite set does, and leaves a
    well-formed trie that holds exactly that set. (Two keys that differ in their last
    bit only make [Insert] panic.) *)
Theorem trie_refines_set (L : nat) (os : list trie_op) :
  0 < L -> Forall (fun o => length (op_key o) = L) os -> keys_separated L (op_key <$> os) ->
  exists t, trie_run NewXorTrie os = Ret (t, (set_run ∅ os).2) /\
    trie_inv L t /\ key_set t = (set_run ∅ os).1.
Proof.
  intros HL Hlen Hsep. rewrite <-key_set_new. apply trie_run_ok; [by apply trie_inv_new|done|].
  intros o k Ho [Hk|Hk] Hne; [set_solver|].
  eapply keys_separated_elim; [done| |done..]. by apply list_elem_of_fmap_2.
Qed.

Definition sample_ops : list trie_op :=
  (OpInsert <$> [[Byte.x00]; [Byte.x01]; [Byte.x08]; [Byte.x08]; [Byte.x03]; [Byte.x04]]) ++
  (OpRemove <$> [[Byte.x08]; [Byte.x08]]).

Lemma trie_refines_set_witness :
  exists t, trie_run NewXorTrie sample_ops =
    Ret (t, [true; true; true; false; true; true; true; false]) /\ trie_inv 1 t.
Proof.
  destruct (trie_refines_set 1 sample_ops)
    as (t & Hrun & Hinv & _).
  - lia.
  - apply (bool_decide_unpack _). vm_compute. exact I.
  - apply (bool_decide_unpack _). vm_compute. exact I.
  - exists t. split; [rewrite Hrun; reflexivity|exact Hinv].
Defined.

(** The trie of four of the keys of the repository's own test sequence. *)
Definition sample_trie : XorTrie :=
  Node (Node (Node nilTrie nilTrie (Some [Byte.x00]))
             (Node nilTrie nilTrie (Some [Byte.x02])) None)
       (Node nilTrie nilTrie (Some [Byte.x01])) None.

Lemma sample_trie_inv : trie_inv 1 sample_trie.
Proof.
  unfold trie_inv, sample_trie.
  repeat first
    [ apply trie_ok_inner; [| |simpl; lia]
    | apply trie_ok_leaf; [simpl; lia|reflexivity|apply (bool_decide_unpack _); vm_compute; exact I] ].
Qed.

(** [Insert] on a well-formed trie: a new key is added and reported as
    inserted, a key already there leaves the trie as it is and is reported as
    not inserted; the depth returned is one more than the longest prefix the key
    shares with another key of the trie. *)
Theorem Insert_correct (L : nat) (t : XorTrie) (q : TrieKey) :
  trie_inv L t -> length q = L -> set_separated L q (key_set t) ->
  exists t', Insert t q = Ret (t', (set_depth q (key_set t), bool_decide (q ∉ key_set t))) /\
    trie_inv L t' /\ key_set t' = {[q]} ∪ key_set t /\ (q ∈ key_set t -> t' = t).
Proof.
  intros Hok Hq Hsep. destruct (Insert_ok L t q) as (t' & HI & Hok' & Hset); [done..|].
  exists t'. split_and!; [done..|]. intros Hin.
  apply (trie_inv_canonical L); [done..|]. rewrite Hset. set_solver.
Qed.

Lemma sample_separated : set_separated 1 [Byte.x03] (key_set sample_trie).
Proof.
  change (set_Forall (fun k => k <> [Byte.x03] ->
    S (lcp (bits [Byte.x03]) (bits k)) < 8 * 1) (key_set sample_trie)).
  apply (bool_decide_unpack _). vm_compute. exact I.
Qed.

Lemma Insert_correct_witness :
  exists t', Insert sample_trie [Byte.x03] = Ret (t', (2, true)) /\
    key_set t' = {[ [Byte.x03] ]} ∪ key_set sample_trie.
Proof.
  destruct (Insert_correct 1 sample_trie [Byte.x03]) as (t' & HI & _ & Hset & _).
  - exact sample_trie_inv.
  - reflexivity.
  - exact sample_separated.
  - exists t'. split; [rewrite HI; reflexivity|exact Hset].
Defined.

(** [Remove] on a well-formed trie never panics: a key that is there is
    taken out, reported as removed together with the depth of its leaf; a key
    that is not there leaves the trie as it is and is reported as not removed. *)
Theorem Remove_correct (L : nat) (t : XorTrie) (q : TrieKey) :
  trie_inv L t -> length q = L ->
  exists t' d, Remove t q = Ret (t', (d, bool_decide (q ∈ key_set t))) /\
    trie_inv L t' /\ key_set t' = key_set t ∖ {[q]} /\
    (q ∈ key_set t -> d = set_depth q (key_set t)) /\ (q ∉ key_set t -> t' = t).
Proof.
  intros Hok Hq. destruct (Remove_ok L t q) as (t' & d & HR & Hok' & Hset & Hd); [done..|].
  exists t', d. split_and!; [done..|]. intros Hin.
  apply (trie_inv_canonical L); [done..|]. rewrite Hset. set_solver.
Qed.

Lemma Remove_correct_witness :
  exists t' d, Remove sample_trie [Byte.x02] = Ret (t', (d, true)) /\ d = 2 /\
    key_set t' = key_set sample_trie ∖ {[ [Byte.x02] ]}.
Proof.
  destruct (Remove_correct 1 sample_trie [Byte.x02]) as (t' & d & HR & _ & Hset & Hd & _).
  - exact sample_trie_inv.
  - reflexivity.
  - exists t', d. split_and!; [rewrite HR; reflexivity| |exact Hset].
    rewrite Hd; [vm_compute; reflexivity|]. apply (bool_decide_unpack _). vm_compute. exact I.
Defined.

(** C18. Removing a key that has just been inserted gives back the very same
    trie: the probe of [genUniqueID] leaves no trace, whatever splits the
    insertion caused. *)
Theorem Remove_undoes_Insert (L : nat) (t : XorTrie) (q : TrieKey) :
  trie_inv L t -> length q = L -> set_separated L q (key_set t) -> q ∉ key_set t ->
  exists t' d, Insert t q = Ret (t', (d, true)) /\ t' <> t /\ Remove t' q = Ret (t, (d, true)).
Proof.
  intros Hok Hq Hsep Hn.
  destruct (Insert_ok L t q) as (t' & HI & Hok' & Hset'); [done..|].
  destruct (Insert_Remove_ok L t q) as (t'' & d & HI' & HR); [done..|].
  assert (t'' = t') as -> by congruence.
  destruct (Remove_ok L t' q) as (? & d' & HR' & _ & _ & Hd); [done..|].
  rewrite HR in HR'. exists t', d. split_and!; [| |done].
  - rewrite HI'. do 3 f_equal. simplify_eq.
    rewrite Hd by (rewrite Hset'; set_solver). rewrite Hset'. unfold set_depth.
    rewrite elements_union_singleton by done. simpl. by rewrite decide_True.
  - intros ->. set_solver.
Qed.

Lemma Remove_undoes_Insert_witness :
  exists t' d, Insert sample_trie [Byte.x03] = Ret (t', (d, true)) /\
    Remove t' [Byte.x03] = Ret (sample_trie, (d, true)).
Proof.
  destruct (Remove_undoes_Insert 1 sample_trie [Byte.x03]) as (t' & d & HI & _ & HR).
  - exact sample_trie_inv.
  - reflexivity.
  - exact sample_separated.
  - apply (bool_decide_unpack _). vm_compute. exact I.
  - exists t', d. split; [exact HI|exact HR].
Defined.

(** C39. History independence: two runs from a new trie on keys of one positive length,
    of which no two differ in their last bit only, that end with the same set of keys
    end with the same trie, node for node. *)
Theorem trie_history_independent (L : nat) (os1 os2 : list trie_op) t1 t2 r1 r2 :
  0 < L -> Forall (fun o => length (op_key o) = L) (os1 ++ os2) ->
  keys_separated L (op_key <$> (os1 ++ os2)) ->
  trie_run NewXorTrie os1 = Ret (t1, r1) -> trie_run NewXorTrie os2 = Ret (t2, r2) ->
  key_set t1 = key_set t2 -> t1 = t2.
Proof.
  intros HL [Hlen1 Hlen2]%Forall_app Hsep H1 H2 Hset.
  destruct (trie_run_ok L NewXorTrie os1) as (t1' & Hr1 & Hok1 & _);
    [by apply trie_inv_new|done| |].
  { intros o k Ho [Hk|Hk] Hne; [set_solver|].
    eapply keys_separated_elim; [done| | |done]; rewrite fmap_app; apply elem_of_app; left;
      [by apply list_elem_of_fmap_2|done]. }
  destruct (trie_run_ok L NewXorTrie os2) as (t2' & Hr2 & Hok2 & _);
    [by apply trie_inv_new|done| |].
  { intros o k Ho [Hk|Hk] Hne; [set_solver|].
    eapply keys_separated_elim; [done| | |done]; rewrite fmap_app; apply elem_of_app; right;
      [by apply list_elem_of_fmap_2|done]. }
  rewrite H1 in Hr1. rewrite H2 in Hr2. simplify_eq. by apply (trie_inv_canonical L).
Qed.

Lemma trie_history_independent_witness :
  exists t1 r1 t2 r2,
    trie_run NewXorTrie [OpInsert [Byte.x00]; OpInsert [Byte.x01]; OpInsert [Byte.x08]; OpRemove [Byte.x08]]
      = Ret (t1, r1) /\
    trie_run NewXorTrie [OpInsert [Byte.x01]; OpInsert [Byte.x00]] = Ret (t2, r2) /\ t1 = t2.
Proof.
  do 4 eexists. split; [vm_compute; reflexivity|]. split; [vm_compute; reflexivity|].
  eapply (trie_history_independent 1
    [OpInsert [Byte.x00]; OpInsert [Byte.x01]; OpInsert [Byte.x08]; OpRemove [Byte.x08]]
    [OpInsert [Byte.x01]; OpInsert [Byte.x00]]).
  - lia.
  - apply (bool_decide_unpack _). vm_compute. exact I.
  - apply (bool_decide_unpack _). vm_compute. exact I.
  - vm_compute. reflexivity.
  - vm_compute. reflexivity.
  - reflexivity.
Defined.

(** C38. The exact condition under which [Insert] panics: some other key of the
    trie agrees with the new one on every bit but the last. *)
Theorem Insert_panics_iff (L : nat) (t : XorTrie) (q : TrieKey) :
  trie_inv L t -> length q = L ->
  Insert t q = Panic <->
  exists k, k ∈ key_set t /\ k <> q /\ S (lcp (bits q) (bits k)) = 8 * L.
Proof.
  intros Hok Hq. split.
  - intros HP.
    destruct (decide (Exists (fun k => k <> q /\ S (lcp (bits q) (bits k)) = 8 * L) (keys t)))
      as [(k & Hk & Hne & Hl)%Exists_exists|Hnone].
    { exists k. by rewrite elem_of_key_set. }
    destruct (Insert_ok L t q) as (t' & HI & _); [done..| |by rewrite HI in HP].
    intros k Hk Hne. pose proof (key_length L t k Hok Hk).
    assert (lcp (bits q) (bits k) < length (bits q)) as Hlt.
    { apply lcp_lt; [rewrite !length_bits; unfold BitLen; lia|]. intros Hb%bits_inj. by subst. }
    rewrite length_bits in Hlt. unfold BitLen in Hlt.
    destruct (decide (S (lcp (bits q) (bits k)) = 8 * L)) as [He|He]; [|lia].
    destruct Hnone. apply Exists_exists. exists k. by rewrite <-elem_of_key_set.
  - intros (k & Hk%elem_of_key_set & Hne & Hl). unfold Insert.
    change 0 with (length (@nil bool)).
    apply (insert_panic L _ [] t q k); try done; [apply prefix_nil|lia|unfold BitLen; simpl; lia].
Qed.

Lemma Insert_panics_iff_witness :
  Insert sample_trie [Byte.x82] = Panic.
Proof.
  apply (Insert_panics_iff 1 sample_trie [Byte.x82]).
  - exact sample_trie_inv.
  - reflexivity.
  - exists [Byte.x02]. split_and!; [|discriminate|reflexivity].
    apply (bool_decide_unpack _). vm_compute. exact I.
Defined.

(** [Depth] on a well-formed trie of keys of [L] bytes never panics; the
    depth is below [8 * L], no key lies deeper, and it is at least the binary
    logarithm of the number of keys. *)
Theorem Depth_correct (L : nat) (t : XorTrie) :
  trie_inv L t ->
  exists d, Depth t = Ret d /\ d < 8 * L /\ size (key_set t) <= 2 ^ d /\
    forall k, k ∈ key_set t -> set_depth k (key_set t) <= d.
Proof.
  intros Hok. exists (tree_depth t). unfold Depth. rewrite (depth_ok L [] t 0 Hok).
  split_and!; [done| | |].
  - by pose proof (tree_depth_bound L [] t Hok).
  - rewrite (size_key_set L) by done. by apply (length_keys_depth L []).
  - intros k Hk%elem_of_key_set. rewrite <-(set_depth_keys L) by done.
    by apply (key_depth_le L []).
Qed.

Lemma Depth_correct_witness :
  exists d, Depth sample_trie = Ret d /\ d < 8 /\ size (key_set sample_trie) <= 2 ^ d.
Proof.
  destruct (Depth_correct 1 sample_trie sample_trie_inv) as (d & HD & Hb & Hs & _).
  exists d. split_and!; [exact HD|exact Hb|exact Hs].
Defined.
