(* ===== verification/IdGen.v ===== *)
(** * The balanced identity generator (src/idgen/idgen.go)

    The state is the record [BalancedIdentityGenerator]; every method takes it
    and returns it. All exported methods hold the generator's mutex from start
    to end, so each of them is one step. Key generation (HKDF, Ed25519), the
    peer ID of a key and the Kademlia ID of a peer are code outside the
    repository: the class [KeyMaterial]. *)
From S2P Require Import Prelude XorTrie.

(** ** The standard library's byte operations *)

(** [bits.Reverse8] *)
Definition Reverse8 (b : byte) : byte :=
  let '(b0, (b1, (b2, (b3, (b4, (b5, (b6, b7))))))) := Byte.to_bits b in
  Byte.of_bits (b7, (b6, (b5, (b4, (b3, (b2, (b1, b0))))))).

(** [binary.LittleEndian.PutUint32] into a fresh slice of 4 bytes. *)
Definition PutUint32 (v : Z) : list byte :=
  [byte_of_Z v; byte_of_Z (Z.shiftr v 8); byte_of_Z (Z.shiftr v 16); byte_of_Z (Z.shiftr v 24)].

(** [reversePerByteBits]: the slice is updated in place; its only caller passes
    a fresh one and uses the result. *)
Definition reversePerByteBits (blob : list byte) : list byte := Reverse8 <$> blob.

(** ** Code outside the repository *)

Class KeyMaterial (PrivKey : Type) := {
  PeerID : Type;
  (** [crypto.GenerateKeyPairWithReader(Ed25519, 0, hkdf.New(sha256, seed, salt, info))] *)
  GenerateKeyPair : list byte -> list byte -> string -> result PrivKey;
  (** [peer.IDFromPrivateKey] *)
  IDFromPrivateKey : PrivKey -> result PeerID;
  (** [kbucket.ConvertPeerID] *)
  ConvertPeerID : PeerID -> list byte;
}.

Section idgen.
Context `{KeyMaterial PrivKey}.

Record BalancedIdentityGenerator := mkBG {
  xorTrie : XorTrie;
  count : Z; (* int *)
  idgenCount : Z; (* uint32 *)
  seed : list byte;
}.

Definition set_xorTrie (bg : BalancedIdentityGenerator) t :=
  mkBG t (count bg) (idgenCount bg) (seed bg).
Definition set_count (bg : BalancedIdentityGenerator) c :=
  mkBG (xorTrie bg) c (idgenCount bg) (seed bg).
Definition set_idgenCount (bg : BalancedIdentityGenerator) c :=
  mkBG (xorTrie bg) (count bg) c (seed bg).

(** [privKeyToTrieKey]: PrivKey -> PeerID -> KadID -> TrieKey *)
Definition privKeyToTrieKey (privKey : PrivKey) : result TrieKey :=
  match IDFromPrivateKey privKey with
  | inl err => inl err
  | inr peerID =>
      let kadID := ConvertPeerID peerID in
      inr (reversePerByteBits kadID)
  end.

(** [genID]: the salt counter moves before anything can fail. *)
Definition genID (bg : BalancedIdentityGenerator)
    : BalancedIdentityGenerator * result (PrivKey * TrieKey) :=
  let salt := wrap_u32 (idgenCount bg + 1) in
  let bg := set_idgenCount bg salt in
  let salt_bytes := PutUint32 salt in
  match GenerateKeyPair (seed bg) salt_bytes "hydra keys" with
  | inl err => (bg, inl (Errorf "generating private key for trie" err))
  | inr privKey =>
      match privKeyToTrieKey privKey with
      | inl err => (bg, inl (Errorf "converting private key to a trie key" err))
      | inr trieKey => (bg, inr (privKey, trieKey))
      end
  end.

(** [genUniqueID]: the loop tries salts until an identity is not in the trie.
    It has no bound in the code; [fuel] bounds the number of tries. *)
Fixpoint genUniqueID (fuel : nat) (bg : BalancedIdentityGenerator)
    : outcome (BalancedIdentityGenerator * result (PrivKey * TrieKey * nat)) :=
  match fuel with
  | O => Diverge
  | S fuel =>
      let '(bg, r) := genID bg in
      match r with
      | inl err => Ret (bg, inl err)
      | inr (privKey, trieKey) =>
          '(t, (depth, ok)) ← Insert (xorTrie bg) trieKey;
          let bg := set_xorTrie bg t in
          if (ok : bool) then
            '(t, _) ← Remove (xorTrie bg) trieKey;
            Ret (set_xorTrie bg t, inr (privKey, trieKey, depth))
          else genUniqueID fuel bg
      end
  end.

(** [bg.xorTrie.Insert(t); bg.count++] *)
Definition store (bg : BalancedIdentityGenerator) (k : TrieKey)
    : outcome BalancedIdentityGenerator :=
  '(t, _) ← Insert (xorTrie bg) k;
  let bg := set_xorTrie bg t in
  Ret (set_count bg (wrap_int (count bg + 1))).

Definition AddUnbalanced (fuel : nat) (bg : BalancedIdentityGenerator)
    : outcome (BalancedIdentityGenerator * result PrivKey) :=
  '(bg, r0) ← genUniqueID fuel bg;
  match r0 with
  | inl err0 => Ret (bg, inl (Errorf "generating unbalanced ID candidate" err0))
  | inr (p0, t0, _) => bg ← store bg t0; Ret (bg, inr p0)
  end.

Definition AddBalanced (fuel : nat) (bg : BalancedIdentityGenerator)
    : outcome (BalancedIdentityGenerator * result PrivKey) :=
  '(bg, r0) ← genUniqueID fuel bg;
  match r0 with
  | inl err0 => Ret (bg, inl (Errorf "generating first balanced ID candidate" err0))
  | inr (p0, t0, d0) =>
      '(bg, r1) ← genUniqueID fuel bg;
      match r1 with
      | inl err1 => Ret (bg, inl (Errorf "generating second balanced ID candidate" err1))
      | inr (p1, t1, d1) =>
          if d0 <? d1 then bg ← store bg t0; Ret (bg, inr p0)
          else bg ← store bg t1; Ret (bg, inr p1)
      end
  end.

(** [BalancedIdentityGenerator.Remove]; the result is the error, if any. *)
Definition bgRemove (bg : BalancedIdentityGenerator) (privKey : PrivKey)
    : outcome (BalancedIdentityGenerator * option goerror) :=
  match privKeyToTrieKey privKey with
  | inl err => Ret (bg, Some err)
  | inr trieKey =>
      '(t, (_, ok)) ← Remove (xorTrie bg) trieKey;
      let bg := set_xorTrie bg t in
      Ret (if (ok : bool) then set_count bg (wrap_int (count bg - 1)) else bg, None)
  end.

Definition bgCount (bg : BalancedIdentityGenerator) : Z := count bg.
Definition bgDepth (bg : BalancedIdentityGenerator) : outcome nat := Depth (xorTrie bg).

(** The loop of the constructor: the results of [AddBalanced] are dropped. *)
Fixpoint skip_ids (fuel n : nat) (bg : BalancedIdentityGenerator)
    : outcome BalancedIdentityGenerator :=
  match n with
  | O => Ret bg
  | S n => '(bg, _) ← AddBalanced fuel bg; skip_ids fuel n bg
  end.

Definition NewBalancedIdentityGeneratorFromSeed (fuel : nat) (sd : list byte) (idOffset : Z)
    : outcome BalancedIdentityGenerator :=
  skip_ids fuel (Z.to_nat idOffset) (mkBG NewXorTrie 0 0 sd).

(** [RandomSeed], with the bytes that [rand.Read] delivers: its error is dropped,
    and what it does not deliver stays zero. *)
Definition RandomSeed (delivered : list byte) : list byte :=
  take 32 (delivered ++ replicate 32 Byte.x00).

Definition NewBalancedIdentityGenerator (fuel : nat) (random : list byte)
    : outcome BalancedIdentityGenerator :=
  NewBalancedIdentityGeneratorFromSeed fuel (RandomSeed random) 0.
End idgen.
Arguments BalancedIdentityGenerator : clear implicits.
#[global] Arguments genID : simpl never.
#[global] Arguments store : simpl never.
