(* ===== verification/IdGenFacts.v ===== *)
(** * Theory of the balanced identity generator

    The laws on key material, the invariant of the generator, and the lemmas
    on [genUniqueID], [AddBalanced] and [Remove] from which the theorems of
    IdGenSpec and IdGenClean follow. *)
From S2P Require Import Prelude XorTrie TrieFacts TrieSpec IdGen.

(** What the generator relies on: a Kademlia ID is a SHA-256 sum (32 bytes),
    and distinct sums do not agree on their first 255 bits. *)
Class KeyMaterialLaws (PrivKey : Type) `{KM : KeyMaterial PrivKey} := {
  ConvertPeerID_length : forall p, length (ConvertPeerID p) = 32;
  ConvertPeerID_separated : forall p1 p2,
    ConvertPeerID p2 <> ConvertPeerID p1 ->
    S (lcp (bits (reversePerByteBits (ConvertPeerID p1)))
           (bits (reversePerByteBits (ConvertPeerID p2)))) < 256;
}.

(** ** Reversing the bits of each byte *)

Lemma Reverse8_bits b : byte_bits (Reverse8 b) = reverse (byte_bits b).
Proof. by destruct b. Qed.

Lemma Reverse8_involutive b : Reverse8 (Reverse8 b) = b.
Proof. by destruct b. Qed.

Lemma reversePerByteBits_involutive k : reversePerByteBits (reversePerByteBits k) = k.
Proof.
  unfold reversePerByteBits. rewrite <-list_fmap_compose.
  rewrite <-(list_fmap_id k) at 2. apply list_fmap_ext. intros i b _. apply Reverse8_involutive.
Qed.

Lemma length_reversePerByteBits k : length (reversePerByteBits k) = length k.
Proof. apply length_fmap. Qed.

Section facts.
Context `{KML : KeyMaterialLaws PrivKey}.

Implicit Types (bg : BalancedIdentityGenerator) (X : gset TrieKey).

(** The keys the generator can store. *)
Definition generated (k : TrieKey) : Prop :=
  exists p, k = reversePerByteBits (ConvertPeerID p).

Lemma generated_length k : generated k -> length k = 32.
Proof. intros [p ->]. by rewrite length_reversePerByteBits, ConvertPeerID_length. Qed.

Lemma generated_separated k X :
  generated k -> (forall k', k' ∈ X -> generated k') -> set_separated 32 k X.
Proof.
  intros [p ->] HX k' Hk' Hne. destruct (HX k' Hk') as [p' ->].
  apply ConvertPeerID_separated. congruence.
Qed.

Lemma privKeyToTrieKey_generated pk k : privKeyToTrieKey pk = inr k -> generated k.
Proof.
  unfold privKeyToTrieKey. destruct (IDFromPrivateKey pk) as [|p]; [done|].
  intros [= <-]. by exists p.
Qed.

(** ** Drawing an identity *)

(** The identity of a seed and a salt. *)
Definition candidate (sd : list byte) (salt : Z) : result (PrivKey * TrieKey) :=
  match GenerateKeyPair sd (PutUint32 salt) "hydra keys" with
  | inl err => inl (Errorf "generating private key for trie" err)
  | inr pk =>
      match privKeyToTrieKey pk with
      | inl err => inl (Errorf "converting private key to a trie key" err)
      | inr k => inr (pk, k)
      end
  end.

Lemma candidate_key sd salt pk k :
  candidate sd salt = inr (pk, k) -> privKeyToTrieKey pk = inr k.
Proof.
  unfold candidate. destruct (GenerateKeyPair _ _ _) as [|pk']; [done|].
  destruct (privKeyToTrieKey pk') as [|k'] eqn:Hk; [done|]. by intros [= <- <-].
Qed.

(** The keys that one of the 2^32 salts gives with the seed [sd]. *)
Definition of_seed (sd : list byte) (k : TrieKey) : Prop :=
  exists salt pk, (0 <= salt < 2 ^ 32)%Z /\ candidate sd salt = inr (pk, k).

Lemma of_seed_generated sd k : of_seed sd k -> generated k.
Proof. intros (salt & pk & _ & Hk%candidate_key). by eapply privKeyToTrieKey_generated. Qed.

(** No seed has more than 2^32 keys. *)
Lemma of_seed_size sd X :
  (forall k, k ∈ X -> of_seed sd k) -> (Z.of_nat (size X) <= 2 ^ 32)%Z.
Proof.
  intros HX. apply (size_image_le (fun salt =>
    match candidate sd salt with inl _ => None | inr (_, k) => Some k end)); [lia|].
  intros k (salt & pk & Hs & Hc)%HX. exists salt. by rewrite Hc.
Qed.

(** The invariant: a well-formed trie of keys of the seed, their number in
    [count], and a 32-bit salt counter. *)
Record bg_inv bg : Prop := {
  bg_trie : trie_inv 32 (xorTrie bg);
  bg_keys : forall k, k ∈ key_set (xorTrie bg) -> of_seed (seed bg) k;
  bg_count : count bg = Z.of_nat (size (key_set (xorTrie bg)));
  bg_salt : (0 <= idgenCount bg < 2 ^ 32)%Z;
}.

Lemma bg_keys_generated bg k : bg_inv bg -> k ∈ key_set (xorTrie bg) -> generated k.
Proof. intros Hinv Hk. eapply of_seed_generated. by apply (bg_keys bg Hinv). Qed.

(** So the machine integer [count] never comes near its bounds. *)
Lemma count_bound bg : bg_inv bg -> (0 <= count bg <= 2 ^ 32)%Z.
Proof.
  intros Hinv. rewrite (bg_count bg Hinv). pose proof (of_seed_size _ _ (bg_keys bg Hinv)). lia.
Qed.

Lemma genID_eq bg :
  genID bg = (set_idgenCount bg (wrap_u32 (idgenCount bg + 1)),
              candidate (seed bg) (wrap_u32 (idgenCount bg + 1))).
Proof.
  unfold genID, candidate. destruct (GenerateKeyPair _ _ _); [done|].
  by destruct (privKeyToTrieKey _).
Qed.

(** The [i]-th identity the generator draws from its present state. *)
Definition draw bg (i : nat) : result (PrivKey * TrieKey) :=
  candidate (seed bg) (wrap_u32 (idgenCount bg + 1 + Z.of_nat i)).

(** A draw that [genUniqueID] discards: its key is taken. *)
Definition used X (r : result (PrivKey * TrieKey)) : Prop :=
  match r with inl _ => False | inr (_, k) => k ∈ X end.

#[export] Instance used_dec X r : Decision (used X r).
Proof. destruct r as [|[? ?]]; cbn; apply _. Defined.

(** The generator after [n] draws. *)
Definition advance bg (n : nat) : BalancedIdentityGenerator :=
  set_idgenCount bg (wrap_u32 (idgenCount bg + Z.of_nat n)).

(** [n] is the index of the first draw that is not discarded. *)
Definition first_draw bg (n : nat) : Prop :=
  (forall i, i < n -> used (key_set (xorTrie bg)) (draw bg i)) /\
  ~ used (key_set (xorTrie bg)) (draw bg n).

Definition with_depth X (r : result (PrivKey * TrieKey)) : result (PrivKey * TrieKey * nat) :=
  match r with inl e => inl e | inr (pk, k) => inr (pk, k, set_depth k X) end.

Lemma draw_advance bg n i : draw (advance bg n) i = draw bg (n + i).
Proof.
  unfold draw, advance. cbn [idgenCount seed set_idgenCount]. f_equal.
  rewrite <-Z.add_assoc, wrap_u32_add_l. f_equal. lia.
Qed.

Lemma advance_advance bg n m : advance (advance bg n) m = advance bg (n + m).
Proof.
  unfold advance, set_idgenCount. cbn. f_equal. rewrite wrap_u32_add_l. f_equal. lia.
Qed.

Lemma set_xorTrie_id bg : set_xorTrie bg (xorTrie bg) = bg.
Proof. by destruct bg. Qed.

Lemma genID_draw bg : genID bg = (advance bg 1, draw bg 0).
Proof. rewrite genID_eq. unfold advance, draw. by rewrite Z.add_0_r. Qed.

Lemma bg_inv_advance bg n : bg_inv bg -> bg_inv (advance bg n).
Proof. intros []. split; try done. apply wrap_u32_range. Qed.

(** One turn of the loop: the probe of the trie leaves it as it was. *)
Lemma genUniqueID_turn fuel bg :
  bg_inv bg ->
  genUniqueID (S fuel) bg =
    if decide (used (key_set (xorTrie bg)) (draw bg 0))
    then genUniqueID fuel (advance bg 1)
    else Ret (advance bg 1, with_depth (key_set (xorTrie bg)) (draw bg 0)).
Proof.
  intros Hinv. cbn [genUniqueID]. rewrite genID_draw.
  destruct (draw bg 0) as [err|[pk k]] eqn:Hd; [done|].
  pose proof (candidate_key _ _ _ _ Hd) as Hk%privKeyToTrieKey_generated.
  pose proof (generated_length _ Hk) as Hlen.
  pose proof (generated_separated _ _ Hk (fun k' => bg_keys_generated bg k' Hinv)) as Hsep.
  pose proof (bg_trie _ Hinv) as Ht. simpl. destruct (decide (k ∈ _)) as [Hin|Hin].
  - destruct (Insert_ok 32 (xorTrie bg) k) as (t' & HI & Hok & Hset); [done..|].
    rewrite HI. simpl. rewrite bool_decide_false by naive_solver.
    assert (t' = xorTrie bg) as ->
      by (apply (trie_inv_canonical 32); [done..|]; rewrite Hset; set_solver). done.
  - destruct (Insert_Remove_ok 32 (xorTrie bg) k) as (t' & d & HI & HR); [done..|].
    rewrite HI. simpl. rewrite HR. simpl. done.
Qed.

Lemma genUniqueID_ok fuel bg n :
  bg_inv bg -> first_draw bg n -> n < fuel ->
  genUniqueID fuel bg =
    Ret (advance bg (S n), with_depth (key_set (xorTrie bg)) (draw bg n)).
Proof.
  revert bg n. induction fuel as [|fuel IH]; intros bg n Hinv [Hused Hn] Hfuel; [lia|].
  rewrite genUniqueID_turn by done. destruct n as [|n].
  - by rewrite decide_False.
  - rewrite decide_True by (apply Hused; lia).
    rewrite (IH (advance bg 1) n), advance_advance, draw_advance; [done| | |lia].
    + by apply bg_inv_advance.
    + split; [intros i Hi; rewrite draw_advance; apply Hused; simpl; lia|by rewrite draw_advance].
Qed.

Lemma genUniqueID_Diverge fuel bg :
  bg_inv bg -> (forall i, i < fuel -> used (key_set (xorTrie bg)) (draw bg i)) ->
  genUniqueID fuel bg = Diverge.
Proof.
  revert bg. induction fuel as [|fuel IH]; intros bg Hinv Hused; [done|].
  rewrite genUniqueID_turn, decide_True by (try done; apply Hused; lia).
  apply IH; [by apply bg_inv_advance|].
  intros i Hi. rewrite draw_advance. apply Hused. simpl. lia.
Qed.

(** Every run of the loop ends at the first usable draw or runs out of fuel. *)
Lemma genUniqueID_cases fuel bg :
  bg_inv bg ->
  genUniqueID fuel bg = Diverge \/
  exists n, n < fuel /\ first_draw bg n /\
    genUniqueID fuel bg =
      Ret (advance bg (S n), with_depth (key_set (xorTrie bg)) (draw bg n)).
Proof.
  intros Hinv.
  destruct (first_failure (fun i => used (key_set (xorTrie bg)) (draw bg i)) fuel)
    as [Hall|(n & Hn & Hall & Hnot)].
  - left. by apply genUniqueID_Diverge.
  - right. exists n. split_and!; [done|by split|]. by apply genUniqueID_ok.
Qed.

(** ** Storing and removing an identity *)

Lemma store_ok bg k :
  bg_inv bg -> of_seed (seed bg) k -> k ∉ key_set (xorTrie bg) ->
  exists t, store bg k = Ret (mkBG t (count bg + 1) (idgenCount bg) (seed bg)) /\
    key_set t = {[k]} ∪ key_set (xorTrie bg) /\
    bg_inv (mkBG t (count bg + 1) (idgenCount bg) (seed bg)).
Proof.
  intros Hinv Hk Hn. pose proof (of_seed_generated _ _ Hk) as Hg.
  destruct (Insert_ok 32 (xorTrie bg) k) as (t & HI & Hok & Hset);
    [apply Hinv|by apply generated_length|
     apply generated_separated; [done|intros k'; by apply bg_keys_generated]|].
  pose proof (count_bound bg Hinv) as Hb.
  exists t. unfold store. rewrite HI. cbn [mbind outcome_bind count set_xorTrie set_count].
  rewrite wrap_int_small by lia. split_and!; [done..|]. split; cbn; [done| | |apply Hinv].
  - intros k' Hk'. rewrite Hset in Hk'. apply elem_of_union in Hk' as [Hk'|Hk'].
    + apply elem_of_singleton in Hk'. by subst.
    + by apply (bg_keys bg Hinv).
  - rewrite Hset, size_union, size_singleton, (bg_count bg Hinv) by set_solver. lia.
Qed.

Lemma bgRemove_ok bg pk k :
  bg_inv bg -> privKeyToTrieKey pk = inr k ->
  exists bg', bgRemove bg pk = Ret (bg', None) /\ bg_inv bg' /\
    key_set (xorTrie bg') = key_set (xorTrie bg) ∖ {[k]} /\
    idgenCount bg' = idgenCount bg /\ seed bg' = seed bg.
Proof.
  intros Hinv Hk. pose proof (privKeyToTrieKey_generated _ _ Hk) as Hg.
  destruct (Remove_ok 32 (xorTrie bg) k) as (t & d & HR & Hok & Hset & _);
    [apply Hinv|by apply generated_length|].
  unfold bgRemove. rewrite Hk, HR. simpl. eexists. split; [done|].
  assert (bg_inv (set_count (set_xorTrie bg t) (Z.of_nat (size (key_set t))))) as Hinv'.
  { split; cbn; [done| |done|apply Hinv]. intros k' Hk'. apply (bg_keys bg Hinv).
    rewrite Hset in Hk'. set_solver. }
  case_bool_decide as Hin.
  - pose proof (count_bound bg Hinv) as Hb. cbn [count set_xorTrie].
    rewrite wrap_int_small by lia.
    assert ((count bg - 1)%Z = Z.of_nat (size (key_set t))) as ->; [|done].
    rewrite (bg_count bg Hinv), Hset, size_difference, size_singleton by set_solver.
    assert (size (key_set (xorTrie bg)) <> 0); [|lia].
    apply size_non_empty_iff. set_solver.
  - replace (set_xorTrie bg t) with (set_count (set_xorTrie bg t) (Z.of_nat (size (key_set t))));
      [done|].
    unfold set_count, set_xorTrie. cbn. f_equal. rewrite (bg_count bg Hinv), Hset.
    do 2 f_equal. set_solver.
Qed.
End facts.

(** ** Adding an identity *)

Section adding.
Context `{KML : KeyMaterialLaws PrivKey}.

Implicit Types (bg : BalancedIdentityGenerator) (X : gset TrieKey).

(** What a method that adds an identity does to the generator. *)
Definition add_post bg (res : BalancedIdentityGenerator * result PrivKey) : Prop :=
  let '(bg', r) := res in
  bg_inv bg' /\ seed bg' = seed bg /\
  match r with
  | inl _ => exists m, bg' = advance bg m
  | inr pk => exists k, privKeyToTrieKey pk = inr k /\ (k ∉ key_set (xorTrie bg)) /\
      key_set (xorTrie bg') = {[k]} ∪ key_set (xorTrie bg)
  end.

Lemma draw_fresh bg n pk k :
  first_draw bg n -> draw bg n = inr (pk, k) ->
  of_seed (seed bg) k /\ (k ∉ key_set (xorTrie bg)) /\ privKeyToTrieKey pk = inr k.
Proof.
  intros [_ Hn] Hd. rewrite Hd in Hn. split_and!; [|done|by eapply candidate_key].
  exists (wrap_u32 (idgenCount bg + 1 + Z.of_nat n)), pk. split; [apply wrap_u32_range|done].
Qed.

(** The final [Insert] and [count++], after [m] draws. *)
Lemma store_advance bg m k :
  bg_inv bg -> of_seed (seed bg) k -> k ∉ key_set (xorTrie bg) ->
  exists bg', store (advance bg m) k = Ret bg' /\ bg_inv bg' /\
    key_set (xorTrie bg') = {[k]} ∪ key_set (xorTrie bg) /\
    count bg' = (count bg + 1)%Z /\ seed bg' = seed bg /\
    idgenCount bg' = wrap_u32 (idgenCount bg + Z.of_nat m).
Proof.
  intros Hinv Hk Hn.
  destruct (store_ok (advance bg m) k) as (t & HS & Hset & Hinv');
    [by apply bg_inv_advance|done..|]. eauto 10.
Qed.

(** The choice [AddBalanced] makes between two candidates. *)
Definition choose X (c0 c1 : PrivKey * TrieKey) : PrivKey * TrieKey :=
  if set_depth c0.2 X <? set_depth c1.2 X then c0 else c1.

Lemma AddBalanced_ok fuel bg n0 n1 p0 k0 p1 k1 :
  bg_inv bg -> n0 < fuel -> n1 < fuel ->
  first_draw bg n0 -> draw bg n0 = inr (p0, k0) ->
  first_draw (advance bg (S n0)) n1 -> draw (advance bg (S n0)) n1 = inr (p1, k1) ->
  let X := key_set (xorTrie bg) in
  let c := choose X (p0, k0) (p1, k1) in
  exists bg', AddBalanced fuel bg = Ret (bg', inr c.1) /\ bg_inv bg' /\
    key_set (xorTrie bg') = {[c.2]} ∪ X /\ count bg' = (count bg + 1)%Z /\
    seed bg' = seed bg /\
    idgenCount bg' = wrap_u32 (idgenCount bg + Z.of_nat (S n0 + S n1)).
Proof.
  intros Hinv Hf0 Hf1 Hn0 Hd0 Hn1 Hd1 X c.
  destruct (draw_fresh _ _ _ _ Hn0 Hd0) as (Hg0 & Hx0 & _).
  destruct (draw_fresh _ _ _ _ Hn1 Hd1) as (Hg1 & Hx1 & _).
  unfold AddBalanced. rewrite (genUniqueID_ok _ _ n0), Hd0 by done.
  cbn [mbind outcome_bind with_depth].
  rewrite (genUniqueID_ok _ _ n1), Hd1 by (done || by apply bg_inv_advance).
  cbn [mbind outcome_bind with_depth].
  rewrite advance_advance. fold X. unfold c, choose. cbn [fst snd].
  change (key_set (xorTrie (advance bg (S n0)))) with X.
  destruct (set_depth k0 X <? set_depth k1 X).
  - destruct (store_advance bg (S n0 + S n1) k0) as (bg' & HS & Hr); [done..|].
    exists bg'. rewrite HS. done.
  - destruct (store_advance bg (S n0 + S n1) k1) as (bg' & HS & Hr); [done..|].
    exists bg'. rewrite HS. done.
Qed.

Lemma AddBalanced_safe fuel bg :
  bg_inv bg -> safe (add_post bg) (AddBalanced fuel bg).
Proof.
  intros Hinv. unfold AddBalanced at 1.
  destruct (genUniqueID_cases fuel bg Hinv) as [->|(n0 & Hf0 & Hn0 & HG0)]; [done|].
  destruct (draw bg n0) as [e|[p0 k0]] eqn:Hd0; rewrite HG0; cbn [mbind outcome_bind with_depth].
  { split_and!; [by apply bg_inv_advance|done|eauto]. }
  pose proof (bg_inv_advance bg (S n0) Hinv) as Hinv1.
  destruct (genUniqueID_cases fuel _ Hinv1) as [->|(n1 & Hf1 & Hn1 & HG1)]; [done|].
  destruct (draw (advance bg (S n0)) n1) as [e|[p1 k1]] eqn:Hd1.
  { rewrite HG1. cbn. rewrite advance_advance.
    split_and!; [by apply bg_inv_advance|done|eauto]. }
  destruct (AddBalanced_ok fuel bg n0 n1 p0 k0 p1 k1) as (bg' & HA & Hinv' & Hset & _ & Hsd & _);
    [done..|].
  unfold AddBalanced in HA. rewrite HG0 in HA. cbn [mbind outcome_bind with_depth] in HA |- *. rewrite HA. cbn.
  destruct (draw_fresh _ _ _ _ Hn0 Hd0) as (_ & Hx0 & Hk0).
  destruct (draw_fresh _ _ _ _ Hn1 Hd1) as (_ & Hx1 & Hk1).
  split_and!; [done..|]. revert Hset. unfold choose. case_match; cbn; eauto.
Qed.

Lemma AddUnbalanced_safe fuel bg :
  bg_inv bg -> safe (add_post bg) (AddUnbalanced fuel bg).
Proof.
  intros Hinv. unfold AddUnbalanced.
  destruct (genUniqueID_cases fuel bg Hinv) as [->|(n0 & Hf0 & Hn0 & ->)]; [done|].
  destruct (draw bg n0) as [e|[p0 k0]] eqn:Hd0; cbn.
  { split_and!; [by apply bg_inv_advance|done|eauto]. }
  destruct (draw_fresh _ _ _ _ Hn0 Hd0) as (Hg0 & Hx0 & Hk0).
  destruct (store_advance bg (S n0) k0) as (bg' & -> & Hinv' & Hset & _ & Hsd & _); [done..|].
  cbn. split_and!; eauto.
Qed.

Lemma bgRemove_safe bg pk :
  bg_inv bg ->
  safe (fun '(bg', e) => bg_inv bg' /\ seed bg' = seed bg /\
    match privKeyToTrieKey pk with
    | inl err => e = Some err /\ bg' = bg
    | inr k => e = None /\ key_set (xorTrie bg') = key_set (xorTrie bg) ∖ {[k]}
    end) (bgRemove bg pk).
Proof.
  intros Hinv. destruct (privKeyToTrieKey pk) as [err|k] eqn:Hk.
  - unfold bgRemove. rewrite Hk. done.
  - destruct (bgRemove_ok bg pk k) as (bg' & -> & ? & ? & _ & ?); [done..|]. done.
Qed.

Lemma bg_inv_new sd : bg_inv (mkBG NewXorTrie 0 0 sd).
Proof. split; cbn; [apply trie_inv_new; lia|set_solver|done|lia]. Qed.

Lemma skip_ids_safe fuel n bg : bg_inv bg -> safe bg_inv (skip_ids fuel n bg).
Proof.
  revert bg. induction n as [|n IH]; intros bg Hinv; [done|]. cbn [skip_ids].
  eapply safe_bind; [by apply AddBalanced_safe|]. intros [bg' r] (Hinv' & _). by apply IH.
Qed.

(** With its count and key set, a generator is determined by its trie. *)
Lemma bg_inv_ext bg1 bg2 :
  bg_inv bg1 -> bg_inv bg2 -> key_set (xorTrie bg1) = key_set (xorTrie bg2) ->
  xorTrie bg1 = xorTrie bg2 /\ count bg1 = count bg2.
Proof.
  intros H1 H2 Hset. split.
  - by apply (trie_inv_canonical 32); [apply H1|apply H2|].
  - by rewrite (bg_count _ H1), (bg_count _ H2), Hset.
Qed.
End adding.
