(* ===== verification/IdGenSpec.v ===== *)
(** * Theorems on the balanced identity generator (src/idgen/idgen.go) *)
From S2P Require Import Prelude XorTrie TrieFacts TrieSpec IdGen IdGenFacts.

(** ** Sequences of calls *)

Inductive bg_op (PrivKey : Type) :=
| CallAddBalanced
| CallAddUnbalanced
| CallRemove (pk : PrivKey).
Arguments CallAddBalanced {PrivKey}.
Arguments CallAddUnbalanced {PrivKey}.
Arguments CallRemove {PrivKey} pk.

Definition bg_step `{KeyMaterial PrivKey} (fuel : nat) (bg : BalancedIdentityGenerator)
    (o : bg_op PrivKey) : outcome BalancedIdentityGenerator :=
  match o with
  | CallAddBalanced => '(bg, _) ← AddBalanced fuel bg; Ret bg
  | CallAddUnbalanced => '(bg, _) ← AddUnbalanced fuel bg; Ret bg
  | CallRemove pk => '(bg, _) ← bgRemove bg pk; Ret bg
  end.

Fixpoint bg_run `{KeyMaterial PrivKey} (fuel : nat) (bg : BalancedIdentityGenerator)
    (os : list (bg_op PrivKey)) : outcome BalancedIdentityGenerator :=
  match os with
  | [] => Ret bg
  | o :: os => bg ← bg_step fuel bg o; bg_run fuel bg os
  end.

(** The results of [n] calls of [AddBalanced]. *)
Fixpoint balanced_ids `{KeyMaterial PrivKey} (fuel n : nat) (bg : BalancedIdentityGenerator)
    : outcome (BalancedIdentityGenerator * list (result PrivKey)) :=
  match n with
  | O => Ret (bg, [])
  | S n =>
      '(bg, r) ← AddBalanced fuel bg;
      '(bg, rs) ← balanced_ids fuel n bg;
      Ret (bg, r :: rs)
  end.

(** ** A concrete key material

    The key of a salt is its low byte modulo 5, so that salts repeat keys; the
    ID is one byte padded with zeros. *)
#[export] Instance sample_keys : KeyMaterial Z := {|
  PeerID := Z;
  GenerateKeyPair sd salt info :=
    match salt with
    | b :: _ => inr (Z.of_N (Byte.to_N b) mod 5)%Z
    | [] => inl (ErrorMsg "no salt")
    end;
  IDFromPrivateKey pk := inr pk;
  ConvertPeerID p := byte_of_Z p :: replicate 31 Byte.x00;
|}.

#[export] Instance sample_keys_laws : KeyMaterialLaws Z.
Proof.
  split; [done|]. intros p1 p2 Hne. cbn [ConvertPeerID sample_keys] in *.
  unfold reversePerByteBits. rewrite !fmap_cons. unfold bits. rewrite !bind_cons.
  rewrite !Reverse8_bits.
  assert (reverse (byte_bits (byte_of_Z p1)) <> reverse (byte_bits (byte_of_Z p2))) as Hb.
  { intros He%(inj reverse)%byte_bits_inj. by rewrite He in Hne. }
  rewrite lcp_app_ne by (rewrite ?length_reverse; done).
  pose proof (lcp_le (reverse (byte_bits (byte_of_Z p1))) (reverse (byte_bits (byte_of_Z p2)))).
  rewrite length_reverse, length_byte_bits in *. lia.
Qed.


(** ** Lemmas on sequences *)

Section runs.
Context `{KML : KeyMaterialLaws PrivKey}.

Implicit Types (bg : BalancedIdentityGenerator).

Lemma skip_ids_add fuel m n bg :
  skip_ids fuel (m + n) bg = skip_ids fuel m bg ≫= skip_ids fuel n.
Proof.
  revert bg. induction m as [|m IH]; intros bg; [done|]. cbn [skip_ids Nat.add].
  rewrite outcome_bind_assoc. apply outcome_bind_ext. intros [bg' r]. apply IH.
Qed.

(** Skipping [m] identities is dropping the first [m] results. *)
Lemma skip_balanced_ids fuel m n bg :
  (bg ← skip_ids fuel m bg; balanced_ids fuel n bg) =
  ('(bg, rs) ← balanced_ids fuel (m + n) bg; Ret (bg, drop m rs)).
Proof.
  revert bg. induction m as [|m IH]; intros bg; cbn [skip_ids balanced_ids Nat.add].
  - run. by destruct (balanced_ids fuel n bg) as [[? ?]| |].
  - rewrite !outcome_bind_assoc. apply outcome_bind_ext. intros [bg1 r]. cbn.
    rewrite IH, outcome_bind_assoc. apply outcome_bind_ext. by intros [bg2 rs].
Qed.

Lemma bg_run_safe fuel bg os : bg_inv bg -> safe bg_inv (bg_run fuel bg os).
Proof.
  revert bg. induction os as [|o os IH]; intros bg Hinv; [done|]. cbn [bg_run].
  apply (safe_bind bg_inv); [|done]. destruct o as [| |pk]; cbn [bg_step].
  - eapply safe_bind; [by apply AddBalanced_safe|]. intros [bg' r] [? _]. done.
  - eapply safe_bind; [by apply AddUnbalanced_safe|]. intros [bg' r] [? _]. done.
  - eapply safe_bind; [by apply bgRemove_safe|]. intros [bg' r] [? _]. done.
Qed.

Lemma draw_period bg i j :
  (Z.of_nat i mod 2 ^ 32 = Z.of_nat j mod 2 ^ 32)%Z -> draw bg i = draw bg j.
Proof.
  intros Hij. unfold draw, wrap_u32. f_equal.
  by rewrite Zplus_mod, Hij, <-Zplus_mod.
Qed.

(** The first [n] salts of the seed give the identities [ks], all different. *)
Definition fresh_keys (sd : list byte) (n : nat) (ks : list (PrivKey * TrieKey)) : Prop :=
  length ks = n /\ NoDup ks.*2 /\
  forall i c, ks !! i = Some c -> candidate sd (wrap_u32 (1 + Z.of_nat i)) = inr c.

Lemma draw_fresh_keys bg sd n ks j c :
  fresh_keys sd n ks -> seed bg = sd -> idgenCount bg = wrap_u32 (Z.of_nat j) ->
  ks !! j = Some c -> draw bg 0 = inr c.
Proof.
  intros (_ & _ & Hks) Hsd Hc Hj. unfold draw. rewrite Hsd, Hc, <-(Hks j c Hj).
  f_equal. rewrite <-Z.add_assoc, wrap_u32_add_l. f_equal. lia.
Qed.

(** The keys stored so far are among the first [m] draws. *)
Definition stored_before (ks : list (PrivKey * TrieKey)) (m : nat) bg : Prop :=
  forall k, k ∈ key_set (xorTrie bg) -> k ∈ (take m ks).*2.

Lemma first_draw_fresh bg sd n ks j m c :
  fresh_keys sd n ks -> seed bg = sd -> idgenCount bg = wrap_u32 (Z.of_nat j) ->
  stored_before ks m bg -> m <= j -> ks !! j = Some c ->
  first_draw bg 0 /\ draw bg 0 = inr c.
Proof.
  intros Hf Hsd Hc Hst Hm Hj. pose proof (draw_fresh_keys _ _ _ _ _ _ Hf Hsd Hc Hj) as Hd.
  split; [|done]. split; [lia|]. rewrite Hd. destruct c as [pk k]. intros Hin.
  apply Hst in Hin. destruct Hf as (_ & Hnd & _).
  apply list_elem_of_lookup in Hin as [i Hi].
  rewrite list_lookup_fmap, lookup_take in Hi.
  case_decide as Him; [|done].
  assert (i = j); [|lia]. eapply (NoDup_lookup (ks.*2)); [done|..].
  - by rewrite list_lookup_fmap.
  - by rewrite list_lookup_fmap, Hj.
Qed.

(** One [AddBalanced] consumes exactly two draws when they are new. *)
Lemma AddBalanced_fresh fuel bg sd n ks j :
  bg_inv bg -> 0 < fuel -> fresh_keys sd n ks -> seed bg = sd ->
  idgenCount bg = wrap_u32 (Z.of_nat (2 * j)) -> stored_before ks (2 * j) bg ->
  2 * j + 2 <= n ->
  exists bg' c, AddBalanced fuel bg = Ret (bg', inr c.1) /\ bg_inv bg' /\
  (ks !! (2 * j) = Some c \/ ks !! (2 * j + 1) = Some c) /\
  count bg' = (count bg + 1)%Z /\ seed bg' = sd /\
  idgenCount bg' = wrap_u32 (Z.of_nat (2 * (j + 1))) /\
  stored_before ks (2 * (j + 1)) bg'.
Proof.
  intros Hinv Hfuel Hf Hsd Hc Hst Hn. pose proof Hf as (Hlen & _ & _).
  destruct (lookup_lt_is_Some_2 ks (2 * j)) as [[p0 k0] H0]; [lia|].
  destruct (lookup_lt_is_Some_2 ks (2 * j + 1)) as [[p1 k1] H1]; [lia|].
  assert (idgenCount (advance bg 1) = wrap_u32 (Z.of_nat (2 * j + 1))) as Hc1.
  { cbn. rewrite Hc, wrap_u32_add_l. f_equal. lia. }
  destruct (first_draw_fresh bg sd n ks (2 * j) (2 * j) (p0, k0)) as [Hf0 Hd0]; [done..|].
  destruct (first_draw_fresh (advance bg 1) sd n ks (2 * j + 1) (2 * j) (p1, k1)) as [Hf1 Hd1];
    [done..|lia|done|].
  destruct (AddBalanced_ok fuel bg 0 0 p0 k0 p1 k1)
    as (bg' & HA & Hinv' & Hset & Hcnt & Hsd' & Hsalt); [done..|].
  exists bg', (choose (key_set (xorTrie bg)) (p0, k0) (p1, k1)).
  assert (forall c, choose (key_set (xorTrie bg)) (p0, k0) (p1, k1) = c ->
    ks !! (2 * j) = Some c \/ ks !! (2 * j + 1) = Some c) as Hch.
  { unfold choose. intros c <-. case_match; auto. }
  split_and!; [done..|by apply Hch|done|congruence| |].
  - rewrite Hsalt, Hc, wrap_u32_add_l. f_equal. lia.
  - intros k. rewrite Hset, elem_of_union, elem_of_singleton. intros [->|Hk].
    + apply list_elem_of_fmap_2. apply list_elem_of_lookup.
      destruct (Hch _ eq_refl) as [Hi|Hi]; [exists (2 * j)|exists (2 * j + 1)];
        rewrite lookup_take_lt by lia; done.
    + apply Hst in Hk. replace (2 * (j + 1)) with (2 * j + 2) by lia.
      apply list_elem_of_lookup in Hk as [i Hi].
      rewrite list_lookup_fmap, lookup_take in Hi. case_decide; [|done].
      apply list_elem_of_lookup. exists i. by rewrite list_lookup_fmap, lookup_take_lt by lia.
Qed.

Lemma balanced_ids_fresh fuel sd N ks n j bg :
  0 < fuel -> fresh_keys sd (2 * N) ks -> bg_inv bg -> seed bg = sd ->
  idgenCount bg = wrap_u32 (Z.of_nat (2 * j)) -> stored_before ks (2 * j) bg ->
  j + n = N ->
  exists bg' cs, balanced_ids fuel n bg = Ret (bg', inr <$> cs.*1) /\
  length cs = n /\ count bg' = (count bg + Z.of_nat n)%Z /\
  idgenCount bg' = wrap_u32 (Z.of_nat (2 * N)) /\
  forall i c, cs !! i = Some c ->
      ks !! (2 * (j + i)) = Some c \/ ks !! (2 * (j + i) + 1) = Some c.
Proof.
  intros Hfuel Hf. revert j bg.
  induction n as [|n IH]; intros j bg Hinv Hsd Hc Hst Hj; cbn [balanced_ids].
  { exists bg, []. split_and!; [done..|lia|by replace N with j by lia|done]. }
  destruct (AddBalanced_fresh fuel bg sd (2 * N) ks j)
    as (bg1 & c & -> & Hinv1 & Hch & Hcnt1 & Hsd1 & Hc1 & Hst1); [done..|lia|].
  destruct (IH (j + 1) bg1) as (bg2 & cs & HB & Hlen & Hcnt2 & Hc2 & Hcs); [done..|lia|].
  exists bg2, (c :: cs). run. rewrite HB.
  split_and!; [done|simpl; lia|lia|done|]. intros [|i] c' Hc'; simpl in Hc'.
  - rewrite Nat.add_0_r. by simplify_eq.
  - replace (j + S i) with (j + 1 + i) by lia. by apply Hcs.
Qed.
End runs.

(** ** Theorems *)

(** The trie is addressed by the Kademlia ID from its most significant bit
    down: bit [8 * i + j] of a trie key is bit [7 - j] of byte [i] of the ID,
    so the depths of the trie are common prefix lengths of Kademlia IDs. *)
Theorem trie_key_reads_msb_first (kad : list byte) (i j : nat) (b : byte) :
  kad !! i = Some b -> j < 8 ->
  BitAt (reversePerByteBits kad) (8 * i + j) =
    Ret (Z.b2z (N.testbit (Byte.to_N b) (N.of_nat (7 - j)))).
Proof.
  intros Hb Hj. rewrite BitAt_bits, bits_lookup.
  replace ((8 * i + j) `div` 8) with i by (apply (Nat.div_unique _ _ _ j); lia).
  replace ((8 * i + j) `mod` 8) with j
    by (apply (Nat.mod_unique _ _ i); lia).
  unfold reversePerByteBits. rewrite list_lookup_fmap, Hb. simpl. do 2 f_equal.
  pose proof (f_equal (.!! j) (Reverse8_bits b)) as H. cbn beta in H.
  rewrite reverse_lookup in H by (rewrite length_byte_bits; lia).
  rewrite length_byte_bits, !byte_bits_lookup in H by lia.
  by injection H as ->.
Qed.

Lemma trie_key_reads_msb_first_witness :
  BitAt (reversePerByteBits [Byte.x00; Byte.x80]) 8 = Ret 1%Z.
Proof. exact (trie_key_reads_msb_first [Byte.x00; Byte.x80] 1 0 Byte.x80 eq_refl ltac:(lia)). Defined.

Section theorems.
Context `{KML : KeyMaterialLaws PrivKey}.

Implicit Types (bg : BalancedIdentityGenerator).

(** [genUniqueID] returns the first draw whose key is not taken (or
    whose generation fails), with the depth its key would have; it consumes
    exactly the salts up to that draw and leaves the trie and the count as
    they were, although it inserts and removes its candidates. *)
Theorem genUniqueID_first_unused (fuel n : nat) bg :
  bg_inv bg ->
  (forall i, i < n -> used (key_set (xorTrie bg)) (draw bg i)) ->
  ~ used (key_set (xorTrie bg)) (draw bg n) -> n < fuel ->
  exists bg', genUniqueID fuel bg =
      Ret (bg', with_depth (key_set (xorTrie bg)) (draw bg n)) /\
    xorTrie bg' = xorTrie bg /\ count bg' = count bg /\ seed bg' = seed bg /\
    idgenCount bg' = wrap_u32 (idgenCount bg + Z.of_nat (S n)).
Proof.
  intros Hinv Hused Hn Hfuel. exists (advance bg (S n)).
  by rewrite (genUniqueID_ok fuel bg n).
Qed.

(** C26. Termination of the unbounded loop of [genUniqueID]: it ends if and only if one
    of the 2^32 salts gives an identity that is not taken, or fails to give one. It
    then ends at the first such salt: in the first case with that identity and the
    depth its key would have, in the second with the error, whether or not a later
    salt would have given an identity; the trie is as it was. *)
Theorem genUniqueID_terminates_iff bg :
  bg_inv bg ->
  ((exists fuel, genUniqueID fuel bg <> Diverge) <->
   exists n, (Z.of_nat n < 2 ^ 32)%Z /\ first_draw bg n) /\
  forall n fuel, first_draw bg n -> n < fuel -> exists bg', xorTrie bg' = xorTrie bg /\
    match draw bg n with
    | inl err => genUniqueID fuel bg = Ret (bg', inl err)
    | inr (pk, k) => (k ∉ key_set (xorTrie bg)) /\
        genUniqueID fuel bg = Ret (bg', inr (pk, k, set_depth k (key_set (xorTrie bg))))
    end.
Proof.
  intros Hinv. split; [split|].
  - intros [fuel Hfuel].
    destruct (genUniqueID_cases fuel bg Hinv) as [HD|(n & _ & Hfirst & _)]; [done|].
    exists n. split; [|done]. destruct (Z.lt_ge_cases (Z.of_nat n) (2 ^ 32)) as [|Hge]; [done|]. exfalso.
    pose proof (Z.mod_pos_bound (Z.of_nat n) (2 ^ 32) ltac:(lia)). destruct Hfirst as [Hused Hn]. apply Hn.
    rewrite <-(draw_period bg (Z.to_nat (Z.of_nat n mod 2 ^ 32)) n); [apply Hused; lia|].
    by rewrite Z2Nat.id, Z.mod_mod by lia.
  - intros (n & _ & Hn). exists (S n). by rewrite (genUniqueID_ok (S n) bg n) by (done || lia).
  - intros n fuel Hn Hfuel. exists (advance bg (S n)). split; [done|].
    rewrite (genUniqueID_ok fuel bg n) by done. destruct Hn as [_ Hn].
    by destruct (draw bg n) as [err|[pk k]].
Qed.

(** C6. [AddBalanced] is the power of two choices: of the first two unused
    identities it keeps the one whose key lies less deep (the second one on a
    tie), adds exactly this key to the trie, counts it, and consumes the
    salts of both; the other candidate leaves no trace. *)
Theorem AddBalanced_two_choices (fuel n0 n1 : nat) bg p0 k0 p1 k1 :
  bg_inv bg -> n0 < fuel -> n1 < fuel ->
  first_draw bg n0 -> draw bg n0 = inr (p0, k0) ->
  first_draw (advance bg (S n0)) n1 -> draw (advance bg (S n0)) n1 = inr (p1, k1) ->
  let X := key_set (xorTrie bg) in
  exists bg' p k, AddBalanced fuel bg = Ret (bg', inr p) /\
    ((p, k) = (p0, k0) /\ set_depth k0 X < set_depth k1 X \/
     (p, k) = (p1, k1) /\ set_depth k1 X <= set_depth k0 X) /\
    key_set (xorTrie bg') = {[k]} ∪ X /\ count bg' = (count bg + 1)%Z /\ bg_inv bg' /\
    idgenCount bg' = wrap_u32 (idgenCount bg + Z.of_nat (S n0 + S n1)).
Proof.
  intros Hinv Hf0 Hf1 Hn0 Hd0 Hn1 Hd1 X.
  destruct (AddBalanced_ok fuel bg n0 n1 p0 k0 p1 k1)
    as (bg' & HA & Hinv' & Hset & Hcnt & Hsd & Hsalt); [done..|].
  fold X in Hset, HA. unfold choose in *. cbn [fst snd] in *.
  destruct (Nat.ltb_spec (set_depth k0 X) (set_depth k1 X)).
  - exists bg', p0, k0. eauto 10.
  - exists bg', p1, k1. eauto 10.
Qed.

(** C4. Invariant: whatever identities are added and removed, and whatever
    fails, no method panics, the trie stays well formed and holds only keys that
    the 2^32 salts of the seed give, [count], although a machine integer, is the
    number of keys in it, and the salt counter stays a 32-bit number. *)
Theorem generator_invariant (fuel : nat) (sd : list byte) (idOffset : Z)
    (os : list (bg_op PrivKey)) :
  safe bg_inv (bg ← NewBalancedIdentityGeneratorFromSeed fuel sd idOffset; bg_run fuel bg os).
Proof.
  eapply safe_bind; [apply skip_ids_safe, bg_inv_new|]. intros bg Hinv. by apply bg_run_safe.
Qed.

(** An identity added by [AddBalanced] can be taken out again with
    [Remove]: the trie and the count are then exactly those from before. *)
Theorem AddBalanced_then_Remove (fuel : nat) bg bg1 pk :
  bg_inv bg -> AddBalanced fuel bg = Ret (bg1, inr pk) ->
  exists bg2, bgRemove bg1 pk = Ret (bg2, None) /\
    xorTrie bg2 = xorTrie bg /\ count bg2 = count bg.
Proof.
  intros Hinv HA. pose proof (AddBalanced_safe fuel bg Hinv) as HS. rewrite HA in HS.
  destruct HS as (Hinv1 & _ & k & Hk & Hn & Hset).
  destruct (bgRemove_ok bg1 pk k) as (bg2 & HR & Hinv2 & Hset2 & _); [done..|].
  exists bg2. split; [done|]. apply bg_inv_ext; [done..|]. rewrite Hset2, Hset. set_solver.
Qed.

(** The seed and the offset determine the identities: a generator made
    with offset [a] goes through the same states and returns the same
    identities as one made with offset 0 whose first [a] identities are
    dropped. *)
Theorem FromSeed_offset (fuel a n : nat) (sd : list byte) :
  (bg ← NewBalancedIdentityGeneratorFromSeed fuel sd (Z.of_nat a); balanced_ids fuel n bg) =
  ('(bg, rs) ← (bg ← NewBalancedIdentityGeneratorFromSeed fuel sd 0;
                balanced_ids fuel (a + n) bg);
   Ret (bg, drop a rs)).
Proof.
  unfold NewBalancedIdentityGeneratorFromSeed. rewrite Nat2Z.id. by rewrite skip_balanced_ids.
Qed.

(** When the first [2 * N] salts give different identities, [N] calls of
    [AddBalanced] succeed, try [2 * N] candidates, count [N] identities, and
    the [i]-th identity is one of the candidates [2 * i] and [2 * i + 1]. *)
Theorem balanced_ids_use_two_salts (fuel N : nat) (sd : list byte)
    (ks : list (PrivKey * TrieKey)) :
  0 < fuel -> fresh_keys sd (2 * N) ks ->
  exists bg cs,
    (bg ← NewBalancedIdentityGeneratorFromSeed fuel sd 0; balanced_ids fuel N bg) =
      Ret (bg, inr <$> cs.*1) /\
    length cs = N /\ bgCount bg = Z.of_nat N /\
    idgenCount bg = wrap_u32 (Z.of_nat (2 * N)) /\
    forall i c, cs !! i = Some c -> ks !! (2 * i) = Some c \/ ks !! (2 * i + 1) = Some c.
Proof.
  intros Hfuel Hf.
  destruct (balanced_ids_fresh fuel sd N ks N 0 (mkBG NewXorTrie 0 0 sd))
    as (bg & cs & HB & Hlen & Hcnt & Hsalt & Hcs);
    [done..|apply bg_inv_new|done|done|intros k Hk; cbn in Hk; set_solver|done|].
  exists bg, cs. split_and!; [done|done|unfold bgCount; rewrite Hcnt; cbn; lia|done|done].
Qed.
End theorems.

(** ** Witnesses on the concrete key material *)

(** A generator that holds the identity of salt 2 and has used salt 1. *)
Definition sample_key (p : Z) : TrieKey := reversePerByteBits (ConvertPeerID (PrivKey := Z) p).
Definition sample_gen1 : BalancedIdentityGenerator :=
  mkBG (Node nilTrie nilTrie (Some (sample_key 2))) 1 1 [].

Lemma sample_gen1_inv : bg_inv (PrivKey := Z) sample_gen1.
Proof.
  split; [|intros k Hk; exists 2%Z, 2%Z|vm_compute; reflexivity|split; vm_compute; congruence].
  - apply trie_ok_leaf; [simpl; lia|reflexivity|apply prefix_nil].
  - apply elem_of_key_set, list_elem_of_singleton in Hk. subst k. split; [lia|].
    vm_compute. reflexivity.
Qed.

Lemma sample_first_draw : first_draw (PrivKey := Z) sample_gen1 1.
Proof.
  split; [|apply (bool_decide_unpack _); vm_compute; exact I].
  intros i Hi. replace i with 0 by lia. apply (bool_decide_unpack _). vm_compute. exact I.
Qed.

Lemma sample_second_draw : first_draw (PrivKey := Z) (advance sample_gen1 2) 0.
Proof. split; [lia|]. apply (bool_decide_unpack _). vm_compute. exact I. Qed.

Lemma genUniqueID_first_unused_witness :
  exists bg', genUniqueID (PrivKey := Z) 2 sample_gen1 =
      Ret (bg', inr (3%Z, sample_key 3, 8)) /\
    xorTrie bg' = xorTrie sample_gen1 /\ idgenCount bg' = 3%Z.
Proof.
  destruct (genUniqueID_first_unused (PrivKey := Z) 2 1 sample_gen1) as (bg' & HG & Ht & _ & _ & Hs).
  - exact sample_gen1_inv.
  - apply sample_first_draw.
  - apply sample_first_draw.
  - lia.
  - exists bg'. split_and!; [rewrite HG; vm_compute; reflexivity|exact Ht|exact Hs].
Defined.

(** The first draw is taken, the second one is not. *)
Lemma genUniqueID_terminates_iff_witness :
  (exists fuel, genUniqueID (PrivKey := Z) fuel sample_gen1 <> Diverge) /\
  exists bg', genUniqueID (PrivKey := Z) 2 sample_gen1 = Ret (bg', inr (3%Z, sample_key 3, 8)).
Proof.
  destruct (genUniqueID_terminates_iff (PrivKey := Z) sample_gen1 sample_gen1_inv) as [Hiff Hres]. split.
  - apply Hiff. exists 1. split; [lia|exact sample_first_draw].
  - destruct (Hres 1 2 sample_first_draw ltac:(lia)) as (bg' & _ & Hr).
    exists bg'. assert (draw (PrivKey := Z) sample_gen1 1 = inr (3%Z, sample_key 3)) as Hd by (vm_compute; reflexivity).
    rewrite Hd in Hr. destruct Hr as [_ Hr]. rewrite Hr. vm_compute. reflexivity.
Defined.

(** The candidates are the keys 3 and 4, at depths 8 and 6. *)
Lemma AddBalanced_two_choices_witness :
  exists bg', AddBalanced (PrivKey := Z) 2 sample_gen1 = Ret (bg', inr 4%Z) /\
    count bg' = 2%Z /\ idgenCount bg' = 4%Z.
Proof.
  destruct (AddBalanced_two_choices (PrivKey := Z) 2 1 0 sample_gen1
    3%Z (sample_key 3) 4%Z (sample_key 4)) as (bg' & p & k & HA & Hc & _ & Hcnt & _ & Hs).
  - exact sample_gen1_inv.
  - lia.
  - lia.
  - exact sample_first_draw.
  - vm_compute. reflexivity.
  - exact sample_second_draw.
  - vm_compute. reflexivity.
  - destruct Hc as [[Hp Hd]|[Hp _]].
    + vm_compute in Hd. lia.
    + injection Hp as -> ->. exists bg'. split_and!; [exact HA|rewrite Hcnt; reflexivity|].
      rewrite Hs. reflexivity.
Defined.

Lemma generator_invariant_witness :
  safe (bg_inv (PrivKey := Z))
    (bg ← NewBalancedIdentityGeneratorFromSeed (PrivKey := Z) 9 [] 1;
     bg_run 9 bg [CallAddBalanced; CallRemove 2%Z; CallAddUnbalanced]).
Proof.
  exact (generator_invariant (PrivKey := Z) 9 [] 1
    [CallAddBalanced; CallRemove 2%Z; CallAddUnbalanced]).
Defined.

Definition sample_gen2 : BalancedIdentityGenerator :=
  match AddBalanced (PrivKey := Z) 2 sample_gen1 with
  | Ret (bg, _) => bg
  | _ => sample_gen1
  end.

Lemma AddBalanced_then_Remove_witness :
  AddBalanced (PrivKey := Z) 2 sample_gen1 = Ret (sample_gen2, inr 4%Z) /\
  exists bg2, bgRemove sample_gen2 4%Z = Ret (bg2, None) /\ xorTrie bg2 = xorTrie sample_gen1.
Proof.
  assert (AddBalanced (PrivKey := Z) 2 sample_gen1 = Ret (sample_gen2, inr 4%Z)) as HA
    by (vm_compute; reflexivity).
  split; [exact HA|].
  destruct (AddBalanced_then_Remove (PrivKey := Z) 2 sample_gen1 sample_gen2 4%Z sample_gen1_inv HA)
    as (bg2 & HR & Ht & _).
  exists bg2. split; [exact HR|exact Ht].
Defined.

Lemma FromSeed_offset_witness :
  (bg ← NewBalancedIdentityGeneratorFromSeed (PrivKey := Z) 9 [] 1; balanced_ids 9 1 bg) =
  ('(bg, rs) ← (bg ← NewBalancedIdentityGeneratorFromSeed (PrivKey := Z) 9 [] 0;
                balanced_ids 9 2 bg);
   Ret (bg, drop 1 rs)).
Proof. exact (FromSeed_offset (PrivKey := Z) 9 1 1 []). Defined.

Lemma balanced_ids_use_two_salts_witness :
  exists bg cs,
    (bg ← NewBalancedIdentityGeneratorFromSeed (PrivKey := Z) 1 [] 0; balanced_ids 1 2 bg) =
      Ret (bg, inr <$> cs) /\ length cs = 2 /\ idgenCount bg = 4%Z.
Proof.
  destruct (balanced_ids_use_two_salts (PrivKey := Z) 1 2 []
    ((fun p => (p, sample_key p)) <$> [1; 2; 3; 4]%Z)) as (bg & cs & HB & Hlen & _ & Hs & _).
  - lia.
  - split_and!; [reflexivity|apply (bool_decide_unpack _); vm_compute; exact I|].
    intros [|[|[|[|i]]]] c Hc; cbn in Hc; [..|done]; injection Hc as <-; vm_compute; reflexivity.
  - exists bg, cs.*1. split_and!; [exact HB|rewrite length_fmap; exact Hlen|exact Hs].
Defined.
