(* ===== verification/Interfaces.v ===== *)
(** * Interfaces between the components

    [IdentityGenerator] is the interface of src/idgen/idgen.go, with the
    promises its users rely on; [MultiError] is what the code uses of the
    package hashicorp/go-multierror. *)
From S2P Require Import Prelude.

(** ** Identity generators *)

(** The interface [IdentityGenerator]: a state, and its two methods. *)
Class IdentityGenerator (G PrivKey : Type) := {
  ig_AddBalanced : G -> outcome (G * result PrivKey);
  ig_Remove : G -> PrivKey -> outcome (G * option goerror);
}.

(** What an implementation promises, in terms of the set of identities in its
    memory. [AddBalanced] yields an identity that was not there; [Remove] of an
    identity returns, and on success the identity is gone. *)
Class IdentityGeneratorLaws (G PrivKey : Type) `{IdentityGenerator G PrivKey} := {
  ig_inv : G -> Prop;
  ig_ident : PrivKey -> option (list byte);
  ig_mem : G -> gset (list byte);
  ig_AddBalanced_law : forall g, ig_inv g ->
    safe (fun '(g', r) => ig_inv g' /\
      match r with
      | inl _ => ig_mem g' = ig_mem g
      | inr pk => exists k, ig_ident pk = Some k /\ (k ∉ ig_mem g) /\
          ig_mem g' = {[k]} ∪ ig_mem g
      end) (ig_AddBalanced g);
  ig_Remove_law : forall g pk, ig_inv g ->
    exists g' e, ig_Remove g pk = Ret (g', e) /\ ig_inv g' /\
      match e with
      | Some _ => ig_mem g' = ig_mem g
      | None => exists k, ig_ident pk = Some k /\ ig_mem g' = ig_mem g ∖ {[k]}
      end;
}.

(** [crypto.PrivKey.Equals] *)
Class PrivKeyEquals (PrivKey : Type) := {
  Equals : PrivKey -> PrivKey -> bool;
}.
Class PrivKeyEqualsLaws (PrivKey : Type) `{PrivKeyEquals PrivKey} : Prop := {
  Equals_spec : forall a b, Equals a b = true <-> a = b;
}.

(** ** Multi-errors

    A value of type [*multierror.Error] is [option multierror]: [None] is the
    nil pointer. [Append] returns a pointer and cannot change the variable of
    its caller. *)
Class MultiError := {
  multierror : Type;
  multierror_Append : option multierror -> goerror -> option multierror;
  WrappedErrors : option multierror -> list goerror;
  (** The pointer as a value of the interface [error]: never the nil interface. *)
  error_of_multi : option multierror -> goerror;
}.

(** The documented behaviour: [Append] adds to the wrapped errors and never
    returns nil; [WrappedErrors] is safe on nil. *)
Class MultiErrorLaws `{MultiError} : Prop := {
  Append_wrapped : forall m e, WrappedErrors (multierror_Append m e) = WrappedErrors m ++ [e];
  Append_not_nil : forall m e, multierror_Append m e <> None;
  WrappedErrors_nil : WrappedErrors None = [];
}.

(** An instance: the list of the wrapped errors. *)
#[export] Instance list_multierror : MultiError := {|
  multierror := list goerror;
  multierror_Append m e := Some (default [] m ++ [e]);
  WrappedErrors m := default [] m;
  error_of_multi m := ErrorMsg (match m with None => "<nil>" | Some _ => "errors occurred" end);
|}.

#[export] Instance list_multierror_laws : MultiErrorLaws.
Proof. by split. Qed.
