(* ===== verification/IdGenClean.v ===== *)
(** * The cleaning identity generator (src/idgen/cleaning.go)

    A wrapper around any [IdentityGenerator] that remembers the identities it
    has handed out, so that [Clean] can give all of them back. *)
From S2P Require Import Prelude XorTrie TrieSpec IdGen IdGenFacts IdGenSpec Interfaces.

Section cleaning.
Context `{IdentityGenerator G PrivKey} `{PrivKeyEquals PrivKey} `{MultiError}.

Record CleaningIDGenerator := mkCleaning {
  idgen : G;
  cl_keys : list PrivKey;
}.

Definition NewCleaningIDGenerator (g : G) : CleaningIDGenerator := mkCleaning g [].

Definition clAddBalanced (c : CleaningIDGenerator)
    : outcome (CleaningIDGenerator * result PrivKey) :=
  '(g, r) ← ig_AddBalanced (idgen c);
  match r with
  | inl err => Ret (mkCleaning g (cl_keys c), inl err)
  | inr pk => Ret (mkCleaning g (cl_keys c ++ [pk]), inr pk)
  end.

(** The loop that rebuilds [c.keys] without the removed key. *)
Fixpoint without (keys : list PrivKey) (privKey : PrivKey) (acc : list PrivKey) : list PrivKey :=
  match keys with
  | [] => acc
  | pk :: keys =>
      without keys privKey (if negb (Equals pk privKey) then acc ++ [pk] else acc)
  end.

Definition clRemove (c : CleaningIDGenerator) (privKey : PrivKey)
    : outcome (CleaningIDGenerator * option goerror) :=
  '(g, err) ← ig_Remove (idgen c) privKey;
  match err with
  | Some err => Ret (mkCleaning g (cl_keys c), Some err)
  | None => Ret (mkCleaning g (without (cl_keys c) privKey []), None)
  end.

(** The loop of [Clean]. *)
Fixpoint clean_keys (g : G) (keys : list PrivKey) (errs : option multierror)
    : outcome (G * option multierror) :=
  match keys with
  | [] => Ret (g, errs)
  | pk :: keys =>
      '(g, err) ← ig_Remove g pk;
      match err with
      | Some err => clean_keys g keys (multierror_Append errs err)
      | None => clean_keys g keys errs
      end
  end.

Definition Clean (c : CleaningIDGenerator)
    : outcome (CleaningIDGenerator * option multierror) :=
  '(g, errs) ← clean_keys (idgen c) (cl_keys c) None;
  Ret (mkCleaning g [], errs).
End cleaning.
Arguments CleaningIDGenerator : clear implicits.

(** A [CleaningIDGenerator] is itself an [IdentityGenerator]. *)
#[export] Instance cleaning_generator `{IdentityGenerator G PrivKey} `{PrivKeyEquals PrivKey} :
  IdentityGenerator (CleaningIDGenerator G PrivKey) PrivKey := {|
  ig_AddBalanced := clAddBalanced;
  ig_Remove := clRemove;
|}.

(** The balanced generator, with a bound on the tries of its loop. *)
#[export] Instance balanced_generator (fuel : nat) `{KeyMaterial PrivKey} :
  IdentityGenerator BalancedIdentityGenerator PrivKey := {|
  ig_AddBalanced := AddBalanced fuel;
  ig_Remove := bgRemove;
|}.

(** ** The balanced generator keeps the promises of the interface *)

#[export] Instance balanced_generator_laws (fuel : nat) `{KML : KeyMaterialLaws PrivKey} :
  @IdentityGeneratorLaws BalancedIdentityGenerator PrivKey (balanced_generator fuel).
Proof.
  refine (Build_IdentityGeneratorLaws _ _ (balanced_generator fuel) bg_inv
    (fun pk => match privKeyToTrieKey pk with inl _ => None | inr k => Some k end)
    (fun bg => key_set (xorTrie bg)) _ _).
  - intros bg Hinv. eapply safe_mono; [|by apply (AddBalanced_safe fuel)].
    intros [bg' [err|pk]] (Hinv' & _ & Hr); split; [done| |done|].
    + destruct Hr as [m ->]. done.
    + destruct Hr as (k & Hk & ? & ?). exists k. by rewrite Hk.
  - intros bg pk Hinv. cbn [ig_Remove balanced_generator].
    destruct (privKeyToTrieKey pk) as [err|k] eqn:Hk.
    + exists bg, (Some err). unfold bgRemove. by rewrite Hk.
    + destruct (bgRemove_ok bg pk k) as (bg' & -> & Hinv' & Hset & _); [done..|].
      exists bg', None. eauto.
Defined.

(** ** Sessions of a cleaning generator *)

Section sessions.
Context `{IGL : IdentityGeneratorLaws G PrivKey} `{PKE : PrivKeyEqualsLaws PrivKey}
  `{MEL : MultiErrorLaws}.

Implicit Types (c : CleaningIDGenerator G PrivKey) (g : G) (ks : list PrivKey).

(** The identities of a list of keys. *)
Definition idents ks : list (list byte) := omap ig_ident ks.
Definition own ks : gset (list byte) := list_to_set (idents ks).

#[local] Arguments own : simpl never.
#[local] Arguments idents : simpl never.

Lemma elem_of_own ks k : k ∈ own ks <-> exists pk, pk ∈ ks /\ ig_ident pk = Some k.
Proof. unfold own, idents. by rewrite elem_of_list_to_set, list_elem_of_omap. Qed.

(** A client adds identities, and removes identities it has got. *)
Inductive cl_step : CleaningIDGenerator G PrivKey -> CleaningIDGenerator G PrivKey -> Prop :=
| cl_step_add c c' r : clAddBalanced c = Ret (c', r) -> cl_step c c'
| cl_step_remove c c' pk e :
    pk ∈ cl_keys c -> clRemove c pk = Ret (c', e) -> cl_step c c'.

(** [M] is the memory of the underlying generator that is not the client's. *)
Record cl_inv (M : gset (list byte)) c : Prop := {
  cl_inner : ig_inv (idgen c);
  cl_known : Forall (fun pk => is_Some (ig_ident pk)) (cl_keys c);
  cl_nodup : NoDup (idents (cl_keys c));
  cl_disjoint : M ## own (cl_keys c);
  cl_mem : ig_mem (idgen c) = M ∪ own (cl_keys c);
}.

Lemma without_filter ks pk acc :
  without ks pk acc = acc ++ filter (fun x => Equals x pk = false) ks.
Proof.
  revert acc. induction ks as [|x ks IH]; intros acc; simpl; [by rewrite app_nil_r|].
  rewrite IH, filter_cons. destruct (Equals x pk) eqn:He; simpl; [done|].
  by rewrite <-app_assoc.
Qed.

Lemma elem_of_without ks pk x : x ∈ without ks pk [] <-> x ∈ ks /\ x <> pk.
Proof.
  rewrite without_filter. simpl. rewrite list_elem_of_filter.
  destruct (Equals x pk) eqn:He; [apply Equals_spec in He|]; [naive_solver|].
  split; [|naive_solver]. intros [_ Hx]. split; [done|]. intros ->.
  by rewrite (proj2 (Equals_spec pk pk)) in He.
Qed.

Lemma idents_without_sublist ks pk : idents (without ks pk []) `sublist_of` idents ks.
Proof.
  rewrite without_filter. simpl. unfold idents.
  induction ks as [|x ks IH]; [done|]. rewrite filter_cons. simpl.
  destruct (decide (Equals x pk = false)); simpl; destruct (ig_ident x);
    by repeat constructor.
Qed.

(** Different keys of a session have different identities. *)
Lemma idents_inj ks x y k :
  NoDup (idents ks) -> x ∈ ks -> y ∈ ks -> ig_ident x = Some k -> ig_ident y = Some k ->
  x = y.
Proof.
  intros Hnd Hx Hy Hkx Hky. revert Hnd Hx Hy.
  assert (forall z zs, z ∈ zs -> ig_ident z = Some k -> k ∈ idents zs) as Hin
    by (intros; apply list_elem_of_omap; eauto).
  induction ks as [|z ks IH]; intros Hnd Hx Hy; [by apply not_elem_of_nil in Hx|].
  unfold idents in Hnd, Hin. simpl in Hnd.
  apply elem_of_cons in Hx as [->|Hx]; apply elem_of_cons in Hy as [->|Hy]; [done| | |].
  - rewrite Hkx in Hnd. apply NoDup_cons in Hnd as [[] _]. by eapply Hin.
  - rewrite Hky in Hnd. apply NoDup_cons in Hnd as [[] _]. by eapply Hin.
  - apply IH; [|done..]. destruct (ig_ident z); [by apply NoDup_cons in Hnd as [_ ?]|done].
Qed.

Lemma cl_inv_new g : ig_inv g -> cl_inv (ig_mem g) (NewCleaningIDGenerator g).
Proof. intros. by split; cbn; [..|constructor|set_solver|set_solver]. Qed.

Lemma own_snoc ks pk k : ig_ident pk = Some k -> own (ks ++ [pk]) = {[k]} ∪ own ks.
Proof.
  intros Hk. apply set_eq. intros k'. rewrite elem_of_union, elem_of_singleton, !elem_of_own.
  setoid_rewrite elem_of_app. setoid_rewrite list_elem_of_singleton. naive_solver.
Qed.

Lemma cl_inv_add M c :
  cl_inv M c -> safe (fun '(c', _) => cl_inv M c') (clAddBalanced c).
Proof.
  intros [Hin Hkn Hnd Hdis Hmem]. unfold clAddBalanced.
  eapply safe_bind; [by apply ig_AddBalanced_law|]. intros [g [err|pk]] [Hg Hr]; cbn.
  - split; cbn; [done..|]. by rewrite Hr.
  - destruct Hr as (k & Hk & Hn & Hset). rewrite Hmem in Hn.
    split; cbn; rewrite ?(own_snoc _ _ _ Hk).
    + done.
    + apply Forall_app. split; [done|]. apply Forall_singleton. by exists k.
    + unfold idents. rewrite omap_app. simpl. rewrite Hk.
      apply NoDup_app. split_and!; [done| |apply NoDup_singleton].
      intros k' Hk' ->%list_elem_of_singleton. apply Hn. apply elem_of_union_r.
      by apply elem_of_list_to_set.
    + by apply disjoint_grow.
    + rewrite Hset, Hmem. apply union_grow.
Qed.

Lemma cl_inv_remove M c pk :
  cl_inv M c -> pk ∈ cl_keys c ->
  exists c' e, clRemove c pk = Ret (c', e) /\ cl_inv M c'.
Proof.
  intros [Hin Hkn Hnd Hdis Hmem] Hpk. unfold clRemove.
  destruct (ig_Remove_law (idgen c) pk Hin) as (g & e & -> & Hg & Hr). cbn.
  destruct e as [err|].
  { do 2 eexists. split; [done|]. split; cbn; [done..|]. by rewrite Hr. }
  do 2 eexists. split; [done|]. destruct Hr as (k & Hk & Hset).
  assert (forall k', k' ∈ own (without (cl_keys c) pk []) <-> k' ∈ own (cl_keys c) /\ k' <> k)
    as Hown.
  { intros k'. rewrite !elem_of_own. setoid_rewrite elem_of_without. split.
    - intros (x & [Hx Hne] & Hkx). split; [by exists x|]. intros ->. apply Hne.
      by eapply idents_inj.
    - intros [(x & Hx & Hkx) Hne]. exists x. split_and!; [done| |done].
      intros ->. congruence. }
  split; cbn.
  - done.
  - apply Forall_forall. intros x [Hx _]%elem_of_without.
    rewrite Forall_forall in Hkn. by apply Hkn.
  - eapply sublist_NoDup; [done|apply idents_without_sublist].
  - by eapply disjoint_shrink.
  - rewrite Hset, Hmem. apply union_shrink; [done| |done]. apply elem_of_own. eauto.
Qed.

Lemma cl_inv_step M c c' : cl_step c c' -> cl_inv M c -> cl_inv M c'.
Proof.
  destruct 1 as [c c' r HA|c c' pk e Hpk HR]; intros Hinv.
  - pose proof (cl_inv_add M c Hinv) as HS. by rewrite HA in HS.
  - destruct (cl_inv_remove M c pk Hinv Hpk) as (c'' & e' & HR' & ?). congruence.
Qed.

Lemma cl_inv_steps M c c' : rtc cl_step c c' -> cl_inv M c -> cl_inv M c'.
Proof. induction 1; eauto using cl_inv_step. Qed.

(** ** The loop of [Clean] *)

Lemma idents_cons ks pk k : ig_ident pk = Some k -> idents (pk :: ks) = k :: idents ks.
Proof. intros Hk. unfold idents. simpl. by rewrite Hk. Qed.

Lemma own_cons ks pk k : ig_ident pk = Some k -> own (pk :: ks) = {[k]} ∪ own ks.
Proof. intros Hk. unfold own. by rewrite (idents_cons _ _ _ Hk). Qed.

(** The keys whose removal fails stay in the memory of the underlying
    generator; each of them leaves one wrapped error. *)
Lemma clean_keys_ok ks : forall M g errs,
  ig_inv g -> Forall (fun pk => is_Some (ig_ident pk)) ks -> NoDup (idents ks) ->
  M ## own ks -> ig_mem g = M ∪ own ks ->
  exists g' errs' failed, clean_keys g ks errs = Ret (g', errs') /\ ig_inv g' /\
    ig_mem g' = M ∪ list_to_set failed /\ failed `sublist_of` idents ks /\
    length (WrappedErrors errs') = length (WrappedErrors errs) + length failed /\
    (errs' = None <-> errs = None /\ failed = []).
Proof.
  induction ks as [|pk ks IH]; intros M g errs Hg Hkn Hnd Hdis Hmem; cbn [clean_keys].
  { exists g, errs, []. split_and!; [done..|simpl; lia|naive_solver]. }
  apply Forall_cons in Hkn as [[k Hk] Hkn].
  rewrite (idents_cons _ _ _ Hk) in Hnd |- *. rewrite (own_cons _ _ _ Hk) in Hdis, Hmem.
  apply NoDup_cons in Hnd as [Hn Hnd].
  assert (k ∉ own ks) as Hno by (intros Ho; by apply elem_of_list_to_set in Ho).
  destruct (ig_Remove_law g pk Hg) as (g1 & e & -> & Hg1 & Hr). run.
  destruct e as [err|].
  - destruct (IH ({[k]} ∪ M) g1 (multierror_Append errs err))
      as (g' & errs' & failed & HC & Hg' & Hm' & Hsub & Hlen & Hnone); [done..| | |].
    { revert Hdis Hno. clear. set_solver. }
    { rewrite Hr, Hmem. clear. set_solver. }
    exists g', errs', (k :: failed). split_and!; [done..| | | |].
    + rewrite Hm'. simpl. clear. set_solver.
    + by constructor.
    + rewrite Hlen, Append_wrapped, length_app. simpl. lia.
    + split; [|naive_solver]. intros [Ha _]%Hnone. by apply Append_not_nil in Ha.
  - destruct Hr as (k' & Hk' & Hset). assert (k' = k) as -> by congruence.
    destruct (IH M g1 errs) as (g' & errs' & failed & HC & Hg' & Hm' & Hsub & Hlen & Hnone);
      [done..| | |].
    { revert Hdis. clear. set_solver. }
    { rewrite Hset, Hmem. revert Hdis Hno. clear. set_solver. }
    exists g', errs', failed. split_and!; [done..|by constructor|done|done].
Qed.

(** When no removal fails, nothing is left and there is no error. *)
Lemma clean_keys_total ks : forall g errs,
  (forall g pk, ig_inv g -> is_Some (ig_ident pk) ->
    exists g', ig_Remove g pk = Ret (g', None)) ->
  ig_inv g -> Forall (fun pk => is_Some (ig_ident pk)) ks ->
  exists g', clean_keys g ks errs = Ret (g', errs).
Proof.
  induction ks as [|pk ks IH]; intros g errs Htot Hg Hkn; cbn [clean_keys]; [by eauto|].
  apply Forall_cons in Hkn as [Hk Hkn].
  destruct (Htot g pk Hg Hk) as [g1 HR]. rewrite HR. run.
  destruct (ig_Remove_law g pk Hg) as (g2 & e & HR' & Hg2 & _).
  rewrite HR in HR'. simplify_eq. by apply IH.
Qed.
End sessions.

(** A cleaning generator keeps the promises of its underlying generator. *)
#[export] Instance cleaning_generator_laws `{IGL : IdentityGeneratorLaws G PrivKey}
    `{PKE : PrivKeyEquals PrivKey} :
  IdentityGeneratorLaws (CleaningIDGenerator G PrivKey) PrivKey.
Proof.
  refine (Build_IdentityGeneratorLaws _ _ cleaning_generator
    (fun c => ig_inv (idgen c)) ig_ident (fun c => ig_mem (idgen c)) _ _).
  - intros c Hinv. cbn [ig_AddBalanced cleaning_generator]. unfold clAddBalanced.
    eapply safe_bind; [by apply ig_AddBalanced_law|]. by intros [g [err|pk]] [Hg Hr].
  - intros c pk Hinv. cbn [ig_Remove cleaning_generator]. unfold clRemove.
    destruct (ig_Remove_law (idgen c) pk Hinv) as (g & e & -> & Hg & Hr). cbn.
    by destruct e as [err|]; do 2 eexists.
Defined.

(** ** Theorems *)

Section theorems.
Context `{IGL : IdentityGeneratorLaws G PrivKey} `{PKE : PrivKeyEqualsLaws PrivKey}
  `{MEL : MultiErrorLaws}.

(** C16. After any session of additions and removals, over any lawful
    generator, [Clean] returns and forgets every key; what is left in the
    underlying memory is what was there before the session plus exactly the
    identities whose removal failed, each of which is reported once. *)
Theorem Clean_after_session (g : G) (c : CleaningIDGenerator G PrivKey) :
  ig_inv g -> rtc cl_step (NewCleaningIDGenerator g) c ->
  exists c' errs failed, Clean c = Ret (c', errs) /\ cl_keys c' = [] /\
    ig_mem (idgen c') = ig_mem g ∪ list_to_set failed /\
    failed `sublist_of` idents (cl_keys c) /\
    length (WrappedErrors errs) = length failed /\ (errs = None <-> failed = []).
Proof.
  intros Hg Hsteps.
  pose proof (cl_inv_steps _ _ _ Hsteps (cl_inv_new g Hg)) as [Hin Hkn Hnd Hdis Hmem].
  destruct (clean_keys_ok (cl_keys c) (ig_mem g) (idgen c) None)
    as (g' & errs & failed & HC & _ & Hm & Hsub & Hlen & Hnone); [done..|].
  exists (mkCleaning g' []), errs, failed. unfold Clean. rewrite HC.
  rewrite WrappedErrors_nil in Hlen. split_and!; [done..|]. naive_solver.
Qed.

(** On the balanced generator a session followed by [Clean] leaves no
    trace: no error, and the trie and the count are those from before. *)
Theorem Clean_restores_balanced `{KML : KeyMaterialLaws PrivKey} (fuel : nat)
    (bg : BalancedIdentityGenerator)
    (c : CleaningIDGenerator BalancedIdentityGenerator PrivKey) :
  bg_inv bg ->
  rtc (cl_step (H := balanced_generator fuel)) (NewCleaningIDGenerator bg) c ->
  exists c', Clean (H := balanced_generator fuel) c = Ret (c', None) /\ cl_keys c' = [] /\
    xorTrie (idgen c') = xorTrie bg /\ count (idgen c') = count bg.
Proof.
  intros Hg Hsteps.
  pose proof (cl_inv_steps (IGL := balanced_generator_laws fuel) _ _ _ Hsteps
    (cl_inv_new (IGL := balanced_generator_laws fuel) bg Hg)) as [Hin Hkn Hnd Hdis Hmem].
  destruct (clean_keys_total (IGL := balanced_generator_laws fuel) (cl_keys c) (idgen c) None)
    as [g' HC]; [|done..|].
  { intros g pk Hgi [k Hk]. cbn in Hk.
    destruct (privKeyToTrieKey pk) as [|k'] eqn:Hpk; [done|].
    destruct (bgRemove_ok g pk k') as (g' & HR & _); [done..|]. by exists g'. }
  destruct (clean_keys_ok (IGL := balanced_generator_laws fuel) (cl_keys c)
    (ig_mem (IdentityGeneratorLaws := balanced_generator_laws fuel) bg) (idgen c) None)
    as (g'' & errs & failed & HC' & Hinv & Hm & _ & _ & Hnone); [done..|].
  rewrite HC in HC'. simplify_eq. destruct (proj1 Hnone eq_refl) as [_ ->].
  change (key_set (xorTrie g'') = key_set (xorTrie bg) ∪ ∅) in Hm.
  rewrite (right_id_L ∅ (∪)) in Hm.
  destruct (bg_inv_ext g'' bg Hinv Hg Hm) as [Ht Hc].
  exists (mkCleaning g'' []). unfold Clean. by rewrite HC.
Qed.
End theorems.

(** ** Witnesses *)

#[export] Instance Z_Equals : PrivKeyEquals Z := {| Equals := Z.eqb |}.
#[export] Instance Z_Equals_laws : PrivKeyEqualsLaws Z.
Proof. split. apply Z.eqb_eq. Qed.

(** A session on the generator that holds the identity 2: it adds one identity
    and another one, and removes the first. *)
Abbreviation sample_cleaning :=
  (CleaningIDGenerator BalancedIdentityGenerator Z).

Definition sample_c0 : sample_cleaning := NewCleaningIDGenerator sample_gen1.
Definition sample_c1 : sample_cleaning := Eval vm_compute in
  match clAddBalanced (H := balanced_generator 9) sample_c0 with
  | Ret (c, _) => c | _ => sample_c0 end.
Definition sample_c2 : sample_cleaning := Eval vm_compute in
  match clAddBalanced (H := balanced_generator 9) sample_c1 with
  | Ret (c, _) => c | _ => sample_c0 end.
Definition sample_c3 : sample_cleaning := Eval vm_compute in
  match clRemove (H := balanced_generator 9) sample_c2 4%Z with
  | Ret (c, _) => c | _ => sample_c0 end.

Lemma sample_session_steps : rtc (cl_step (H := balanced_generator 9)) sample_c0 sample_c3.
Proof.
  apply (rtc_l _ _ sample_c1); [apply (cl_step_add _ _ (inr 4%Z)); vm_compute; reflexivity|].
  apply (rtc_l _ _ sample_c2); [apply (cl_step_add _ _ (inr 1%Z)); vm_compute; reflexivity|].
  apply (rtc_l _ _ sample_c3); [|apply rtc_refl].
  apply (cl_step_remove _ _ 4%Z None); [|vm_compute; reflexivity].
  apply (bool_decide_unpack _). vm_compute. exact I.
Qed.

Lemma Clean_restores_balanced_witness :
  length (cl_keys sample_c3) = 1 /\
  exists c', Clean (H := balanced_generator 9) sample_c3 = Ret (c', None) /\
    xorTrie (idgen c') = xorTrie sample_gen1 /\ count (idgen c') = 1%Z.
Proof.
  split; [reflexivity|].
  destruct (Clean_restores_balanced 9 sample_gen1 sample_c3 sample_gen1_inv sample_session_steps)
    as (c' & HC & _ & Ht & Hcnt).
  exists c'. split_and!; [exact HC|exact Ht|exact Hcnt].
Defined.

(** A generator whose [Remove] always fails: every identity is reported. *)
Definition stuck_generator : IdentityGenerator (list nat) nat := {|
  ig_AddBalanced g := Ret (length g :: g, inr (length g));
  ig_Remove g pk := Ret (g, Some (ErrorMsg "unreachable"));
|}.

Definition nat_ident (n : nat) : option (list byte) := Some (replicate n Byte.x00).

Definition stuck_laws : @IdentityGeneratorLaws (list nat) nat stuck_generator.
Proof.
  refine (Build_IdentityGeneratorLaws _ _ stuck_generator (fun g => forall n, n ∈ g -> n < length g)
    nat_ident (fun g => list_to_set (omap nat_ident g)) _ _).
  - intros g Hg. split.
    + intros n [->|Hn]%elem_of_cons; simpl; [lia|]. apply Hg in Hn. lia.
    + exists (replicate (length g) Byte.x00). split_and!; [done| |done].
      rewrite elem_of_list_to_set, list_elem_of_omap. intros (n & Hn & Heq).
      apply Hg in Hn. injection Heq as Heq. apply (f_equal length) in Heq.
      rewrite !length_replicate in Heq. lia.
  - intros g pk Hg. do 2 eexists. split; [reflexivity|done].
Defined.

#[export] Instance nat_Equals : PrivKeyEquals nat := {| Equals := Nat.eqb |}.
#[export] Instance nat_Equals_laws : PrivKeyEqualsLaws nat.
Proof. split. apply Nat.eqb_eq. Qed.

Lemma Clean_after_session_witness :
  exists c' errs (failed : list (list byte)),
    Clean (H := stuck_generator) (mkCleaning [0] [0]) = Ret (c', errs) /\
    length (WrappedErrors errs) = length failed /\ (errs = None <-> failed = []).
Proof.
  destruct (Clean_after_session (IGL := stuck_laws) [] (mkCleaning [0] [0]))
    as (c' & errs & failed & HC & _ & _ & _ & Hlen & Hn).
  - intros n Hn. inversion Hn.
  - eapply rtc_l; [|apply rtc_refl]. eapply cl_step_add. reflexivity.
  - exists c', errs, failed. split_and!; [exact HC|exact Hlen|exact Hn].
Defined.
