(* ===== verification/IdGenRace.v ===== *)
(** * A cleaning generator that is shared by goroutines (src/idgen/cleaning.go)

    [AddBalanced] and [Remove] call the underlying generator before they take the
    lock, [Clean] holds the lock while it calls it. IdGenClean has the methods as
    single steps; here every one of them is cut where another goroutine can run:
    at the calls of the underlying generator, which has a lock of its own, and at
    the lock. *)
From S2P Require Import Prelude XorTrie TrieSpec IdGen IdGenFacts IdGenSpec Interfaces IdGenClean.

Section race.
Context `{IGL : IdentityGeneratorLaws G PrivKey} `{PKE : PrivKeyEqualsLaws PrivKey}
  `{MEL : MultiErrorLaws}.

(** The generator with the calls under way: the identities of the calls of
    [AddBalanced] and [Remove] that have not taken the lock yet, and, when a
    [Clean] holds the lock, what its loop has still to do with its errors.
    [sh_out] and [sh_reports] are what the callers have got from [AddBalanced]
    and [Clean]. *)
Record shared := mkShared {
  sh_idgen : G;
  sh_keys : list PrivKey;
  sh_adding : list PrivKey;
  sh_removing : list PrivKey;
  sh_cleaning : option (list PrivKey * option multierror);
  sh_out : list PrivKey;
  sh_reports : list (option multierror);
}.

Definition share (c : CleaningIDGenerator G PrivKey) (out : list PrivKey) : shared :=
  mkShared (idgen c) (cl_keys c) [] [] None out [].

(** One stretch of code of one goroutine. Callers remove identities that they
    have got. *)
Inductive race_step : shared -> shared -> Prop :=
| race_add_err g ks ad rm cl out rep g' err :
    ig_AddBalanced g = Ret (g', inl err) ->
    race_step (mkShared g ks ad rm cl out rep) (mkShared g' ks ad rm cl out rep)
| race_add_draw g ks ad rm cl out rep g' pk :
    ig_AddBalanced g = Ret (g', inr pk) ->
    race_step (mkShared g ks ad rm cl out rep) (mkShared g' ks (pk :: ad) rm cl out rep)
| race_add_return g ks ad1 pk ad2 rm out rep :
    race_step (mkShared g ks (ad1 ++ pk :: ad2) rm None out rep)
      (mkShared g (ks ++ [pk]) (ad1 ++ ad2) rm None (pk :: out) rep)
| race_remove_err g ks ad rm cl out rep g' pk err :
    pk ∈ out -> ig_Remove g pk = Ret (g', Some err) ->
    race_step (mkShared g ks ad rm cl out rep) (mkShared g' ks ad rm cl out rep)
| race_remove_done g ks ad rm cl out rep g' pk :
    pk ∈ out -> ig_Remove g pk = Ret (g', None) ->
    race_step (mkShared g ks ad rm cl out rep) (mkShared g' ks ad (pk :: rm) cl out rep)
| race_remove_return g ks ad rm1 pk rm2 out rep :
    race_step (mkShared g ks ad (rm1 ++ pk :: rm2) None out rep)
      (mkShared g (without ks pk []) ad (rm1 ++ rm2) None out rep)
| race_clean_lock g ks ad rm out rep :
    race_step (mkShared g ks ad rm None out rep)
      (mkShared g ks ad rm (Some (ks, None)) out rep)
| race_clean_remove g ks ad rm pk todo errs out rep g' e :
    ig_Remove g pk = Ret (g', e) ->
    race_step (mkShared g ks ad rm (Some (pk :: todo, errs)) out rep)
      (mkShared g' ks ad rm
        (Some (todo, match e with Some err => multierror_Append errs err | None => errs end))
        out rep)
| race_clean_unlock g ks ad rm errs out rep :
    race_step (mkShared g ks ad rm (Some ([], errs)) out rep)
      (mkShared g [] ad rm None out (rep ++ [errs])).

(** The identity that a step draws while a [Remove] of it is under way: the generator
    has it no more, and the [Remove] has not taken the lock yet. It will take the new
    identity out of [c.keys] with the old one, so that no [Clean] finds it. (The
    balanced generator draws with an increasing salt and comes back to an identity
    only after 2^32 draws.) *)
Definition redrawn (s s' : shared) : list (list byte) :=
  match sh_adding s' with
  | pk :: _ =>
      if length (sh_adding s) <? length (sh_adding s')
      then filter (fun k => k ∈ idents (sh_removing s)) (idents [pk]) else []
  | [] => []
  end.

(** A run, with the identities drawn while they were being removed. *)
Inductive race_run (s : shared) : list (list byte) -> shared -> Prop :=
| race_run_refl : race_run s [] s
| race_run_step rs s1 s2 :
    race_run s rs s1 -> race_step s1 s2 -> race_run s (redrawn s1 s2 ++ rs) s2.

(** ** The methods of IdGenClean are the runs without interference *)

Lemma race_clean_loop ks ad rm out rep todo : forall g errs g' errs',
  clean_keys g todo errs = Ret (g', errs') ->
  rtc race_step (mkShared g ks ad rm (Some (todo, errs)) out rep)
    (mkShared g' ks ad rm (Some ([], errs')) out rep).
Proof.
  induction todo as [|pk todo IH]; intros g errs g' errs' HC; cbn [clean_keys] in HC.
  { simplify_eq. apply rtc_refl. }
  destruct (ig_Remove g pk) as [[g1 e]| |] eqn:HR; [|done..]. revert HC. run. intros HC.
  eapply rtc_l; [by apply race_clean_remove|]. destruct e as [err|]; by apply IH.
Qed.

Lemma race_Clean c c' out errs :
  Clean c = Ret (c', errs) ->
  rtc race_step (share c out)
    (mkShared (idgen c') (cl_keys c') [] [] None out [errs]).
Proof.
  unfold Clean, share.
  destruct (clean_keys (idgen c) (cl_keys c) None) as [[g e]| |] eqn:HC; [|done..].
  run. intros [= <- <-]. eapply rtc_l; [apply race_clean_lock|].
  eapply rtc_r; [by apply race_clean_loop|]. apply (race_clean_unlock _ _ _ _ _ _ []).
Qed.

Lemma race_AddBalanced c c' out r :
  clAddBalanced c = Ret (c', r) ->
  rtc race_step (share c out)
    (share c' (match r with inr pk => pk :: out | inl _ => out end)).
Proof.
  unfold clAddBalanced, share.
  destruct (ig_AddBalanced (idgen c)) as [[g [err|pk]]| |] eqn:HA; [| |done..]; run;
    intros [= <- <-]; [apply rtc_once; by eapply race_add_err|].
  eapply rtc_l; [by apply race_add_draw|].
  apply rtc_once. apply (race_add_return _ _ [] pk []).
Qed.

Lemma race_Remove c c' out pk e :
  pk ∈ out -> clRemove c pk = Ret (c', e) -> rtc race_step (share c out) (share c' out).
Proof.
  intros Hout. unfold clRemove, share.
  destruct (ig_Remove (idgen c) pk) as [[g [err|]]| |] eqn:HR; [| |done..]; run;
    intros [= <- <-].
  - apply rtc_once. by eapply race_remove_err.
  - eapply rtc_l; [by eapply race_remove_done|]. apply rtc_once.
    apply (race_remove_return _ _ _ [] pk []).
Qed.

(** A session of IdGenClean, followed by [Clean] or not, is one of these runs. *)
Lemma race_session c c' out :
  rtc cl_step c c' -> cl_keys c ⊆ out ->
  exists out', rtc race_step (share c out) (share c' out') /\ cl_keys c' ⊆ out'.
Proof.
  intros Hsteps. revert out.
  induction Hsteps as [c|c c1 c' Hstep _ IH]; intros out Hout; [by eauto using rtc_refl|].
  assert (exists out1, rtc race_step (share c out) (share c1 out1) /\ cl_keys c1 ⊆ out1)
    as (out1 & Hrun1 & Hout1).
  { destruct Hstep as [c c1 r HA|c c1 pk e Hpk HR].
    - eexists. split; [by eapply race_AddBalanced|]. revert HA. unfold clAddBalanced.
      destruct (ig_AddBalanced _) as [[g [err|pk]]| |]; run; intros; simplify_eq; set_solver.
    - exists out. split; [by eapply race_Remove; [apply Hout|]|]. revert HR. unfold clRemove.
      destruct (ig_Remove _ pk) as [[g [err|]]| |]; run; intros; simplify_eq; cbn; [done|].
      intros x [Hx _]%elem_of_without. auto. }
  destruct (IH out1 Hout1) as (out' & Hrun & Hout'). exists out'.
  split; [by etrans|done].
Qed.

(** ** The invariant *)

(** [M] is what the memory holds besides; [kept] are the identities whose removal
    by a [Clean] failed. *)
Definition foreign (M : gset (list byte)) (pk : PrivKey) : Prop :=
  exists k, ig_ident pk = Some k /\ k ∉ M.

(** What a [Clean] under way has still to remove, or the next one will have. *)
Definition pending (s : shared) : list PrivKey :=
  match sh_cleaning s with Some (todo, _) => todo | None => sh_keys s end.

(** The errors that [Clean]s have reported or collected. *)
Definition errors_of (s : shared) : nat :=
  length (concat (WrappedErrors <$> sh_reports s)) +
  match sh_cleaning s with Some (_, errs) => length (WrappedErrors errs) | None => 0 end.

Record race_inv (M : gset (list byte)) (kept rs : list (list byte)) (s : shared) : Prop := {
  ri_inner : ig_inv (sh_idgen s);
  ri_keys : Forall (foreign M) (sh_keys s);
  ri_adding : Forall (foreign M) (sh_adding s);
  ri_out : Forall (foreign M) (sh_out s);
  ri_pending : Forall (foreign M) (pending s);
  ri_removed : Forall (fun pk => forall k, ig_ident pk = Some k -> k ∈ ig_mem (sh_idgen s) -> k ∈ rs)
    (sh_removing s);
  ri_lower : M ⊆ ig_mem (sh_idgen s);
  ri_upper : ig_mem (sh_idgen s) ⊆
    M ∪ own (pending s) ∪ own (sh_adding s) ∪ list_to_set kept ∪ list_to_set rs;
  ri_errors : length kept = errors_of s;
}.

#[local] Arguments own : simpl never.

Lemma own_app ks1 ks2 : own (ks1 ++ ks2) = own ks1 ∪ own ks2.
Proof. unfold own, idents. by rewrite omap_app, list_to_set_app_L. Qed.

Lemma own_nil : own [] = (∅ : gset (list byte)).
Proof. done. Qed.

(** Removing an identity that is foreign to [M] leaves [M] there. *)
Lemma lower_remove (M m : gset (list byte)) (pk : PrivKey) k :
  M ⊆ m -> foreign M pk -> ig_ident pk = Some k -> M ⊆ m ∖ {[k]}.
Proof. intros HM (k' & Hk & Hn) Hk'. assert (k = k') as -> by congruence. set_solver. Qed.

Lemma removed_shrink (m m' : gset (list byte)) (rs : list (list byte)) (rm : list PrivKey) :
  m' ⊆ m -> Forall (fun pk => forall k, ig_ident pk = Some k -> k ∈ m -> k ∈ rs) rm ->
  Forall (fun pk => forall k, ig_ident pk = Some k -> k ∈ m' -> k ∈ rs) rm.
Proof.
  intros Hm HF. eapply Forall_impl; [exact HF|]. intros pk Hpk k Hk Hin. by eapply Hpk, Hm.
Qed.

Lemma inv_more M kept rs rs' s : race_inv M kept rs s -> race_inv M kept (rs' ++ rs) s.
Proof.
  intros [Hin Hfk Hfa Hfo Hfp Hr Hl Hu He]. split; try assumption.
  - eapply Forall_impl; [exact Hr|]. intros pk Hpk k Hk Hm. apply elem_of_app. right. by eapply Hpk.
  - rewrite list_to_set_app_L. etrans; [exact Hu|]. apply union_mono_l, union_subseteq_r.
Qed.

Lemma redrawn_elem g g' ks ad rm cl out rep pk k : ig_ident pk = Some k ->
  k ∈ idents rm -> k ∈ redrawn (mkShared g ks ad rm cl out rep) (mkShared g' ks (pk :: ad) rm cl out rep).
Proof.
  intros Hk Hin. unfold redrawn. cbn [sh_adding sh_removing].
  rewrite (proj2 (Nat.ltb_lt _ _)) by (simpl; lia). apply list_elem_of_filter. split; [done|].
  unfold idents. cbn. rewrite Hk. by left.
Qed.

Lemma inv_add_draw M kept rs g ks ad rm cl out rep g' pk :
  ig_AddBalanced g = Ret (g', inr pk) ->
  race_inv M kept rs (mkShared g ks ad rm cl out rep) ->
  race_inv M kept (redrawn (mkShared g ks ad rm cl out rep) (mkShared g' ks (pk :: ad) rm cl out rep) ++ rs)
    (mkShared g' ks (pk :: ad) rm cl out rep).
Proof.
  intros HA Hinv. pose proof (redrawn_elem g g' ks ad rm cl out rep pk) as Hre.
  set (rs' := redrawn _ _) in *. destruct Hinv as [Hin Hfk Hfa Hfo Hfp Hr Hl Hu He]. cbn in *.
  pose proof (ig_AddBalanced_law g Hin) as HS. rewrite HA in HS.
  destruct HS as [Hin' (k & Hk & Hn & Hm)]. split; cbn; try done.
  - constructor; [|done]. exists k. set_solver.
  - rewrite Hm. rewrite Forall_forall in Hr |- *. intros x Hx k' Hk' Hm'.
    apply elem_of_app. destruct (decide (k' = k)) as [->|Hne]; [left|right].
    + apply (Hre k Hk). unfold idents. apply list_elem_of_omap. by exists x.
    + apply (Hr x Hx k' Hk'). set_solver.
  - set_solver.
  - rewrite Hm, (own_cons _ _ _ Hk), list_to_set_app_L. clear -Hu. set_solver.
Qed.

Lemma inv_add_return M kept rs g ks ad1 pk ad2 rm out rep :
  race_inv M kept rs (mkShared g ks (ad1 ++ pk :: ad2) rm None out rep) ->
  race_inv M kept rs (mkShared g (ks ++ [pk]) (ad1 ++ ad2) rm None (pk :: out) rep).
Proof.
  intros [Hin Hfk Hfa Hfo Hfp Hr Hl Hu He]. unfold pending in *. cbn in *.
  apply Forall_app in Hfa as [Ha1 [Hpk Ha2]%Forall_cons].
  assert (Forall (foreign M) (ks ++ [pk])) by (by rewrite Forall_app, Forall_singleton).
  split; cbn; try done; [by rewrite Forall_app|by constructor|].
  destruct Hpk as (k & Hk & _). rewrite !own_app, (own_cons _ _ _ Hk) in Hu.
  rewrite !own_app, (own_cons _ _ _ Hk), own_nil. clear -Hu. set_solver.
Qed.

(** A removal that the caller asks for. *)
Lemma inv_remove M kept rs g ks ad rm cl out rep g' pk e :
  pk ∈ out -> ig_Remove g pk = Ret (g', e) ->
  race_inv M kept rs (mkShared g ks ad rm cl out rep) ->
  race_inv M kept rs (mkShared g' ks ad (match e with None => pk :: rm | Some _ => rm end) cl out rep).
Proof.
  intros Hout HR [Hin Hfk Hfa Hfo Hfp Hr Hl Hu He]. cbn in *.
  destruct (ig_Remove_law g pk Hin) as (g1 & e1 & HR' & Hin' & Hm).
  rewrite HR in HR'. simplify_eq. destruct e1 as [err|].
  { by split; cbn; rewrite ?Hm. }
  destruct Hm as (k & Hk & Hm). split; cbn; try done; rewrite Hm.
  - constructor; [intros ? ? Hin1; simplify_eq; revert Hin1; clear; set_solver|].
    eapply removed_shrink, Hr. clear. set_solver.
  - eapply lower_remove; [done| |done]. rewrite Forall_forall in Hfo. by apply Hfo.
  - clear -Hu. set_solver.
Qed.

Lemma foreign_without M ks pk :
  Forall (foreign M) ks -> Forall (foreign M) (without ks pk []).
Proof. rewrite !Forall_forall. intros Hks x [Hx _]%elem_of_without. auto. Qed.

Lemma inv_remove_return M kept rs g ks ad rm1 pk rm2 out rep :
  race_inv M kept rs (mkShared g ks ad (rm1 ++ pk :: rm2) None out rep) ->
  race_inv M kept rs (mkShared g (without ks pk []) ad (rm1 ++ rm2) None out rep).
Proof.
  intros [Hin Hfk Hfa Hfo Hfp Hr Hl Hu He]. unfold pending in *. cbn in *.
  apply Forall_app in Hr as [Hr1 [Hpk Hr2]%Forall_cons].
  split; cbn; eauto using foreign_without; [by rewrite Forall_app|].
  intros k Hkm. specialize (Hu k Hkm). rewrite !elem_of_union in Hu |- *.
  destruct Hu as [[[[?|Hk]|?]|?]|?]; [by auto| |by auto..].
  apply elem_of_own in Hk as (x & Hx & Hkx). destruct (decide (k ∈ rs)) as [Hrs|Hrs].
  { right. by apply elem_of_list_to_set. }
  do 3 left. right. apply elem_of_own. exists x.
  split; [|done]. apply elem_of_without. split; [done|]. intros ->. by eapply Hrs, Hpk.
Qed.

(** A turn of the loop of [Clean]. *)
Lemma inv_clean_remove M kept rs g ks ad rm pk todo errs out rep g' e :
  ig_Remove g pk = Ret (g', e) ->
  race_inv M kept rs (mkShared g ks ad rm (Some (pk :: todo, errs)) out rep) ->
  exists kept', race_inv M kept' rs (mkShared g' ks ad rm (Some (todo,
    match e with Some err => multierror_Append errs err | None => errs end)) out rep).
Proof.
  intros HR [Hin Hfk Hfa Hfo Hfp Hr Hl Hu He]. unfold pending in *. cbn in *.
  apply Forall_cons in Hfp as [(k & Hk & Hn) Hft].
  destruct (ig_Remove_law g pk Hin) as (g1 & e1 & HR' & Hin' & Hm).
  rewrite HR in HR'. simplify_eq. rewrite (own_cons _ _ _ Hk) in Hu.
  destruct e1 as [err|].
  - exists (k :: kept). split; unfold pending; cbn; rewrite ?Hm; try done.
    + clear -Hu. set_solver.
    + rewrite He. unfold errors_of. cbn. rewrite Append_wrapped, length_app. simpl. lia.
  - destruct Hm as (k' & Hk' & Hm). simplify_eq.
    exists kept. split; unfold pending; cbn; rewrite ?Hm; try done.
    + eapply removed_shrink, Hr. clear. set_solver.
    + eapply (lower_remove _ _ pk); [done|by exists k|done].
    + clear -Hu. set_solver.
Qed.

Lemma race_inv_step M kept rs s s' :
  race_step s s' -> race_inv M kept rs s -> exists kept', race_inv M kept' (redrawn s s' ++ rs) s'.
Proof.
  destruct 1 as [g ks ad rm cl out rep g' err HA| | |? ? ? ? ? ? ? ? pk err Hout HR
    |? ? ? ? ? ? ? ? pk Hout HR| | |g ks ad rm pk todo errs out rep g' e HR|]; intros Hinv;
    eauto using inv_add_draw, inv_add_return, inv_remove_return, inv_more.
  - destruct Hinv as [Hin Hfk Hfa Hfo Hfp Hr Hl Hu He]. cbn in *.
    pose proof (ig_AddBalanced_law g Hin) as HS. rewrite HA in HS. destruct HS as [Hin' Hm].
    exists kept. apply inv_more. by split; cbn; rewrite ?Hm.
  - exists kept. apply inv_more. by apply (inv_remove _ _ _ _ _ _ _ _ _ _ _ pk (Some err) Hout HR).
  - exists kept. apply inv_more. by apply (inv_remove _ _ _ _ _ _ _ _ _ _ _ pk None Hout HR).
  - destruct Hinv as [Hin Hfk Hfa Hfo Hfp Hr Hl Hu He]. exists kept. apply inv_more.
    split; unfold pending, errors_of in *; cbn in *; try done.
    rewrite WrappedErrors_nil. simpl. lia.
  - destruct (inv_clean_remove _ _ _ _ _ _ _ _ _ _ _ _ _ _ HR Hinv) as [kept1 Hinv1].
    exists kept1. by apply inv_more.
  - destruct Hinv as [Hin Hfk Hfa Hfo Hfp Hr Hl Hu He]. exists kept. apply inv_more.
    split; unfold pending, errors_of in *; cbn in *; try done.
    rewrite He, fmap_app, concat_app, length_app. simpl. rewrite length_app. simpl. lia.
Qed.

Lemma race_inv_reach M s rs s' :
  race_run s rs s' -> race_inv M [] [] s -> exists kept', race_inv M kept' rs s'.
Proof.
  intros Hrun Hinv. induction Hrun as [|rs s1 s2 _ IH Hstep]; [by eauto|].
  destruct IH as [kept1 Hinv1]. by eapply race_inv_step.
Qed.

Lemma race_inv_start g :
  ig_inv g -> race_inv (ig_mem g) [] [] (share (NewCleaningIDGenerator g) []).
Proof. intros Hg. split; cbn; try done; [constructor..|]; clear; set_solver. Qed.

(** ** Progress *)

(** Whoever holds the lock gives it back, and then every call can end. *)
Lemma race_unlock M kept rs g ks ad rm cl out rep :
  race_inv M kept rs (mkShared g ks ad rm cl out rep) ->
  exists g' ks' rep', rtc race_step (mkShared g ks ad rm cl out rep)
    (mkShared g' ks' ad rm None out rep').
Proof.
  destruct cl as [[todo errs]|]; [|by eauto using rtc_refl].
  revert kept g errs. induction todo as [|pk todo IH]; intros kept g errs Hinv.
  { do 3 eexists. apply rtc_once, race_clean_unlock. }
  destruct (ig_Remove_law g pk (ri_inner _ _ _ _ Hinv)) as (g1 & e & HR & _ & _).
  destruct (inv_clean_remove _ _ _ _ _ _ _ _ _ _ _ _ _ _ HR Hinv) as [kept1 Hinv1].
  destruct (IH _ _ _ Hinv1) as (g' & ks' & rep' & Hrun).
  do 3 eexists. eapply rtc_l; [by apply race_clean_remove|done].
Qed.

Lemma race_adders g ad rm rep : forall ks out, exists ks' out',
  rtc race_step (mkShared g ks ad rm None out rep) (mkShared g ks' [] rm None out' rep).
Proof.
  induction ad as [|pk ad IH]; intros ks out; [by eauto using rtc_refl|].
  destruct (IH (ks ++ [pk]) (pk :: out)) as (ks' & out' & Hrun). exists ks', out'.
  eapply rtc_l; [apply (race_add_return _ _ [] pk ad)|done].
Qed.

Lemma race_removers g rm out rep : forall ks, exists ks',
  rtc race_step (mkShared g ks [] rm None out rep) (mkShared g ks' [] [] None out rep).
Proof.
  induction rm as [|pk rm IH]; intros ks; [by eauto using rtc_refl|].
  destruct (IH (without ks pk [])) as (ks' & Hrun). exists ks'.
  eapply rtc_l; [apply (race_remove_return _ _ _ [] pk rm)|done].
Qed.

Lemma race_quiesce M kept rs s : race_inv M kept rs s ->
  exists c out rep, rtc race_step s (mkShared (idgen c) (cl_keys c) [] [] None out rep).
Proof.
  destruct s as [g ks ad rm cl out rep]. intros Hinv.
  destruct (race_unlock _ _ _ _ _ _ _ _ _ _ Hinv) as (g1 & ks1 & rep1 & Hrun1).
  destruct (race_adders g1 ad rm rep1 ks1 out) as (ks2 & out2 & Hrun2).
  destruct (race_removers g1 rm out2 rep1 ks2) as (ks3 & Hrun3).
  exists (mkCleaning g1 ks3), out2, rep1. by do 2 (etrans; [done|]).
Qed.

End race.

(** ** Theorem *)

Section theorems.
Context `{IGL : IdentityGeneratorLaws G PrivKey} `{PKE : PrivKeyEqualsLaws PrivKey}
  `{MEL : MultiErrorLaws}.

(** C20. However the calls of [AddBalanced], [Remove] and [Clean] on a shared
    cleaning generator interleave: what others have in the underlying memory stays
    there, and besides it holds only identities that the next or running [Clean] will
    remove, that an [AddBalanced] under way is about to hand out, that a [Clean] could
    not remove, each of which is an error that it reports, or that were drawn anew
    while a [Remove] of them was under way, which takes them from the generator's
    list unseen; and all calls can end. *)
Theorem concurrent_cleaning (g : G) rs (s : shared (PrivKey := PrivKey) (G := G)) :
  ig_inv g -> race_run (share (NewCleaningIDGenerator g) []) rs s ->
  (ig_mem g ⊆ ig_mem (sh_idgen s)) /\
  (exists kept, length kept = errors_of s /\
    (ig_mem (sh_idgen s) ⊆
      ig_mem g ∪ own (pending s) ∪ own (sh_adding s) ∪ list_to_set kept ∪ list_to_set rs)) /\
  (exists c out rep, rtc race_step s (mkShared (idgen c) (cl_keys c) [] [] None out rep)).
Proof.
  intros Hg Hrun.
  destruct (race_inv_reach _ _ _ _ Hrun (race_inv_start g Hg)) as [kept Hinv].
  split_and!; [by eapply ri_lower| |by eapply race_quiesce].
  exists kept. split; [by eapply ri_errors|by eapply ri_upper].
Qed.
End theorems.

(** ** Witness *)

(** A generator of numbers, which draws the first one above all that it has. *)
Definition next_number (g : list nat) : nat := foldr (fun n m => Nat.max (S n) m) 0 g.

Definition number_generator : IdentityGenerator (list nat) nat := {|
  ig_AddBalanced g := Ret (next_number g :: g, inr (next_number g));
  ig_Remove g pk := Ret (filter (fun n => n <> pk) g, None);
|}.

Lemma next_number_above g n : n ∈ g -> n < next_number g.
Proof.
  induction g as [|m g IH]; [by intros ?%not_elem_of_nil|].
  change (next_number (m :: g)) with (Nat.max (S m) (next_number g)).
  intros [->|Hn]%elem_of_cons; [lia|]. specialize (IH Hn). lia.
Qed.

#[local] Instance nat_ident_inj : Inj (=) (=) nat_ident.
Proof. intros n m Heq. injection Heq as Heq. apply (f_equal length) in Heq. by rewrite !length_replicate in Heq. Qed.

Lemma elem_of_numbers (g : list nat) k :
  k ∈ (list_to_set (omap nat_ident g) : gset (list byte)) <-> exists n, n ∈ g /\ nat_ident n = Some k.
Proof. by rewrite elem_of_list_to_set, list_elem_of_omap. Qed.

Definition number_laws : @IdentityGeneratorLaws (list nat) nat number_generator.
Proof.
  refine (Build_IdentityGeneratorLaws _ _ number_generator (fun _ => True)
    nat_ident (fun g => list_to_set (omap nat_ident g)) _ _).
  - intros g _. split; [done|]. exists (replicate (next_number g) Byte.x00). split_and!; [done| |done].
    rewrite elem_of_numbers. intros (n & Hn & Heq). change (nat_ident n = nat_ident (next_number g)) in Heq.
    apply (inj nat_ident) in Heq as ->. apply next_number_above in Hn. lia.
  - intros g pk _. do 2 eexists. split; [reflexivity|]. split; [done|]. exists (replicate pk Byte.x00).
    split; [done|]. apply set_eq. intros k. rewrite elem_of_difference, elem_of_singleton, !elem_of_numbers.
    split.
    + intros (n & [Hne Hn]%list_elem_of_filter & Hk). split; [by exists n|]. intros ->.
      apply Hne, (inj nat_ident). exact Hk.
    + intros [(n & Hn & Hk) Hne]. exists n. split; [|done]. apply list_elem_of_filter. split; [|done].
      intros ->. apply Hne. injection Hk as <-. done.
Defined.

(** The identity 0 is drawn anew between the two halves of its [Remove], which then
    forgets it: it is in the memory, and no [Clean] will remove it. *)
Definition number_state (g ks ad rm out : list nat) : shared (G := list nat) (PrivKey := nat) :=
  mkShared g ks ad rm None out [].

Abbreviation number_step := (race_step (H := number_generator)).

Lemma number_run_step rs s s1 s2 :
  race_run (IGL := number_laws) s rs s1 -> number_step s1 s2 -> redrawn (IGL := number_laws) s1 s2 = [] ->
  race_run (IGL := number_laws) s rs s2.
Proof. intros Hr Hs He. change rs with ([] ++ rs). rewrite <-He. by eapply race_run_step. Qed.

Lemma number_race : race_run (IGL := number_laws) (share (NewCleaningIDGenerator []) []) [[]]
  (number_state [0] [] [] [] [0; 0]).
Proof.
  assert (number_step (number_state [] [] [] [] []) (number_state [0] [] [0] [] [])) as H1
    by by apply race_add_draw.
  assert (number_step (number_state [0] [] [0] [] []) (number_state [0] [0] [] [] [0])) as H2
    by apply (race_add_return [0] [] [] 0 []).
  assert (number_step (number_state [0] [0] [] [] [0]) (number_state [] [0] [] [0] [0])) as H3
    by (apply race_remove_done; [by left|reflexivity]).
  assert (number_step (number_state [] [0] [] [0] [0]) (number_state [0] [0] [0] [0] [0])) as H4
    by by apply race_add_draw.
  assert (number_step (number_state [0] [0] [0] [0] [0]) (number_state [0] [0; 0] [] [0] [0; 0])) as H5
    by apply (race_add_return [0] [0] [] 0 []).
  assert (number_step (number_state [0] [0; 0] [] [0] [0; 0]) (number_state [0] [] [] [] [0; 0])) as H6
    by exact (race_remove_return (H := number_generator) [0] [0; 0] [] [] 0 [] [0; 0] []).
  eapply number_run_step; [|exact H6|reflexivity]. eapply number_run_step; [|exact H5|reflexivity].
  assert (redrawn (IGL := number_laws) (number_state [] [0] [] [0] [0]) (number_state [0] [0] [0] [0] [0]) = [[]])
    as He by (vm_compute; reflexivity).
  change [[]] with ([[]] ++ @nil (list byte)). rewrite <-He. eapply race_run_step; [|exact H4].
  eapply number_run_step; [|exact H3|reflexivity]. eapply number_run_step; [|exact H2|reflexivity].
  eapply number_run_step; [|exact H1|reflexivity]. apply race_run_refl.
Qed.

Lemma concurrent_cleaning_witness :
  exists kept, length kept = 0 /\
    ((list_to_set (omap nat_ident [0]) : gset (list byte)) ⊆
      ∅ ∪ own (IGL := number_laws) [] ∪ own (IGL := number_laws) [] ∪ list_to_set kept ∪ list_to_set [[]]).
Proof.
  destruct (concurrent_cleaning (IGL := number_laws) [] [[]] (number_state [0] [] [] [] [0; 0])
    I number_race) as (_ & (kept & Hl & Hm) & _).
  exists kept. split; [exact Hl|exact Hm].
Defined.
