(* ===== verification/Utils.v ===== *)
(** * Helpers of the program (src/utils)

    [ParseOptsString], which reads the options of a provider store, and
    [PortSelector], which hands out the listen ports of the heads. The
    standard library's [strings.Split] on a one-character separator is
    defined here, with its inverse [Join]. *)
From Stdlib Require Import Strings.Ascii.
From S2P Require Import Prelude.

Definition comma : Ascii.ascii := ","%char.
Definition equals : Ascii.ascii := "="%char.

(** ** strings.Split *)

(** [strings.Split(s, sep)] for a separator of one character: the empty string
    splits into one empty segment. *)
Fixpoint Split (s : string) (sep : Ascii.ascii) : list string :=
  match s with
  | EmptyString => [""%string]
  | String c s =>
      if decide (c = sep) then ""%string :: Split s sep
      else match Split s sep with
           | [] => [String c ""]
           | w :: ws => String c w :: ws
           end
  end.

(** [strings.Join(ws, sep)] *)
Fixpoint Join (ws : list string) (sep : Ascii.ascii) : string :=
  match ws with
  | [] => ""
  | [w] => w
  | w :: ws => w +:+ String sep (Join ws sep)
  end.

(** The character does not occur in the string. *)
Fixpoint lacks (sep : Ascii.ascii) (s : string) : bool :=
  match s with
  | EmptyString => true
  | String c s => bool_decide (c <> sep) && lacks sep s
  end.

(** ** ParseOptsString *)

Definition opts_error : goerror := ErrorMsg "option config must be key=value pairs".

(** The loop over the segments: it stops at the first bad one. *)
Fixpoint parse_opts (opts : list string) (m : gmap string string) : result (gmap string string) :=
  match opts with
  | [] => inr m
  | opt :: opts =>
      let entry := Split opt equals in
      if negb (length entry =? 2) then inl opts_error
      else parse_opts opts (<[default ""%string (entry !! 0) := default ""%string (entry !! 1)]> m)
  end.

Definition ParseOptsString (s : string) : result (gmap string string) :=
  parse_opts (Split s comma) ∅.

(** ** PortSelector *)

(** The closure's captured variable [port]. *)
Record PortSelector := mkPortSelector { port : Z }.

Definition NewPortSelector (beg : Z) : PortSelector := mkPortSelector beg.

(** One call of the returned function; [port++] wraps as an [int] does. *)
Definition next_port (s : PortSelector) : PortSelector * Z :=
  if (port s =? 0)%Z then (s, 0%Z)
  else
    let out := port s in
    (mkPortSelector (wrap_int (port s + 1)), out).

(** The results of the first [n] calls. *)
Fixpoint ports (n : nat) (s : PortSelector) : list Z :=
  match n with
  | O => []
  | S n => let '(s, p) := next_port s in p :: ports n s
  end.

(** ** Splitting and joining *)

Lemma lacks_app sep s t : lacks sep (s +:+ t) = lacks sep s && lacks sep t.
Proof. induction s as [|c s IH]; simpl; [done|]. by rewrite IH, andb_assoc. Qed.

Lemma Split_not_nil s sep : Split s sep <> [].
Proof. destruct s; simpl; [done|]. case_decide; [done|]. by case_match. Qed.

Lemma Split_lacks_all s sep w : w ∈ Split s sep -> lacks sep w = true.
Proof.
  revert w. induction s as [|c s IH]; intros w; simpl.
  - rewrite list_elem_of_singleton. by intros ->.
  - case_decide as Hc.
    + rewrite elem_of_cons. intros [->|Hw]; [done|]. by apply IH.
    + destruct (Split s sep) as [|w0 ws]; simpl.
      * rewrite list_elem_of_singleton. intros ->. simpl. by rewrite bool_decide_eq_true_2.
      * rewrite elem_of_cons. intros [->|Hw]; simpl; [|apply IH; set_solver].
        rewrite bool_decide_eq_true_2 by done. apply IH. set_solver.
Qed.

Lemma Join_cons w ws sep : ws <> [] -> Join (w :: ws) sep = w +:+ String sep (Join ws sep).
Proof. by destruct ws. Qed.

Lemma Join_Split s sep : Join (Split s sep) sep = s.
Proof.
  induction s as [|c s IH]; simpl; [done|].
  pose proof (Split_not_nil s sep) as Hnil. case_decide as Hc.
  - subst. rewrite Join_cons by done. simpl. by rewrite IH.
  - destruct (Split s sep) as [|w [|w' ws]]; [done|simpl in *; by rewrite IH|].
    rewrite Join_cons by done. rewrite Join_cons in IH by done. by rewrite <-IH.
Qed.

Lemma Split_lacks w sep : lacks sep w = true -> Split w sep = [w].
Proof.
  induction w as [|c w IH]; simpl; [done|]. rewrite andb_true_iff, bool_decide_eq_true.
  intros [Hc Hw]. rewrite decide_False by done. by rewrite IH.
Qed.

Lemma Split_app w s sep :
  lacks sep w = true -> Split (w +:+ String sep s) sep = w :: Split s sep.
Proof.
  induction w as [|c w IH]; simpl.
  - intros _. by rewrite decide_True.
  - rewrite andb_true_iff, bool_decide_eq_true. intros [Hc Hw].
    rewrite decide_False by done. by rewrite IH.
Qed.

Lemma Split_Join ws sep :
  ws <> [] -> Forall (fun w => lacks sep w = true) ws -> Split (Join ws sep) sep = ws.
Proof.
  intros Hnil Hall. induction Hall as [|w ws Hw Hws IH]; [done|].
  destruct ws as [|w' ws]; [by apply Split_lacks|].
  rewrite Join_cons, Split_app by done. by rewrite IH.
Qed.

(** ** Options *)

(** An option as it is written, and the strings that may be keys or values. *)
Definition render_opt (kv : string * string) : string := kv.1 +:+ String equals kv.2.
Definition clean (s : string) : bool := lacks equals s && lacks comma s.
Definition clean_opt (kv : string * string) : bool := clean kv.1 && clean kv.2.

(** The written form of a list of options. *)
Definition render_opts (kvs : list (string * string)) : string := Join (render_opt <$> kvs) comma.

Lemma clean_opt_spec kv :
  clean_opt kv = true <->
  lacks equals kv.1 = true /\ lacks equals kv.2 = true /\ lacks comma (render_opt kv) = true.
Proof.
  unfold clean_opt, clean, render_opt. rewrite lacks_app. simpl.
  rewrite !andb_true_iff. tauto.
Qed.

(** A segment has two halves exactly when it is a written option. *)
Lemma Split_opt opt k v :
  Split opt equals = [k; v] <-> opt = render_opt (k, v) /\ lacks equals k = true /\ lacks equals v = true.
Proof.
  split.
  - intros Hs. split_and!.
    + by rewrite <-(Join_Split opt equals), Hs.
    + apply (Split_lacks_all opt). rewrite Hs. set_solver.
    + apply (Split_lacks_all opt). rewrite Hs. set_solver.
  - intros (-> & Hk & Hv). unfold render_opt. simpl. by rewrite Split_app, Split_lacks.
Qed.

Lemma parse_opts_ok kvs m :
  Forall (fun kv => clean_opt kv = true) kvs ->
  parse_opts (render_opt <$> kvs) m = inr (foldl (fun m kv => <[kv.1 := kv.2]> m) m kvs).
Proof.
  intros Hall. revert m. induction Hall as [|[k v] kvs Hkv _ IH]; intros m; [done|].
  apply clean_opt_spec in Hkv as (Hk & Hv & _). cbn [fmap list_fmap parse_opts foldl].
  assert (Split (render_opt (k, v)) equals = [k; v]) as -> by (by apply Split_opt).
  cbn. apply IH.
Qed.

(** A run of the loop that succeeds has read written options only. *)
Lemma parse_opts_inv opts m m' :
  parse_opts opts m = inr m' ->
  exists kvs, opts = render_opt <$> kvs /\
    Forall (fun kv => lacks equals kv.1 = true /\ lacks equals kv.2 = true) kvs /\
    m' = foldl (fun m kv => <[kv.1 := kv.2]> m) m kvs.
Proof.
  revert m. induction opts as [|opt opts IH]; intros m; cbn [parse_opts].
  - intros [= <-]. by exists [].
  - destruct (Split opt equals) as [|k [|v [|]]] eqn:Hs; simpl; try done.
    apply Split_opt in Hs as (-> & Hk & Hv). intros (kvs & -> & Hall & ->)%IH.
    exists ((k, v) :: kvs). split_and!; [done|by constructor|done].
Qed.

Lemma parse_opts_error opts m e : parse_opts opts m = inl e -> e = opts_error.
Proof.
  revert m. induction opts as [|opt opts IH]; intros m; cbn [parse_opts]; [done|].
  destruct (negb _); [congruence|]. apply IH.
Qed.

Lemma render_opts_split kvs :
  kvs <> [] -> Forall (fun kv => clean_opt kv = true) kvs ->
  Split (render_opts kvs) comma = render_opt <$> kvs.
Proof.
  intros Hnil Hall. apply Split_Join; [by destruct kvs|].
  apply Forall_fmap. eapply Forall_impl; [done|]. by intros kv (_ & _ & ?)%clean_opt_spec.
Qed.

(** Inserting options with distinct keys one by one. *)
Lemma foldl_insert (kvs : list (string * string)) (m0 : gmap string string) :
  NoDup kvs.*1 ->
  foldl (fun m kv => <[kv.1 := kv.2]> m) m0 kvs = list_to_map kvs ∪ m0.
Proof.
  revert m0. induction kvs as [|[k v] l IH]; intros m0 Hnd; simpl.
  - by rewrite (left_id_L ∅ (∪)).
  - apply NoDup_cons in Hnd as [Hk Hnd]. rewrite IH by done.
    rewrite <-insert_union_l, insert_union_r; [done|]. by apply not_elem_of_list_to_map.
Qed.

(** The strings that are accepted, and their maps. *)
Lemma ParseOptsString_ok s m :
  ParseOptsString s = inr m <->
  exists kvs, kvs <> [] /\ Forall (fun kv => clean_opt kv = true) kvs /\
    s = render_opts kvs /\ m = foldl (fun m kv => <[kv.1 := kv.2]> m) ∅ kvs.
Proof.
  unfold ParseOptsString. split.
  - intros (kvs & Hs & Hall & ->)%parse_opts_inv. exists kvs.
    assert (kvs <> []) as Hnil.
    { intros ->. by apply (Split_not_nil s comma). }
    split_and!; [done| |by rewrite <-(Join_Split s comma), Hs|done].
    apply Forall_forall. intros kv Hkv. apply clean_opt_spec.
    rewrite Forall_forall in Hall. destruct (Hall kv Hkv) as [Hk Hv]. split_and!; [done..|].
    apply (Split_lacks_all s). rewrite Hs. by apply list_elem_of_fmap_2.
  - intros (kvs & Hnil & Hall & -> & ->). by rewrite render_opts_split, parse_opts_ok.
Qed.

(** ** Theorems *)

(** C29. [ParseOptsString] accepts exactly the strings that are options
    [key=value] separated by commas, keys and values without [=] and [,], and
    the map it returns is theirs, a later option overriding an earlier one.
    Every other string, the empty one included, is the one error. *)
Theorem ParseOptsString_spec (s : string) :
  match ParseOptsString s with
  | inr m => exists kvs, kvs <> [] /\ Forall (fun kv => clean_opt kv = true) kvs /\
      s = render_opts kvs /\ m = foldl (fun m kv => <[kv.1 := kv.2]> m) ∅ kvs
  | inl e => e = opts_error /\
      ~ exists kvs, kvs <> [] /\ Forall (fun kv => clean_opt kv = true) kvs /\
        s = render_opts kvs
  end.
Proof.
  destruct (ParseOptsString s) as [e|m] eqn:HP.
  - split; [by eapply parse_opts_error|]. intros (kvs & Hnil & Hall & ->).
    assert (ParseOptsString (render_opts kvs) =
      inr (foldl (fun m kv => <[kv.1 := kv.2]> m) ∅ kvs)) as HP'
      by (apply ParseOptsString_ok; by exists kvs).
    congruence.
  - by apply ParseOptsString_ok.
Qed.

(** Writing a non-empty map of options, in whatever order its entries come,
    and parsing the result gives the map back. *)
Theorem ParseOptsString_roundtrip (m : gmap string string) (kvs : list (string * string)) :
  m <> ∅ -> kvs ≡ₚ map_to_list m -> Forall (fun kv => clean_opt kv = true) kvs ->
  ParseOptsString (render_opts kvs) = inr m.
Proof.
  intros Hm Hp Hall. unfold ParseOptsString.
  assert (kvs <> []) as Hnil.
  { intros ->. apply Hm, map_to_list_empty_iff. by apply Permutation_nil_l in Hp. }
  rewrite render_opts_split, parse_opts_ok by done. f_equal.
  rewrite foldl_insert, (right_id_L ∅ (∪)) by (rewrite Hp; apply NoDup_fst_map_to_list).
  apply map_to_list_inj. rewrite <-Hp. apply map_to_list_to_map.
  rewrite Hp. apply NoDup_fst_map_to_list.
Qed.

Lemma ParseOptsString_roundtrip_witness :
  ParseOptsString "table=t,ttl=1h" = inr {["ttl" := "1h"; "table" := "t"]}%string.
Proof.
  apply (ParseOptsString_roundtrip {["ttl" := "1h"; "table" := "t"]}%string
    [("table", "t"); ("ttl", "1h")]%string).
  - apply (bool_decide_unpack _). vm_compute. exact I.
  - vm_compute. apply perm_swap || reflexivity.
  - repeat constructor.
Defined.

Lemma wrap_int_zero_iff z : (wrap_int z = 0 <-> z `mod` 2 ^ 64 = 0)%Z.
Proof.
  split.
  - unfold wrap_int. intros Hz. pose proof (wrap_signed_mod 64 z ltac:(lia)) as Hm.
    by rewrite Hz in Hm.
  - intros Hz. unfold wrap_int. by rewrite (wrap_signed_congr 64 z 0).
Qed.

Lemma next_port_wrap z :
  next_port (mkPortSelector (wrap_int z)) =
  if (z `mod` 2 ^ 64 =? 0)%Z then (mkPortSelector (wrap_int z), 0%Z)
  else (mkPortSelector (wrap_int (z + 1)), wrap_int z).
Proof.
  unfold next_port. cbn [port].
  destruct (Z.eqb_spec (wrap_int z) 0) as [Hz|Hz]; rewrite wrap_int_zero_iff in Hz.
  - by rewrite (proj2 (Z.eqb_eq _ _)).
  - rewrite (proj2 (Z.eqb_neq _ _)) by done. do 2 f_equal. apply wrap_signed_congr.
    unfold wrap_int. by rewrite <-Zplus_mod_idemp_l, wrap_signed_mod, Zplus_mod_idemp_l.
Qed.

(** The ports count up from the first one: call [i] (from 0) returns
    [beg + i] as long as the count has not reached 0, and 0 from then on. With
    a positive first port all calls below the wrap-around of [int] are
    sequential; with 0 every call is 0. *)
Theorem PortSelector_sequence (beg : Z) (n i : nat) :
  (- 2 ^ 63 <= beg < 2 ^ 63)%Z -> i < n ->
  ports n (NewPortSelector beg) !! i =
    Some (if ((- beg) `mod` 2 ^ 64 <=? Z.of_nat i)%Z then 0%Z else wrap_int (beg + Z.of_nat i)).
Proof.
  intros Hbeg. unfold NewPortSelector. rewrite <-(wrap_signed_small 64 beg) at 1 by done.
  fold (wrap_int beg). clear Hbeg. revert beg i.
  induction n as [|n IH]; intros beg i Hi; [lia|]. cbn [ports].
  rewrite next_port_wrap. pose proof (Z.mod_pos_bound (- beg) (2 ^ 64) eq_refl) as Hb.
  destruct (Z.eqb_spec (beg `mod` 2 ^ 64) 0) as [Hz|Hz].
  - rewrite Z_mod_zero_opp_full, (proj2 (Z.leb_le _ _)) by (done || lia).
    destruct i as [|i]; [done|]. cbn [lookup list_lookup]. rewrite IH by lia.
    rewrite Z_mod_zero_opp_full, (proj2 (Z.leb_le _ _)) by (done || lia). done.
  - assert ((- beg) `mod` 2 ^ 64 <> 0)%Z as Hn.
    { intros Hm%Z_mod_zero_opp_full. by rewrite Z.opp_involutive in Hm. }
    destruct i as [|i]; cbn [lookup list_lookup].
    + rewrite (proj2 (Z.leb_gt _ _)) by lia. do 2 f_equal. lia.
    + rewrite IH by lia.
      replace (- (beg + 1))%Z with (- beg - 1)%Z by lia.
      assert ((- beg - 1) `mod` 2 ^ 64 = (- beg) `mod` 2 ^ 64 - 1)%Z as ->.
      { rewrite <-Zminus_mod_idemp_l. apply Z.mod_small. clear -Hb Hn. lia. }
      replace (beg + 1 + Z.of_nat i)%Z with (beg + Z.of_nat (S i))%Z by lia.
      f_equal. clear -Hb Hn.
      repeat match goal with |- context [(?a <=? ?b)%Z] => destruct (Z.leb_spec a b) end; done || lia.
Qed.

Lemma PortSelector_sequence_witness : ports 4 (NewPortSelector (-2)) !! 2 = Some 0%Z.
Proof. rewrite (PortSelector_sequence (-2) 4 2); [reflexivity|lia|lia]. Defined.
