(* ===== verification/Metrics.v ===== *)
(** * Metrics (src/metrics)

    The measures, views and default views as data, what the program records as
    a log of calls to the OpenCensus library, the reporter of the libp2p
    resource manager, and the middleware of the AWS client. Descriptions and
    bounds are those of the source. *)
From Stdlib Require Import QArith.
From stdpp Require Import pretty.
From S2P Require Import Prelude.
Open Scope nat_scope.

(** [Duration.Milliseconds] of a duration in nanoseconds. *)
Definition Milliseconds (d : Z) : Z := (d `quot` 1000000)%Z.

(** ** The data of OpenCensus *)

(** A tag key is its name. *)
Abbreviation Key := string.

Inductive Kind : Type := Int64 | Float64.
Inductive Unit : Type := UnitDimensionless | UnitMilliseconds.

Record Measure := mkMeasure {
  m_kind : Kind;
  m_name : string;
  m_desc : string;
  m_unit : Unit;
}.
Abbreviation Int64M := (mkMeasure Int64).
Abbreviation Float64M := (mkMeasure Float64).

Inductive Aggregation : Type :=
| Sum
| Count
| LastValue
| Distribution (bounds : list Q).

(** A view without a name has the name of its measure; no view here has one. *)
Record View := mkView {
  v_measure : Measure;
  v_TagKeys : list Key;
  v_aggregation : Aggregation;
}.
Definition v_name (v : View) : string := m_name (v_measure v).

#[export] Instance Kind_eq_dec : EqDecision Kind.
Proof. solve_decision. Defined.
#[export] Instance Unit_eq_dec : EqDecision Unit.
Proof. solve_decision. Defined.
#[export] Instance Measure_eq_dec : EqDecision Measure.
Proof. solve_decision. Defined.

(** What the packages go-libp2p-kad-dht/metrics and
    go-libp2p/.../resource-manager/obs declare. *)
Class LibMetrics := {
  dht_ReceivedMessages : Measure;
  dht_ReceivedMessageErrors : Measure;
  dht_ReceivedBytes : Measure;
  dht_InboundRequestLatency : Measure;
  dht_OutboundRequestLatency : Measure;
  dht_SentMessages : Measure;
  dht_SentMessageErrors : Measure;
  dht_SentRequests : Measure;
  dht_SentRequestErrors : Measure;
  dht_SentBytes : Measure;
  dht_KeyMessageType : Key;
  obs_DefaultViews : list View;
}.

(** ** Keys *)

Definition KeyName : Key := "name".
Definition KeyPeerID : Key := "peer_id".
Definition KeyStatus : Key := "status".
Definition KeyHTTPCode : Key := "http_code".
Definition KeyOperation : Key := "operation".
Definition KeyErrorCode : Key := "err_code".
Definition KeyDirection : Key := "direction".
Definition KeyUsesFD : Key := "uses_fd".
Definition KeyProtocol : Key := "protocol".
Definition KeyService : Key := "service".

(** ** Measures *)

Definition Heads : Measure :=
  Int64M "heads"
    "Heads launched by Hydra" UnitDimensionless.
Definition BootstrappedHeads : Measure :=
  Int64M "bootstrapped_heads"
    "Bootstrapped heads" UnitDimensionless.
Definition ConnectedPeers : Measure :=
  Int64M "connected_peers"
    "Peers connected to all heads" UnitDimensionless.
Definition UniquePeers : Measure :=
  Int64M "unique_peers_total"
    "Total unique peers seen across all heads" UnitDimensionless.
Definition RoutingTableSize : Measure :=
  Int64M "routing_table_size"
    "Number of peers in the routing table" UnitDimensionless.
Definition IPNSRecords : Measure :=
  Int64M "ipns_records"
    "Number of IPNS records in the IPNS datastore" UnitDimensionless.
Definition ProviderRecords : Measure :=
  Int64M "provider_records"
    "Number of provider records in the datastore shared by all heads" UnitDimensionless.
Definition ProviderRecordsPerKey : Measure :=
  Int64M "provider_records_per_key"
    "Number of provider records returned per key" UnitDimensionless.
Definition Prefetches : Measure :=
  Int64M "prov_prefetches"
    "Total find provider prefetch attempts that were found locally, or not found locally and succeeded, failed or were discarded" UnitDimensionless.
Definition PrefetchDuration : Measure :=
  Float64M "prov_prefetch_duration"
    "The time it took  provider prefetching attempts from the network to succeed or fail because of timeout or completion" UnitMilliseconds.
Definition PrefetchNegativeCacheHits : Measure :=
  Int64M "prov_prefetch_neg_cache_hits"
    "Total provider prefetch negative cache hits (lookups skipped due to previous recent failed lookups)" UnitDimensionless.
Definition PrefetchNegativeCacheSize : Measure :=
  Int64M "prov_prefetch_neg_cache_size"
    "Total size of the provider prefetch negative cache" UnitDimensionless.
Definition PrefetchNegativeCacheTTLSeconds : Measure :=
  Int64M "prov_prefetch_neg_cache_ttl"
    "The TTL duration for negative cache entries" UnitDimensionless.
Definition PrefetchFailedToCache : Measure :=
  Int64M "prov_prefetch_failed_to_cache"
    "Number of times the provider prefetcher failed to cache a result" UnitDimensionless.
Definition PrefetchesPending : Measure :=
  Int64M "prov_prefetch_pending"
    "Total number of async provider prefetches pending (queued or in progress)" UnitDimensionless.
Definition PrefetchesPendingLimit : Measure :=
  Int64M "prov_prefetch_pending_limit"
    "The limit of the number of pending prefetches" UnitDimensionless.
Definition DelegatedFindProvs : Measure :=
  Int64M "delegated_find_provs_total"
    "Total delegated find provider attempts that were found locally, or not found locally and succeeded, failed or were discarded" UnitDimensionless.
Definition DelegatedFindProvsDuration : Measure :=
  Float64M "delegated_find_provs_duration"
    "The time it took delegated find provider attempts from the network to succeed or fail because of timeout or completion" UnitMilliseconds.
Definition STIFindProvs : Measure :=
  Int64M "sti_find_provs_total"
    "Total store the index find provider attempts that were found locally, or not found locally and succeeded, failed or were discarded" UnitDimensionless.
Definition STIFindProvsDuration : Measure :=
  Float64M "sti_find_provs_duration"
    "The time it took storetheindex finds from the network to succeed or fail because of timeout or completion" UnitMilliseconds.
Definition STIFindProvsLength : Measure :=
  Int64M "sti_find_provs_length"
    "Number of providers returned for successful responses" UnitDimensionless.
Definition STIFindProvsEmpty : Measure :=
  Int64M "sti_find_provs_empty"
    "Number of empty responses returned" UnitDimensionless.
Definition AWSRequests : Measure :=
  Int64M "aws_reqs"
    "Requests made to AWS" UnitDimensionless.
Definition AWSRequestDurationMillis : Measure :=
  Float64M "aws_req_duration"
    "The time it took to make an AWS request and receive a response" UnitMilliseconds.
Definition AWSRequestRetries : Measure :=
  Int64M "aws_retries"
    "Retried requests to AWS" UnitDimensionless.
Definition ProviderDDBCollisions : Measure :=
  Int64M "prov_ddb_collisions"
    "Number of key collisions when writing provider records into DynamoDB" UnitDimensionless.
Definition RcmgrConnsAllowed : Measure :=
  Int64M "libp2p_rcmgr_conns_allowed_total"
    "Total number of connections allowed by Resource Manager" UnitDimensionless.
Definition RcmgrConnsBlocked : Measure :=
  Int64M "libp2p_rcmgr_conns_blocked_total"
    "Total number of connections blocked by Resource Manager" UnitDimensionless.
Definition RcmgrStreamsAllowed : Measure :=
  Int64M "libp2p_rcmgr_streams_allowed_total"
    "Total number of streams allowed by Resource Manager" UnitDimensionless.
Definition RcmgrStreamsBlocked : Measure :=
  Int64M "libp2p_rcmgr_streams_blocked_total"
    "Total number of streams blocked by Resource Manager" UnitDimensionless.
Definition RcmgrPeersAllowed : Measure :=
  Int64M "libp2p_rcmgr_peers_allowed_total"
    "Total number of peers allowed by Resource Manager" UnitDimensionless.
Definition RcmgrPeersBlocked : Measure :=
  Int64M "libp2p_rcmgr_peers_blocked_total"
    "Total number of peers blocked by Resource Manager" UnitDimensionless.
Definition RcmgrProtocolsAllowed : Measure :=
  Int64M "libp2p_rcmgr_protocols_allowed_total"
    "Total number of streams attached to a protocol allowed by Resource Manager" UnitDimensionless.
Definition RcmgrProtocolsBlocked : Measure :=
  Int64M "libp2p_rcmgr_protocols_blocked_total"
    "Total number of streams attached to a protocol blocked by Resource Manager" UnitDimensionless.
Definition RcmgrProtocolPeersBlocked : Measure :=
  Int64M "libp2p_rcmgr_protocols_for_peer_blocked_total"
    "Total number of streams attached to a protocol for a specific peer blocked by Resource Manager" UnitDimensionless.
Definition RcmgrServiceAllowed : Measure :=
  Int64M "libp2p_rcmgr_service_allowed_total"
    "Total number of streams attached to a service allowed by Resource Manager" UnitDimensionless.
Definition RcmgrServiceBlocked : Measure :=
  Int64M "libp2p_rcmgr_service_blocked_total"
    "Total number of streams attached to a service blocked by Resource Manager" UnitDimensionless.
Definition RcmgrServicePeersBlocked : Measure :=
  Int64M "libp2p_rcmgr_service_for_peer_blocked_total"
    "Total number of streams attached to a service for a specific peer blocked by Resource Manager" UnitDimensionless.
Definition RcmgrMemoryAllowed : Measure :=
  Int64M "libp2p_rcmgr_memory_allocations_allowed_total"
    "Total number of memory allocations allowed by Resource Manager" UnitDimensionless.
Definition RcmgrMemoryBlocked : Measure :=
  Int64M "libp2p_rcmgr_memory_allocations_blocked_total"
    "Total number of memory allocations blocked by Resource Manager" UnitDimensionless.

(** ** Aggregations *)

Definition defaultBytesDistribution : Aggregation := Distribution
  [1024; 2048; 4096; 16384; 65536; 262144; 1048576; 4194304; 16777216; 67108864;
   268435456; 1073741824; 4294967296]%Q.

Definition defaultMillisecondsDistribution : Aggregation := Distribution
  [0.01; 0.05; 0.1; 0.3; 0.6; 0.8; 1; 2; 3; 4; 5; 6; 8; 10; 13; 16; 20; 25; 30; 40; 50; 65;
   80; 100; 130; 160; 200; 250; 300; 400; 500; 650; 800; 1000; 2000; 5000; 10000; 20000;
   50000; 100000]%Q.

Definition coarseMillisecondsDistribution : Aggregation := Distribution
  [0; 1; 2; 5; 10; 20; 50; 100; 200; 500; 1000; 2000; 5000; 10000; 20000]%Q.

Definition defaultProvidersDistribution : Aggregation := Distribution
  [0.5; 1; 2; 5; 10; 20; 50; 100; 200; 500; 1000; 2000; 5000; 10000]%Q.

(** ** Views *)

Section views.
Context `{LibMetrics}.

Definition HeadsView : View := mkView Heads [KeyName; KeyPeerID] Sum.
Definition BootstrappedHeadsView : View := mkView BootstrappedHeads [KeyName; KeyPeerID] Sum.
Definition ConnectedPeersView : View := mkView ConnectedPeers [KeyName; KeyPeerID] Sum.
Definition UniquePeersView : View := mkView UniquePeers [KeyName] LastValue.
Definition RoutingTableSizeView : View := mkView RoutingTableSize [KeyName] LastValue.
Definition IPNSRecordsView : View := mkView IPNSRecords [KeyName] LastValue.
Definition ProviderRecordsView : View := mkView ProviderRecords [KeyName] LastValue.
Definition ProviderRecordsPerKeyView : View := mkView ProviderRecordsPerKey [KeyName] defaultProvidersDistribution.
Definition PrefetchesView : View := mkView Prefetches [KeyName; KeyStatus] Sum.
Definition PrefetchDurationMillisView : View := mkView PrefetchDuration [KeyName; KeyStatus] coarseMillisecondsDistribution.
Definition PrefetchNegativeCacheHitsView : View := mkView PrefetchNegativeCacheHits [] Sum.
Definition PrefetchNegativeCacheSizeView : View := mkView PrefetchNegativeCacheSize [KeyName] LastValue.
Definition PrefetchNegativeCacheTTLSecondsView : View := mkView PrefetchNegativeCacheTTLSeconds [KeyName] LastValue.
Definition PrefetchFailedToCacheView : View := mkView PrefetchFailedToCache [KeyName] Sum.
Definition PrefetchesPendingView : View := mkView PrefetchesPending [KeyName] LastValue.
Definition PrefetchesPendingLimitView : View := mkView PrefetchesPendingLimit [KeyName] LastValue.
Definition AWSRequestsView : View := mkView AWSRequests [KeyName; KeyOperation; KeyHTTPCode; KeyErrorCode] Sum.
Definition AWSRequestsDurationView : View := mkView AWSRequestDurationMillis [KeyName; KeyOperation; KeyHTTPCode] coarseMillisecondsDistribution.
Definition AWSRequestRetriesView : View := mkView AWSRequestRetries [KeyName; KeyOperation; KeyHTTPCode; KeyErrorCode] Sum.
Definition ProviderDDBCollisionsView : View := mkView ProviderDDBCollisions [KeyName] Sum.
Definition STIFindProvsView : View := mkView STIFindProvs [KeyName; KeyStatus] Sum.
Definition STIFindProvsDurationView : View := mkView STIFindProvsDuration [KeyName; KeyStatus] coarseMillisecondsDistribution.
Definition STIFindProvsLengthView : View := mkView STIFindProvsLength [KeyName] defaultProvidersDistribution.
Definition STIFindProvsEmptyView : View := mkView STIFindProvsEmpty [KeyName] Sum.
Definition ReceivedMessagesView : View := mkView dht_ReceivedMessages [dht_KeyMessageType] Count.
Definition ReceivedMessageErrorsView : View := mkView dht_ReceivedMessageErrors [dht_KeyMessageType] Count.
Definition ReceivedBytesView : View := mkView dht_ReceivedBytes [dht_KeyMessageType] defaultBytesDistribution.
Definition InboundRequestLatencyView : View := mkView dht_InboundRequestLatency [dht_KeyMessageType] defaultMillisecondsDistribution.
Definition OutboundRequestLatencyView : View := mkView dht_OutboundRequestLatency [dht_KeyMessageType] coarseMillisecondsDistribution.
Definition SentMessagesView : View := mkView dht_SentMessages [dht_KeyMessageType] Count.
Definition SentMessageErrorsView : View := mkView dht_SentMessageErrors [dht_KeyMessageType] Count.
Definition SentRequestsView : View := mkView dht_SentRequests [dht_KeyMessageType] Count.
Definition SentRequestErrorsView : View := mkView dht_SentRequestErrors [dht_KeyMessageType] Count.
Definition SentBytesView : View := mkView dht_SentBytes [dht_KeyMessageType] defaultBytesDistribution.
Definition RcmgrConnsAllowedView : View := mkView RcmgrConnsAllowed [KeyName; KeyDirection; KeyUsesFD] Sum.
Definition RcmgrConnsBlockedView : View := mkView RcmgrConnsBlocked [KeyName; KeyDirection; KeyUsesFD] Sum.
Definition RcmgrStreamsAllowedView : View := mkView RcmgrStreamsAllowed [KeyName; KeyDirection] Sum.
Definition RcmgrStreamsBlockedView : View := mkView RcmgrStreamsBlocked [KeyName; KeyDirection] Sum.
Definition RcmgrPeersAllowedView : View := mkView RcmgrPeersAllowed [KeyName] Sum.
Definition RcmgrPeersBlockedView : View := mkView RcmgrPeersBlocked [KeyName] Sum.
Definition RcmgrProtocolsAllowedView : View := mkView RcmgrProtocolsAllowed [KeyName; KeyProtocol] Sum.
Definition RcmgrProtocolsBlockedView : View := mkView RcmgrProtocolsBlocked [KeyName; KeyProtocol] Sum.
Definition RcmgrProtocolPeersBlockedView : View := mkView RcmgrProtocolPeersBlocked [KeyName; KeyProtocol] Sum.
Definition RcmgrServiceAllowedView : View := mkView RcmgrServiceAllowed [KeyName; KeyService] Sum.
Definition RcmgrServiceBlockedView : View := mkView RcmgrServiceBlocked [KeyName; KeyService] Sum.
Definition RcmgrServicePeersBlockedView : View := mkView RcmgrServicePeersBlocked [KeyName; KeyService] Sum.
Definition RcmgrMemoryAllowedView : View := mkView RcmgrMemoryAllowed [KeyName] Sum.
Definition RcmgrMemoryBlockedView : View := mkView RcmgrMemoryBlocked [KeyName] Sum.

(** [DefaultViews] as it is declared. *)
Definition DefaultViews : list View := [
  HeadsView;
  BootstrappedHeadsView;
  ConnectedPeersView;
  UniquePeersView;
  RoutingTableSizeView;
  IPNSRecordsView;
  ProviderRecordsView;
  STIFindProvsView;
  STIFindProvsDurationView;
  STIFindProvsLengthView;
  STIFindProvsEmptyView;
  ProviderRecordsPerKeyView;
  PrefetchesView;
  PrefetchDurationMillisView;
  PrefetchNegativeCacheHitsView;
  PrefetchNegativeCacheSizeView;
  PrefetchNegativeCacheTTLSecondsView;
  PrefetchFailedToCacheView;
  PrefetchesPendingView;
  PrefetchesPendingLimitView;
  AWSRequestsView;
  AWSRequestsDurationView;
  AWSRequestRetriesView;
  ProviderDDBCollisionsView;
  ReceivedMessagesView;
  ReceivedMessageErrorsView;
  ReceivedBytesView;
  InboundRequestLatencyView;
  OutboundRequestLatencyView;
  SentMessagesView;
  SentMessageErrorsView;
  SentRequestsView;
  SentRequestErrorsView;
  SentBytesView;
  RcmgrConnsAllowedView;
  RcmgrConnsBlockedView;
  RcmgrStreamsAllowedView;
  RcmgrStreamsBlockedView;
  RcmgrPeersAllowedView;
  RcmgrPeersBlockedView;
  RcmgrProtocolsAllowedView;
  RcmgrProtocolsBlockedView;
  RcmgrProtocolPeersBlockedView;
  RcmgrServiceAllowedView;
  RcmgrServiceBlockedView;
  RcmgrServicePeersBlockedView;
  RcmgrMemoryAllowedView;
  RcmgrMemoryBlockedView
].

(** The list after [init], which appends the views of the resource manager. *)
Definition AllDefaultViews : list View := DefaultViews ++ obs_DefaultViews.
End views.

(** ** Recording *)

(** The mutators of the package tag. *)
Inductive Mutator : Type :=
| Upsert (k : Key) (v : string)
| Insert (k : Key) (v : string)
| Update (k : Key) (v : string).

(** The tags of a context, and [tag.New], which applies mutators to them. *)
Abbreviation Tags := (gmap string string).

Class TagLib := {
  tag_New : Tags -> list Mutator -> result Tags;
}.

(** A valid tag value: at most 255 printable ASCII characters. *)
Fixpoint printable (s : string) : bool :=
  match s with
  | EmptyString => true
  | String c s =>
      let n := Ascii.N_of_ascii c in (32 <=? n)%N && (n <=? 126)%N && printable s
  end.
Definition tag_valid (s : string) : bool := (String.length s <=? 255) && printable s.

(** The documented behaviour: mutators are applied in order; Upsert sets a tag,
    Insert sets it if the context has none, Update sets it if the context has
    one. *)
Class TagLibLaws `{TagLib} : Prop := {
  tag_New_nil : forall t, tag_New t [] = inr t;
  tag_New_Upsert : forall t k v ms, tag_valid v = true ->
    tag_New t (Upsert k v :: ms) = tag_New (<[k := v]> t) ms;
  tag_New_Insert : forall t k v ms, tag_valid v = true ->
    tag_New t (Insert k v :: ms) = tag_New (if t !! k is Some _ then t else <[k := v]> t) ms;
  tag_New_Update : forall t k v ms, tag_valid v = true ->
    tag_New t (Update k v :: ms) = tag_New (if t !! k is Some _ then <[k := v]> t else t) ms;
}.

(** One call of [stats.RecordWithTags] (or [stats.Record], with no mutator) in
    a context with the given tags. *)
Record Recording := mkRecording {
  r_ctx : Tags;
  r_mutators : list Mutator;
  r_measurements : list (Measure * Z);
}.

Definition Record_ (ctx : Tags) (ms : list (Measure * Z)) : Recording :=
  mkRecording ctx [] ms.

(** The tags the measurements are recorded under; on an error nothing is
    recorded. *)
Definition r_tags `{TagLib} (r : Recording) : result Tags := tag_New (r_ctx r) (r_mutators r).

(** ** The resource manager's reporter (rcmgr.go) *)

(** [network.Direction]: a number in Go; other values have no name. *)
Inductive Direction : Type := DirUnknown | DirInbound | DirOutbound.

Definition getDirection (d : Direction) : string :=
  match d with
  | DirInbound => "inbound"
  | DirOutbound => "outbound"
  | DirUnknown => ""
  end.

Definition FormatBool (b : bool) : string := if b then "true" else "false".

(** The tags of the context decide; the reporter keeps the name. *)
Definition CreateRcmgrMetrics (ctx : Tags) : result string :=
  match ctx !! KeyName with
  | None => inl (ErrorMsg "context must contain a 'name' key")
  | Some name => inr name
  end.

Section rcmgr.
Context (name : string).

Definition AllowConn (dir : Direction) (usefd : bool) : Recording :=
  mkRecording ∅
    [Upsert KeyName name; Upsert KeyDirection (getDirection dir);
     Upsert KeyUsesFD (FormatBool usefd)]
    [(RcmgrConnsAllowed, 1%Z); (RcmgrConnsBlocked, 0%Z)].

Definition BlockConn (dir : Direction) (usefd : bool) : Recording :=
  mkRecording ∅
    [Upsert KeyName name; Upsert KeyDirection (getDirection dir);
     Update KeyUsesFD (FormatBool usefd)]
    [(RcmgrConnsAllowed, 0%Z); (RcmgrConnsBlocked, 1%Z)].

Definition AllowStream (dir : Direction) : Recording :=
  mkRecording ∅
    [Upsert KeyName name; Upsert KeyDirection (getDirection dir)]
    [(RcmgrStreamsAllowed, 1%Z); (RcmgrStreamsBlocked, 0%Z)].

Definition BlockStream (dir : Direction) : Recording :=
  mkRecording ∅
    [Upsert KeyName name; Upsert KeyDirection (getDirection dir)]
    [(RcmgrStreamsAllowed, 0%Z); (RcmgrStreamsBlocked, 1%Z)].

Definition AllowPeer : Recording :=
  mkRecording ∅ [Upsert KeyName name] [(RcmgrPeersAllowed, 1%Z); (RcmgrPeersBlocked, 0%Z)].

Definition BlockPeer : Recording :=
  mkRecording ∅ [Upsert KeyName name] [(RcmgrPeersAllowed, 0%Z); (RcmgrPeersBlocked, 1%Z)].

Definition AllowProtocol (proto : string) : Recording :=
  mkRecording ∅ [Upsert KeyName name; Upsert KeyProtocol proto]
    [(RcmgrProtocolsAllowed, 1%Z); (RcmgrProtocolsBlocked, 0%Z)].

Definition BlockProtocol (proto : string) : Recording :=
  mkRecording ∅ [Upsert KeyName name; Upsert KeyProtocol proto]
    [(RcmgrProtocolsAllowed, 0%Z); (RcmgrProtocolsBlocked, 1%Z)].

Definition BlockProtocolPeer (proto : string) : Recording :=
  mkRecording ∅ [Upsert KeyName name; Upsert KeyProtocol proto]
    [(RcmgrProtocolPeersBlocked, 1%Z)].

Definition AllowService (svc : string) : Recording :=
  mkRecording ∅ [Upsert KeyName name; Upsert KeyService svc]
    [(RcmgrServiceAllowed, 1%Z); (RcmgrServiceBlocked, 0%Z)].

Definition BlockService (svc : string) : Recording :=
  mkRecording ∅ [Upsert KeyName name; Upsert KeyService svc]
    [(RcmgrServiceAllowed, 0%Z); (RcmgrServiceBlocked, 1%Z)].

Definition BlockServicePeer (svc : string) : Recording :=
  mkRecording ∅ [Upsert KeyName name; Upsert KeyService svc]
    [(RcmgrServicePeersBlocked, 1%Z)].

Definition AllowMemory : Recording :=
  mkRecording ∅ [Upsert KeyName name] [(RcmgrMemoryAllowed, 1%Z); (RcmgrMemoryBlocked, 0%Z)].

Definition BlockMemory : Recording :=
  mkRecording ∅ [Upsert KeyName name] [(RcmgrMemoryAllowed, 0%Z); (RcmgrMemoryBlocked, 1%Z)].

(** The calls of the resource manager. *)
Inductive rcmgr_event : Type :=
| EvConn (allow : bool) (dir : Direction) (usefd : bool)
| EvStream (allow : bool) (dir : Direction)
| EvPeer (allow : bool)
| EvProtocol (allow : bool) (proto : string)
| EvBlockProtocolPeer (proto : string)
| EvService (allow : bool) (svc : string)
| EvBlockServicePeer (svc : string)
| EvMemory (allow : bool).

Definition report (ev : rcmgr_event) : Recording :=
  match ev with
  | EvConn true dir usefd => AllowConn dir usefd
  | EvConn false dir usefd => BlockConn dir usefd
  | EvStream true dir => AllowStream dir
  | EvStream false dir => BlockStream dir
  | EvPeer true => AllowPeer
  | EvPeer false => BlockPeer
  | EvProtocol true proto => AllowProtocol proto
  | EvProtocol false proto => BlockProtocol proto
  | EvBlockProtocolPeer proto => BlockProtocolPeer proto
  | EvService true svc => AllowService svc
  | EvService false svc => BlockService svc
  | EvBlockServicePeer svc => BlockServicePeer svc
  | EvMemory true => AllowMemory
  | EvMemory false => BlockMemory
  end.
End rcmgr.

(** ** The AWS middleware (aws.go) *)

(** What the accessors of the AWS packages find in the context, the metadata
    and the error of a finished request. *)
Record AwsOutcome := mkAws {
  aws_ServiceID : string;
  aws_OperationName : string;
  aws_StatusCode : option Z; (* the raw response, when it is an HTTP one *)
  aws_ErrorCode : option string; (* [errors.As(err, &apiErr)] *)
  aws_ResponseAt : option Z; (* nanoseconds, as every time *)
  aws_Attempts : option (list bool); (* [Retried] of each attempt *)
}.

(** The middleware's [ID], and [AddAWSSDKMiddleware]: [Finalize_Add] is the library's
    call that puts a middleware of a name first in the last step of the stack. *)
Definition AWSMetricsMiddleware_ID : string := "AWSMetrics".
Definition AddAWSSDKMiddleware {Stack : Type} (Finalize_Add : Stack -> string -> Stack * option goerror)
    (stack : Stack) : Stack * option goerror := Finalize_Add stack AWSMetricsMiddleware_ID.

(** The measurements of [HandleFinalize]; the result of the next handler is
    returned as it is. [pretty] is [strconv.Itoa]. *)
Definition HandleFinalize (ctx : Tags) (start : Z) (res : AwsOutcome) : list Recording :=
  let httpCode := default 0%Z (aws_StatusCode res) in
  let errCode := default "none"%string (aws_ErrorCode res) in
  let tags :=
    [Upsert KeyOperation (aws_ServiceID res +:+ "." +:+ aws_OperationName res);
     Upsert KeyHTTPCode (pretty httpCode);
     Upsert KeyErrorCode errCode] in
  (match aws_ResponseAt res with
   | Some t => [mkRecording ctx tags [(AWSRequestDurationMillis, Milliseconds (t - start))]]
   | None => []
   end) ++
  (match aws_Attempts res with
   | Some results =>
       let retries := foldl (fun (n : Z) (retried : bool) => if retried then (n + 1)%Z else n) 0%Z results in
       [mkRecording ctx tags [(AWSRequests, Z.of_nat (length results))];
        mkRecording ctx tags [(AWSRequestRetries, retries)]]
   | None => []
   end).
