(* ===== verification/MetricsSpec.v ===== *)
(** * Theorems on the metrics (src/metrics) *)
From Stdlib Require Import QArith.
From stdpp Require Import pretty.
From S2P Require Import Prelude Metrics.
Open Scope nat_scope.

(** ** The measures of the program and of its libraries *)

(** Every measure that definitions.go declares. *)
Definition declared_measures : list Measure := [
  Heads;
  BootstrappedHeads;
  ConnectedPeers;
  UniquePeers;
  RoutingTableSize;
  IPNSRecords;
  ProviderRecords;
  ProviderRecordsPerKey;
  Prefetches;
  PrefetchDuration;
  PrefetchNegativeCacheHits;
  PrefetchNegativeCacheSize;
  PrefetchNegativeCacheTTLSeconds;
  PrefetchFailedToCache;
  PrefetchesPending;
  PrefetchesPendingLimit;
  DelegatedFindProvs;
  DelegatedFindProvsDuration;
  STIFindProvs;
  STIFindProvsDuration;
  STIFindProvsLength;
  STIFindProvsEmpty;
  AWSRequests;
  AWSRequestDurationMillis;
  AWSRequestRetries;
  ProviderDDBCollisions;
  RcmgrConnsAllowed;
  RcmgrConnsBlocked;
  RcmgrStreamsAllowed;
  RcmgrStreamsBlocked;
  RcmgrPeersAllowed;
  RcmgrPeersBlocked;
  RcmgrProtocolsAllowed;
  RcmgrProtocolsBlocked;
  RcmgrProtocolPeersBlocked;
  RcmgrServiceAllowed;
  RcmgrServiceBlocked;
  RcmgrServicePeersBlocked;
  RcmgrMemoryAllowed;
  RcmgrMemoryBlocked
].
(** Declared, but no view shows them. *)
Definition unseen_measures : list Measure := [DelegatedFindProvs; DelegatedFindProvsDuration].

Section libs.
Context `{LibMetrics}.

Definition dht_measures : list Measure := [
  dht_ReceivedMessages; dht_ReceivedMessageErrors; dht_ReceivedBytes;
  dht_InboundRequestLatency; dht_OutboundRequestLatency; dht_SentMessages;
  dht_SentMessageErrors; dht_SentRequests; dht_SentRequestErrors; dht_SentBytes
].

Definition dht_views : list View := [
  ReceivedMessagesView; ReceivedMessageErrorsView; ReceivedBytesView;
  InboundRequestLatencyView; OutboundRequestLatencyView; SentMessagesView;
  SentMessageErrorsView; SentRequestsView; SentRequestErrorsView; SentBytesView
].

(** The views of the program's own measures. *)
Definition own_views : list View := take 24 DefaultViews ++ drop 34 DefaultViews.
End libs.

(** The libraries' metrics have names of their own. *)
Class LibMetricsLaws `{LibMetrics} : Prop := {
  lib_names : NoDup ((m_name <$> dht_measures) ++ (v_name <$> obs_DefaultViews));
  lib_disjoint : forall n, n ∈ (m_name <$> dht_measures) ++ (v_name <$> obs_DefaultViews) ->
    n ∉ m_name <$> declared_measures;
}.

Lemma DefaultViews_split `{LibMetrics} : DefaultViews ≡ₚ own_views ++ dht_views.
Proof.
  transitivity (take 24 DefaultViews ++ dht_views ++ drop 34 DefaultViews); [reflexivity|].
  unfold own_views. rewrite <-app_assoc. apply Permutation_app_head, Permutation_app_comm.
Qed.

Lemma dht_views_measures `{LibMetrics} : v_measure <$> dht_views = dht_measures.
Proof. reflexivity. Qed.

Lemma own_views_measures `{LibMetrics} :
  v_measure <$> own_views ≡ₚ filter (fun m => m ∉ unseen_measures) declared_measures.
Proof. apply (bool_decide_unpack _). vm_compute. exact I. Qed.

Lemma declared_names_NoDup : NoDup (m_name <$> declared_measures).
Proof. apply (bool_decide_unpack _). vm_compute. exact I. Qed.

(** The strict order of the bounds of a distribution. *)
Fixpoint increasing (bs : list Q) : bool :=
  match bs with
  | x :: (y :: _) as bs' => negb (Qle_bool y x) && increasing bs'
  | _ => true
  end.
Definition ordered_bounds (a : Aggregation) : bool :=
  match a with Distribution bs => increasing bs | _ => true end.

(** ** Reports of the resource manager *)

(** What a sequence of recordings adds to a measure. *)
Definition recorded (m : Measure) (r : Recording) : Z :=
  foldr (fun p n => if decide (p.1 = m) then (p.2 + n)%Z else n) 0%Z (r_measurements r).
Definition total (m : Measure) (rs : list Recording) : Z :=
  foldr (fun r n => (recorded m r + n)%Z) 0%Z rs.

(** The measure that counts an event. *)
Definition counter (ev : rcmgr_event) : Measure :=
  match ev with
  | EvConn true _ _ => RcmgrConnsAllowed
  | EvConn false _ _ => RcmgrConnsBlocked
  | EvStream true _ => RcmgrStreamsAllowed
  | EvStream false _ => RcmgrStreamsBlocked
  | EvPeer true => RcmgrPeersAllowed
  | EvPeer false => RcmgrPeersBlocked
  | EvProtocol true _ => RcmgrProtocolsAllowed
  | EvProtocol false _ => RcmgrProtocolsBlocked
  | EvBlockProtocolPeer _ => RcmgrProtocolPeersBlocked
  | EvService true _ => RcmgrServiceAllowed
  | EvService false _ => RcmgrServiceBlocked
  | EvBlockServicePeer _ => RcmgrServicePeersBlocked
  | EvMemory true => RcmgrMemoryAllowed
  | EvMemory false => RcmgrMemoryBlocked
  end.

(** The text an event puts into a tag. *)
Definition event_text (ev : rcmgr_event) : string :=
  match ev with
  | EvProtocol _ s | EvBlockProtocolPeer s | EvService _ s | EvBlockServicePeer s => s
  | _ => ""
  end.

Lemma recorded_counter name ev m :
  recorded m (report name ev) = if decide (counter ev = m) then 1%Z else 0%Z.
Proof.
  unfold recorded.
  destruct ev as [[] ? ?|[] ?|[]|[] ?|?|[] ?|?|[]];
    cbn [report r_measurements AllowConn BlockConn AllowStream BlockStream AllowPeer BlockPeer
      AllowProtocol BlockProtocol BlockProtocolPeer AllowService BlockService BlockServicePeer
      AllowMemory BlockMemory foldr fst snd counter];
    repeat case_decide; lia.
Qed.

Lemma report_measures_declared name ev m :
  m ∈ (r_measurements (report name ev)).*1 -> m ∈ declared_measures.
Proof.
  revert m. apply Forall_forall.
  destruct ev as [[] ? ?|[] ?|[]|[] ?|?|[] ?|?|[]]; apply (bool_decide_unpack _); vm_compute; exact I.
Qed.

(** The tag keys that the program's views of the measures show. *)
Definition shown_keys `{LibMetrics} (ms : list Measure) : list Key :=
  mjoin (v_TagKeys <$> filter (fun v => v_measure v ∈ ms) own_views).

Lemma elem_of_shown_keys `{LibMetricsLaws} v ms k :
  v ∈ DefaultViews -> v_measure v ∈ ms -> (forall m, m ∈ ms -> m ∈ declared_measures) ->
  k ∈ v_TagKeys v -> k ∈ shown_keys ms.
Proof.
  rewrite DefaultViews_split, elem_of_app. intros [Hv|Hv] Hm Hms Hk.
  - apply list_elem_of_join. exists (v_TagKeys v). split; [done|].
    apply list_elem_of_fmap_2, list_elem_of_filter. done.
  - exfalso. apply (lib_disjoint (m_name (v_measure v))).
    + apply elem_of_app. left. rewrite <-dht_views_measures.
      by apply list_elem_of_fmap_2, list_elem_of_fmap_2.
    + by apply list_elem_of_fmap_2, Hms.
Qed.

(** The report of an event, with the keys its views show, case by case. *)
Definition tags_ok `{TagLib, LibMetrics} (name : string) (ev : rcmgr_event) : Prop :=
  exists tags, r_tags (report name ev) = inr tags /\ tags !! KeyName = Some name /\
  Forall (fun k => tags !! k = None <->
      k = KeyUsesFD /\ exists dir usefd, ev = EvConn false dir usefd)
    (shown_keys (r_measurements (report name ev)).*1).

Lemma direction_valid dir : tag_valid (getDirection dir) = true.
Proof. by destruct dir. Qed.
Lemma bool_valid b : tag_valid (FormatBool b) = true.
Proof. by destruct b. Qed.

Ltac run_mutators :=
  unfold r_tags; cbn [r_ctx r_mutators report AllowConn BlockConn AllowStream BlockStream
    AllowPeer BlockPeer AllowProtocol BlockProtocol BlockProtocolPeer AllowService BlockService
    BlockServicePeer AllowMemory BlockMemory];
  repeat (rewrite tag_New_Upsert by auto using direction_valid, bool_valid);
  try (rewrite tag_New_Update by apply bool_valid);
  rewrite tag_New_nil.

Lemma report_tags_ok `{TagLibLaws, LibMetrics} name ev :
  tag_valid name = true -> tag_valid (event_text ev) = true -> tags_ok name ev.
Proof.
  intros Hn Ht. unfold tags_ok.
  destruct ev as [[] dir b|[] dir|[]|[] proto|proto|[] svc|svc|[]]; cbn [event_text] in Ht;
    run_mutators; eexists; (split; [reflexivity|]); (split; [reflexivity|]).
  all: match goal with |- Forall _ ?l => let l' := eval vm_compute in l in
    change l with l' end.
  all: rewrite ?Forall_cons, Forall_nil; split_and?; try exact I.
  all: split; [intros Hk; vm_compute in Hk; try done|].
  all: try (intros [? (? & ? & ?)]; done).
  all: by split; [|do 2 eexists].
Qed.

(** ** The default views *)

Lemma AllDefaultViews_names `{LibMetrics} :
  v_name <$> AllDefaultViews ≡ₚ
  (m_name <$> filter (fun m => m ∉ unseen_measures) declared_measures) ++
  ((m_name <$> dht_measures) ++ (v_name <$> obs_DefaultViews)).
Proof.
  assert (forall l, v_name <$> l = m_name <$> (v_measure <$> l)) as Hfm
    by (intros l; by rewrite <-list_fmap_compose).
  unfold AllDefaultViews. rewrite fmap_app, DefaultViews_split, fmap_app, (Hfm own_views),
    (Hfm dht_views).
  by rewrite dht_views_measures, own_views_measures, <-app_assoc.
Qed.

Lemma AllDefaultViews_NoDup `{LibMetricsLaws} : NoDup (v_name <$> AllDefaultViews).
Proof.
  rewrite AllDefaultViews_names. apply NoDup_app. split_and!; [|..|apply lib_names].
  - eapply sublist_NoDup; [apply declared_names_NoDup|].
    apply fmap_sublist, sublist_filter.
  - intros n Hn Hl. apply (lib_disjoint n Hl).
    apply list_elem_of_fmap in Hn as (m & -> & [_ Hm]%list_elem_of_filter).
    by apply list_elem_of_fmap_2.
Qed.

(** Two default views of the same name are the same view. *)
Lemma default_view_unique `{LibMetricsLaws} v v' :
  v ∈ AllDefaultViews -> v' ∈ AllDefaultViews -> v_name v = v_name v' -> v = v'.
Proof.
  intros [i Hi]%list_elem_of_lookup [j Hj]%list_elem_of_lookup Hn.
  assert (i = j) as ->; [|congruence].
  eapply NoDup_lookup; [apply AllDefaultViews_NoDup|..]; rewrite list_lookup_fmap.
  - by rewrite Hi.
  - rewrite Hj, Hn. done.
Qed.

Lemma default_view_of `{LibMetrics} m :
  m ∈ declared_measures -> m ∉ unseen_measures ->
  exists v, v ∈ DefaultViews /\ v_measure v = m.
Proof.
  intros Hm Hu. assert (m ∈ v_measure <$> own_views) as Hv.
  { rewrite own_views_measures. by apply list_elem_of_filter. }
  apply list_elem_of_fmap in Hv as (v & -> & Hv). exists v. split; [|done].
  rewrite DefaultViews_split. apply elem_of_app. by left.
Qed.

Lemma unseen_not_viewed `{LibMetricsLaws} m :
  m ∈ unseen_measures -> m_name m ∉ v_name <$> AllDefaultViews.
Proof.
  intros Hu. assert (m ∈ declared_measures) as Hm by (revert m Hu; by apply Forall_forall, (bool_decide_unpack _)).
  rewrite AllDefaultViews_names, elem_of_app. intros [Hn|Hn].
  - apply list_elem_of_fmap in Hn as (m' & Hn & [Hu' Hm']%list_elem_of_filter).
    apply Hu'. apply list_elem_of_lookup in Hm as [i Hi].
    apply list_elem_of_lookup in Hm' as [j Hj].
    assert (i = j) as ->; [|congruence].
    eapply NoDup_lookup; [apply declared_names_NoDup|..]; rewrite list_lookup_fmap.
    + by rewrite Hi.
    + by rewrite Hj, Hn.
  - apply (lib_disjoint _ Hn). by apply list_elem_of_fmap_2.
Qed.

(** ** Theorems *)

(** C36. The default views fit together: no two have the same name, so
    registering them together cannot fail; every measure the program declares
    is shown by exactly one of them, except the two measures of delegated
    lookups, which no view shows; and the bounds of every distribution
    increase. *)
Theorem DefaultViews_consistent `{LibMetricsLaws} :
  NoDup (v_name <$> AllDefaultViews) /\
  (forall m, m ∈ declared_measures -> m ∉ unseen_measures ->
    exists v, v ∈ DefaultViews /\ v_measure v = m /\
      forall v', v' ∈ AllDefaultViews -> v_measure v' = m -> v' = v) /\
  (forall m v, m ∈ unseen_measures -> v ∈ AllDefaultViews -> v_measure v <> m) /\
  Forall (fun v => ordered_bounds (v_aggregation v) = true) DefaultViews.
Proof.
  split_and!; [apply AllDefaultViews_NoDup|..].
  - intros m Hm Hu. destruct (default_view_of m Hm Hu) as (v & Hv & <-).
    exists v. split_and!; [done..|]. intros v' Hv' Hm'.
    apply default_view_unique; [done|apply elem_of_app; by left|]. unfold v_name. by rewrite Hm'.
  - intros m v Hu Hv <-. apply (unseen_not_viewed _ Hu). by apply (list_elem_of_fmap_2 v_name).
  - repeat constructor.
Qed.

(** The reporter counts: whatever the resource manager reports, in any
    order, each measure grows by the number of events it stands for, and no
    other measure moves. *)
Theorem rcmgr_counts_events (name : string) (evs : list rcmgr_event) (m : Measure) :
  total m (report name <$> evs) = Z.of_nat (length (filter (fun ev => counter ev = m) evs)).
Proof.
  induction evs as [|ev evs IH]; [done|]. cbn [fmap list_fmap total foldr].
  fold (total m (report name <$> evs)). rewrite IH, recorded_counter, filter_cons.
  case_decide; simpl; lia.
Qed.

(** C35. With a valid hydra name and valid text, every report carries the name
    and every tag that the views of its measures show, with one exception: a
    blocked connection is always without the tag uses_fd, because that report
    updates the tag in a context that has no tags. *)
Theorem rcmgr_report_tags `{TagLibLaws, LibMetricsLaws} (name : string) (ev : rcmgr_event) :
  tag_valid name = true -> tag_valid (event_text ev) = true ->
  exists tags, r_tags (report name ev) = inr tags /\ tags !! KeyName = Some name /\
  forall v k, v ∈ DefaultViews -> v_measure v ∈ (r_measurements (report name ev)).*1 ->
    k ∈ v_TagKeys v ->
    tags !! k = None <-> k = KeyUsesFD /\ exists dir usefd, ev = EvConn false dir usefd.
Proof.
  intros Hn Ht. destruct (report_tags_ok name ev Hn Ht) as (tags & Hr & Hname & Hall).
  exists tags. split_and!; [done..|]. intros v k Hv Hm Hk.
  rewrite Forall_forall in Hall. apply Hall. eapply elem_of_shown_keys; [done..| |done].
  apply report_measures_declared.
Qed.

(** The attempts that were retried. *)
Lemma retries_count (results : list bool) : forall n : Z,
  foldl (fun (n : Z) (retried : bool) => if retried then (n + 1)%Z else n) n results =
  (n + Z.of_nat (length (filter (fun b => b = true) results)))%Z.
Proof.
  induction results as [|b results IH]; intros n; cbn [foldl]; [simpl; lia|].
  rewrite IH, filter_cons. destruct b; case_decide; simpl; try done; lia.
Qed.

(** A request to AWS: with valid text in the tags every recording is made under
    the tags of the context, the operation, the code of the HTTP response (0 when there is
    none) and the code of the error ("none"); the attempts and the retries are
    counted when the metadata has them, and the duration, in whole milliseconds, is
    recorded when there was a response. *)
Theorem aws_request_recorded `{TagLibLaws} (ctx : Tags) (start : Z) (res : AwsOutcome) :
  let op := (aws_ServiceID res +:+ "." +:+ aws_OperationName res)%string in
  let code := pretty (default 0%Z (aws_StatusCode res)) in
  let err := default "none"%string (aws_ErrorCode res) in
  let recs := HandleFinalize ctx start res in
  let attempts := default [] (aws_Attempts res) in
  tag_valid op = true -> tag_valid code = true -> tag_valid err = true ->
  Forall (fun r => r_tags r =
    inr (<[KeyErrorCode := err]> (<[KeyHTTPCode := code]> (<[KeyOperation := op]> ctx)))) recs /\
  total AWSRequests recs = Z.of_nat (length attempts) /\
  total AWSRequestRetries recs = Z.of_nat (length (filter (fun b => b = true) attempts)) /\
  total AWSRequestDurationMillis recs =
    default 0%Z ((fun t => Milliseconds (t - start)) <$> aws_ResponseAt res).
Proof.
  intros op code err recs attempts Hop Hcode Herr. subst recs attempts.
  assert (forall ms, r_tags (mkRecording ctx [Upsert KeyOperation op; Upsert KeyHTTPCode code;
    Upsert KeyErrorCode err] ms) = inr (<[KeyErrorCode := err]> (<[KeyHTTPCode := code]>
    (<[KeyOperation := op]> ctx)))) as Htags.
  { intros ms. unfold r_tags. cbn. by rewrite !tag_New_Upsert, tag_New_nil. }
  unfold HandleFinalize. fold op code err. split.
  - apply Forall_app. split; [destruct (aws_ResponseAt res)|destruct (aws_Attempts res)];
      repeat constructor; apply Htags.
  - unfold total. rewrite !foldr_app.
    destruct (aws_ResponseAt res), (aws_Attempts res); cbn;
      rewrite ?retries_count; split_and!; repeat case_decide; try done; lia.
Qed.

(** ** Concrete libraries *)

Definition lib_measure (n : string) : Measure :=
  mkMeasure Int64 ("libp2p.io/dht/kad/" +:+ n) n UnitDimensionless.

Definition sample_lib : LibMetrics := {|
  dht_ReceivedMessages := lib_measure "received_messages";
  dht_ReceivedMessageErrors := lib_measure "received_message_errors";
  dht_ReceivedBytes := lib_measure "received_bytes";
  dht_InboundRequestLatency := lib_measure "inbound_request_latency";
  dht_OutboundRequestLatency := lib_measure "outbound_request_latency";
  dht_SentMessages := lib_measure "sent_messages";
  dht_SentMessageErrors := lib_measure "sent_message_errors";
  dht_SentRequests := lib_measure "sent_requests";
  dht_SentRequestErrors := lib_measure "sent_request_errors";
  dht_SentBytes := lib_measure "sent_bytes";
  dht_KeyMessageType := "message_type";
  obs_DefaultViews := [mkView (lib_measure "rcmgr/connections") ["dir"] Sum]
|}.

Lemma sample_lib_laws : @LibMetricsLaws sample_lib.
Proof.
  split.
  - apply (bool_decide_unpack _). vm_compute. exact I.
  - apply Forall_forall, (bool_decide_unpack _). vm_compute. exact I.
Qed.

Fixpoint sample_New (t : Tags) (ms : list Mutator) : result Tags :=
  match ms with
  | [] => inr t
  | m :: ms =>
      let v := match m with Upsert _ v | Insert _ v | Update _ v => v end in
      if tag_valid v then
        sample_New
          match m with
          | Upsert k v => <[k := v]> t
          | Insert k v => if t !! k is Some _ then t else <[k := v]> t
          | Update k v => if t !! k is Some _ then <[k := v]> t else t
          end ms
      else inl (ErrorMsg "invalid value")
  end.

Definition sample_taglib : TagLib := {| tag_New := sample_New |}.

Lemma sample_taglib_laws : @TagLibLaws sample_taglib.
Proof. split; [done|..]; intros t k v ms Hv; cbn; by rewrite Hv. Qed.

Lemma DefaultViews_consistent_witness :
  length (@AllDefaultViews sample_lib) = 49 /\ NoDup (v_name <$> @AllDefaultViews sample_lib).
Proof.
  split; [reflexivity|].
  exact (proj1 (@DefaultViews_consistent sample_lib sample_lib_laws)).
Defined.

Lemma rcmgr_report_tags_witness :
  exists tags, @r_tags sample_taglib (report "h" (EvConn false DirInbound true)) = inr tags /\
    tags !! KeyName = Some "h"%string /\ tags !! KeyUsesFD = None.
Proof.
  destruct (@rcmgr_report_tags sample_taglib sample_taglib_laws sample_lib sample_lib_laws
    "h" (EvConn false DirInbound true)) as (tags & Ht & Hn & Hk); [reflexivity|reflexivity|].
  exists tags. split; [exact Ht|]. split; [exact Hn|].
  apply (Hk RcmgrConnsBlockedView KeyUsesFD).
  - apply (list_elem_of_lookup_2 _ 35). reflexivity.
  - apply (bool_decide_unpack _). vm_compute. exact I.
  - apply (bool_decide_unpack _). vm_compute. exact I.
  - split; [reflexivity|]. exists DirInbound, true. reflexivity.
Defined.
