(* ===== verification/Tasks.v ===== *)
(** * Periodic tasks (src/metricstasks, src/periodictasks, src/hydra/hydra.go)

    The tasks that count records, peers and routing table entries, as functions
    on what the counting calls yield; the runner, as a step function on a clock
    and the goroutines of the tasks; and what a hydra records of connections. *)
From S2P Require Import Prelude Floats Metrics.
Local Open Scope Z_scope.

(** A run of a task: what it records, and its error. *)
Definition run_result : Type := list Recording * option goerror.

(** ** The tasks *)

(** What the [select] of the counting loop can see next: a result of the query
    with its error, the closed channel, the end of the context. *)
Inductive query_event : Type :=
| QueryResult (err : option goerror)
| QueryClosed
| QueryCtxDone.

(** The loop; it blocks when nothing more happens. *)
Fixpoint count_loop (ctx : Tags) (evs : list query_event) (provRecords : Z) : outcome run_result :=
  match evs with
  | [] => Diverge
  | QueryClosed :: _ => Ret ([Record_ ctx [(ProviderRecords, wrap_i64 provRecords)]], None)
  | QueryCtxDone :: _ => Ret ([], None)
  | QueryResult None :: evs => count_loop ctx evs (wrap_int (provRecords + 1))
  | QueryResult (Some _) :: evs => count_loop ctx evs provRecords
  end.

Definition countProviderRecordsExactly (ctx : Tags) (query : result (list query_event))
    : outcome run_result :=
  match query with
  | inl err => Ret ([], Some err)
  | inr evs => count_loop ctx evs 0
  end.

(** The estimate of the database, or the error of the scan. *)
Definition countProviderRecordsApproximately (ctx : Tags) (scan : result float64) : run_result :=
  match scan with
  | inl err => ([], Some err)
  | inr numProvRecords => ([Record_ ctx [(ProviderRecords, f64_to_int64 numProvRecords)]], None)
  end.

Definition recordFromProviderRecordCounter (ctx : Tags) (count : result Z) : run_result :=
  match count with
  | inl err => ([], Some err)
  | inr n => ([Record_ ctx [(ProviderRecords, n)]], None)
  end.

(** The [Run] of a task: its calls act on a world [W]. *)
Record PeriodicTask (W : Type) := mkTask {
  Interval : Z;
  task_Run : Tags -> W -> outcome (W * run_result);
}.
Arguments mkTask {W} _ _.
Arguments Interval {W} _.
Arguments task_Run {W} _.

Section tasks.
Context {W : Type}.

(** A datastore: its query of the keys under /providers, and its estimate when
    it is a [WithPgxPool]. *)
Record Datastore := mkDatastore {
  ds_providers : W -> W * result (list query_event);
  ds_PgxPool : option (W -> W * result float64);
}.

(** [BatchingWithPgxPool] (src/datastore/pgxpool.go): the queries of one datastore
    and the estimate of another. *)
Definition BatchingWithPgxPool (Pool : W -> W * result float64) (Batching : Datastore) : Datastore :=
  mkDatastore (ds_providers Batching) (Some Pool).

(** [counter] is the provider store's [CountProviderRecords], if it has one. *)
Definition NewProviderRecordsTask (datastore : Datastore) (counter : option (W -> W * result Z)) (d : Z)
    : PeriodicTask W :=
  mkTask d (fun ctx w =>
    match ds_PgxPool datastore, counter with
    | Some pool, _ =>
        let '(w, scan) := pool w in Ret (w, countProviderRecordsApproximately ctx scan)
    | None, Some counter =>
        let '(w, n) := counter w in Ret (w, recordFromProviderRecordCounter ctx n)
    | None, None =>
        let '(w, query) := ds_providers datastore w in
        r ← countProviderRecordsExactly ctx query; Ret (w, r)
    end).

Definition NewRoutingTableSizeTask (getRoutingTableSize : W -> Z) (d : Z) : PeriodicTask W :=
  mkTask d (fun ctx w => Ret (w, ([Record_ ctx [(RoutingTableSize, getRoutingTableSize w)]], None))).

(** [int64] of a [uint64] count *)
Definition NewUniquePeersTask (getUniquePeersCount : W -> Z) (d : Z) : PeriodicTask W :=
  mkTask d (fun ctx w => Ret (w, ([Record_ ctx [(UniquePeers, wrap_i64 (getUniquePeersCount w))]], None))).

Definition NewIPNSRecordsTask (EntryCount : W -> W * result Z) (d : Z) : PeriodicTask W :=
  mkTask d (fun ctx w =>
    let '(w, count) := EntryCount w in
    Ret (w, match count with
            | inl err => ([], Some err)
            | inr count => ([Record_ ctx [(IPNSRecords, wrap_i64 count)]], None)
            end)).

(** ** The runner *)

(** The goroutine of a task: in its [select], with the time its timer fires; in
    [Run], since a time; returned. *)
Inductive task_state : Type :=
| TWaiting (fires : Z)
| TRunning (since : Z)
| TReturned.

(** The clock, the goroutines, whether the context is done, the world, what was
    recorded, and the runs that have started: the task and the time. *)
Record runner := mkRunner {
  rn_now : Z;
  rn_tasks : list task_state;
  rn_cancelled : bool;
  rn_world : W;
  rn_log : list Recording;
  rn_runs : list (nat * Z);
}.

Inductive task_event : Type :=
| TClock (d : Z)
| TFire (i : nat)
| TEnd (i : nat)
| TReturn (i : nat)
| TCancel.

Context (ctx : Tags) (tasks : list (PeriodicTask W)).

Definition set_task (s : runner) (i : nat) (t : task_state) : runner :=
  mkRunner (rn_now s) (<[i := t]> (rn_tasks s)) (rn_cancelled s) (rn_world s) (rn_log s) (rn_runs s).

(** One step; [None] when the event cannot happen. A run takes effect when it
    ends; one that blocks never ends. The error of a run is printed. *)
Definition tstep (s : runner) (e : task_event) : outcome (option runner) :=
  match e with
  | TClock d =>
      Ret (if 0 <=? d then
        Some (mkRunner (rn_now s + d) (rn_tasks s) (rn_cancelled s) (rn_world s) (rn_log s) (rn_runs s))
      else None)
  | TFire i =>
      match rn_tasks s !! i with
      | Some (TWaiting fires) =>
          Ret (if fires <=? rn_now s then
            let s := set_task s i (TRunning (rn_now s)) in
            Some (mkRunner (rn_now s) (rn_tasks s) (rn_cancelled s) (rn_world s) (rn_log s)
              (rn_runs s ++ [(i, rn_now s)]))
          else None)
      | _ => Ret None
      end
  | TEnd i =>
      match rn_tasks s !! i, tasks !! i with
      | Some (TRunning _), Some t =>
          match task_Run t ctx (rn_world s) with
          | Ret (w, (rs, err)) =>
              let s := set_task s i (TWaiting (rn_now s + Interval t)) in
              Ret (Some (mkRunner (rn_now s) (rn_tasks s) (rn_cancelled s) w (rn_log s ++ rs) (rn_runs s)))
          | Panic => Panic
          | Diverge => Ret None
          end
      | _, _ => Ret None
      end
  | TReturn i =>
      match rn_tasks s !! i with
      | Some (TWaiting _) => Ret (if rn_cancelled s then Some (set_task s i TReturned) else None)
      | _ => Ret None
      end
  | TCancel =>
      Ret (Some (mkRunner (rn_now s) (rn_tasks s) true (rn_world s) (rn_log s) (rn_runs s)))
  end.

Fixpoint tsteps (s : runner) (es : list task_event) : outcome (option runner) :=
  match es with
  | [] => Ret (Some s)
  | e :: es =>
      s' ← tstep s e;
      match s' with
      | Some s' => tsteps s' es
      | None => Ret None
      end
  end.

(** [RunTasks] at time 0: every timer is set. *)
Definition RunTasks (w : W) : runner :=
  mkRunner 0 ((fun t => TWaiting (Interval t)) <$> tasks) false w [] [].
End tasks.
Arguments Datastore W : clear implicits.
Arguments runner W : clear implicits.

(** ** Connections (the notifier of NewHydra) *)

(** The sketch that estimates how many peers were seen. *)
Class HyperLogLog := {
  hll : Type;
  hll_Insert : string -> hll -> hll;
  hll_Estimate : hll -> Z;
}.

Section connections.
Context `{HyperLogLog}.

Inductive conn_event : Type :=
| Connected (head : nat) (peer : string)
| Disconnected (head : nat).

(** [hd_ctx] are the tags of each head's context. *)
Definition notify (hd_ctx : nat -> Tags) (s : hll * list Recording) (e : conn_event) : hll * list Recording :=
  match e with
  | Connected i p => (hll_Insert p s.1, s.2 ++ [Record_ (hd_ctx i) [(ConnectedPeers, 1)]])
  | Disconnected i => (s.1, s.2 ++ [Record_ (hd_ctx i) [(ConnectedPeers, -1)]])
  end.

Definition GetUniquePeersCount (hyperlog : hll) : Z := hll_Estimate hyperlog.
End connections.

(** The tasks that every hydra starts, and their intervals in nanoseconds. *)
Definition second : Z := 1000000000.
Definition routingTableSizeTaskInterval : Z := 5 * second.
Definition uniquePeersTaskInterval : Z := 5 * second.
Definition ipnsRecordsTaskInterval : Z := 15 * 60 * second.
Definition providerRecordsTaskInterval : Z := 5 * 60 * second.

Definition hydra_tasks {W} (size unique : W -> Z) : list (PeriodicTask W) :=
  [NewRoutingTableSizeTask size routingTableSizeTaskInterval;
   NewUniquePeersTask unique uniquePeersTaskInterval].
