(* ===== verification/TasksSpec.v ===== *)
(** * Theorems on the periodic tasks (src/metricstasks, src/periodictasks) *)
From S2P Require Import Prelude Floats Metrics Tasks.
Local Open Scope Z_scope.

(** ** Counting *)

(** The number of results without an error. *)
Definition good_results (errs : list (option goerror)) : nat := length (filter (fun e => e = None) errs).

Lemma count_loop_results ctx errs rest n :
  0 <= n -> n + Z.of_nat (length errs) < 2 ^ 63 ->
  count_loop ctx ((QueryResult <$> errs) ++ rest) n = count_loop ctx rest (n + Z.of_nat (good_results errs)).
Proof.
  revert n. unfold good_results. induction errs as [|[e|] errs IH]; intros n Hn Hlen; simpl in *.
  - by rewrite Z.add_0_r.
  - by apply IH; lia.
  - autorewrite with wrap. rewrite IH by lia. f_equal. lia.
Qed.

(** The task that counts provider records asks the database for its
    estimate if the datastore has one, and otherwise the provider store if it
    counts its records. Without either it counts the results of a query for the
    keys: when the channel closes it records the number of results without an
    error; when the context ends first it records nothing and reports no error;
    and while neither happens it does not end. An error is returned and nothing
    is recorded. *)
Theorem provider_records_task {W} (ds : Datastore W) counter d ctx (w : W) :
  let run := task_Run (NewProviderRecordsTask ds counter d) ctx w in
  match ds_PgxPool ds, counter with
  | Some pool, _ =>
      run = Ret ((pool w).1,
        match (pool w).2 with
        | inr q => ([Record_ ctx [(ProviderRecords, f64_to_int64 q)]], None)
        | inl err => ([], Some err)
        end)
  | None, Some counter =>
      run = Ret ((counter w).1,
        match (counter w).2 with
        | inr n => ([Record_ ctx [(ProviderRecords, n)]], None)
        | inl err => ([], Some err)
        end)
  | None, None => forall w', 
      (forall err, ds_providers ds w = (w', inl err) -> run = Ret (w', ([], Some err))) /\
      (forall errs rest, ds_providers ds w = (w', inr ((QueryResult <$> errs) ++ rest)) ->
        Z.of_nat (length errs) < 2 ^ 63 ->
        (head rest = Some QueryClosed ->
          run = Ret (w', ([Record_ ctx [(ProviderRecords, Z.of_nat (good_results errs))]], None))) /\
        (head rest = Some QueryCtxDone -> run = Ret (w', ([], None))) /\
        (rest = [] -> run = Diverge))
  end.
Proof.
  cbv zeta. unfold NewProviderRecordsTask. cbn [task_Run].
  destruct (ds_PgxPool ds) as [pool|]; [by destruct (pool w) as [w' [err|q]]|].
  destruct counter as [c|]; [by destruct (c w) as [w' [err|n]]|].
  intros w'. split; [by intros err ->|]. intros errs rest -> Hlen. cbn [countProviderRecordsExactly].
  rewrite count_loop_results by lia. rewrite Z.add_0_l.
  assert (good_results errs <= length errs)%nat as Hle by (apply length_filter).
  assert (wrap_i64 (Z.of_nat (good_results errs)) = Z.of_nat (good_results errs)) as Hw
    by (apply wrap_i64_small; lia).
  split_and!; [| |by intros ->]; destruct rest as [|[]]; try done. intros _. cbn. by rewrite Hw.
Qed.

(** ** The runner *)

Section runner.
Context {W : Type} (ctx : Tags) (tasks : list (PeriodicTask W)).
Implicit Types (s : runner W) (t : PeriodicTask W).

(** The times at which the runs of a task have started. *)
Definition starts (i : nat) s : list Z := (filter (fun r : nat * Z => r.1 = i) (rn_runs s)).*2.

(** Every start is at least [d] after the one before. *)
Definition spaced (d : Z) (l : list Z) : Prop :=
  forall j a b, l !! j = Some a -> l !! S j = Some b -> a + d <= b.

Lemma spaced_snoc d l b :
  spaced d l -> (forall a, last l = Some a -> a + d <= b) -> spaced d (l ++ [b]).
Proof.
  intros Hs Hl j a b' Ha Hb. apply lookup_snoc_Some in Hb as [[Hlt Hb]|[Hj <-]].
  - rewrite lookup_app_l in Ha by lia. eauto.
  - rewrite lookup_app_l in Ha by lia. apply Hl. rewrite last_lookup. by rewrite <-Hj.
Qed.

Definition task_inv (i : nat) t s : Prop :=
  let n := Z.of_nat (length (starts i s)) in
  spaced (Interval t) (starts i s) /\
  match rn_tasks s !! i with
  | Some (TWaiting fires) =>
      (n + 1) * Interval t <= fires <= rn_now s + Interval t /\
      forall a, last (starts i s) = Some a -> a + Interval t <= fires
  | Some (TRunning since) =>
      n * Interval t <= since <= rn_now s /\ forall a, last (starts i s) = Some a -> a <= since
  | Some TReturned => n * Interval t <= rn_now s
  | None => False
  end.

Lemma starts_snoc i s j now st c w l :
  starts i (mkRunner now st c w l (rn_runs s ++ [(j, now)])) =
  starts i s ++ (if decide (j = i) then [now] else []).
Proof.
  unfold starts. cbn [rn_runs]. rewrite filter_app, fmap_app. f_equal.
  rewrite filter_cons. cbn [fst]. by case_decide.
Qed.

(** A step of another task, or one that starts no run. *)
Lemma task_inv_frame i t s s' :
  task_inv i t s -> starts i s' = starts i s -> rn_tasks s' !! i = rn_tasks s !! i ->
  rn_now s <= rn_now s' -> task_inv i t s'.
Proof.
  unfold task_inv. intros [Hs Hm] -> -> Hnow. split; [done|].
  destruct (rn_tasks s !! i) as [[f|since|]|]; [|..|done]; intuition lia.
Qed.

Lemma lookup_set_task s i j ts : j <> i -> rn_tasks (set_task s j ts) !! i = rn_tasks s !! i.
Proof. intros Hne. by apply list_lookup_insert_ne. Qed.

Lemma lookup_set_task_eq s i ts x : rn_tasks s !! i = Some x -> <[i := ts]> (rn_tasks s) !! i = Some ts.
Proof. intros Hx. by apply list_lookup_insert_eq, (lookup_lt_Some _ _ _ Hx). Qed.

Lemma task_inv_step i t s e s' :
  tasks !! i = Some t -> 0 <= Interval t ->
  task_inv i t s -> tstep ctx tasks s e = Ret (Some s') -> task_inv i t s'.
Proof.
  intros Ht Hpos Hinv Hstep. destruct e as [d|j|j|j|]; cbn [tstep] in Hstep.
  - case_match eqn:Hd; simplify_eq. apply (task_inv_frame _ _ s); cbn; try done. lia.
  - destruct (rn_tasks s !! j) as [[f| |]|] eqn:Hj; simplify_eq. case_match eqn:Hf; simplify_eq.
    destruct (decide (j = i)) as [->|Hne].
    + destruct Hinv as [Hs Hm]. rewrite Hj in Hm. destruct Hm as [Hn Hl]. unfold task_inv.
      rewrite starts_snoc, decide_True, length_app by done. cbn [rn_tasks rn_now length set_task].
      rewrite (lookup_set_task_eq s i _ _ Hj). apply Z.leb_le in Hf.
      split; [apply spaced_snoc; [done|intros a Ha; specialize (Hl a Ha); lia]|].
      split; [lia|]. intros a. rewrite last_snoc. intros [= <-]. lia.
    + apply (task_inv_frame _ _ s); [done| |by apply lookup_set_task|cbn; lia].
      rewrite starts_snoc, decide_False by done. by rewrite app_nil_r.
  - destruct (rn_tasks s !! j) as [[|since|]|] eqn:Hj; simplify_eq.
    destruct (tasks !! j) as [t'|] eqn:Ht'; simplify_eq.
    destruct (task_Run t' ctx (rn_world s)) as [[w [rs err]]| |]; simplify_eq.
    destruct (decide (j = i)) as [->|Hne]; [|by apply (task_inv_frame _ _ s);
      [done|done|apply lookup_set_task|cbn; lia]].
    rewrite Ht in Ht'. injection Ht' as <-. destruct Hinv as [Hs Hm]. rewrite Hj in Hm.
    destruct Hm as [Hn Hl]. unfold task_inv. cbn [rn_tasks rn_now rn_runs set_task].
    rewrite (lookup_set_task_eq s i _ _ Hj). change (starts i (mkRunner _ _ _ _ _ _)) with (starts i s).
    split; [done|]. split; [lia|].
    intros a Ha. specialize (Hl a Ha). lia.
  - destruct (rn_tasks s !! j) as [[f| |]|] eqn:Hj; simplify_eq. case_match; simplify_eq.
    destruct (decide (j = i)) as [->|Hne]; [|by apply (task_inv_frame _ _ s);
      [done|done|apply lookup_set_task|cbn; lia]].
    destruct Hinv as [Hs Hm]. rewrite Hj in Hm. unfold task_inv. cbn [rn_tasks set_task].
    rewrite (lookup_set_task_eq s i _ _ Hj). change (starts i (set_task s i TReturned)) with (starts i s).
    destruct Hm as [Hn _]. split; [done|]. cbn. lia.
  - simplify_eq. by apply (task_inv_frame _ _ s).
Qed.

Lemma task_inv_steps i t s es s' :
  tasks !! i = Some t -> 0 <= Interval t ->
  task_inv i t s -> tsteps ctx tasks s es = Ret (Some s') -> task_inv i t s'.
Proof.
  intros Ht Hpos. revert s. induction es as [|e es IH]; intros s Hinv; cbn [tsteps]; [by intros [= <-]|].
  destruct (tstep ctx tasks s e) as [[s1|]| |] eqn:He; try done. run.
  apply IH. by apply (task_inv_step i t s e).
Qed.

Lemma task_inv_new i t (w : W) :
  tasks !! i = Some t -> 0 <= Interval t -> task_inv i t (RunTasks tasks w).
Proof.
  intros Ht Hpos. unfold task_inv, RunTasks, starts. cbn [rn_tasks rn_now rn_runs filter].
  rewrite list_lookup_fmap, Ht. cbn. split; [by intros j a b|]. split; [lia|done].
Qed.

(** C34. Whatever the runs of the tasks do and however long they take, two runs
    of a task start at least its interval apart, the first one no earlier than
    an interval after the start, so that it never runs more often than the time
    allows. And no run, whatever its error, is the last one while the task's
    goroutine has not returned: the task is running, or the clock alone brings it
    to its next run within an interval. *)
Theorem task_rate (w : W) es s i t :
  tasks !! i = Some t -> 0 <= Interval t ->
  tsteps ctx tasks (RunTasks tasks w) es = Ret (Some s) ->
  spaced (Interval t) (starts i s) /\
  Z.of_nat (length (starts i s)) * Interval t <= rn_now s /\
  (rn_tasks s !! i = Some TReturned \/ (exists since, rn_tasks s !! i = Some (TRunning since)) \/
   exists d s', 0 <= d <= Interval t /\ tsteps ctx tasks s [TClock d; TFire i] = Ret (Some s') /\
     starts i s' = starts i s ++ [rn_now s + d]).
Proof.
  intros Ht Hpos Hsteps.
  destruct (task_inv_steps i t _ es s Ht Hpos (task_inv_new i t w Ht Hpos) Hsteps) as [Hs Hm].
  split; [done|]. destruct (rn_tasks s !! i) as [[f|since|]|] eqn:Hi; [| |by split; [|left]|done].
  - destruct Hm as [Hn _]. split; [lia|]. right; right. exists (Z.max 0 (f - rn_now s)).
    eexists. split; [lia|]. cbn [tsteps tstep].
    rewrite (proj2 (Z.leb_le 0 _)) by lia. cbn [mbind outcome_bind rn_tasks rn_now].
    rewrite Hi, (proj2 (Z.leb_le f _)) by lia. split; [reflexivity|].
    unfold starts. cbn [rn_runs]. rewrite filter_app, fmap_app, filter_cons, decide_True by done. done.
  - destruct Hm as [Hn _]. split; [lia|]. right; left. by eexists.
Qed.
End runner.

(** ** Connections *)

Section connections.
Context `{HyperLogLog} (hd_ctx : nat -> Tags).

Definition connected_peer (e : conn_event) : option string :=
  match e with Connected _ p => Some p | Disconnected _ => None end.
Definition change (e : conn_event) : nat * Z :=
  match e with Connected i _ => (i, 1) | Disconnected i => (i, -1) end.

(** However connections come and go, every change is recorded for its head, in
    order, and the sketch holds every peer that ever connected. *)
Lemma notify_all (evs : list conn_event) (h : hll) l :
  foldl (notify hd_ctx) (h, l) evs =
  (foldl (fun h p => hll_Insert p h) h (omap connected_peer evs),
   l ++ ((fun c => Record_ (hd_ctx c.1) [(ConnectedPeers, c.2)]) <$> (change <$> evs))).
Proof.
  revert h l. induction evs as [|[i p|i] evs IH]; intros h l; [by rewrite app_nil_r|..];
    cbn [foldl notify fst snd]; rewrite IH, <-app_assoc; reflexivity.
Qed.
End connections.

(** ** Witnesses *)

(** A datastore whose query sees an error, a result, and the closed channel. *)
Definition sample_datastore : Datastore unit := mkDatastore
  (fun w => (w, inr [QueryResult (Some (ErrorMsg "bad key")); QueryResult None; QueryClosed])) None.

Lemma provider_records_task_witness :
  task_Run (NewProviderRecordsTask sample_datastore None second) ∅ tt =
    Ret (tt, ([Record_ ∅ [(ProviderRecords, 1)]], None)).
Proof.
  pose proof (provider_records_task sample_datastore None second ∅ tt tt) as [_ Hcount].
  destruct (Hcount [Some (ErrorMsg "bad key"); None] [QueryClosed]) as [Hclosed _];
    [reflexivity|reflexivity|].
  apply Hclosed. reflexivity.
Defined.

(** A task that fails is run again after its interval. *)
Definition failing_task : PeriodicTask unit :=
  mkTask second (fun _ w => Ret (w, ([], Some (ErrorMsg "failed")))).

Lemma task_rate_witness :
  exists s, tsteps ∅ [failing_task] (RunTasks [failing_task] tt)
      [TClock second; TFire 0; TClock 7; TEnd 0] = Ret (Some s) /\
    Z.of_nat (length (starts 0 s)) * second <= rn_now s /\
    rn_tasks s = [TWaiting (second + 7 + second)].
Proof.
  eexists. split; [reflexivity|]. split; [|reflexivity].
  refine (proj1 (proj2 (task_rate ∅ [failing_task] tt
    [TClock second; TFire 0; TClock 7; TEnd 0] _ 0 failing_task _ _ _))).
  - reflexivity.
  - vm_compute. discriminate.
  - reflexivity.
Defined.
