(* ===== verification/Stores.v ===== *)
(** * Provider stores (src/providers: noop, unsupported, caching, combined, httpapi)

    The interface [ProviderStore] over a world of type [W]: a store is its two
    methods, which may read and change the world, so that stores can share
    state as the heads of a hydra do. Every method returns both of Go's
    results. *)
From S2P Require Import Prelude Interfaces Metrics.

(** ** Types of libp2p *)

(** [peer.ID] is a string type. *)
Abbreviation ID := string.

Class Libp2p := {
  Multiaddr : Type;
  Multiaddr_String : Multiaddr -> string;
  (** [ID.Validate] *)
  Validate : ID -> option goerror;
}.

Record AddrInfo `{Libp2p} := mkAddrInfo {
  ai_ID : ID;
  ai_Addrs : list Multiaddr;
}.
Arguments mkAddrInfo {_} _ _.

(** A context: its tags, and the scope whose cancellation it follows. *)
Record Ctx := mkCtx {
  ctx_tags : Tags;
  ctx_scope : nat;
}.

(** [recordPrefetches] (finder.go) *)
Definition recordPrefetches (ctx : Ctx) (status : string) (extra : list (Measure * Z)) : Recording :=
  mkRecording (ctx_tags ctx) [Upsert KeyStatus status] ((Prefetches, 1%Z) :: extra).

(** ** The iteration order of Go maps

    [range m] visits every entry once, in an order the language leaves open;
    the number tells the loops of a run apart. *)
Class MapRange := {
  map_range : forall {A}, nat -> gmap string A -> list (string * A);
}.
Class MapRangeLaws `{MapRange} : Prop := {
  map_range_perm : forall A n (m : gmap string A), map_range n m ≡ₚ map_to_list m;
}.

Section stores.
Context `{Libp2p} {W : Type}.

(** [providers.ProviderStore] *)
Record ProviderStore := mkStore {
  AddProvider : Ctx -> list byte -> AddrInfo -> W -> W * option goerror;
  GetProviders : Ctx -> list byte -> W -> W * (list AddrInfo * option goerror);
}.

(** ** noop.go *)

Definition NoopProviderStore : ProviderStore := mkStore
  (fun _ _ _ w => (w, None))
  (fun _ _ w => (w, ([], None))).

(** ** unsupported.go *)

Definition AddProviderNotSupported (backend : ProviderStore) : ProviderStore := mkStore
  (fun _ _ _ w => (w, None))
  (fun ctx key w => GetProviders backend ctx key w).

(** ** caching.go *)

(** The closure that [GetProviders] passes to the finder: it captures the
    store (a pointer, here a number), the context and the key. *)
Record onProviderFunc := mkOnProvider {
  cb_store : nat;
  cb_ctx : Ctx;
  cb_key : list byte;
}.

Section caching.
Context {R : Type} (emit : Recording -> W -> W).

(** The interface [ProvidersFinder]; a nil router is [None]. *)
Record ProvidersFinder := mkFinder {
  Find : Ctx -> option R -> list byte -> onProviderFunc -> W -> W * option goerror;
}.

Record CachingProviderStore := mkCaching {
  c_self : nat;
  ReadProviderStore : ProviderStore;
  WriteProviderStore : ProviderStore;
  Finder : ProvidersFinder;
  Router : option R;
}.

Definition NewCachingProviderStore (self : nat) (getDelegate addDelegate : ProviderStore)
    (finder : ProvidersFinder) (router : option R) : CachingProviderStore :=
  mkCaching self getDelegate addDelegate finder router.

Definition caching_AddProvider (s : CachingProviderStore) (ctx : Ctx) (key : list byte)
    (prov : AddrInfo) (w : W) : W * option goerror :=
  AddProvider (WriteProviderStore s) ctx key prov w.

Definition caching_GetProviders (d : CachingProviderStore) (ctx : Ctx) (key : list byte) (w : W)
    : W * (list AddrInfo * option goerror) :=
  let '(w, (addrInfos, err)) := GetProviders (ReadProviderStore d) ctx key w in
  match err with
  | Some err => (w, (addrInfos, Some err))
  | None =>
      match addrInfos with
      | _ :: _ => (w, (addrInfos, None))
      | [] =>
          let '(w, err) := Find (Finder d) ctx (Router d) key (mkOnProvider (c_self d) ctx key) w in
          (w, ([], err))
      end
  end.

(** The body of the closure, given the write store of [d]. *)
Definition cacheProvider (write : ProviderStore) (cb : onProviderFunc) (ai : AddrInfo) (w : W) : W :=
  let '(w, err) := AddProvider write (cb_ctx cb) (cb_key cb) ai w in
  match err with
  | Some _ => emit (Record_ (ctx_tags (cb_ctx cb)) [(PrefetchFailedToCache, 1%Z)]) w
  | None => w
  end.

Definition caching_store (d : CachingProviderStore) : ProviderStore :=
  mkStore (caching_AddProvider d) (caching_GetProviders d).
End caching.

(** ** combined.go *)

Section merge.
Context `{MapRange}.

Definition mergeMultiaddrs (n : nat) (addrs : list Multiaddr) : list Multiaddr :=
  let m := foldl (fun (m : gmap string Multiaddr) addr => <[Multiaddr_String addr := addr]> m) ∅ addrs in
  (map_range n m).*2.

(** The first loop of [mergeAddrInfos]. *)
Fixpoint merge_infos (n : nat) (infos : list AddrInfo) (m : gmap ID (list Multiaddr))
    : gmap ID (list Multiaddr) :=
  match infos with
  | [] => m
  | info :: infos =>
      merge_infos (S n) infos
        (<[ai_ID info := mergeMultiaddrs n (default [] (m !! ai_ID info) ++ ai_Addrs info)]> m)
  end.

Definition mergeAddrInfos (infos : list AddrInfo) : list AddrInfo :=
  let m := merge_infos 0 infos ∅ in
  foldl (fun r '(k, v) => if Validate k is None then r ++ [mkAddrInfo k v] else r) []
    (map_range (length infos) m).
End merge.

Section combined.
Context `{MapRange, MultiError}.

(** The order in which the results of the goroutines arrive on the channel. *)
Context (arrive : forall A : Type, list A -> list A).

(** One goroutine per backend, in the order in which they run. *)
Fixpoint go_AddProvider (sched : list ProviderStore) (ctx : Ctx) (key : list byte) (prov : AddrInfo)
    (w : W) : W * list (option goerror) :=
  match sched with
  | [] => (w, [])
  | backend :: sched =>
      let '(w, e) := AddProvider backend ctx key prov w in
      let '(w, ch) := go_AddProvider sched ctx key prov w in
      (w, e :: ch)
  end.

Fixpoint go_GetProviders (sched : list ProviderStore) (ctx : Ctx) (key : list byte) (w : W)
    : W * list (list AddrInfo * option goerror) :=
  match sched with
  | [] => (w, [])
  | backend :: sched =>
      let '(w, r) := GetProviders backend ctx key w in
      let '(w, ch) := go_GetProviders sched ctx key w in
      (w, r :: ch)
  end.

(** The receiving loop of [AddProvider]: what [Append] returns is dropped. *)
Fixpoint receive_errors (ch : list (option goerror)) (errs : option multierror)
    : option multierror :=
  match ch with
  | [] => errs
  | None :: ch => receive_errors ch errs
  | Some e :: ch => let _ := multierror_Append errs e in receive_errors ch errs
  end.

(** The receiving loop of [GetProviders]. *)
Fixpoint receive_infos (ch : list (list AddrInfo * option goerror)) (infos : list AddrInfo)
    (errs : option multierror) : list AddrInfo * option multierror :=
  match ch with
  | [] => (infos, errs)
  | (ais, None) :: ch => receive_infos ch (infos ++ ais) errs
  | (_, Some e) :: ch => let _ := multierror_Append errs e in receive_infos ch infos errs
  end.

(** [sched] is the order in which the goroutines run: any permutation of the
    backends. *)
Definition combined_AddProvider (backends sched : list ProviderStore) (ctx : Ctx)
    (key : list byte) (prov : AddrInfo) (w : W) : W * option goerror :=
  let '(w, ch) := go_AddProvider sched ctx key prov w in
  let errs := receive_errors (arrive _ ch) None in
  (w, if length (WrappedErrors errs) =? length backends then Some (error_of_multi errs) else None).

Definition combined_GetProviders (backends sched : list ProviderStore) (ctx : Ctx)
    (key : list byte) (w : W) : W * (list AddrInfo * option goerror) :=
  let '(w, ch) := go_GetProviders sched ctx key w in
  let '(infos, errs) := receive_infos (arrive _ ch) [] None in
  let infos := mergeAddrInfos infos in
  (w, (infos,
       if length (WrappedErrors errs) =? length backends then Some (error_of_multi errs) else None)).

(** [CombineProviders], for one order of the goroutines. *)
Definition CombineProviders (schedule : list ProviderStore -> list ProviderStore)
    (backends : list ProviderStore) : ProviderStore := mkStore
  (fun ctx key prov w => combined_AddProvider backends (schedule backends) ctx key prov w)
  (fun ctx key w => combined_GetProviders backends (schedule backends) ctx key w).
End combined.

(** ** httpapi.go *)

(** What the [select] of [GetProviders] can see next: the context is done, a
    provider arrives, the channel is closed. *)
Inductive http_event : Type :=
| CtxDone (err : goerror)
| Received (prov : AddrInfo)
| Closed.

(** The loop: it blocks ([Diverge]) when nothing more happens. *)
Fixpoint http_loop (evs : list http_event) (provs : list AddrInfo)
    : outcome (list AddrInfo * option goerror) :=
  match evs with
  | [] => Diverge
  | CtxDone err :: _ => Ret (provs, Some err)
  | Closed :: _ => Ret (provs, None)
  | Received prov :: evs => http_loop evs (provs ++ [prov])
  end.

Section http.
(** [multihash.Cast], and the events of the client's answer for a CID: the
    number is the codec. *)
Context (Cast : list byte -> result (list byte)) (cidRaw : Z).
Context (FindProvidersAsync : Z * list byte -> Z -> list http_event).

(** [NewHTTPProviderStore], with the error of the client's constructor. *)
Definition NewHTTPProviderStore (drc_New : string -> option goerror) (endpointURL : string) : option goerror :=
  match drc_New endpointURL with
  | Some err => Some (Errorf "building delegated routing HTTP client" err)
  | None => None
  end.

Definition http_AddProvider (key : list byte) (prov : AddrInfo) : option goerror := None.

Definition http_GetProviders (key : list byte) : outcome (list AddrInfo * option goerror) :=
  match Cast key with
  | inl err => Ret ([], Some err)
  | inr mh =>
      let c := (cidRaw, mh) in
      let provChan := FindProvidersAsync c 100 in
      http_loop provChan []
  end.
End http.
End stores.
Arguments ProviderStore {_} W.
Arguments ProvidersFinder W R : clear implicits.
Arguments CachingProviderStore {_} W R.
