(* ===== verification/StoresSpec.v ===== *)
(** * Theorems on the provider stores (src/providers/combined.go, httpapi.go) *)
From S2P Require Import Prelude Interfaces Metrics Stores.

Section merging.
Context `{Libp2p, MapRangeLaws}.
Implicit Types (addrs : list Multiaddr) (infos done : list AddrInfo).

(** [xs] is [ys] with one address for every written form. *)
Definition dedup_of (xs ys : list Multiaddr) : Prop :=
  NoDup (Multiaddr_String <$> xs) /\ (forall a, a ∈ xs -> a ∈ ys) /\
  forall s, s ∈ Multiaddr_String <$> ys -> s ∈ Multiaddr_String <$> xs.

(** All addresses that a list of answers gives for an ID. *)
Definition addrs_of (id : ID) (infos : list AddrInfo) : list Multiaddr :=
  infos ≫= fun ai => if decide (ai_ID ai = id) then ai_Addrs ai else [].

Lemma addrs_of_snoc id infos ai :
  addrs_of id (infos ++ [ai]) =
  addrs_of id infos ++ (if decide (ai_ID ai = id) then ai_Addrs ai else []).
Proof. unfold addrs_of. rewrite bind_app. simpl. by rewrite app_nil_r. Qed.

(** ** mergeMultiaddrs *)

Definition addr_map (addrs : list Multiaddr) : gmap string Multiaddr :=
  foldl (fun (m : gmap string Multiaddr) addr => <[Multiaddr_String addr := addr]> m) ∅ addrs.

Lemma addr_map_snoc addrs a : addr_map (addrs ++ [a]) = <[Multiaddr_String a := a]> (addr_map addrs).
Proof. unfold addr_map. by rewrite foldl_app. Qed.

Lemma addr_map_lookup addrs s a :
  addr_map addrs !! s = Some a -> Multiaddr_String a = s /\ a ∈ addrs.
Proof.
  induction addrs as [|b addrs IH] using rev_ind; [done|].
  rewrite addr_map_snoc, lookup_insert_Some, elem_of_app, list_elem_of_singleton.
  intros [[? ->]|[_ ?%IH]]; naive_solver.
Qed.

Lemma addr_map_is_Some addrs s :
  s ∈ Multiaddr_String <$> addrs -> is_Some (addr_map addrs !! s).
Proof.
  induction addrs as [|b addrs IH] using rev_ind; [by intros ?%elem_of_nil|].
  rewrite fmap_app, elem_of_app, addr_map_snoc. cbn. rewrite list_elem_of_singleton.
  destruct (decide (Multiaddr_String b = s)) as [->|Hne].
  - intros _. rewrite lookup_insert_eq. eauto.
  - intros [Hs|Hs]; [|congruence]. rewrite lookup_insert_ne by done. auto.
Qed.

(** A list of values stored under their own strings. *)
Lemma own_keys_NoDup (m : gmap string Multiaddr) :
  (forall s a, m !! s = Some a -> Multiaddr_String a = s) ->
  Multiaddr_String <$> (map_to_list m).*2 = (map_to_list m).*1.
Proof.
  intros Hm. assert (forall p, p ∈ map_to_list m -> Multiaddr_String p.2 = p.1) as Hp.
  { intros [s a] Hp%elem_of_map_to_list. by apply Hm. }
  induction (map_to_list m) as [|p l IH]; [done|]. cbn. f_equal; [apply Hp; set_solver|].
  apply IH. intros q Hq. apply Hp. set_solver.
Qed.

Lemma mergeMultiaddrs_dedup n addrs : dedup_of (mergeMultiaddrs n addrs) addrs.
Proof.
  unfold mergeMultiaddrs. fold (addr_map addrs).
  pose proof (map_range_perm _ n (addr_map addrs)) as Hp. split_and!.
  - rewrite Hp, own_keys_NoDup by (intros s a ?%addr_map_lookup; naive_solver).
    apply NoDup_fst_map_to_list.
  - intros a. rewrite Hp. intros ([s b] & -> & Hb%elem_of_map_to_list)%list_elem_of_fmap.
    by apply addr_map_lookup in Hb as [_ ?].
  - intros s [a Ha]%addr_map_is_Some. rewrite Hp. apply list_elem_of_fmap.
    exists a. split; [symmetry; by eapply addr_map_lookup|].
    apply list_elem_of_fmap. exists (s, a). split; [done|]. by apply elem_of_map_to_list.
Qed.

Lemma dedup_of_app xs ys zs ws :
  dedup_of xs (ys ++ zs) -> dedup_of ys ws -> dedup_of xs (ws ++ zs).
Proof.
  intros (Hnd & Hin & Hall) (_ & Hin' & Hall'). split_and!; [done| |].
  - intros a [?|?]%Hin%elem_of_app; apply elem_of_app; auto.
  - intros s. rewrite fmap_app, elem_of_app. intros Hs. apply Hall.
    rewrite fmap_app, elem_of_app. naive_solver.
Qed.

Lemma dedup_of_nil : dedup_of [] [].
Proof. split_and!; [constructor|done|done]. Qed.

(** ** mergeAddrInfos *)

(** What the map holds once the answers [done] are merged. *)
Definition merged (done : list AddrInfo) (m : gmap ID (list Multiaddr)) : Prop :=
  forall id, match m !! id with
    | None => id ∉ ai_ID <$> done
    | Some addrs => id ∈ ai_ID <$> done /\ dedup_of addrs (addrs_of id done)
    end.

Lemma addrs_of_none id done : id ∉ ai_ID <$> done -> addrs_of id done = [].
Proof.
  intros Hid. induction done as [|ai done IH]; [done|]. unfold addrs_of in *. cbn in *.
  rewrite decide_False by set_solver. apply IH. set_solver.
Qed.

Lemma merge_infos_merged n infos done m :
  merged done m -> merged (done ++ infos) (merge_infos n infos m).
Proof.
  revert n done m. induction infos as [|ai infos IH]; intros n done m Hm; cbn [merge_infos].
  { by rewrite app_nil_r. }
  rewrite cons_middle, app_assoc. apply IH. intros id.
  rewrite fmap_app, addrs_of_snoc. cbn.
  destruct (decide (ai_ID ai = id)) as [<-|Hne].
  - rewrite lookup_insert_eq. split; [apply elem_of_app; right; by constructor|].
    eapply dedup_of_app; [apply mergeMultiaddrs_dedup|].
    specialize (Hm (ai_ID ai)). destruct (m !! ai_ID ai); cbn; [by destruct Hm|].
    rewrite addrs_of_none by done. apply dedup_of_nil.
  - rewrite lookup_insert_ne, app_nil_r by done. specialize (Hm id).
    destruct (m !! id); set_solver.
Qed.

Lemma mergeAddrInfos_filter (l : list (string * list Multiaddr)) r :
  foldl (fun r '(k, v) => if Validate k is None then r ++ [mkAddrInfo k v] else r) r l =
  r ++ ((fun '(k, v) => mkAddrInfo k v) <$> filter (fun p => Validate p.1 = None) l).
Proof.
  revert r. induction l as [|[k v] l IH]; intros r; [by rewrite app_nil_r|].
  cbn [foldl]. rewrite IH, filter_cons. cbn [fst].
  destruct (Validate k) eqn:Hk; case_decide; try done. by rewrite <-app_assoc.
Qed.

Lemma mergeAddrInfos_spec infos :
  NoDup (ai_ID <$> mergeAddrInfos infos) /\
  (forall ai, ai ∈ mergeAddrInfos infos ->
    Validate (ai_ID ai) = None /\ ai_ID ai ∈ ai_ID <$> infos /\
    dedup_of (ai_Addrs ai) (addrs_of (ai_ID ai) infos)) /\
  (forall id, id ∈ ai_ID <$> infos -> Validate id = None -> id ∈ ai_ID <$> mergeAddrInfos infos).
Proof.
  assert (merged infos (merge_infos 0 infos ∅)) as Hm.
  { apply (merge_infos_merged 0 infos []). intros id. rewrite lookup_empty. by intros ?%elem_of_nil. }
  unfold mergeAddrInfos. rewrite mergeAddrInfos_filter. cbn [app].
  pose proof (map_range_perm _ (length infos) (merge_infos 0 infos ∅)) as Hp.
  assert (NoDup (map_range (length infos) (merge_infos 0 infos ∅)).*1) as Hnd
    by (rewrite Hp; apply NoDup_fst_map_to_list).
  assert (forall k v, (k, v) ∈ map_range (length infos) (merge_infos 0 infos ∅) <->
    merge_infos 0 infos ∅ !! k = Some v) as Hl
    by (intros k v; by rewrite Hp, elem_of_map_to_list).
  revert Hnd Hl Hm. generalize (map_range (length infos) (merge_infos 0 infos ∅)).
  generalize (merge_infos 0 infos ∅). clear Hp. intros m l Hnd Hl Hm. split_and!.
  - rewrite <-list_fmap_compose, (list_fmap_ext _ fst) by (by intros ? [? ?] ?).
    eapply sublist_NoDup; [exact Hnd|]. apply fmap_sublist, sublist_filter.
  - intros ai ([k v] & -> & [Hv Hk%Hl]%list_elem_of_filter)%list_elem_of_fmap.
    specialize (Hm k). rewrite Hk in Hm. by destruct Hm.
  - intros id Hid Hv. specialize (Hm id). destruct (m !! id) as [v|] eqn:Hk; [|done].
    apply list_elem_of_fmap. exists (mkAddrInfo id v). split; [done|].
    apply list_elem_of_fmap. exists (id, v). split; [done|].
    apply list_elem_of_filter. split; [done|]. by apply Hl.
Qed.
End merging.

(** ** The channel of a combined store *)

Section channel.
Context `{Libp2p, MultiError}.

(** The providers in the answers without an error. *)
Definition answers (ch : list (list AddrInfo * option goerror)) : list AddrInfo :=
  ch ≫= fun r => if r.2 is None then r.1 else [].

Lemma receive_errors_nil ch : receive_errors ch None = None.
Proof. induction ch as [|[e|] ch IH]; [done|exact IH|exact IH]. Qed.

Lemma receive_infos_answers ch infos :
  receive_infos ch infos None = (infos ++ answers ch, None).
Proof.
  revert infos. induction ch as [|[ais [e|]] ch IH]; intros infos; cbn.
  - by rewrite app_nil_r.
  - apply IH.
  - by rewrite IH, <-app_assoc.
Qed.

#[export] Instance answers_perm : Proper ((≡ₚ) ==> (≡ₚ)) answers.
Proof. intros ch1 ch2 Hch. unfold answers. by rewrite Hch. Qed.
End channel.

(** The addresses of a peer do not depend on the order of the answers. *)
#[export] Instance dedup_of_perm `{Libp2p} : Proper ((=) ==> (≡ₚ) ==> iff) dedup_of.
Proof.
  intros xs ? <- ys1 ys2 Hys. unfold dedup_of. by setoid_rewrite Hys.
Qed.

#[export] Instance addrs_of_perm `{Libp2p} id : Proper ((≡ₚ) ==> (≡ₚ)) (addrs_of id).
Proof. intros l1 l2 Hl. unfold addrs_of. by rewrite Hl. Qed.

(** ** Theorems *)

Section theorems.
Context `{Libp2p, MapRangeLaws, MultiErrorLaws} {W : Type}.
Context (arrive : forall A : Type, list A -> list A).
Context (arrive_perm : forall A (l : list A), arrive A l ≡ₚ l).
Implicit Types (backends sched : list (ProviderStore W)).

(** C5. [GetProviders] of a combined store merges the answers of its backends,
    in whatever order they run and answer: no peer is listed twice; the peers
    listed are exactly those with a valid ID that some backend without an error
    names; and each comes with every address any of them gives for it, one for
    each written form, and no other address. *)
Theorem combined_GetProviders_merges backends sched (ctx : Ctx) (key : list byte) (w : W) :
  let ch := (go_GetProviders sched ctx key w).2 in
  let infos := (combined_GetProviders arrive backends sched ctx key w).2.1 in
  NoDup (ai_ID <$> infos) /\
  (forall id, id ∈ ai_ID <$> infos <-> id ∈ ai_ID <$> answers ch /\ Validate id = None) /\
  (forall ai, ai ∈ infos -> dedup_of (ai_Addrs ai) (addrs_of (ai_ID ai) (answers ch))).
Proof.
  unfold combined_GetProviders. destruct (go_GetProviders sched ctx key w) as [w' ch].
  rewrite receive_infos_answers. cbn [fst snd app].
  destruct (mergeAddrInfos_spec (answers (arrive _ ch))) as (Hnd & Hsound & Hcomplete).
  pose proof (answers_perm _ _ (arrive_perm _ ch)) as Hp. split_and!; [done|..].
  - intros id. split.
    + intros (ai & -> & (Hv & Hid & _)%Hsound)%list_elem_of_fmap. by rewrite <-Hp.
    + intros [Hid Hv]. apply Hcomplete; [by rewrite Hp|done].
  - intros ai (_ & _ & Hd)%Hsound. by rewrite <-Hp.
Qed.

(** C33. A combined store never reports the errors of its backends: both methods
    return no error as soon as there is one backend, whatever the backends
    return and in whatever order; without backends both return an error that
    holds a nil pointer. *)
Theorem combined_errors_lost backends sched (ctx : Ctx) (key : list byte) (prov : AddrInfo) (w : W) :
  let err := match backends with [] => Some (error_of_multi None) | _ :: _ => None end in
  (combined_AddProvider arrive backends sched ctx key prov w).2 = err /\
  (combined_GetProviders arrive backends sched ctx key w).2.2 = err.
Proof.
  unfold combined_AddProvider, combined_GetProviders.
  destruct (go_AddProvider sched ctx key prov w) as [w1 ch1].
  destruct (go_GetProviders sched ctx key w) as [w2 ch2].
  rewrite receive_errors_nil, receive_infos_answers, WrappedErrors_nil.
  by destruct backends.
Qed.
End theorems.

(** The events that matter to the loop of the HTTP store. *)
Definition stops `{Libp2p} (ev : http_event) : bool :=
  match ev with Received _ => false | _ => true end.

Lemma http_loop_received `{Libp2p} evs provs ais :
  http_loop ((Received <$> ais) ++ evs) provs = http_loop evs (provs ++ ais).
Proof.
  revert provs. induction ais as [|ai ais IH]; intros provs; cbn; [by rewrite app_nil_r|].
  by rewrite IH, <-app_assoc.
Qed.

(** [GetProviders] of the HTTP store returns exactly the providers that
    arrive before the channel is closed or the context is done, in order, with
    the context's error in the second case; a key that is no multihash is an
    error before any request; and while neither happens it does not return. *)
Theorem http_GetProviders_spec `{Libp2p} Cast (cidRaw : Z) FindProvidersAsync
    (key : list byte) (ais : list AddrInfo) (rest : list http_event) :
  match Cast key with
  | inl err => http_GetProviders Cast cidRaw FindProvidersAsync key = Ret ([], Some err)
  | inr mh =>
      (forall err, FindProvidersAsync (cidRaw, mh) 100%Z = (Received <$> ais) ++ CtxDone err :: rest ->
        http_GetProviders Cast cidRaw FindProvidersAsync key = Ret (ais, Some err)) /\
      (FindProvidersAsync (cidRaw, mh) 100%Z = (Received <$> ais) ++ Closed :: rest ->
        http_GetProviders Cast cidRaw FindProvidersAsync key = Ret (ais, None)) /\
      (http_GetProviders Cast cidRaw FindProvidersAsync key = Diverge <->
        Forall (fun ev => stops ev = false) (FindProvidersAsync (cidRaw, mh) 100%Z))
  end.
Proof.
  unfold http_GetProviders. destruct (Cast key) as [err|mh]; [done|]. split_and!.
  - intros err ->. by rewrite http_loop_received.
  - intros ->. by rewrite http_loop_received.
  - generalize (@nil AddrInfo).
    induction (FindProvidersAsync (cidRaw, mh) 100%Z) as [|[err|prov|] evs IH]; intros provs;
      cbn [http_loop]; rewrite ?Forall_cons, ?Forall_nil; cbn [stops]; naive_solver.
Qed.

(** ** Concrete inputs *)

Definition sample_libp2p : Libp2p := {|
  Multiaddr := string;
  Multiaddr_String a := a;
  Validate id := if decide (id = ""%string) then Some (ErrorMsg "empty peer ID") else None
|}.

Definition sample_range : MapRange := {| map_range A n m := map_to_list m |}.
Lemma sample_range_laws : @MapRangeLaws sample_range.
Proof. by split. Qed.

Definition sample_arrive (A : Type) (l : list A) : list A := reverse l.
Lemma sample_arrive_perm A (l : list A) : sample_arrive A l ≡ₚ l.
Proof. apply reverse_Permutation. Qed.

(** A store that gives the same answer to everything. *)
Definition const_store `{Libp2p} (ais : list AddrInfo) (err : option goerror) : ProviderStore unit :=
  mkStore (fun _ _ _ w => (w, err)) (fun _ _ w => (w, (ais, err))).

Definition sample_ai (id : ID) (addrs : list string) : @AddrInfo sample_libp2p :=
  @mkAddrInfo sample_libp2p id addrs.

Definition sample_backends : list (@ProviderStore sample_libp2p unit) :=
  [@const_store sample_libp2p [sample_ai "p" ["a"; "b"]; sample_ai "" ["c"]]%string None;
   @const_store sample_libp2p [sample_ai "q" ["d"]]%string (Some (ErrorMsg "down"));
   @const_store sample_libp2p [sample_ai "p" ["b"; "e"]]%string None].

Definition sample_ctx : Ctx := mkCtx ∅ 0.

Lemma combined_GetProviders_merges_witness :
  (ai_ID <$> (@combined_GetProviders sample_libp2p unit sample_range list_multierror sample_arrive
      sample_backends sample_backends sample_ctx [] tt).2.1 = ["p"])%string /\
  NoDup (ai_ID <$> (@combined_GetProviders sample_libp2p unit sample_range list_multierror
    sample_arrive sample_backends sample_backends sample_ctx [] tt).2.1).
Proof.
  split; [vm_compute; reflexivity|].
  exact (proj1 (@combined_GetProviders_merges sample_libp2p sample_range sample_range_laws
    list_multierror unit sample_arrive sample_arrive_perm sample_backends
    sample_backends sample_ctx [] tt)).
Defined.

Lemma combined_errors_lost_witness :
  let down := [@const_store sample_libp2p [] (Some (ErrorMsg "down"))] in
  (@combined_AddProvider sample_libp2p unit list_multierror sample_arrive down down sample_ctx []
    (sample_ai "p" []) tt).2 = None.
Proof.
  exact (proj1 (@combined_errors_lost sample_libp2p sample_range list_multierror
    list_multierror_laws unit sample_arrive
    [@const_store sample_libp2p [] (Some (ErrorMsg "down"))]
    [@const_store sample_libp2p [] (Some (ErrorMsg "down"))] sample_ctx [] (sample_ai "p" []) tt)).
Defined.

Lemma http_GetProviders_spec_witness :
  @http_GetProviders sample_libp2p inr 85%Z
    (fun _ _ => [Received (sample_ai "p" []); Closed]) [] = Ret ([sample_ai "p" []], None).
Proof.
  refine (proj1 (proj2 (@http_GetProviders_spec sample_libp2p inr 85%Z
    (fun _ _ => [Received (sample_ai "p" []); Closed]) [] [sample_ai "p" []] [])) _).
  reflexivity.
Defined.
