(* ===== verification/HttpApi.v ===== *)
(** * The HTTP API (src/httpapi/httpapi.go)

    The routes and one definition per handler. A handler writes through a
    [Writer], which is the [http.ResponseWriter] together with the one JSON
    encoder that the handler puts on it, and may change a world of type [W].
    net/http recovers from a panic of a handler by closing the connection; here
    it stays the outcome [Panic] of the request. *)
From Stdlib Require Import Strings.String.
From stdpp Require Import pretty.
From S2P Require Import Prelude GoStd Encoding Interfaces Metrics Stores.
Open Scope nat_scope.

(** ** Requests and responses *)

Record Request := mkRequestHTTP {
  r_Method : string;
  r_Path : string;
  r_Form : string -> string; (* [FormValue] *)
  r_Body : list byte;
  r_Context : Ctx;
}.

Record Response := mkResponse {
  StatusCode : Z;
  Body : list byte;
}.

(** The status once it is sent, the body so far, the number of writes so far,
    and the error that the encoder remembers. *)
Record Writer := mkWriter {
  w_status : option Z;
  w_body : list byte;
  w_writes : nat;
  w_err : option goerror;
}.
Definition NewWriter : Writer := mkWriter None [] 0 None.

(** A second status is ignored; the first write sends the status 200. *)
Definition WriteHeader (code : Z) (wr : Writer) : Writer :=
  mkWriter (Some (default code (w_status wr))) (w_body wr) (w_writes wr) (w_err wr).
Definition respond (wr : Writer) : Response := mkResponse (default 200%Z (w_status wr)) (w_body wr).

(** ** The API's values *)

(** A connection of a host. *)
Record Conn `{Libp2p} := mkConn {
  RemotePeer : ID;
  RemoteMultiaddr : Multiaddr;
  Stat_Direction : Z;
}.
Arguments mkConn {_} _ _ _.

Record swarmPeersPeer `{Libp2p} := mkSwarmPeer {
  sp_ID : ID;
  sp_Addr : Multiaddr;
  sp_Direction : Z;
}.
Arguments mkSwarmPeer {_} _ _ _.
Record swarmPeersHostPeer `{Libp2p} := mkSwarmHostPeer {
  sh_ID : ID;
  sh_Peer : swarmPeersPeer;
}.
Arguments mkSwarmHostPeer {_} _ _.

Record PeerInfo `{Libp2p} := mkPeerInfo {
  pi_AddrInfo : AddrInfo;
  pi_HeadID : ID;
  pi_AgentVersion : string;
  pi_Protocols : list string;
}.
Arguments mkPeerInfo {_} _ _ _ _.

(** What the handlers encode; [E] is the type of datastore entries. *)
Inductive Value `{Libp2p} (E : Type) : Type :=
| VString (s : list byte)
| VAddrInfo (ai : AddrInfo)
| VEntry (e : E)
| VPeerInfo (pi : PeerInfo)
| VSwarmPeer (p : swarmPeersHostPeer).
Arguments VString {_ E} _.
Arguments VAddrInfo {_ E} _.
Arguments VEntry {_ E} _.
Arguments VPeerInfo {_ E} _.
Arguments VSwarmPeer {_ E} _.

(** ** Code outside the repository *)

(** Hosts of type [N] and what they do to a world [W]. *)
Class HostLibs (N W : Type) `{Libp2p} := {
  Cid : Type;
  Entry : Type;
  cid_Decode : string -> result Cid;
  cid_Hash : Cid -> list byte;
  (** The text of an ID. *)
  ID_String : ID -> string;
  Host_ID : N -> ID;
  Host_Addrs : N -> list Multiaddr;
  Conns : N -> list Conn;
  (** The peer store of a host. A value that is stored under the name
      AgentVersion is [None] when it is no string. *)
  ps_Peers : N -> list ID;
  ps_PeerInfo : N -> ID -> AddrInfo;
  ps_GetProtocols : N -> ID -> result (list string);
  ps_Get_AgentVersion : N -> ID -> result (option string);
  (** What [FindProvidersAsync] of a head's DHT sends before it closes the
      channel, and the head's provider store. *)
  FindProvidersAsync : N -> Cid -> Z -> W -> list AddrInfo;
  dht_ProviderStore : N -> @ProviderStore _ W;
  (** [ds.Query] with a prefix: the entries of its results, each with its
      error. *)
  ds_Query : string -> W -> result (list (Entry * option goerror));
  (** [providers.ProvidersKeyPrefix] *)
  ProvidersKeyPrefix : string;
  (** The JSON text of a value of a library's type, or of a struct of them. *)
  json_lib : Value Entry -> result (list byte);
  (** [errors.As(err, &netErr)] with a [net.Error]. *)
  is_net_Error : goerror -> bool;
}.

(** [crypto.MarshalPrivateKey] and [crypto.UnmarshalPrivateKey] *)
Class KeyCodec (PrivKey : Type) := {
  MarshalPrivateKey : PrivKey -> result (list byte);
  UnmarshalPrivateKey : list byte -> result PrivKey;
}.

Definition json_value {N : Type} `{HostLibs N W} (v : Value Entry) : result (list byte) :=
  match v with VString s => inr (json_Marshal s) | _ => json_lib v end.

Section handlers.
Context {N : Type} `{HostLibs N W} `{IdentityGenerator G PrivKey} `{KeyCodec PrivKey}.
(** The error, if any, of the write number [n] to the client. *)
Context (conn : nat -> option goerror).
Implicit Types (wr : Writer) (w : W).

(** [enc.Encode(v)]: a value that cannot be marshalled is not written; after a
    failed write the encoder returns its error at once. *)
Definition Encode (v : Value Entry) (wr : Writer) : Writer * option goerror :=
  match w_err wr with
  | Some err => (wr, Some err)
  | None =>
      match json_value v with
      | inl err => (wr, Some err)
      | inr text =>
          let status := Some (default 200%Z (w_status wr)) in
          match conn (w_writes wr) with
          | Some err => (mkWriter status (w_body wr) (S (w_writes wr)) (Some err), Some err)
          | None => (mkWriter status (w_body wr ++ text ++ [Byte.x0a]) (S (w_writes wr)) None, None)
          end
      end
  end.

(** A loop that encodes and drops the errors. *)
Definition encode_all (vs : list (Value Entry)) (wr : Writer) : Writer :=
  foldl (fun wr v => (Encode v wr).1) wr vs.

(** ** The handlers *)

Definition headsHandler (heads : list N) (wr : Writer) : Writer :=
  encode_all ((fun hd => VAddrInfo (mkAddrInfo (Host_ID hd) (Host_Addrs hd))) <$> heads) wr.

(** [Head.AddProvider] (src/head/head.go): the store's error is dropped. *)
Definition head_AddProvider (hd : N) (ctx : Ctx) (c : Cid) (id : ID) (w : W) : W :=
  (AddProvider (dht_ProviderStore hd) ctx (cid_Hash c) (mkAddrInfo id []) w).1.

(** The loop over the providers found. *)
Fixpoint fetch_loop (hd : N) (ctx : Ctx) (c : Cid) (ais : list AddrInfo) (first : bool)
    (wr : Writer) (w : W) : W * Writer * bool :=
  match ais with
  | [] => (w, wr, first)
  | ai :: ais =>
      let w := head_AddProvider hd ctx c (ai_ID ai) w in
      fetch_loop hd ctx c ais false (Encode (VAddrInfo ai) wr).1 w
  end.

(** [cidStr] is the variable of the path, [form] the values of the form. *)
Definition recordFetchHandler (heads : list N) (ctx : Ctx) (cidStr : string)
    (form : string -> string) (wr : Writer) (w : W) : outcome (W * Writer) :=
  match cid_Decode cidStr with
  | inl _ => Ret (w, WriteHeader 400 wr)
  | inr cid =>
      let nProvidersStr := form "nProviders"%string in
      let nProviders := if decide (nProvidersStr <> ""%string) then Atoi nProvidersStr else inr 1%Z in
      match nProviders with
      | inl _ => Ret (w, WriteHeader 400 wr)
      | inr nProviders =>
          match heads with
          | [] => Panic
          | hd :: _ =>
              let '(w, wr, first) :=
                fetch_loop hd ctx cid (FindProvidersAsync hd cid nProviders w) true wr w in
              Ret (w, if (first : bool) then WriteHeader 404 wr else wr)
          end
      end
  end.

Definition recordListHandler (w : W) (wr : Writer) : Writer :=
  match ds_Query ProvidersKeyPrefix w with
  | inl _ => WriteHeader 500 wr
  | inr results => encode_all ((fun result => VEntry result.1) <$> results) wr
  end.

(** The inner loop of [pstoreListHandler]; [true] when the handler returns. *)
Fixpoint pstore_peers (head : N) (ps : list ID) (wr : Writer) : outcome (Writer * bool) :=
  match ps with
  | [] => Ret (wr, false)
  | p :: ps =>
      let pi := ps_PeerInfo head p in
      let protocols := match ps_GetProtocols head p with inl _ => [] | inr ps => ps end in
      agentVersion ← match ps_Get_AgentVersion head p with
                     | inl _ => Ret ""%string
                     | inr None => Panic
                     | inr (Some agent) => Ret agent
                     end;
      let '(wr, err) := Encode (VPeerInfo (mkPeerInfo pi (Host_ID head) agentVersion protocols)) wr in
      match err with
      | Some err => if is_net_Error err then Ret (wr, true) else pstore_peers head ps wr
      | None => pstore_peers head ps wr
      end
  end.

Fixpoint pstoreListHandler (heads : list N) (wr : Writer) : outcome Writer :=
  match heads with
  | [] => Ret wr
  | head :: heads =>
      '(wr, stop) ← pstore_peers head (ps_Peers head) wr;
      if (stop : bool) then Ret wr else pstoreListHandler heads wr
  end.

Definition idgenAddHandler (g : G) (wr : Writer) : outcome (G * Writer) :=
  '(g, r) ← ig_AddBalanced g;
  match r with
  | inl _ => Ret (g, WriteHeader 500 wr)
  | inr pk =>
      match MarshalPrivateKey pk with
      | inl _ => Ret (g, WriteHeader 500 wr)
      | inr b => Ret (g, (Encode (VString (b64_encode b)) wr).1)
      end
  end.

Definition idgenRemoveHandler (g : G) (body : list byte) (wr : Writer) : outcome (G * Writer) :=
  match json_Decode body with
  | inl _ => Ret (g, WriteHeader 400 wr)
  | inr b64 =>
      match b64_decode b64 with
      | inl _ => Ret (g, WriteHeader 400 wr)
      | inr bytes =>
          match UnmarshalPrivateKey bytes with
          | inl _ => Ret (g, WriteHeader 400 wr)
          | inr pk =>
              '(g, err) ← ig_Remove g pk;
              match err with
              | Some _ => Ret (g, WriteHeader 500 wr)
              | None => Ret (g, WriteHeader 204 wr)
              end
          end
      end
  end.

(** The connections of a head, as the handler reports them. *)
Definition swarm_values (hd : N) : list (Value Entry) :=
  (fun c => VSwarmPeer (mkSwarmHostPeer (Host_ID hd)
     (mkSwarmPeer (RemotePeer c) (RemoteMultiaddr c) (Stat_Direction c)))) <$> Conns hd.

Fixpoint swarm_loop (headID : string) (heads : list N) (wr : Writer) : Writer :=
  match heads with
  | [] => wr
  | hd :: heads =>
      if bool_decide (headID <> ""%string) && bool_decide (headID <> ID_String (Host_ID hd))
      then swarm_loop headID heads wr
      else swarm_loop headID heads (encode_all (swarm_values hd) wr)
  end.

Definition swarmPeersHandler (heads : list N) (form : string -> string) (wr : Writer) : Writer :=
  swarm_loop (form "head"%string) heads wr.

(** ** The router *)

Inductive endpoint : Type :=
| Heads_ | RecordsFetch | RecordsList | IdgenAdd | IdgenRemove | SwarmPeers | PstoreList.

(** A route: its template, its handler and the methods it is restricted to. *)
Record route := mkRoute {
  rt_template : string;
  rt_endpoint : endpoint;
  rt_methods : list string;
}.

Definition NewRouter : list route := [
  mkRoute "/heads" Heads_ [];
  mkRoute "/records/fetch/{key}" RecordsFetch [];
  mkRoute "/records/list" RecordsList [];
  mkRoute "/idgen/add" IdgenAdd ["POST"%string];
  mkRoute "/idgen/remove" IdgenRemove ["POST"%string];
  mkRoute "/swarm/peers" SwarmPeers [];
  mkRoute "/pstore/list" PstoreList []
].

(** How gorilla/mux routes a request: to a route, with the variables of the
    path, or to its own answer. *)
Inductive routed : Type :=
| RoutedTo (rt : route) (vars : string -> string)
| RouterStatus (code : Z).

Context (mux_match : list route -> string -> string -> routed).

(** [ServeHTTP] on a request, for a hydra with the given heads. *)
Definition ServeHTTP (heads : list N) (req : Request) (g : G) (w : W) : outcome (G * W * Response) :=
  let wr := NewWriter in
  match mux_match NewRouter (r_Method req) (r_Path req) with
  | RouterStatus code => Ret (g, w, respond (WriteHeader code wr))
  | RoutedTo rt vars =>
      match rt_endpoint rt with
      | Heads_ => Ret (g, w, respond (headsHandler heads wr))
      | RecordsFetch =>
          '(w, wr) ← recordFetchHandler heads (r_Context req) (vars "key"%string) (r_Form req) wr w;
          Ret (g, w, respond wr)
      | RecordsList => Ret (g, w, respond (recordListHandler w wr))
      | IdgenAdd => '(g, wr) ← idgenAddHandler g wr; Ret (g, w, respond wr)
      | IdgenRemove => '(g, wr) ← idgenRemoveHandler g (r_Body req) wr; Ret (g, w, respond wr)
      | SwarmPeers => Ret (g, w, respond (swarmPeersHandler heads (r_Form req) wr))
      | PstoreList => wr ← pstoreListHandler heads wr; Ret (g, w, respond wr)
      end
  end.

(** [http.Server], with the fields that are set; times are in nanoseconds. *)
Record Server := mkServer {
  srv_Addr : string;
  WriteTimeout : Z;
  ReadTimeout : Z;
  IdleTimeout : Z;
  Handler : Request -> G -> W -> outcome (G * W * Response);
}.

(** [srv_ListenAndServe] is the library's call, which only returns with an error. *)
Definition ListenAndServe (srv_ListenAndServe : Server -> goerror) (heads : list N) (addr : string) : goerror :=
  let srv := mkServer addr 60000000000 60000000000 60000000000 (ServeHTTP heads) in
  srv_ListenAndServe srv.
End handlers.
