(* ===== verification/HttpApiSpec.v ===== *)
(** * Theorems on the HTTP API (src/httpapi/httpapi.go)

    What the listing endpoints answer, and what a fetch does; and how the
    router must behave for the API's own paths to reach their handlers. *)
From Stdlib Require Import Strings.Ascii Strings.String.
From stdpp Require Import pretty.
From S2P Require Import Prelude GoStd Encoding Interfaces Metrics Stores StoresSpec HttpApi.
Open Scope nat_scope.

(** ** The router *)

(** The part of a template before its first variable. *)
Fixpoint literal_prefix (template : string) : string :=
  match template with
  | EmptyString => EmptyString
  | String c t => if bool_decide (c = "{"%char) then EmptyString else String c (literal_prefix t)
  end.

(** gorilla/mux takes the first route that matches. A route without variables
    matches its own path, with a method that it allows; no route matches a path
    that does not start with the literal part of its template. *)
Class MuxLaws (mux_match : list route -> string -> string -> routed) : Prop := {
  mux_literal : forall rts i rt meth,
    rts !! i = Some rt -> literal_prefix (rt_template rt) = rt_template rt ->
    (rt_methods rt = [] \/ meth ∈ rt_methods rt) ->
    (forall j rt', j < i -> rts !! j = Some rt' ->
      HasPrefix (rt_template rt) (literal_prefix (rt_template rt')) = false) ->
    exists vars, mux_match rts meth (rt_template rt) = RoutedTo rt vars;
}.

(** Every literal path of the API reaches its own handler. *)
Lemma route_literal `{MuxLaws mux_match} i rt meth :
  NewRouter !! i = Some rt -> i <> 1 -> (rt_methods rt = [] \/ meth = "POST"%string) ->
  exists vars, mux_match NewRouter meth (rt_template rt) = RoutedTo rt vars.
Proof.
  intros Hi Hne Hm. apply (mux_literal _ i); [done|..].
  - do 7 (destruct i as [|i]; [by simplify_eq/= || by injection Hi as <-|]). done.
  - destruct Hm as [Hm| ->]; [by left|].
    do 7 (destruct i as [|i]; [injection Hi as <-; first [by left|right; by left]|]). done.
  - intros j rt' Hj Hrt'. do 7 (destruct i as [|i]; [injection Hi as <-;
      do 7 (destruct j as [|j]; [first [lia|done|by injection Hrt' as <-]|]); lia|]). done.
Qed.

(** ** Encoding *)

Section encode.
Context {N : Type} `{HostLibs N W} (conn : nat -> option goerror).
Implicit Types (wr : Writer) (v : Value Entry) (vs : list (Value Entry)).

(** The line that a value becomes; a value without JSON text is left out. *)
Definition line v : list byte :=
  match json_value v with inr text => text ++ [Byte.x0a] | inl _ => [] end.

Lemma Encode_healthy v wr :
  (forall n, conn n = None) -> w_err wr = None ->
  w_err (Encode conn v wr).1 = None /\ w_body (Encode conn v wr).1 = w_body wr ++ line v.
Proof.
  intros Hc He. unfold Encode, line. rewrite He.
  destruct (json_value v) as [err|text]; [by rewrite app_nil_r|]. by rewrite Hc.
Qed.

(** Encoding sends no status but 200. *)
Lemma Encode_status v wr :
  default 200%Z (w_status (Encode conn v wr).1) = default 200%Z (w_status wr).
Proof. unfold Encode. by repeat case_match. Qed.

Lemma encode_all_healthy vs wr :
  (forall n, conn n = None) -> w_err wr = None ->
  w_err (encode_all conn vs wr) = None /\ w_body (encode_all conn vs wr) = w_body wr ++ (vs ≫= line).
Proof.
  intros Hc. revert wr. induction vs as [|v vs IH]; intros wr He; simpl; [by rewrite app_nil_r|].
  destruct (Encode_healthy v wr Hc He) as [He' Hb]. unfold encode_all in *. simpl.
  destruct (IH _ He') as [-> ->]. by rewrite Hb, app_assoc.
Qed.

Lemma encode_all_status vs wr :
  default 200%Z (w_status (encode_all conn vs wr)) = default 200%Z (w_status wr).
Proof.
  revert wr. induction vs as [|v vs IH]; intros wr; [done|].
  change (encode_all conn (v :: vs) wr) with (encode_all conn vs (Encode conn v wr).1).
  by rewrite IH, Encode_status.
Qed.

(** A handler that only encodes answers 200 with its lines. *)
Lemma respond_all vs wr :
  (forall n, conn n = None) -> w_err wr = None -> w_status wr = None ->
  respond (encode_all conn vs wr) = mkResponse 200 (w_body wr ++ (vs ≫= line)).
Proof.
  intros Hc He Hs. unfold respond. rewrite encode_all_status, Hs.
  by rewrite (proj2 (encode_all_healthy vs wr Hc He)).
Qed.

(** ** Fetching *)

(** The providers are recorded one by one under the head's own context. *)
Lemma fetch_loop_spec hd ctx c ais first wr (w : W) :
  exists wr', fetch_loop conn hd ctx c ais first wr w =
    (foldl (fun w ai => head_AddProvider hd ctx c (ai_ID ai) w) w ais, wr',
     first && bool_decide (ais = [])) /\
    wr' = encode_all conn (VAddrInfo <$> ais) wr.
Proof.
  revert first wr w. induction ais as [|ai ais IH]; intros first wr w; simpl.
  - eexists. by rewrite andb_true_r.
  - destruct (IH false (Encode conn (VAddrInfo ai) wr).1 (head_AddProvider hd ctx c (ai_ID ai) w))
      as (wr' & -> & ->).
    eexists. split; [|done]. cbn. by rewrite andb_false_r.
Qed.

(** C27. A fetch of a malformed CID, or with a malformed number of providers, is
    answered with 400 and looks nothing up. Otherwise every provider that the
    first head's DHT finds, for the number asked for (1 if none is given), is
    added to that head's provider store, in order and without its addresses,
    whether or not the client can be written to; the answer is 404 if there is
    none and otherwise 200, with one line per provider on a healthy connection.
    A hydra without heads panics. *)
Theorem recordFetch_spec (heads : list N) ctx cidStr form (w : W) :
  let n := if decide (form "nProviders"%string = ""%string) then inr 1%Z
           else Atoi (form "nProviders"%string) in
  match cid_Decode cidStr, n, heads with
  | inl _, _, _ | _, inl _, _ =>
      exists wr, recordFetchHandler conn heads ctx cidStr form NewWriter w = Ret (w, wr) /\
        respond wr = mkResponse 400 []
  | inr _, inr _, [] => recordFetchHandler conn heads ctx cidStr form NewWriter w = Panic
  | inr c, inr n, hd :: _ =>
      let ais := FindProvidersAsync hd c n w in
      exists w' wr, recordFetchHandler conn heads ctx cidStr form NewWriter w = Ret (w', wr) /\
        w' = foldl (fun w ai =>
          (AddProvider (dht_ProviderStore hd) ctx (cid_Hash c) (mkAddrInfo (ai_ID ai) []) w).1) w ais /\
        StatusCode (respond wr) = (if decide (ais = []) then 404%Z else 200%Z) /\
        ((forall n, conn n = None) -> Body (respond wr) = (VAddrInfo <$> ais) ≫= line)
  end.
Proof.
  cbv zeta. unfold recordFetchHandler. destruct (cid_Decode cidStr) as [err|c]; [by eexists|].
  destruct (decide (form "nProviders"%string = _)) as [Hf|Hf];
    [rewrite decide_False by (by intros Hne)|
     rewrite decide_True by done; destruct (Atoi _) as [err|n]; [by eexists|]];
    (destruct heads as [|hd heads]; [done|]).
  all: match goal with |- context [fetch_loop _ _ _ _ ?l _ _ _] =>
    destruct (fetch_loop_spec hd ctx c l true NewWriter w) as (wr' & -> & ->);
    eexists _, _; split; [done|]; split; [done|]; destruct l as [|ai ais]; [done|] end.
  all: match goal with |- context [true && ?b] => change (true && b) with false end; cbn match;
    rewrite (decide_False (P := _ :: _ = [])) by done;
    split; [unfold respond; cbn -[encode_all]; by rewrite encode_all_status|];
    intros Hc; by rewrite respond_all.
Qed.

(** ** Listings *)

Lemma encode_all_app vs1 vs2 wr :
  encode_all conn (vs1 ++ vs2) wr = encode_all conn vs2 (encode_all conn vs1 wr).
Proof. apply foldl_app. Qed.

Definition head_value (hd : N) : Value Entry := VAddrInfo (mkAddrInfo (Host_ID hd) (Host_Addrs hd)).

(** A head is listed unless the request names another one. *)
Definition wanted (headID : string) (hd : N) : Prop :=
  headID = ""%string \/ headID = ID_String (Host_ID hd).
#[export] Instance wanted_dec headID hd : Decision (wanted headID hd).
Proof. unfold wanted. apply _. Defined.

Lemma swarm_loop_spec headID heads wr :
  swarm_loop conn headID heads wr =
  encode_all conn (filter (wanted headID) heads ≫= swarm_values) wr.
Proof.
  revert wr. induction heads as [|hd heads IH]; intros wr; [done|]. cbn [swarm_loop].
  rewrite filter_cons. unfold wanted at 1. destruct (decide _) as [Hw|Hw].
  - replace (bool_decide _ && bool_decide _) with false; [by rewrite bind_cons, encode_all_app, IH|].
    symmetry. apply andb_false_iff. rewrite !bool_decide_eq_false.
    destruct Hw; [left|right]; naive_solver.
  - replace (bool_decide _ && bool_decide _) with true; [by rewrite IH|].
    symmetry. apply andb_true_iff. rewrite !bool_decide_eq_true. naive_solver.
Qed.

(** What a head's peer store says of a peer. *)
Definition peer_value (hd : N) (p : ID) : Value Entry := VPeerInfo (mkPeerInfo
  (ps_PeerInfo hd p) (Host_ID hd)
  (match ps_Get_AgentVersion hd p with inr (Some agent) => agent | _ => ""%string end)
  (match ps_GetProtocols hd p with inr protocols => protocols | inl _ => [] end)).

(** The version of a peer is missing, or a string. *)
Definition agent_ok (hd : N) (p : ID) : Prop := ps_Get_AgentVersion hd p <> inr None.

Lemma pstore_peers_spec hd ps wr :
  (forall n, conn n = None) -> w_err wr = None -> Forall (agent_ok hd) ps ->
  (forall p err, p ∈ ps -> json_value (peer_value hd p) = inl err -> is_net_Error err = false) ->
  pstore_peers conn hd ps wr = Ret (encode_all conn (peer_value hd <$> ps) wr, false).
Proof.
  intros Hc. revert wr. induction ps as [|p ps IH]; intros wr He Hok Hj; [done|].
  apply Forall_cons in Hok as [Hp Hok]. cbn [pstore_peers].
  assert (match ps_Get_AgentVersion hd p with
    | inl _ => Ret ""%string | inr None => Panic | inr (Some agent) => Ret agent end =
    Ret (match ps_Get_AgentVersion hd p with inr (Some agent) => agent | _ => ""%string end)) as ->
    by (unfold agent_ok in Hp; destruct (ps_Get_AgentVersion hd p) as [|[|]]; done).
  run. fold (peer_value hd p).
  destruct (Encode_healthy (peer_value hd p) wr Hc He) as [He' _].
  destruct (Encode conn (peer_value hd p) wr) as [wr' e] eqn:HE. cbn [fst] in He'.
  assert (pstore_peers conn hd ps wr' = Ret (encode_all conn (peer_value hd <$> ps) wr', false)) as HR.
  { apply IH; [done|done|]. intros q err Hq. apply Hj. set_solver. }
  replace (encode_all conn (peer_value hd <$> p :: ps) wr) with
    (encode_all conn (peer_value hd <$> ps) wr') by (unfold encode_all; simpl; by rewrite HE).
  destruct e as [err|]; [|done]. replace (is_net_Error err) with false; [done|].
  symmetry. apply (Hj p); [set_solver|]. revert HE. unfold Encode. rewrite He.
  destruct (json_value _) as [err'|]; [by intros [= _ <-]|]. by rewrite Hc.
Qed.

Lemma pstoreList_spec heads wr :
  (forall n, conn n = None) -> w_err wr = None ->
  Forall (fun hd => Forall (agent_ok hd) (ps_Peers hd)) heads ->
  (forall hd p err, json_value (peer_value hd p) = inl err -> is_net_Error err = false) ->
  pstoreListHandler conn heads wr =
    Ret (encode_all conn (heads ≫= fun hd => peer_value hd <$> ps_Peers hd) wr).
Proof.
  intros Hc He Hok Hj. revert wr He. induction Hok as [|hd heads Hhd _ IH]; intros wr He; [done|].
  cbn [pstoreListHandler]. rewrite pstore_peers_spec by eauto. run.
  rewrite IH by (by apply encode_all_healthy). by rewrite bind_cons, encode_all_app.
Qed.
End encode.

Section listings.
Context {N : Type} `{HostLibs N W} `{IdentityGenerator G PrivKey} `{KeyCodec PrivKey} `{MuxLaws mux_match}.

(** The values that a listing endpoint reports; [None] when its query fails. *)
Definition listing (heads : list N) (w : W) (form : string -> string) (path : string)
    : option (list (Value Entry)) :=
  if decide (path = "/heads"%string) then Some (head_value <$> heads)
  else if decide (path = "/swarm/peers"%string) then
    Some (filter (wanted (form "head"%string)) heads ≫= swarm_values)
  else if decide (path = "/pstore/list"%string) then
    Some (heads ≫= fun hd => peer_value hd <$> ps_Peers hd)
  else match ds_Query ProvidersKeyPrefix w with
       | inl _ => None
       | inr results => Some ((fun result => VEntry result.1) <$> results)
       end.

(** C37. On a healthy connection every listing endpoint answers, for any method,
    with status 200 and one line for each value it lists, in order: the heads,
    the connections of the heads that the request wants, the peers in the peer
    stores of all heads, the provider records of the shared datastore, those
    that came with an error included; a failed query is answered with 500. No
    listing changes anything. The peers' listing needs agent versions that are
    strings and no network error from marshalling. *)
Theorem api_listings (conn : nat -> option goerror) (heads : list N) (req : Request) (g : G) (w : W) :
  (forall n, conn n = None) ->
  r_Path req ∈ ["/heads"; "/swarm/peers"; "/pstore/list"; "/records/list"]%string ->
  Forall (fun hd => Forall (agent_ok hd) (ps_Peers hd)) heads ->
  (forall hd p err, json_value (peer_value hd p) = inl err -> is_net_Error err = false) ->
  ServeHTTP conn mux_match heads req g w = Ret (g, w,
    match listing heads w (r_Form req) (r_Path req) with
    | Some vs => mkResponse 200 (vs ≫= line)
    | None => mkResponse 500 []
    end).
Proof.
  intros Hc Hp Hok Hj. destruct req as [meth path form body ctx]. cbn in Hp |- *.
  assert (exists i rt, NewRouter !! i = Some rt /\ rt_template rt = path /\ i <> 1 /\ rt_methods rt = [] /\
    (i = 0 \/ i = 2 \/ i = 5 \/ i = 6)) as (i & rt & Hrt & Ht & Hi & Hm & Hcase).
  { repeat (apply elem_of_cons in Hp as [-> |Hp]);
      [exists 0|exists 5|exists 6|exists 2|by apply elem_of_nil in Hp]; eexists; eauto 10. }
  destruct (route_literal i rt meth Hrt Hi (or_introl Hm)) as [vars Hroute].
  unfold ServeHTTP. cbn [r_Method r_Path r_Form r_Body r_Context]. rewrite <-Ht, Hroute. unfold listing.
  destruct Hcase as [->|[->|[->| ->]]]; injection Hrt as <-; cbn [rt_endpoint rt_template decide].
  - unfold headsHandler. by rewrite decide_True, respond_all by done.
  - unfold recordListHandler. rewrite !decide_False by done.
    destruct (ds_Query _ _); [done|]. by rewrite respond_all.
  - rewrite decide_False, decide_True by done. unfold swarmPeersHandler.
    by rewrite swarm_loop_spec, respond_all.
  - rewrite !decide_False, decide_True by done. rewrite pstoreList_spec by done.
    run. by rewrite respond_all.
Qed.
End listings.

(** ** Concrete inputs *)

(** Exact paths only; a path that is no template is not found. *)
Definition sample_mux (rts : list route) (meth path : string) : routed :=
  match List.find (fun rt => bool_decide (rt_template rt = path) &&
      (bool_decide (rt_methods rt = []) || bool_decide (meth ∈ rt_methods rt))) rts with
  | Some rt => RoutedTo rt (fun _ => "key"%string)
  | None => RouterStatus 404
  end.

Lemma literal_prefix_of s : HasPrefix s (literal_prefix s) = true.
Proof.
  induction s as [|c s IH]; [done|]. cbn [literal_prefix]. case_bool_decide; [done|].
  cbn [HasPrefix]. by rewrite bool_decide_eq_true_2.
Qed.

#[export] Instance sample_mux_laws : MuxLaws sample_mux.
Proof.
  split. intros rts i rt meth Hi _ Hm Hbefore. exists (fun _ => "key"%string).
  unfold sample_mux. replace (List.find _ rts) with (Some rt); [done|]. symmetry.
  revert i Hi Hbefore. induction rts as [|rt' rts IH]; intros [|i] Hi Hb; try done; cbn [List.find].
  - injection Hi as ->. rewrite bool_decide_eq_true_2 by done.
    destruct Hm as [->|Hm]; [done|]. rewrite (bool_decide_eq_true_2 (meth ∈ _)) by done.
    by rewrite orb_true_r.
  - rewrite bool_decide_eq_false_2; [apply (IH i Hi); intros j rt'' Hj; apply (Hb (S j)); lia|].
    intros He. pose proof (Hb 0 rt' ltac:(lia) eq_refl) as Hp.
    by rewrite <-He, literal_prefix_of in Hp.
Qed.

(** Two hosts, 0 and 1; each has a connection, and a peer q in its peer store.
    The world is the list of the providers that were recorded. *)
Definition sample_hosts : @HostLibs nat (list ID) sample_libp2p := {|
  Cid := string;
  Entry := string;
  cid_Decode s := if decide (s = ""%string) then inl (ErrorMsg "cid too short") else inr s;
  cid_Hash c := list_byte_of_string c;
  ID_String id := id;
  Host_ID n := match n with O => "h0"%string | S _ => "h1"%string end;
  Host_Addrs n := [];
  Conns n := [@mkConn sample_libp2p "p" "a" 1%Z];
  ps_Peers n := ["q"%string];
  ps_PeerInfo n p := sample_ai p [];
  ps_GetProtocols n p := inl (ErrorMsg "unknown");
  ps_Get_AgentVersion n p := inr (Some "v1"%string);
  FindProvidersAsync n c k w := take (Z.to_nat k) [sample_ai "p" ["a"%string]; sample_ai "q" []];
  dht_ProviderStore n := @mkStore sample_libp2p (list ID)
    (fun _ _ ai w => (w ++ [@ai_ID sample_libp2p ai], None)) (fun _ _ w => (w, ([], None)));
  ds_Query pre w := inr [("e"%string, None)];
  ProvidersKeyPrefix := "/providers/";
  json_lib v := match v with
    | VSwarmPeer p => inr (list_byte_of_string (@sh_ID sample_libp2p p))
    | VAddrInfo ai => inr (list_byte_of_string (@ai_ID sample_libp2p ai))
    | VEntry e => inr (list_byte_of_string e)
    | VPeerInfo pi => inr (list_byte_of_string (@pi_AgentVersion sample_libp2p pi))
    | VString s => inl (ErrorMsg "not reached")
    end;
  is_net_Error err := false;
|}.

(** A second generator and key encoding, without any content. *)
Definition no_generator : IdentityGenerator unit unit := {|
  ig_AddBalanced g := Ret (g, inl (ErrorMsg "no identities"));
  ig_Remove g pk := Ret (g, None);
|}.
Definition no_codec : KeyCodec unit := {|
  MarshalPrivateKey pk := inr [];
  UnmarshalPrivateKey b := inr tt;
|}.

Lemma recordFetch_spec_witness :
  exists w' wr, @recordFetchHandler nat (list ID) sample_libp2p sample_hosts (fun _ => None)
      [0; 1] sample_ctx "c" (fun _ => "5"%string) NewWriter [] = Ret (w', wr) /\
    w' = ["p"; "q"]%string /\ StatusCode (respond wr) = 200%Z /\
    Body (respond wr) = list_byte_of_string "p" ++ [Byte.x0a] ++ list_byte_of_string "q" ++ [Byte.x0a].
Proof.
  pose proof (@recordFetch_spec nat (list ID) sample_libp2p sample_hosts (fun _ => None)
    [0; 1] sample_ctx "c" (fun _ => "5"%string) []) as (w' & wr & HR & Hw & Hs & Hb).
  exists w', wr. split; [exact HR|]. split; [rewrite Hw; reflexivity|]. split; [exact Hs|].
  rewrite Hb by reflexivity. reflexivity.
Defined.

Lemma api_listings_witness :
  @ServeHTTP nat (list ID) sample_libp2p sample_hosts unit unit no_generator no_codec
      (fun _ => None) sample_mux [0; 1]
      (mkRequestHTTP "GET" "/swarm/peers" (fun _ => "h1"%string) [] sample_ctx) tt [] =
    Ret (tt, [], mkResponse 200 (list_byte_of_string "h1" ++ [Byte.x0a])).
Proof.
  rewrite (@api_listings nat (list ID) sample_libp2p sample_hosts unit unit no_generator no_codec
    sample_mux sample_mux_laws (fun _ => None) [0; 1] _ tt []).
  - reflexivity.
  - reflexivity.
  - right. left.
  - repeat constructor; discriminate.
  - intros hd p err. discriminate.
Defined.
