(* ===== verification/IdGenDelegated.v ===== *)
(** * The delegated identity generator (src/idgen/delegated.go)

    The client of the API's idgen endpoints, over any network; then the network
    that connects it to the server of HttpApi, with messages that are lost or
    cut; and the theorems on client and server together. *)
From Stdlib Require Import Strings.Ascii Strings.String.
From stdpp Require Import pretty.
From S2P Require Import Prelude GoStd Encoding IdGen IdGenFacts IdGenSpec Interfaces IdGenClean Stores StoresSpec HttpApi HttpApiSpec.
Open Scope nat_scope.

(** ** The client *)

Record DelegatedIDGenerator := mkDelegated { addr : string }.
Definition NewDelegatedIDGenerator (addr : string) : DelegatedIDGenerator := mkDelegated addr.

Definition unexpected_status (code : Z) : goerror :=
  ErrorMsg ("unexpected HTTP status " +:+ pretty code).

Section client.
Context `{KeyCodec PrivKey} {Net : Type}.
(** [http.Post] of JSON to a URL. *)
Context (Post : string -> list byte -> Net -> outcome (Net * result Response)).

Definition del_AddBalanced (g : DelegatedIDGenerator) (net : Net) : outcome (Net * result PrivKey) :=
  '(net, res) ← Post (addr g +:+ "/idgen/add") [] net;
  match res with
  | inl err => Ret (net, inl err)
  | inr res =>
      if decide (StatusCode res <> 200%Z) then Ret (net, inl (unexpected_status (StatusCode res)))
      else match json_Decode (Body res) with
      | inl err => Ret (net, inl err)
      | inr b64 =>
          match b64_decode b64 with
          | inl err => Ret (net, inl err)
          | inr bytes =>
              match UnmarshalPrivateKey bytes with
              | inl err => Ret (net, inl err)
              | inr pk => Ret (net, inr pk)
              end
          end
      end
  end.

Definition del_Remove (g : DelegatedIDGenerator) (net : Net) (privKey : PrivKey)
    : outcome (Net * option goerror) :=
  match MarshalPrivateKey privKey with
  | inl err => Ret (net, Some err)
  | inr b =>
      let data := json_Marshal (b64_encode b) in
      '(net, res) ← Post (addr g +:+ "/idgen/remove") data net;
      match res with
      | inl err => Ret (net, Some err)
      | inr res =>
          if decide (StatusCode res <> 204%Z)
          then Ret (net, Some (unexpected_status (StatusCode res)))
          else Ret (net, None)
      end
  end.
End client.

(** ** The network *)

(** What happens to a request: it is answered; it does not arrive; the response
    is lost; the body of the response ends after [n] bytes. *)
Inductive fate : Type :=
| Delivered
| NotSent (err : goerror)
| ResponseLost (err : goerror)
| ResponseCut (n : nat).

(** The server's generator and world, and the fates of the next requests; the
    requests after them are delivered. *)
Record Network (G W : Type) := mkNet {
  net_g : G;
  net_w : W;
  net_fates : list fate;
}.
Arguments mkNet {G W} _ _ _.
Arguments net_g {G W} _.
Arguments net_w {G W} _.
Arguments net_fates {G W} _.

Section network.
Context {N : Type} `{HostLibs N W} `{IdentityGenerator G PrivKey} `{KeyCodec PrivKey}.
Context (mux_match : list route -> string -> string -> routed) (server_addr : string) (heads : list N)
  (ctx : Ctx).

Definition next_fate (net : Network G W) : fate := default Delivered (head (net_fates net)).

(** A POST to the server; a URL of another server is not reachable. *)
Definition net_Post (url : string) (body : list byte) (net : Network G W)
    : outcome (Network G W * result Response) :=
  let fates := tail (net_fates net) in
  match next_fate net with
  | NotSent err => Ret (mkNet (net_g net) (net_w net) fates, inl err)
  | f =>
      if HasPrefix url server_addr then
        let req := mkRequestHTTP "POST" (TrimPrefix url server_addr) (fun _ => ""%string) body ctx in
        '(g, w, res) ← ServeHTTP (fun _ => None) mux_match heads req (net_g net) (net_w net);
        let net := mkNet g w fates in
        match f with
        | ResponseLost err => Ret (net, inl err)
        | ResponseCut n => Ret (net, inr (mkResponse (StatusCode res) (take n (Body res))))
        | _ => Ret (net, inr res)
        end
      else Ret (mkNet (net_g net) (net_w net) fates, inl (ErrorMsg "no such host"))
  end.
End network.

(** What is documented of the key encoding: the keys of libp2p's key types can
    be marshalled, and unmarshalled again. *)
Class KeyCodecLaws (PrivKey : Type) `{KeyCodec PrivKey} : Prop := {
  codec_roundtrip : forall pk, exists b, MarshalPrivateKey pk = inr b /\ UnmarshalPrivateKey b = inr pk;
}.

Section delegated.
Context {N : Type} `{HostLibs N W} `{IG : IdentityGenerator G PrivKey} `{KCL : KeyCodecLaws PrivKey} `{MuxLaws mux_match}.
Context (server_addr : string) (heads : list N) (ctx : Ctx).
Implicit Types (net : Network G W) (g : G) (w : W) (pk : PrivKey).

Abbreviation Post := (net_Post mux_match server_addr heads ctx).
Abbreviation delegate := (NewDelegatedIDGenerator server_addr).
Abbreviation serve := (ServeHTTP (fun _ => None) mux_match heads).

(** ** The server's side *)

Lemma serve_add form body g w :
  serve (mkRequestHTTP "POST" "/idgen/add" form body ctx) g w =
  '(g, r) ← ig_AddBalanced g;
  Ret (g, w, match r with
    | inl _ => mkResponse 500 []
    | inr pk =>
        match MarshalPrivateKey pk with
        | inl _ => mkResponse 500 []
        | inr b => mkResponse 200 (json_Marshal (b64_encode b) ++ [Byte.x0a])
        end
    end).
Proof.
  destruct (route_literal 3 (mkRoute "/idgen/add" IdgenAdd ["POST"%string]) "POST") as [vars Hr];
    [done|done|by right|].
  unfold ServeHTTP. cbn [r_Method r_Path r_Body]. change (rt_template _) with "/idgen/add"%string in Hr.
  rewrite Hr. cbn [rt_endpoint]. unfold idgenAddHandler.
  destruct (ig_AddBalanced g) as [[g' [err|pk]]| |]; [done| |done|done].
  run. by destruct (MarshalPrivateKey pk).
Qed.

Lemma serve_remove form b pk g w :
  UnmarshalPrivateKey b = inr pk ->
  serve (mkRequestHTTP "POST" "/idgen/remove" form (json_Marshal (b64_encode b)) ctx) g w =
  '(g, err) ← ig_Remove g pk;
  Ret (g, w, mkResponse (match err with Some _ => 500%Z | None => 204%Z end) []).
Proof.
  intros Hb. destruct (route_literal 4 (mkRoute "/idgen/remove" IdgenRemove ["POST"%string]) "POST")
    as [vars Hr]; [done|done|by right|].
  unfold ServeHTTP. cbn [r_Method r_Path r_Body].
  change (rt_template _) with "/idgen/remove"%string in Hr.
  rewrite Hr. cbn [rt_endpoint]. unfold idgenRemoveHandler.
  pose proof (json_b64_roundtrip b []) as Hj. rewrite app_nil_r in Hj.
  rewrite Hj, b64_roundtrip, Hb. by destruct (ig_Remove g pk) as [[g' [err|]]| |].
Qed.

(** The server's [AddBalanced] on a request that arrives. *)
Lemma Post_add net :
  Post (addr delegate +:+ "/idgen/add") [] net =
  match next_fate net with
  | NotSent err => Ret (mkNet (net_g net) (net_w net) (tail (net_fates net)), inl err)
  | f =>
      '(g, r) ← ig_AddBalanced (net_g net);
      let res := match r with
        | inl _ => mkResponse 500 []
        | inr pk =>
            match MarshalPrivateKey pk with
            | inl _ => mkResponse 500 []
            | inr b => mkResponse 200 (json_Marshal (b64_encode b) ++ [Byte.x0a])
            end
        end in
      Ret (mkNet g (net_w net) (tail (net_fates net)),
        match f with
        | ResponseLost err => inl err
        | ResponseCut n => inr (mkResponse (StatusCode res) (take n (Body res)))
        | _ => inr res
        end)
  end.
Proof.
  unfold net_Post. rewrite HasPrefix_app, TrimPrefix_app, serve_add.
  destruct (next_fate net); [|done|..]; by destruct (ig_AddBalanced (net_g net)) as [[g' r]| |].
Qed.

Lemma Post_remove net b pk :
  UnmarshalPrivateKey b = inr pk ->
  Post (addr delegate +:+ "/idgen/remove") (json_Marshal (b64_encode b)) net =
  match next_fate net with
  | NotSent err => Ret (mkNet (net_g net) (net_w net) (tail (net_fates net)), inl err)
  | f =>
      '(g, e) ← ig_Remove (net_g net) pk;
      let code := match e with Some _ => 500%Z | None => 204%Z end in
      Ret (mkNet g (net_w net) (tail (net_fates net)),
        match f with ResponseLost err => inl err | _ => inr (mkResponse code []) end)
  end.
Proof.
  intros Hb. unfold net_Post. rewrite HasPrefix_app, TrimPrefix_app, (serve_remove _ b pk) by done.
  destruct (next_fate net) as [| | |n]; [|done|..];
    destruct (ig_Remove (net_g net) pk) as [[g' [e|]]| |]; try done; cbn; by rewrite take_nil.
Qed.

(** ** A reliable network *)

Lemma del_AddBalanced_reliable g w :
  del_AddBalanced Post delegate (mkNet g w []) =
  '(g', r) ← ig_AddBalanced g;
  Ret (mkNet g' w [], match r with inr pk => inr pk | inl _ => inl (unexpected_status 500) end).
Proof using All.
  unfold del_AddBalanced. rewrite Post_add. cbn [next_fate net_fates head default net_g net_w tail].
  destruct (ig_AddBalanced g) as [[g' [err|pk]]| |]; [done| |done|done]. run.
  destruct (codec_roundtrip pk) as (b & -> & Hb). cbn [StatusCode Body].
  by rewrite decide_False, json_b64_roundtrip, b64_roundtrip, Hb by (intros Hne; by apply Hne).
Qed.

Lemma del_Remove_reliable g w pk :
  del_Remove Post delegate (mkNet g w []) pk =
  '(g', e) ← ig_Remove g pk;
  Ret (mkNet g' w [], match e with Some _ => Some (unexpected_status 500) | None => None end).
Proof using All.
  unfold del_Remove. destruct (codec_roundtrip pk) as (b & -> & Hb). cbv zeta.
  rewrite (Post_remove _ b pk Hb). cbn [next_fate net_fates head default net_g net_w tail].
  by destruct (ig_Remove g pk) as [[g' [err|]]| |].
Qed.

(** C28. Over a reliable network the delegated generator behaves as the
    generator of its delegate: it returns the same identities and leaves it in
    the same state, with the errors of the delegate replaced by the HTTP status
    500. *)
Theorem delegated_is_transparent g w :
  del_AddBalanced Post delegate (mkNet g w []) =
    ('(g', r) ← ig_AddBalanced g;
     Ret (mkNet g' w [], match r with inr pk => inr pk | inl _ => inl (unexpected_status 500) end)) /\
  forall pk, del_Remove Post delegate (mkNet g w []) pk =
    ('(g', e) ← ig_Remove g pk;
     Ret (mkNet g' w [], match e with Some _ => Some (unexpected_status 500) | None => None end)).
Proof. split; [apply del_AddBalanced_reliable|apply del_Remove_reliable]. Qed.

(** ** An unreliable network *)

Section faults.
Context {IGL : @IdentityGeneratorLaws G PrivKey IG}.

(** The response to the next request is lost, or cut. *)
Definition loses (f : fate) : Prop :=
  match f with ResponseLost _ | ResponseCut _ => True | _ => False end.

(** The delegate's memory gains the identity of a key, or loses it. *)
Definition gained net net' pk : Prop := exists k, ig_ident pk = Some k /\
  (k ∉ ig_mem (net_g net)) /\ ig_mem (net_g net') = {[k]} ∪ ig_mem (net_g net).
Definition removed net net' pk : Prop := exists k, ig_ident pk = Some k /\
  ig_mem (net_g net') = ig_mem (net_g net) ∖ {[k]}.

(** [AddBalanced], with the fates that are left. *)
Lemma del_AddBalanced_faults net :
  ig_inv (net_g net) ->
  safe (fun '(net', r) => ig_inv (net_g net') /\ net_fates net' = tail (net_fates net) /\
    match r with
    | inr pk => gained net net' pk
    | inl _ => ig_mem (net_g net') = ig_mem (net_g net) \/
        loses (next_fate net) /\ exists pk, gained net net' pk
    end) (del_AddBalanced Post delegate net).
Proof using All.
  intros Hinv. unfold del_AddBalanced, gained. rewrite Post_add.
  pose proof (ig_AddBalanced_law _ Hinv) as Hsafe.
  destruct (next_fate net) as [|err|err|n] eqn:Hf; [|by split_and!; [|done|left]|..];
    destruct (ig_AddBalanced (net_g net)) as [[g' [err'|pk]]| |]; try done; run;
    destruct Hsafe as [Hinv' Hm];
    try (destruct (codec_roundtrip pk) as (b & -> & Hb)); cbn [StatusCode Body];
    try (rewrite decide_True by done; split_and!; [done|done|by left]);
    try (by split_and!; [done|done|left]); try (by split_and!; [done|done|right; split; [done|exists pk]]).
  - by rewrite decide_False, json_b64_roundtrip, b64_roundtrip, Hb by (intros Hne; by apply Hne).
  - rewrite decide_False by (intros Hne; by apply Hne).
    destruct (json_b64_cut b [Byte.x0a] n) as [-> | [err' ->]];
      [by rewrite b64_roundtrip, Hb|]. split_and!; [done|done|right; split; [done|by exists pk]].
Qed.

Lemma del_Remove_faults net pk :
  ig_inv (net_g net) ->
  exists net' e, del_Remove Post delegate net pk = Ret (net', e) /\ ig_inv (net_g net') /\
    net_fates net' = tail (net_fates net) /\
    match e with
    | None => removed net net' pk
    | Some _ =>
        (ig_mem (net_g net') = ig_mem (net_g net) \/ loses (next_fate net) /\ removed net net' pk) /\
        (next_fate net = Delivered -> exists g' e', ig_Remove (net_g net) pk = Ret (g', Some e'))
    end.
Proof using All.
  intros Hinv. unfold del_Remove, removed. destruct (codec_roundtrip pk) as (b & -> & Hb). cbv zeta.
  rewrite (Post_remove _ b pk Hb). destruct (ig_Remove_law _ pk Hinv) as (g' & e & -> & Hinv' & Hm).
  destruct (next_fate net) as [|err|err|n]; run; destruct e as [e|];
    do 2 eexists; (split; [done|]); (split; [done|]); (split; [done|]);
    first [done|split; [|first [done|by intros _; do 2 eexists]]; first [by left|by right; split]].
Qed.

(** C21. Whatever happens to the messages, an identity that the delegated
    generator returns was not in the delegate's memory and is what the memory
    gains; when it returns an error the memory is as before, or has gained one
    identity that nobody was told of, which happens only when the response is
    lost or cut. [Remove] always returns; without an error the identity is gone,
    and with one the memory is as before unless the response was lost. *)
Theorem delegated_faults net :
  ig_inv (net_g net) ->
  safe (fun '(net', r) => ig_inv (net_g net') /\
    match r with
    | inr pk => gained net net' pk
    | inl _ => ig_mem (net_g net') = ig_mem (net_g net) \/
        loses (next_fate net) /\ exists pk, gained net net' pk
    end) (del_AddBalanced Post delegate net) /\
  forall pk, exists net' e, del_Remove Post delegate net pk = Ret (net', e) /\ ig_inv (net_g net') /\
    match e with
    | None => removed net net' pk
    | Some _ => ig_mem (net_g net') = ig_mem (net_g net) \/
        loses (next_fate net) /\ removed net net' pk
    end.
Proof using All.
  intros Hinv. split.
  - eapply safe_mono; [|by apply del_AddBalanced_faults]. intros [net' r] (? & _ & ?). by split.
  - intros pk. destruct (del_Remove_faults net pk Hinv) as (net' & e & HR & ? & _ & He).
    exists net', e. split_and!; [done..|]. destruct e; [by destruct He|done].
Qed.

(** Over a reliable network it keeps the promises of the interface. *)
#[export] Instance delegated_generator : IdentityGenerator (Network G W) PrivKey := {|
  ig_AddBalanced := del_AddBalanced Post delegate;
  ig_Remove := del_Remove Post delegate;
|}.

#[export] Instance delegated_generator_laws :
  @IdentityGeneratorLaws (Network G W) PrivKey delegated_generator.
Proof.
  refine (Build_IdentityGeneratorLaws _ _ delegated_generator
    (fun net => ig_inv (net_g net) /\ net_fates net = []) ig_ident (fun net => ig_mem (net_g net)) _ _).
  - intros [g w fates] [Hinv Hf]. cbn in Hinv, Hf |- *. subst fates.
    rewrite del_AddBalanced_reliable. eapply safe_bind; [by apply ig_AddBalanced_law|].
    intros [g' [err|pk]] [Hinv' Hm]; (split; [done|exact Hm]).
  - intros [g w fates] pk [Hinv Hf]. cbn in Hinv, Hf |- *. subst fates.
    rewrite del_Remove_reliable.
    destruct (ig_Remove_law g pk Hinv) as (g' & e & -> & Hinv' & Hm).
    destruct e; do 2 eexists; (split; [done|]); by split.
Defined.
End faults.
End delegated.

(** ** Witnesses *)

(** Keys are marshalled in unary, with a mark for the negative ones. *)
#[export] Instance Z_codec : KeyCodec Z := {|
  MarshalPrivateKey z :=
    inr (if (z <? 0)%Z then Byte.x01 :: replicate (Z.to_nat (- z)) Byte.x00
         else replicate (Z.to_nat z) Byte.x00);
  UnmarshalPrivateKey b :=
    match b with
    | Byte.x01 :: b => inr (- Z.of_nat (length b))%Z
    | b => inr (Z.of_nat (length b))
    end;
|}.

#[export] Instance Z_codec_laws : KeyCodecLaws Z.
Proof.
  split. intros z. eexists. split; [reflexivity|]. cbn [UnmarshalPrivateKey Z_codec].
  destruct (Z.ltb_spec z 0) as [Hz|Hz]; [by rewrite length_replicate; f_equal; lia|].
  destruct (Z.to_nat z) as [|n] eqn:Hn; simpl; rewrite ?length_replicate; f_equal; lia.
Qed.

Abbreviation sample_net g fates := (mkNet g (@nil ID) fates).
Abbreviation sample_Post := (@net_Post nat (list ID) sample_libp2p sample_hosts
  BalancedIdentityGenerator Z (balanced_generator 9) Z_codec sample_mux "http://h:1" [0] sample_ctx).

Lemma delegated_is_transparent_witness :
  AddBalanced (PrivKey := Z) 9 sample_gen1 = Ret (sample_gen2, inr 4%Z) /\
  del_AddBalanced sample_Post (NewDelegatedIDGenerator "http://h:1") (sample_net sample_gen1 []) =
    Ret (sample_net sample_gen2 [], inr 4%Z).
Proof.
  split; [vm_compute; reflexivity|].
  rewrite (proj1 (@delegated_is_transparent nat (list ID) sample_libp2p sample_hosts
    BalancedIdentityGenerator Z (balanced_generator 9) Z_codec Z_codec_laws sample_mux sample_mux_laws
    "http://h:1" [0] sample_ctx sample_gen1 [])).
  vm_compute. reflexivity.
Defined.

(** A response that is cut after one byte: the identity is lost. *)
Lemma delegated_faults_witness :
  exists net' err, del_AddBalanced sample_Post (NewDelegatedIDGenerator "http://h:1")
      (sample_net sample_gen1 [ResponseCut 1]) = Ret (net', inl err) /\
    bg_inv (PrivKey := Z) (net_g net') /\ count (net_g net') = 2%Z /\ net_fates net' = [].
Proof.
  destruct (del_AddBalanced sample_Post (NewDelegatedIDGenerator "http://h:1")
      (sample_net sample_gen1 [ResponseCut 1])) as [[net' [err|pk]]| |] eqn:HA;
    [|vm_compute in HA; discriminate..].
  exists net', err. split; [reflexivity|].
  pose proof (proj1 (@delegated_faults nat (list ID) sample_libp2p sample_hosts
    BalancedIdentityGenerator Z (balanced_generator 9) Z_codec Z_codec_laws sample_mux sample_mux_laws
    "http://h:1" [0] sample_ctx (balanced_generator_laws 9)
    (sample_net sample_gen1 [ResponseCut 1]) sample_gen1_inv)) as Hs.
  rewrite HA in Hs. destruct Hs as [Hinv _]. split; [exact Hinv|].
  vm_compute in HA. injection HA as <- _. split; reflexivity.
Defined.
