(* ===== verification/IdGenSession.v ===== *)
(** * A cleaning generator over a delegated one

    What the hydra uses when it is given the address of another one (src/main.go):
    a [CleaningIDGenerator] around a [DelegatedIDGenerator]. Over a network that
    may lose messages, the delegate keeps at most one identity for every message
    that goes wrong, and none over a reliable one. *)
From Stdlib Require Import Strings.String.
From S2P Require Import Prelude GoStd Encoding IdGen IdGenFacts IdGenSpec Interfaces IdGenClean Stores StoresSpec HttpApi HttpApiSpec IdGenDelegated.
Open Scope nat_scope.

#[export] Instance fate_eq_dec : EqDecision fate.
Proof. solve_decision. Defined.

(** The messages that go wrong. *)
Definition faulty (l : list fate) : nat := length (filter (fun f => f <> Delivered) l).

Lemma faulty_tail l : faulty (tail l) <= faulty l.
Proof. destruct l as [|f l]; [done|]. unfold faulty. simpl. rewrite filter_cons. case_decide; simpl; lia. Qed.

Lemma faulty_head l : default Delivered (head l) <> Delivered -> S (faulty (tail l)) = faulty l.
Proof. destruct l as [|f l]; [done|]. intros Hf. unfold faulty. simpl in *. rewrite filter_cons. by rewrite decide_True. Qed.

(** The delegate removes every identity that it can tell. *)
Class RemovesKnown (G PrivKey : Type) {IG : IdentityGenerator G PrivKey}
    {IGL : IdentityGeneratorLaws G PrivKey} : Prop :=
  removes_known : forall g pk, ig_inv g -> is_Some (ig_ident pk) ->
    exists g', ig_Remove g pk = Ret (g', None).

#[export] Instance balanced_removes_known (fuel : nat) `{KML : KeyMaterialLaws PrivKey} :
  @RemovesKnown BalancedIdentityGenerator PrivKey (balanced_generator fuel) (balanced_generator_laws fuel).
Proof.
  intros g pk Hg [k Hk]. cbn in Hk. destruct (privKeyToTrieKey pk) as [|k'] eqn:Hpk; [done|].
  destruct (bgRemove_ok g pk k') as (g' & HR & _); [done..|]. by exists g'.
Qed.

Section session.
Context {N : Type} `{HostLibs N W} `{IG : IdentityGenerator G PrivKey}
  `{KCL : KeyCodecLaws PrivKey} `{MuxLaws mux_match} `{PKE : PrivKeyEqualsLaws PrivKey} `{MEL : MultiErrorLaws}.
Context {IGL : @IdentityGeneratorLaws G PrivKey IG} {RK : @RemovesKnown G PrivKey IG IGL}.
Context (server_addr : string) (heads : list N) (ctx : Ctx).

Abbreviation session :=
  (@delegated_generator N _ _ _ G PrivKey _ _ mux_match server_addr heads ctx).
Abbreviation Client := (CleaningIDGenerator (Network G W) PrivKey).
Implicit Types (net : Network G W) (c : Client) (M : gset (list byte)).

Abbreviation idents := (IdGenClean.idents (IGL := IGL)).
Abbreviation own := (IdGenClean.own (IGL := IGL)).
Abbreviation ident := (ig_ident (IdentityGeneratorLaws := IGL)).
Abbreviation mem net := (ig_mem (net_g net)).
Abbreviation faults net := (faulty (net_fates net)).

(** [M] is what others have in the delegate's memory; besides, the memory has
    the client's identities and at most [n - faults] others, which were lost. *)
Record session_inv M (n calls : nat) c : Prop := {
  si_inner : ig_inv (net_g (idgen c));
  si_known : Forall (fun pk => is_Some (ident pk)) (cl_keys c);
  si_nodup : NoDup (idents (cl_keys c));
  si_split : exists lost, mem (idgen c) = M ∪ own (cl_keys c) ∪ lost /\
    M ## own (cl_keys c) /\ M ## lost /\ own (cl_keys c) ## lost /\
    size lost + faults (idgen c) <= n /\ length (cl_keys c) + size lost <= calls;
}.

Lemma session_new net :
  ig_inv (net_g net) -> session_inv (mem net) (faults net) 0 (NewCleaningIDGenerator net).
Proof.
  intros Hinv. split; cbn [idgen cl_keys NewCleaningIDGenerator]; [done|constructor|constructor|].
  exists ∅. rewrite size_empty. cbn [length]. split_and!; [set_solver..|lia|lia].
Qed.

(** One identity more is in the memory: it is the client's. *)
Lemma session_gains M n calls c net' pk :
  session_inv M n calls c -> ig_inv (net_g net') -> faults net' <= faults (idgen c) ->
  gained (IGL := IGL) (idgen c) net' pk ->
  session_inv M n (S calls) (mkCleaning net' (cl_keys c ++ [pk])).
Proof.
  intros [Hin Hkn Hnd (lost & Hmem & Hd1 & Hd2 & Hd3 & Hn & Hc)] Hinv Ht (k & Hk & Hnew & Hm).
  rewrite Hmem in Hnew.
  split; cbn [idgen cl_keys].
  - done.
  - apply Forall_app. split; [done|]. apply Forall_singleton. by exists k.
  - unfold IdGenClean.idents. rewrite omap_app. simpl. rewrite Hk.
    apply NoDup_app. split_and!; [done| |apply NoDup_singleton].
    intros k' Hk' ->%list_elem_of_singleton. apply Hnew. apply elem_of_union_l, elem_of_union_r.
    by apply elem_of_list_to_set.
  - rewrite (own_snoc (IGL := IGL) _ _ _ Hk). exists lost. rewrite length_app. cbn [length].
    split_and!; [rewrite Hm, Hmem; clear; set_solver|..|lia|lia];
      revert Hd1 Hd2 Hd3 Hnew; clear; set_solver.
Qed.

(** One identity more is in the memory, and nobody has it. *)
Lemma session_loses M n calls c net' pk :
  session_inv M n calls c -> ig_inv (net_g net') -> S (faults net') <= faults (idgen c) ->
  gained (IGL := IGL) (idgen c) net' pk ->
  session_inv M n (S calls) (mkCleaning net' (cl_keys c)).
Proof.
  intros [Hin Hkn Hnd (lost & Hmem & Hd1 & Hd2 & Hd3 & Hn & Hc)] Hinv Hbad (k & Hk & Hnew & Hm).
  rewrite Hmem in Hnew.
  split; cbn [idgen cl_keys]; [done..|]. exists ({[k]} ∪ lost).
  rewrite size_union, size_singleton by (revert Hnew; clear; set_solver).
  split_and!; [rewrite Hm, Hmem; clear; set_solver|..|lia|lia];
    revert Hd1 Hd2 Hd3 Hnew; clear; set_solver.
Qed.

Lemma session_same M n calls c net' :
  session_inv M n calls c -> ig_inv (net_g net') -> faults net' <= faults (idgen c) ->
  mem net' = mem (idgen c) -> session_inv M n (S calls) (mkCleaning net' (cl_keys c)).
Proof.
  intros [Hin Hkn Hnd (lost & Hmem & Hd1 & Hd2 & Hd3 & Hn & Hc)] Hinv Ht Hm.
  split; cbn [idgen cl_keys]; [done..|]. exists lost. rewrite Hm. split_and!; [done..|lia|lia].
Qed.

(** A call of [AddBalanced], whoever keeps the key. *)
Lemma session_call M n calls net ks :
  session_inv M n calls (mkCleaning net ks) ->
  safe (fun '(net', r) => session_inv M n (S calls)
    (mkCleaning net' (match r with inr pk => ks ++ [pk] | inl _ => ks end)))
    (ig_AddBalanced (IdentityGenerator := session) net).
Proof using All.
  intros Hc. eapply safe_mono; [|apply del_AddBalanced_faults, Hc].
  intros [net' [err|pk]] (Hinv & Hfates & Hr).
  - destruct Hr as [Hm|[Hlose [pk Hg]]];
      [apply (session_same M n calls (mkCleaning net ks)); rewrite ?Hfates; auto using faulty_tail|].
    eapply (session_loses M n calls (mkCleaning net ks)); [done..| |done].
    cbn [idgen]. rewrite Hfates, faulty_head; [done|].
    intros Hd. unfold next_fate in Hlose. by rewrite Hd in Hlose.
  - apply (session_gains M n calls (mkCleaning net ks)); rewrite ?Hfates; auto using faulty_tail.
Qed.

Lemma session_add M n calls c :
  session_inv M n calls c ->
  safe (fun '(c', _) => session_inv M n (S calls) c') (clAddBalanced (H := session) c).
Proof using All.
  destruct c as [net ks]. intros Hc. unfold clAddBalanced.
  eapply safe_bind; [by apply session_call|]. by intros [net' [err|pk]] Hs.
Qed.

(** ** Cleaning *)

(** One turn of the loop of [Clean]: the identity is gone, or it is lost because a
    message went wrong, and only then an error is reported. *)
Lemma session_remove M n calls net pk ks :
  session_inv M n calls (mkCleaning net (pk :: ks)) ->
  exists net' e, ig_Remove (IdentityGenerator := session) net pk = Ret (net', e) /\
    session_inv M n calls (mkCleaning net' ks) /\ (faults net = 0 -> e = None).
Proof using All.
  intros [Hin Hkn Hnd (lost & Hmem & Hd1 & Hd2 & Hd3 & Hn & Hc)]. cbn [idgen cl_keys length] in *.
  apply Forall_cons in Hkn as [[k Hk] Hkn]. rewrite (own_cons (IGL := IGL) _ _ _ Hk) in *.
  rewrite (idents_cons (IGL := IGL) _ _ _ Hk) in Hnd. apply NoDup_cons in Hnd as [Hno Hnd].
  assert (k ∉ own ks) as Hnk by (intros Ho; by apply elem_of_list_to_set in Ho).
  destruct (del_Remove_faults server_addr heads ctx net pk Hin) as (net1 & e & HR & Hg1 & Hf & Hr).
  cbn [ig_Remove delegated_generator]. rewrite HR. exists net1, e. split; [done|].
  pose proof (faulty_tail (net_fates net)) as Ht. rewrite <-Hf in Ht.
  assert (mem net1 = mem net ∖ {[k]} -> session_inv M n calls (mkCleaning net1 ks)) as Hgone.
  { intros Hm. split; cbn [idgen cl_keys]; [done..|]. exists lost. rewrite Hm, Hmem.
    split_and!; [revert Hd1 Hd3 Hnk; clear|revert Hd1; clear|done|revert Hd3; clear|lia|lia]; set_solver. }
  destruct e as [err|]; cycle 1.
  { destruct Hr as (k' & Hk' & Hm). assert (k' = k) as -> by congruence. by split; [apply Hgone|]. }
  destruct Hr as [Hr Hd].
  assert (S (faulty (net_fates net1)) = faults net) as Hbad.
  { rewrite Hf. apply faulty_head. intros Hd'. destruct (Hd Hd') as (g' & e' & HR').
    destruct (removes_known (net_g net) pk Hin) as [g'' HR'']; [by exists k|]. congruence. }
  split; [|intros; lia].
  destruct Hr as [Hm|[_ (k' & Hk' & Hm)]]; [|assert (k' = k) as -> by congruence; by apply Hgone].
  split; cbn [idgen cl_keys]; [done..|]. exists ({[k]} ∪ lost).
  rewrite size_union, size_singleton by (revert Hd3; clear; set_solver).
  rewrite Hm, Hmem. split_and!; [clear|revert Hd1; clear|revert Hd1 Hd2; clear|revert Hd3 Hnk; clear|lia|lia];
    set_solver.
Qed.

Lemma session_clean_keys M n calls ks : forall net (errs : option multierror),
  session_inv M n calls (mkCleaning net ks) ->
  exists net' errs', clean_keys (H := session) net ks errs = Ret (net', errs') /\
    session_inv M n calls (mkCleaning net' []) /\ (n = 0 -> errs' = errs).
Proof using All.
  induction ks as [|pk ks IH]; intros net errs Hs; cbn [clean_keys]; [by exists net, errs|].
  destruct (session_remove M n calls net pk ks Hs) as (net1 & e & HR & Hs1 & He). rewrite HR. run.
  assert (n = 0 -> e = None) as Hn.
  { intros ->. apply He. destruct Hs as [_ _ _ (lost & _ & _ & _ & _ & Hn & _)]. cbn [idgen] in Hn. lia. }
  destruct e as [err|]; [|by apply IH].
  destruct (IH net1 (multierror_Append errs err) Hs1) as (net' & errs' & HC & Hs' & _).
  exists net', errs'. split_and!; [done..|]. intros Hz. by specialize (Hn Hz).
Qed.

Lemma session_clean M n calls c :
  session_inv M n calls c ->
  exists c' errs kept, Clean (H := session) c = Ret (c', errs) /\ ig_inv (net_g (idgen c')) /\
    mem (idgen c') = M ∪ kept /\ M ## kept /\ size kept <= n /\ (n = 0 -> errs = None).
Proof using All.
  destruct c as [net ks]. intros Hs.
  destruct (session_clean_keys M n calls ks net None Hs)
    as (net' & errs & HC & [Hin _ _ (lost & Hmem & _ & Hd2 & _ & Hn & _)] & He).
  exists (mkCleaning net' []), errs, lost. unfold Clean. cbn [idgen cl_keys] in *. rewrite HC.
  split_and!; [done..| |done|lia|done]. rewrite Hmem. cbn. clear. set_solver.
Qed.

(** What the delegate keeps when the client stops without cleaning. *)
Lemma session_abandoned M n calls c :
  session_inv M n calls c -> exists kept, mem (idgen c) = M ∪ kept /\ M ## kept /\ size kept <= calls.
Proof.
  intros [Hin Hkn Hnd (lost & Hmem & Hd1 & Hd2 & Hd3 & Hn & Hc)].
  exists (own (cl_keys c) ∪ lost). split_and!.
  - rewrite Hmem. clear. set_solver.
  - revert Hd1 Hd2. clear. set_solver.
  - rewrite size_union by done. unfold IdGenClean.own. rewrite size_list_to_set by done.
    assert (length (idents (cl_keys c)) <= length (cl_keys c)); [|lia].
    clear. unfold IdGenClean.idents. induction (cl_keys c) as [|pk ks IH]; [done|].
    cbn [omap list_omap length]. destruct (ig_ident pk); cbn [length]; apply le_n_S in IH; [exact IH|lia].
Qed.
(** ** Keys of several clients *)

(** Only the set of the keys matters. *)
Lemma session_perm M n calls net ks ks' :
  ks ≡ₚ ks' -> session_inv M n calls (mkCleaning net ks) -> session_inv M n calls (mkCleaning net ks').
Proof.
  intros Hp [Hin Hkn Hnd (lost & Hrest)]. cbn [idgen cl_keys] in *.
  assert (own ks' = own ks) as Ho.
  { apply set_eq. intros k. rewrite !(elem_of_own (IGL := IGL)). by setoid_rewrite Hp. }
  split; cbn [idgen cl_keys]; [done|by rewrite <-Hp|unfold IdGenClean.idents in *; by rewrite <-Hp|].
  exists lost. by rewrite Ho, <-Hp.
Qed.

(** Keys that are forgotten, but not given back. *)
Lemma session_forget M n calls net ks ks' :
  session_inv M n calls (mkCleaning net (ks ++ ks')) ->
  session_inv M (n + length ks) calls (mkCleaning net ks').
Proof.
  induction ks as [|pk ks IH] in n |- *; intros Hs; [by rewrite Nat.add_0_r|].
  cbn [length]. rewrite <-plus_n_Sm, <-Nat.add_succ_l. apply IH. cbn [app] in Hs.
  destruct Hs as [Hin Hkn Hnd (lost & Hmem & Hd1 & Hd2 & Hd3 & Hn & Hc)]. cbn [idgen cl_keys length] in *.
  apply Forall_cons in Hkn as [[k Hk] Hkn]. rewrite (own_cons (IGL := IGL) _ _ _ Hk) in *.
  rewrite (idents_cons (IGL := IGL) _ _ _ Hk) in Hnd. apply NoDup_cons in Hnd as [Hno Hnd].
  assert (k ∉ own (ks ++ ks')) as Hnk by (intros Ho; by apply elem_of_list_to_set in Ho).
  split; cbn [idgen cl_keys]; [done..|]. exists ({[k]} ∪ lost).
  rewrite size_union, size_singleton by (revert Hd3; clear; set_solver).
  rewrite Hmem. split_and!; [clear|revert Hd1; clear|revert Hd1 Hd2; clear|revert Hd3 Hnk; clear|lia|lia];
    set_solver.
Qed.
End session.
