(* ===== verification/Fleet.v ===== *)
(** * Hydras that share one identity generator (src/idgen, src/httpapi, src/main.go)

    One hydra is the server of the identities: its heads take them from its own
    generator, and its HTTP API hands them out to the others. Every other hydra has
    a [CleaningIDGenerator] around a [DelegatedIDGenerator]. Here they run together:
    the calls of all processes interleave, their messages can be lost, and a process
    can end at any time without cleaning up. *)
From Stdlib Require Import Strings.String.
From S2P Require Import Prelude GoStd Encoding IdGen IdGenFacts IdGenSpec Interfaces IdGenClean Stores StoresSpec HttpApi HttpApiSpec IdGenDelegated IdGenSession.
Open Scope nat_scope.

(** A process with a remote generator, and the keys that its cleaning generator has:
    at work, in the loop of [Clean], or ended. *)
Inductive process_state (PrivKey : Type) : Type :=
| Running (ks : list PrivKey)
| Cleaning (ks : list PrivKey)
| Ended_.
Arguments Running {PrivKey} _.
Arguments Cleaning {PrivKey} _.
Arguments Ended_ {PrivKey}.

Definition held {PrivKey} (p : process_state PrivKey) : list PrivKey :=
  match p with Running ks | Cleaning ks => ks | Ended_ => [] end.

(** The server with its network, the keys of its own heads, the other processes, and
    how many keys have been abandoned by processes that have ended. *)
Record Fleet (G W PrivKey : Type) := mkFleet {
  fl_net : Network G W;
  fl_own : list PrivKey;
  fl_procs : list (process_state PrivKey);
  fl_abandoned : nat;
}.
Arguments mkFleet {G W PrivKey} _ _ _ _.
Arguments fl_net {G W PrivKey} _.
Arguments fl_own {G W PrivKey} _.
Arguments fl_procs {G W PrivKey} _.
Arguments fl_abandoned {G W PrivKey} _.

(** The server takes an identity for a head of its own; a process starts; process
    [i] asks for an identity, begins to clean, gives one identity back, or ends. *)
Inductive fleet_event : Type :=
| ServerAdds
| Joins
| Adds (i : nat)
| Stops (i : nat)
| Cleans (i : nat)
| Ends (i : nat).

Section fleet.
Context {N : Type} `{HostLibs N W} `{IG : IdentityGenerator G PrivKey}
  `{KeyCodec PrivKey, PrivKeyEquals PrivKey}.
Context (mux_match : list route -> string -> string -> routed) (server_addr : string)
  (heads : list N) (ctx : Ctx).

Abbreviation remote := (@delegated_generator N _ _ _ G PrivKey _ _ mux_match server_addr heads ctx).
Implicit Types (s : Fleet G W PrivKey) (net : Network G W).

(** The keys of all heads. *)
Definition fleet_keys s : list PrivKey := fl_own s ++ (fl_procs s ≫= held).

Definition set_proc s (i : nat) net (p : process_state PrivKey) : Fleet G W PrivKey :=
  mkFleet net (fl_own s) (<[i := p]> (fl_procs s)) (fl_abandoned s).

(** One step; [None] when the event cannot happen. *)
Definition fleet_step s (e : fleet_event) : outcome (option (Fleet G W PrivKey)) :=
  let net := fl_net s in
  match e with
  | ServerAdds =>
      '(g, r) ← ig_AddBalanced (net_g net);
      let own := match r with inr pk => fl_own s ++ [pk] | inl _ => fl_own s end in
      Ret (Some (mkFleet (mkNet g (net_w net) (net_fates net)) own (fl_procs s) (fl_abandoned s)))
  | Joins => Ret (Some (mkFleet net (fl_own s) (fl_procs s ++ [Running []]) (fl_abandoned s)))
  | Adds i =>
      match fl_procs s !! i with
      | Some (Running ks) =>
          '(c, _) ← clAddBalanced (H := remote) (mkCleaning net ks);
          Ret (Some (set_proc s i (idgen c) (Running (cl_keys c))))
      | _ => Ret None
      end
  | Stops i =>
      match fl_procs s !! i with
      | Some (Running ks) => Ret (Some (set_proc s i net (Cleaning ks)))
      | _ => Ret None
      end
  | Cleans i =>
      match fl_procs s !! i with
      | Some (Cleaning (pk :: ks)) =>
          '(net, _) ← ig_Remove (IdentityGenerator := remote) net pk;
          Ret (Some (set_proc s i net (Cleaning ks)))
      | _ => Ret None
      end
  | Ends i =>
      match fl_procs s !! i with
      | Some Ended_ | None => Ret None
      | Some p =>
          Ret (Some (mkFleet net (fl_own s) (<[i := Ended_]> (fl_procs s))
            (fl_abandoned s + length (held p))))
      end
  end.

Fixpoint fleet_run s (es : list fleet_event) : outcome (option (Fleet G W PrivKey)) :=
  match es with
  | [] => Ret (Some s)
  | e :: es =>
      s' ← fleet_step s e;
      match s' with Some s' => fleet_run s' es | None => Ret None end
  end.

(** The server before any process has started. *)
Definition new_fleet net : Fleet G W PrivKey := mkFleet net [] [] 0.

Lemma fleet_run_app s es1 es2 s1 :
  fleet_run s es1 = Ret (Some s1) -> fleet_run s (es1 ++ es2) = fleet_run s1 es2.
Proof.
  revert s. induction es1 as [|e es1 IH]; intros s; cbn; [by intros [= <-]|].
  destruct (fleet_step s e) as [[s'|]| |]; run; [apply IH|done..].
Qed.
End fleet.

(** ** The identities of a fleet *)

Section theorems.
Context {N : Type} `{HostLibs N W} `{IG : IdentityGenerator G PrivKey}
  `{KCL : KeyCodecLaws PrivKey} `{MuxLaws mux_match} `{PKE : PrivKeyEqualsLaws PrivKey} `{MEL : MultiErrorLaws}.
Context {IGL : @IdentityGeneratorLaws G PrivKey IG} {RK : @RemovesKnown G PrivKey IG IGL}.
Context (server_addr : string) (heads : list N) (ctx : Ctx).
Implicit Types (s : Fleet G W PrivKey) (net : Network G W) (M : gset (list byte)).

Abbreviation remote := (@delegated_generator N _ _ _ G PrivKey _ _ mux_match server_addr heads ctx).
Abbreviation step := (fleet_step mux_match server_addr heads ctx).
Abbreviation runs := (fleet_run mux_match server_addr heads ctx).
Abbreviation idents := (IdGenClean.idents (IGL := IGL)).
Abbreviation own := (IdGenClean.own (IGL := IGL)).
Abbreviation mem net := (ig_mem (IdentityGeneratorLaws := IGL) (net_g net)).
Abbreviation faults net := (faulty (net_fates net)).

(** The keys of the fleet are like those of one client of the server. *)
Definition fleet_inv M (n : nat) s : Prop :=
  exists calls, session_inv (IGL := IGL) M (n + fl_abandoned s) calls (mkCleaning (fl_net s) (fleet_keys s)).

(** The keys of process [i] can be moved to the front. *)
Lemma keys_of s i p : fl_procs s !! i = Some p ->
  exists rest, fleet_keys s ≡ₚ held p ++ rest /\
    forall net p' n, fleet_keys (mkFleet net (fl_own s) (<[i := p']> (fl_procs s)) n) ≡ₚ held p' ++ rest.
Proof.
  intros Hi. destruct (bind_insert_perm held _ _ _ Hi) as (rest & Hr & Hr').
  exists (fl_own s ++ rest). unfold fleet_keys. cbn [fl_own fl_procs]. split.
  - rewrite Hr, !app_assoc. apply Permutation_app_tail, Permutation_app_comm.
  - intros _ p' _. rewrite Hr', !app_assoc. apply Permutation_app_tail, Permutation_app_comm.
Qed.

Lemma server_adds_inv M n s :
  fleet_inv M n s -> safe (fun o => forall s', o = Some s' -> fleet_inv M n s') (step s ServerAdds).
Proof using All.
  intros [calls Hs]. cbn [fleet_step].
  eapply safe_bind; [apply ig_AddBalanced_law, (si_inner _ _ _ _ Hs)|].
  intros [g r] [Hg Hr] s' [= <-].
  exists (S calls). unfold fleet_keys. cbn [fl_net fl_own fl_procs fl_abandoned]. destruct r as [err|pk].
  - by apply (session_same _ _ _ (mkCleaning (fl_net s) (fleet_keys s))).
  - apply (session_perm _ _ _ _ (fleet_keys s ++ [pk])).
    { unfold fleet_keys. rewrite <-!app_assoc. by rewrite (Permutation_app_comm [pk]). }
    by apply (session_gains _ _ _ (mkCleaning (fl_net s) (fleet_keys s))).
Qed.

Lemma adds_inv M n s i ks :
  fleet_inv M n s -> fl_procs s !! i = Some (Running ks) ->
  safe (fun o => forall s', o = Some s' -> fleet_inv M n s') (step s (Adds i)).
Proof using All.
  intros [calls Hs] Hi. cbn [fleet_step]. rewrite Hi.
  destruct (keys_of s i _ Hi) as (rest & Hk & Hk'). unfold clAddBalanced. rewrite outcome_bind_assoc.
  eapply safe_bind; [apply (session_call server_addr heads ctx); by eapply session_perm|].
  intros [net' [err|pk]] Hr s' [= <-]; exists (S calls); (eapply session_perm; [symmetry; apply Hk'|]); [done|].
  eapply session_perm; [|exact Hr]. cbn [held cl_keys]. rewrite <-!app_assoc. by rewrite (Permutation_app_comm [pk]).
Qed.

Lemma cleans_inv M n s i pk ks :
  fleet_inv M n s -> fl_procs s !! i = Some (Cleaning (pk :: ks)) ->
  safe (fun o => forall s', o = Some s' -> fleet_inv M n s') (step s (Cleans i)).
Proof using All.
  intros [calls Hs] Hi. cbn [fleet_step]. rewrite Hi. destruct (keys_of s i _ Hi) as (rest & Hk & Hk').
  eapply (session_perm _ _ _ _ _ _ Hk) in Hs.
  destruct (session_remove server_addr heads ctx _ _ _ _ _ _ Hs) as (net' & e & -> & Hs' & _).
  run. intros s' [= <-]. exists calls. eapply session_perm; [symmetry; apply Hk'|]. done.
Qed.

Lemma fleet_step_inv M n s e :
  fleet_inv M n s -> safe (fun o => forall s', o = Some s' -> fleet_inv M n s') (step s e).
Proof using All.
  intros Hs. destruct e as [| |i|i|i|i]; [by apply server_adds_inv|..].
  - intros s' [= <-]. destruct Hs as [calls Hs]. exists calls. cbn [fl_net fl_abandoned].
    unfold fleet_keys. cbn [fl_own fl_procs]. rewrite bind_app. cbn. by rewrite app_nil_r.
  - destruct (fl_procs s !! i) as [[ks|ks|]|] eqn:Hi; [by eapply adds_inv|cbn; by rewrite Hi..].
  - cbn. destruct (fl_procs s !! i) as [[ks|ks|]|] eqn:Hi; try done. intros s' [= <-].
    destruct Hs as [calls Hs]. exists calls. destruct (keys_of s i _ Hi) as (rest & Hk & Hk').
    eapply session_perm; [symmetry; apply Hk'|]. by eapply session_perm.
  - destruct (fl_procs s !! i) as [[ks|[|pk ks]|]|] eqn:Hi; try (cbn; by rewrite Hi).
    by eapply cleans_inv.
  - cbn. assert (forall p, fl_procs s !! i = Some p -> fleet_inv M n
      (mkFleet (fl_net s) (fl_own s) (<[i := Ended_]> (fl_procs s)) (fl_abandoned s + length (held p)))) as Hend.
    { intros p Hi. destruct Hs as [calls Hs]. exists calls. destruct (keys_of s i _ Hi) as (rest & Hk & Hk').
      eapply session_perm; [symmetry; apply Hk'|]. cbn [fl_net fl_abandoned held app].
      rewrite Nat.add_assoc. apply session_forget. by eapply session_perm. }
    destruct (fl_procs s !! i) as [[ks|ks|]|]; try done; intros s' [= <-]; exact (Hend _ eq_refl).
Qed.

Lemma fleet_run_inv M n es s s' : fleet_inv M n s -> runs s es = Ret (Some s') -> fleet_inv M n s'.
Proof using All.
  revert s. induction es as [|e es IH]; intros s Hs; cbn; [by intros [= <-]|].
  pose proof (fleet_step_inv M n s e Hs) as Hstep.
  destruct (step s e) as [[s1|]| |]; [|done..]. run. apply IH. by apply Hstep.
Qed.

Lemma new_fleet_inv net : ig_inv (net_g net) -> fleet_inv (mem net) (faults net) (new_fleet net).
Proof. intros Hg. exists 0. cbn. rewrite Nat.add_0_r. by apply session_new. Qed.

(** C7. However the hydras of a fleet interleave, whatever messages are lost and
    whichever processes end without cleaning up: no call panics; all heads that are
    running, of the server and of all others, have different identities, all of them
    new and in the server's memory; what the memory had before stays; and besides it
    has gained at most one identity for every message that went wrong and for every
    head of a process that ended without giving it back. *)
Theorem fleet_identities net es s :
  ig_inv (net_g net) -> runs (new_fleet net) es = Ret (Some s) ->
  (forall e, step s e <> Panic) /\
  NoDup (idents (fleet_keys s)) /\ Forall (fun pk => is_Some (ig_ident pk)) (fleet_keys s) /\
  exists lost, mem (fl_net s) = mem net ∪ own (fleet_keys s) ∪ lost /\
    mem net ## own (fleet_keys s) /\ mem net ## lost /\ own (fleet_keys s) ## lost /\
    size lost + faults (fl_net s) <= faults net + fl_abandoned s.
Proof using All.
  intros Hg Hs. pose proof (fleet_run_inv _ _ _ _ _ (new_fleet_inv net Hg) Hs) as Hinv.
  split.
  { intros e He. pose proof (fleet_step_inv _ _ _ e Hinv) as Hstep. by rewrite He in Hstep. }
  destruct Hinv as [calls [Hin Hkn Hnd (lost & Hmem & Hd1 & Hd2 & Hd3 & Hn & _)]].
  split_and!; [done..|]. by exists lost.
Qed.

(** ** One generator *)

(** A call of the server's generator, and the identity that it hands out. *)
Inductive gen_call : Type :=
| GenAdd
| GenRemove (pk : PrivKey).

Definition gen_step (g : G) (c : gen_call) : outcome (G * list PrivKey) :=
  match c with
  | GenAdd => '(g, r) ← ig_AddBalanced g; Ret (g, match r with inr pk => [pk] | inl _ => [] end)
  | GenRemove pk => '(g, _) ← ig_Remove g pk; Ret (g, [])
  end.
Fixpoint gen_run (g : G) (cs : list gen_call) : outcome (G * list PrivKey) :=
  match cs with
  | [] => Ret (g, [])
  | c :: cs => '(g, out) ← gen_step g c; '(g, out') ← gen_run g cs; Ret (g, out ++ out')
  end.

(** The calls that a step stands for: a process asks for an identity, or gives back the
    first one that it has, unless the request does not arrive. *)
Definition arrives net : bool := match next_fate net with NotSent _ => false | _ => true end.
Definition calls_of s (e : fleet_event) : list gen_call :=
  match e with
  | ServerAdds => [GenAdd]
  | Adds i =>
      match fl_procs s !! i with
      | Some (Running _) => if arrives (fl_net s) then [GenAdd] else []
      | _ => []
      end
  | Cleans i =>
      match fl_procs s !! i with
      | Some (Cleaning (pk :: _)) => if arrives (fl_net s) then [GenRemove pk] else []
      | _ => []
      end
  | _ => []
  end.
Fixpoint fleet_calls s (es : list fleet_event) : list gen_call :=
  match es with
  | [] => []
  | e :: es => calls_of s e ++ match step s e with Ret (Some s') => fleet_calls s' es | _ => [] end
  end.

Lemma gen_run_app g cs1 cs2 g1 out1 g2 out2 :
  gen_run g cs1 = Ret (g1, out1) -> gen_run g1 cs2 = Ret (g2, out2) ->
  gen_run g (cs1 ++ cs2) = Ret (g2, out1 ++ out2).
Proof.
  revert g out1. induction cs1 as [|c cs1 IH]; intros g out1; cbn; [by intros [= <- <-]|].
  destruct (gen_step g c) as [[g' o]| |]; run; [|done..].
  destruct (gen_run g' cs1) as [[g'' o']| |] eqn:Hr; run; [|done..].
  intros [= <- <-] Hrest. rewrite (IH _ _ Hr Hrest). run. by rewrite app_assoc.
Qed.

Lemma gen_run_one g c g' out : gen_step g c = Ret (g', out) -> gen_run g [c] = Ret (g', out).
Proof. intros Hc. cbn [gen_run]. rewrite Hc. run. by rewrite app_nil_r. Qed.

(** A request that arrives is one call of the generator, and the client gets what the
    call has handed out or nothing. *)
Lemma remote_adds net net' r :
  ig_AddBalanced (IdentityGenerator := remote) net = Ret (net', r) ->
  exists out, gen_run (net_g net) (if arrives net then [GenAdd] else []) = Ret (net_g net', out) /\
    forall pk, r = inr pk -> pk ∈ out.
Proof using All.
  cbn [ig_AddBalanced delegated_generator]. unfold del_AddBalanced, arrives. rewrite Post_add.
  destruct (next_fate net) as [|err|err|n]; [|by intros [= <- <-]; eexists; split|..];
    destruct (ig_AddBalanced (net_g net)) as [[g' [err'|pk]]| |] eqn:Ha; run; try done;
    intros Hr; (eexists; split; [apply gen_run_one; cbn [gen_step]; rewrite Ha; run; repeat case_match; by simplify_eq/=|]);
    intros pk' ->; try (destruct (codec_roundtrip pk) as (b & Hm & Hb); rewrite Hm in Hr); cbn [StatusCode Body] in Hr.
  all: try (rewrite decide_True in Hr by done; done). all: try done.
  - rewrite decide_False, json_b64_roundtrip, b64_roundtrip, Hb in Hr by (intros Hne; by apply Hne).
    injection Hr as _ ->. by left.
  - rewrite decide_False in Hr by (intros Hne; by apply Hne).
    destruct (json_b64_cut b [Byte.x0a] n) as [Hc | [err' Hc]]; rewrite Hc in Hr; [|done].
    rewrite b64_roundtrip, Hb in Hr. injection Hr as _ ->. by left.
Qed.

Lemma remote_removes net pk net' e :
  ig_Remove (IdentityGenerator := remote) net pk = Ret (net', e) ->
  gen_run (net_g net) (if arrives net then [GenRemove pk] else []) = Ret (net_g net', []).
Proof using All.
  cbn [ig_Remove delegated_generator]. unfold del_Remove, arrives. destruct (codec_roundtrip pk) as (b & -> & Hb). cbv zeta.
  rewrite (Post_remove _ _ _ _ b pk Hb).
  destruct (next_fate net); [|by intros [= <- _]|..];
    (destruct (ig_Remove (net_g net) pk) as [[g' e']| |] eqn:Hr; run; [|done..]);
    intros He; apply gen_run_one; cbn [gen_step]; rewrite Hr; run; repeat case_match; by simplify_eq/=.
Qed.

(** What a step does to the generator, and where the keys of the fleet come from. *)
Lemma fleet_step_gen s e s' :
  step s e = Ret (Some s') ->
  exists out, gen_run (net_g (fl_net s)) (calls_of s e) = Ret (net_g (fl_net s'), out) /\
    forall pk, pk ∈ fleet_keys s' -> pk ∈ fleet_keys s \/ pk ∈ out.
Proof using All.
  destruct e as [| |i|i|i|i]; cbn [fleet_step calls_of].
  - destruct (ig_AddBalanced _) as [[g r]| |] eqn:Ha; run; [|done..]. intros [= <-].
    eexists. split; [apply gen_run_one; cbn [gen_step]; by rewrite Ha|].
    intros pk. unfold fleet_keys. cbn. rewrite !elem_of_app. destruct r as [err|pk']; [by left|].
    rewrite elem_of_app. naive_solver.
  - intros [= <-]. exists []. split; [done|]. intros pk. unfold fleet_keys. cbn.
    rewrite bind_app. cbn. rewrite app_nil_r. by left.
  - destruct (fl_procs s !! i) as [[ks|ks|]|] eqn:Hi; try done. unfold clAddBalanced. cbn [idgen].
    destruct (keys_of s i _ Hi) as (rest & Hk & Hk').
    destruct (ig_AddBalanced (IdentityGenerator := remote) _) as [[net r]| |] eqn:Ha; run; [|done..].
    apply remote_adds in Ha as (out & Hg & Hout).
    destruct r as [err|pk]; run; intros [= <-]; exists out; (split; [done|]); intros pk';
      unfold set_proc; rewrite Hk', Hk; cbn [held cl_keys]; rewrite !elem_of_app; [naive_solver|].
    specialize (Hout pk eq_refl). rewrite list_elem_of_singleton. naive_solver.
  - destruct (fl_procs s !! i) as [[ks|ks|]|] eqn:Hi; try done. intros [= <-]. exists []. split; [done|].
    destruct (keys_of s i _ Hi) as (rest & Hk & Hk'). intros pk. unfold set_proc. rewrite Hk', Hk. by left.
  - destruct (fl_procs s !! i) as [[ks|[|pk ks]|]|] eqn:Hi; try done.
    destruct (keys_of s i _ Hi) as (rest & Hk & Hk').
    destruct (ig_Remove (IdentityGenerator := remote) _ _) as [[net r]| |] eqn:Ha; run; [|done..].
    apply remote_removes in Ha. intros [= <-]. exists []. split; [done|]. intros pk'.
    unfold set_proc. rewrite Hk', Hk. cbn [held]. rewrite !elem_of_app, elem_of_cons. naive_solver.
  - assert (forall p, fl_procs s !! i = Some p -> forall pk,
      pk ∈ fleet_keys (mkFleet (fl_net s) (fl_own s) (<[i := Ended_]> (fl_procs s)) (fl_abandoned s + length (held p))) ->
      pk ∈ fleet_keys s) as Hend.
    { intros p Hi pk. destruct (keys_of s i _ Hi) as (rest & Hk & Hk'). rewrite Hk', Hk, !elem_of_app.
      intros [[]%not_elem_of_nil|?]; by right. }
    destruct (fl_procs s !! i) as [[ks|ks|]|]; try done; intros [= <-]; exists []; (split; [done|]);
      intros pk Hpk; left; exact (Hend _ eq_refl _ Hpk).
Qed.

(** C11. The fleet is balanced as one hydra would be: however its processes interleave
    and whatever messages are lost, the server's generator is in the state to which
    a single program brings it that itself calls [AddBalanced] for every identity that
    a process asks for, and [Remove] for every one that a process gives back, in that
    order, leaving out the requests that do not arrive; and every identity that a head
    of the fleet has gained was handed out by one of these calls. *)
Theorem fleet_one_generator s es s' :
  runs s es = Ret (Some s') ->
  exists out, gen_run (net_g (fl_net s)) (fleet_calls s es) = Ret (net_g (fl_net s'), out) /\
    forall pk, pk ∈ fleet_keys s' -> pk ∈ fleet_keys s \/ pk ∈ out.
Proof using All.
  revert s. induction es as [|e es IH]; intros s; cbn [fleet_run fleet_calls].
  { intros [= <-]. exists []. split; [done|]. by left. }
  destruct (step s e) as [[s1|]| |] eqn:He; run; [|done..]. intros Hr.
  destruct (IH s1 Hr) as (out' & Hcs & Hk'). destruct (fleet_step_gen s e s1 He) as (out & Hc & Hk).
  exists (out ++ out'). split; [by eapply gen_run_app|]. intros pk Hpk. rewrite elem_of_app.
  destruct (Hk' pk Hpk) as [Hs1|?]; [|by auto]. destruct (Hk pk Hs1); by auto.
Qed.
End theorems.

(** ** Witnesses *)

(** The server takes an identity for itself; two processes start and ask for one
    each, but the response to the second is lost; the first process ends without
    cleaning up. *)
Definition sample_fleet_events : list fleet_event := [ServerAdds; Joins; Joins; Adds 0; Adds 1; Ends 0].
Definition sample_fleet_start : Network BalancedIdentityGenerator (list ID) :=
  sample_net sample_gen1 [Delivered; ResponseLost (ErrorMsg "timeout")].
Definition sample_fleet_run : outcome (option (Fleet BalancedIdentityGenerator (list ID) Z)) :=
  @fleet_run nat (list ID) sample_libp2p sample_hosts BalancedIdentityGenerator Z (balanced_generator 9)
    Z_codec sample_mux "http://h:1" [0] sample_ctx (new_fleet sample_fleet_start) sample_fleet_events.
Definition sample_fleet : Fleet BalancedIdentityGenerator (list ID) Z :=
  match sample_fleet_run with Ret (Some s) => s | _ => new_fleet sample_fleet_start end.

Lemma sample_fleet_runs :
  @fleet_run nat (list ID) sample_libp2p sample_hosts BalancedIdentityGenerator Z (balanced_generator 9)
    Z_codec sample_mux "http://h:1" [0] sample_ctx (new_fleet sample_fleet_start) sample_fleet_events =
  Ret (Some sample_fleet).
Proof. vm_compute. reflexivity. Qed.

Lemma fleet_identities_witness :
  fleet_keys sample_fleet = [4%Z] /\ count (net_g (fl_net sample_fleet)) = 4%Z /\
  exists lost : gset (list byte), size lost + 0 <= 1 + 1.
Proof.
  split; [vm_compute; reflexivity|]. split; [vm_compute; reflexivity|].
  destruct (@fleet_identities nat (list ID) sample_libp2p sample_hosts BalancedIdentityGenerator Z
    (balanced_generator 9) Z_codec Z_codec_laws sample_mux sample_mux_laws Z_Equals Z_Equals_laws
    list_multierror list_multierror_laws (balanced_generator_laws 9) (balanced_removes_known 9)
    "http://h:1" [0] sample_ctx sample_fleet_start sample_fleet_events sample_fleet sample_gen1_inv
    sample_fleet_runs) as (_ & _ & _ & lost & _ & _ & _ & _ & Hs).
  exists lost. exact Hs.
Defined.

(** Three calls reach the generator, all of them of [AddBalanced]; the head that is
    left has the identity of the first. *)
Lemma fleet_one_generator_witness :
  exists out, gen_run (IG := balanced_generator 9) sample_gen1 [GenAdd; GenAdd; GenAdd] =
      Ret (net_g (fl_net sample_fleet), out) /\ 4%Z ∈ out.
Proof.
  destruct (@fleet_one_generator nat (list ID) sample_libp2p sample_hosts BalancedIdentityGenerator Z
    (balanced_generator 9) Z_codec Z_codec_laws sample_mux sample_mux_laws Z_Equals Z_Equals_laws
    list_multierror list_multierror_laws (balanced_generator_laws 9) (balanced_removes_known 9)
    "http://h:1" [0] sample_ctx (new_fleet sample_fleet_start) sample_fleet_events sample_fleet
    sample_fleet_runs) as (out & Hr & Hk).
  exists out. split; [exact Hr|]. destruct (Hk 4%Z) as [Hn|Ho]; [|inversion Hn|exact Ho].
  assert (fleet_keys sample_fleet = [4%Z]) as -> by (vm_compute; reflexivity). left.
Defined.
