(* ===== verification/DynamoDB.v ===== *)
(** * The DynamoDB provider store (src/providers/ddb.go)

    The clients it calls are classes: the DynamoDB API over a world [W], and
    the peer store. The paging loop of [GetProviders] is recursive on a fuel;
    DynamoDBSpec shows how much is enough. *)
From Stdlib Require Import Strings.String.
From stdpp Require Import pretty.
From S2P Require Import Prelude Metrics Stores.
Open Scope nat_scope.

(** ** The API of DynamoDB *)

(** [types.AttributeValue]: a binary, a number, or a member of another type. *)
Inductive AttributeValue : Type :=
| MemberB (value : list byte)
| MemberN (value : string)
| MemberOther (typename : string).

Abbreviation Item := (gmap string AttributeValue).

Record QueryInput := mkQuery {
  q_TableName : string;
  q_KeyConditionExpression : string;
  q_ExpressionAttributeValues : Item;
  q_ExpressionAttributeNames : gmap string string;
  q_ScanIndexForward : bool;
  q_ExclusiveStartKey : Item;
  q_Limit : Z;
}.

Record QueryOutput := mkQueryOutput {
  q_Items : list Item;
  q_LastEvaluatedKey : Item;
}.

Record PutItemInput := mkPutItem {
  p_TableName : string;
  p_Item : Item;
  p_ConditionExpression : string;
  p_ExpressionAttributeNames : gmap string string;
}.

(** [ddbClient]; [isConditionalCheckFailed] is [errors.As] on that type of
    error, [DescribeTable] yields the item count. *)
Class DDBClient (W : Type) := {
  Query : QueryInput -> W -> W * result QueryOutput;
  PutItem : PutItemInput -> W -> W * option goerror;
  DescribeTable : string -> W -> W * result Z;
  isConditionalCheckFailed : goerror -> bool;
}.

(** [peerStore] *)
Class PeerStore (W : Type) `{Libp2p} := {
  PeerInfo : ID -> W -> AddrInfo;
  AddAddrs : ID -> list Multiaddr -> Z -> W -> W;
  AddressTTL : Z;
}.

(** [reflect.TypeOf(prov)] printed with [%s]. *)
Definition TypeOf (v : AttributeValue) : string :=
  match v with
  | MemberB _ => "*types.AttributeValueMemberB"
  | MemberN _ => "*types.AttributeValueMemberN"
  | MemberOther t => t
  end.

Section ddb.
Context `{Libp2p} {W : Type} `{DDBClient W} `{!PeerStore W} (emit : Recording -> W -> W).

Record dynamoDBProviderStore := mkDDB {
  Self : ID;
  TableName : string;
  TTL : Z; (* a duration, in nanoseconds *)
  QueryLimit : Z; (* int32 *)
}.

(** The first argument is not used. *)
Definition NewDynamoDBProviderStore (self : ID) (tableName : string) (ttl queryLimit : Z)
    : dynamoDBProviderStore := mkDDB "peer" tableName ttl queryLimit.

(** [d.clock.Now().Add(d.TTL).UnixNano() / 1e9], with the clock's time in
    nanoseconds of the Unix epoch. *)
Definition ttlEpoch (d : dynamoDBProviderStore) (now : Z) : Z :=
  (wrap_i64 (now + TTL d) `quot` 1000000000)%Z.

Definition putInput (d : dynamoDBProviderStore) (key : list byte) (prov : ID) (now : Z) : PutItemInput :=
  let ttlEpochStr := pretty (ttlEpoch d now) in
  mkPutItem (TableName d)
    {["key"%string := MemberB key;
      "prov"%string := MemberB (list_byte_of_string prov);
      "ttl"%string := MemberN ttlEpochStr]}
    "attribute_not_exists(#k) AND attribute_not_exists(#t)"
    {["#k"%string := "key"%string; "#t"%string := "ttl"%string]}.

Definition ddb_AddProvider (d : dynamoDBProviderStore) (key : list byte) (prov : AddrInfo) (now : Z)
    (w : W) : W * option goerror :=
  let w := if decide (ai_ID prov <> Self d) then AddAddrs (ai_ID prov) (ai_Addrs prov) AddressTTL w
           else w in
  let '(w, err) := PutItem (putInput d key (ai_ID prov) now) w in
  match err with
  | Some e => if isConditionalCheckFailed e then (w, None) else (w, Some e)
  | None => (w, None)
  end.

Definition queryInput (d : dynamoDBProviderStore) (key : list byte) (startKey : Item)
    (providersLeft : Z) : QueryInput :=
  mkQuery (TableName d) "#k = :key" {[":key"%string := MemberB key]}
    {["#k"%string := "key"%string]} false startKey providersLeft.

(** The state of the dedup: [providersSet] and [providers]. *)
Abbreviation Found := (gset string * list AddrInfo)%type.

(** The loop over the items of a page. *)
Fixpoint read_items (items : list Item) (w : W) (found : Found) : result Found :=
  match items with
  | [] => inr found
  | item :: items =>
      match item !! "prov"%string with
      | None => inl (ErrorMsg "unexpected item without a 'prov' attribute")
      | Some (MemberB value) =>
          let provStr := string_of_list_byte value in
          let addrInfo := PeerInfo provStr w in
          let '(providersSet, providers) := found in
          read_items items w
            (if decide (provStr ∈ providersSet) then found
             else ({[provStr]} ∪ providersSet, providers ++ [addrInfo]))
      | Some prov =>
          inl (ErrorMsg ("unexpected value type of '" +:+ TypeOf prov +:+ "' for 'prov' attribute"))
      end
  end.

(** The paging loop. [len] of a map is its size. The code declares [startKey] before
    the loop and never assigns it, so that every round asks for the first page. *)
Fixpoint query_pages (fuel : nat) (d : dynamoDBProviderStore) (key : list byte) (startKey : Item)
    (providersLeft : Z) (found : Found) (w : W) : outcome (W * result (list AddrInfo)) :=
  match fuel with
  | O => Diverge
  | S fuel =>
      let '(w, res) := Query (queryInput d key startKey providersLeft) w in
      match res with
      | inl err => Ret (w, inl err)
      | inr res =>
          match read_items (q_Items res) w found with
          | inl err => Ret (w, inl err)
          | inr found =>
              let numItems := wrap_i32 (Z.of_nat (length (q_Items res))) in
              if (providersLeft <=? numItems)%Z || (size (q_LastEvaluatedKey res) =? 0)
              then Ret (w, inr found.2)
              else query_pages fuel d key startKey (wrap_i32 (providersLeft - numItems)) found w
          end
      end
  end.

Definition ddb_GetProviders (fuel : nat) (d : dynamoDBProviderStore) (ctx : Ctx) (key : list byte)
    (w : W) : outcome (W * result (list AddrInfo)) :=
  '(w, res) ← query_pages fuel d key ∅ (QueryLimit d) (∅, []) w;
  match res with
  | inl err => Ret (w, inl err)
  | inr providers =>
      let w := emit (Record_ (ctx_tags ctx) [(ProviderRecordsPerKey, Z.of_nat (length providers))]) w in
      let w := match providers with [] => w | _ => emit (recordPrefetches ctx "local" []) w end in
      Ret (w, inr providers)
  end.

Definition CountProviderRecords (d : dynamoDBProviderStore) (w : W) : W * result Z :=
  DescribeTable (TableName d) w.
End ddb.
