(* ===== verification/DynamoDBSpec.v ===== *)
(** * Theorems on the DynamoDB provider store (src/providers/ddb.go) *)
From Stdlib Require Import Strings.String.
From stdpp Require Import pretty.
From S2P Require Import Prelude GoStd Metrics Stores StoresSpec DynamoDB.
Open Scope nat_scope.

(** ** First occurrences *)

(** A list without its later duplicates, in order. *)
Definition firsts (l : list string) : list string := reverse (remove_dups (reverse l)).

Lemma firsts_snoc l p :
  firsts (l ++ [p]) = if decide (p ∈ l) then firsts l else firsts l ++ [p].
Proof.
  unfold firsts. rewrite reverse_app. cbn [app remove_dups]. rewrite reverse_singleton. cbn [app remove_dups].
  repeat case_decide; rewrite elem_of_reverse in *; try done. rewrite <-reverse_cons. done.
Qed.

Lemma elem_of_firsts l p : p ∈ firsts l <-> p ∈ l.
Proof. unfold firsts. by rewrite elem_of_reverse, elem_of_remove_dups, elem_of_reverse. Qed.

Lemma firsts_nil l : firsts l = [] -> l = [].
Proof.
  destruct l as [|p l]; [done|]. intros Hf. exfalso.
  by apply (not_elem_of_nil p); rewrite <-Hf, elem_of_firsts; left.
Qed.

Lemma NoDup_firsts l : NoDup (firsts l).
Proof. unfold firsts. rewrite reverse_Permutation. apply NoDup_remove_dups. Qed.

(** ** The documented behaviour of the API *)

(** A page has at most [Limit] items and, unless it is the last one, at least
    one; a limit below 1 is an error. *)
Class QueryLaws (W : Type) `{DDBClient W} : Prop := {
  Query_page : forall i w out, (1 <= q_Limit i)%Z -> (Query i w).2 = inr out ->
    (Z.of_nat (length (q_Items out)) <= q_Limit i)%Z /\
    (q_LastEvaluatedKey out = ∅ \/ q_Items out <> []);
  Query_limit : forall i w, (q_Limit i < 1)%Z -> exists e, (Query i w).2 = inl e;
}.

(** A conditional write fails on an item that exists, and only then with that
    error; a write that succeeds leaves an item; the peer store does not touch
    the table. *)
Class PutLaws (W : Type) `{PeerStore W} `{!DDBClient W} := {
  has_item : string -> list byte -> string -> W -> Prop;
  PutItem_exists : forall (d : dynamoDBProviderStore) key prov now w,
    has_item (TableName d) key (pretty (ttlEpoch d now)) w ->
    exists e, PutItem (putInput d key prov now) w = (w, Some e) /\
      isConditionalCheckFailed e = true;
  PutItem_conflict : forall (d : dynamoDBProviderStore) key prov now w w' e,
    PutItem (putInput d key prov now) w = (w', Some e) -> isConditionalCheckFailed e = true ->
    has_item (TableName d) key (pretty (ttlEpoch d now)) w';
  PutItem_done : forall (d : dynamoDBProviderStore) key prov now w w',
    PutItem (putInput d key prov now) w = (w', None) ->
    has_item (TableName d) key (pretty (ttlEpoch d now)) w';
  AddAddrs_table : forall t key s id addrs ttl w,
    has_item t key s (AddAddrs id addrs ttl w) <-> has_item t key s w;
}.

(** ** Reading items *)

Section items.
Context `{Libp2p} {W : Type} `{!PeerStore W}.

(** The provider of a well-formed record. *)
Definition item_prov (item : Item) : option string :=
  match item !! "prov"%string with
  | Some (MemberB value) => Some (string_of_list_byte value)
  | _ => None
  end.

(** What has been found after the records of [ps]. *)
Definition collect (w : W) (ps : list string) : gset string * list AddrInfo :=
  (list_to_set ps, (fun p => PeerInfo p w) <$> firsts ps).

Lemma read_items_ok items w ps :
  match mapM item_prov items with
  | Some qs => read_items items w (collect w ps) = inr (collect w (ps ++ qs))
  | None => exists e, read_items items w (collect w ps) = inl e
  end.
Proof.
  revert ps. induction items as [|item items IH]; intros ps; cbn; [by rewrite app_nil_r|].
  assert (item_prov item = match item !! "prov"%string with
    | Some (MemberB value) => Some (string_of_list_byte value) | _ => None end) as -> by done.
  destruct (item !! "prov"%string) as [[v|v|t]|]; simpl; [|by eexists..].
  assert ((if decide (string_of_list_byte v ∈@{gset string} list_to_set ps) then collect w ps
    else ({[string_of_list_byte v]} ∪ list_to_set ps,
          ((fun p => PeerInfo p w) <$> firsts ps) ++ [PeerInfo (string_of_list_byte v) w])) =
    collect w (ps ++ [string_of_list_byte v])) as Hstep.
  { unfold collect. rewrite firsts_snoc, list_to_set_app_L. cbn.
    destruct (decide (_ ∈ ps)) as [Hp|Hp].
    - rewrite decide_True by (by apply elem_of_list_to_set). f_equal. set_solver.
    - rewrite decide_False by (by rewrite elem_of_list_to_set). rewrite fmap_app.
      f_equal. set_solver. }
  specialize (IH (ps ++ [string_of_list_byte v])). unfold collect at 1 3 in IH. cbn in *.
  rewrite Hstep. destruct (mapM item_prov items) as [qs|]; cbn; [|done].
  rewrite <-app_assoc in IH. done.
Qed.
End items.

(** ** Paging *)

Section paging.
Context `{Libp2p} {W : Type} `{!DDBClient W, !PeerStore W} (emit : Recording -> W -> W).
Implicit Types (d : dynamoDBProviderStore).

Lemma query_pages_returns `{!QueryLaws W} fuel d key start left found w :
  (left < 2 ^ 31)%Z -> 0 < fuel -> Z.to_nat left <= fuel ->
  exists w' res, query_pages fuel d key start left found w = Ret (w', res).
Proof.
  revert start left found w. induction fuel as [|fuel IH]; intros start left found w Hl Hf0 Hf; [lia|].
  cbn [query_pages]. pose proof (Query_page (queryInput d key start left) w) as Hpage.
  pose proof (Query_limit (queryInput d key start left) w) as Hlimit.
  destruct (Query _ w) as [w' [err|out]]; [by eauto|]. cbn in Hpage, Hlimit.
  destruct (read_items _ _ _) as [err|found']; [by eauto|].
  destruct (decide (left < 1)%Z) as [Hl1|Hl1]; [by destruct (Hlimit Hl1)|].
  destruct (Hpage out) as [Hlen Hlast]; [lia|done|].
  autorewrite with wrap.
  destruct (Z.leb_spec left (Z.of_nat (length (q_Items out)))) as [Hle|Hgt]; [by eauto|].
  destruct Hlast as [->|Hne]; [rewrite map_size_empty; by eauto|]. cbn [orb].
  destruct (size _ =? 0); [by eauto|]. destruct (q_Items out) as [|it its]; [done|].
  autorewrite with wrap. apply IH; simpl in *; lia.
Qed.

(** The query asks for the records of [key] in the table [t]: its condition is that the
    attribute of the one placeholder is the value of the other. *)
Record asks_for (i : QueryInput) (t : string) (key : list byte) : Prop := {
  asks_table : q_TableName i = t;
  asks_condition : q_KeyConditionExpression i = "#k = :key"%string;
  asks_name : q_ExpressionAttributeNames i !! "#k"%string = Some "key"%string;
  asks_value : q_ExpressionAttributeValues i !! ":key"%string = Some (MemberB key);
}.

Lemma queryInput_asks d key start left : asks_for (queryInput d key start left) (TableName d) key.
Proof. by split. Qed.

(** The records of a key, given by ascending sort key, in the direction of a query. *)
Definition in_order (forward : bool) (records : list (Z * Item)) : list Item :=
  (if forward then records else reverse records).*2.

(** A table that nobody writes to during the call: the records of the key with their
    sort keys, which are their attribute ttl, and how many of them fit into a page
    in each direction. A query without a start key reads the first page, and yields
    a last key if there are records that it has not read, and none if there is none. *)
Record quiet_table (t : string) (key : list byte) (records : list (Z * Item))
    (page : bool -> nat) (w : W) : Prop := {
  quiet_sorted : StronglySorted Z.lt records.*1;
  quiet_ttl : Forall (fun r => r.2 !! "ttl"%string = Some (MemberN (pretty r.1))) records;
  quiet_page : forall forward, 0 < page forward;
  quiet_Query : forall i, asks_for i t key -> (1 <= q_Limit i)%Z -> q_ExclusiveStartKey i = ∅ ->
    let n := Nat.min (Z.to_nat (q_Limit i)) (page (q_ScanIndexForward i)) in
    exists last, Query i w =
      (w, inr (mkQueryOutput (take n (in_order (q_ScanIndexForward i) records)) last)) /\
      (n < length records -> last <> ∅) /\ (records = [] -> last = ∅);
}.

Lemma length_in_order forward records : length (in_order forward records) = length records.
Proof. unfold in_order. rewrite length_fmap. by destruct forward; rewrite ?length_reverse. Qed.

(** Reading records again finds nothing new. *)
Lemma firsts_again qs : forall ps, qs ⊆ ps -> firsts (ps ++ qs) = firsts ps.
Proof.
  induction qs as [|q qs IH]; intros ps Hs; [by rewrite app_nil_r|].
  rewrite cons_middle, app_assoc, IH, firsts_snoc by set_solver.
  by rewrite decide_True by set_solver.
Qed.

Lemma mapM_take_Some (items : list Item) ps : forall n k, n <= k ->
  mapM item_prov (take k items) = Some ps -> mapM item_prov (take n items) = Some (take n ps).
Proof.
  revert ps. induction items as [|x items IH]; intros ps [|n] [|k] Hle; simpl; try done; try lia;
    [by intros [= <-]|].
  destruct (item_prov x) as [p|]; [|done]. simpl.
  destruct (mapM item_prov (take k items)) as [ps'|] eqn:Hk; [|done]. simpl. intros [= <-].
  by rewrite (IH ps' n k) by (done || lia).
Qed.

(** The number of records that a round with [left] of the limit reads. *)
Abbreviation round page left := (Nat.min (Z.to_nat left) (page false)).

(** One round of the loop: it ends, or goes on from the first page with less left. *)
Lemma query_round fuel d key records (page : bool -> nat) w left ps :
  quiet_table (TableName d) key records page w -> (1 <= left < 2 ^ 31)%Z ->
  match mapM item_prov (take (round page left) (in_order false records)) with
  | None => exists e, query_pages (S fuel) d key ∅ left (collect w ps) w = Ret (w, inl e)
  | Some qs =>
      query_pages (S fuel) d key ∅ left (collect w ps) w =
        Ret (w, inr (collect w (ps ++ qs)).2) \/
      exists left', (1 <= left' < left)%Z /\ query_pages (S fuel) d key ∅ left (collect w ps) w =
        query_pages fuel d key ∅ left' (collect w (ps ++ qs)) w
  end.
Proof.
  intros HQ Hl. cbn [query_pages].
  destruct (quiet_Query _ _ _ _ _ HQ (queryInput d key ∅ left) (queryInput_asks _ _ _ _)) as (last & -> & _ & Hlast);
    [cbn; lia|done|]. cbn [q_Items q_LastEvaluatedKey queryInput q_Limit q_ScanIndexForward].
  set (items := take _ (in_order false records)).
  pose proof (read_items_ok items w ps) as Hread.
  destruct (mapM item_prov items) as [qs|]; [|by destruct Hread as [e ->]; exists e].
  rewrite Hread. assert (Z.of_nat (length items) <= left)%Z by (unfold items; rewrite length_take; lia).
  rewrite wrap_i32_small by lia.
  destruct (Z.leb_spec left (Z.of_nat (length items))) as [Hle|Hgt]; cbn [orb]; [by left|].
  destruct (Nat.eqb_spec (size last) 0) as [Hs|Hs]; [by left|]. right.
  assert (0 < length items).
  { unfold items. rewrite length_take, length_in_order. pose proof (quiet_page _ _ _ _ _ HQ false).
    destruct records as [|r records]; [|simpl; lia]. destruct Hs. by rewrite Hlast, map_size_empty. }
  exists (left - Z.of_nat (length items))%Z. rewrite wrap_i32_small by lia. split; [lia|done].
Qed.

(** Every later round reads records that are known. *)
Lemma query_pages_again fuel d key records (page : bool -> nat) w k ps : forall left,
  quiet_table (TableName d) key records page w -> (1 <= left < 2 ^ 31)%Z -> Z.to_nat left <= fuel ->
  round page left <= k -> mapM item_prov (take k (in_order false records)) = Some ps ->
  query_pages fuel d key ∅ left (collect w ps) w = Ret (w, inr ((fun p => PeerInfo p w) <$> firsts ps)).
Proof.
  induction fuel as [|fuel IH]; intros left HQ Hl Hf Hk Hps; [lia|].
  pose proof (query_round fuel d key records page w left ps HQ Hl) as Hr.
  rewrite (mapM_take_Some _ ps _ k Hk Hps) in Hr. set (qs := take _ ps) in Hr.
  assert (qs ⊆ ps) as Hqs by (intros p Hp; rewrite <-(take_drop (round page left) ps), elem_of_app; by left).
  assert (collect w (ps ++ qs) = collect w ps) as Hc
    by (unfold collect; rewrite firsts_again by done; f_equal; set_solver).
  rewrite Hc in Hr. destruct Hr as [->|(left' & Hl' & ->)]; [done|]. apply IH; [done|lia..|done].
Qed.

End paging.

(** ** Theorems *)

Section theorems.
Context `{Libp2p} {W : Type} `{!DDBClient W, !PeerStore W} (emit : Recording -> W -> W).
Implicit Types (d : dynamoDBProviderStore).

(** C31. The paging loop ends, whatever the pages hold and whoever writes to the
    table meanwhile: with a positive limit [GetProviders] returns after at most
    [QueryLimit] queries, the fuel that the loop gets, and else after one. *)
Theorem ddb_GetProviders_terminates `{!QueryLaws W} (fuel : nat) d (ctx : Ctx) (key : list byte) (w : W) :
  (QueryLimit d < 2 ^ 31)%Z -> fuel = Nat.max 1 (Z.to_nat (QueryLimit d)) ->
  exists w' res, ddb_GetProviders emit fuel d ctx key w = Ret (w', res).
Proof.
  intros Hlim Hfuel. unfold ddb_GetProviders.
  destruct (query_pages_returns fuel d key ∅ (QueryLimit d) (∅, []) w Hlim ltac:(lia) ltac:(lia))
    as (w' & [err|provs] & ->); cbn; by eauto.
Qed.

(** The records that [GetProviders] gets to see: those of the first page, up to the
    limit, latest first. *)
Definition records_read d (page : bool -> nat) (records : list (Z * Item)) : list Item :=
  take (Nat.min (Z.to_nat (QueryLimit d)) (page false)) (in_order false records).

Lemma query_pages_all (fuel : nat) d (key : list byte) records page (w : W) :
  quiet_table (TableName d) key records page w ->
  (1 <= QueryLimit d < 2 ^ 31)%Z -> Z.to_nat (QueryLimit d) <= fuel ->
  match mapM item_prov (records_read d page records) with
  | Some ps => query_pages fuel d key ∅ (QueryLimit d) (∅, []) w =
      Ret (w, inr ((fun p => PeerInfo p w) <$> firsts ps))
  | None => exists e, query_pages fuel d key ∅ (QueryLimit d) (∅, []) w = Ret (w, inl e)
  end.
Proof.
  intros HQ Hlim Hfuel. destruct fuel as [|fuel]; [lia|].
  pose proof (query_round fuel d key records page w _ [] HQ Hlim) as Hr.
  fold (records_read d page records) in Hr. change (collect w []) with (∅ : gset string, @nil AddrInfo) in Hr.
  destruct (mapM item_prov _) as [ps|] eqn:Hps; [|done]. cbn [app] in Hr.
  destruct Hr as [->|(left' & Hl & ->)]; [done|].
  apply (query_pages_again _ _ _ records page _ (Nat.min (Z.to_nat (QueryLimit d)) (page false))); [done|lia..|done].
Qed.

(** What [GetProviders] records when it has found the providers [ps]. *)
Definition local_found (ctx : Ctx) (ps : list ID) (w : W) : W :=
  let w1 := emit (Record_ (ctx_tags ctx)
              [(ProviderRecordsPerKey, Z.of_nat (length (firsts ps)))]) w in
  if decide (ps = []) then w1 else emit (recordPrefetches ctx "local" []) w1.

Lemma ddb_GetProviders_quiet (fuel : nat) d (ctx : Ctx) (key : list byte) records page (w : W) :
  quiet_table (TableName d) key records page w ->
  (1 <= QueryLimit d < 2 ^ 31)%Z -> Z.to_nat (QueryLimit d) <= fuel ->
  match mapM item_prov (records_read d page records) with
  | Some ps => ddb_GetProviders emit fuel d ctx key w =
      Ret (local_found ctx ps w, inr ((fun p => PeerInfo p w) <$> firsts ps))
  | None => exists e, ddb_GetProviders emit fuel d ctx key w = Ret (w, inl e)
  end.
Proof.
  intros HQ Hlim Hfuel. pose proof (query_pages_all fuel d key records page w HQ Hlim Hfuel) as Hr.
  unfold ddb_GetProviders. destruct (mapM _ _) as [ps|]; [|by destruct Hr as [e ->]; exists e].
  rewrite Hr. cbn. rewrite length_fmap. unfold local_found.
  destruct (decide (ps = [])) as [->|Hne]; [done|].
  destruct (firsts ps) as [|q qs] eqn:Hq; [|done]. by apply firsts_nil in Hq.
Qed.

(** C3. On a table that nobody writes to meanwhile, [GetProviders] returns the
    providers of the records that expire last, in that order, each once, as the peer
    store knows them, and records their number; but only of the records of the first
    page, up to the limit: the next rounds of the loop read that page again, and
    records beyond it are never returned. If one of the records read has no
    well-formed provider, it returns an error and no provider. *)
Theorem ddb_GetProviders_first_page (fuel : nat) d (ctx : Ctx) (key : list byte)
    (records : list (Z * Item)) (page : bool -> nat) (w : W) :
  quiet_table (TableName d) key records page w ->
  (1 <= QueryLimit d < 2 ^ 31)%Z -> Z.to_nat (QueryLimit d) <= fuel ->
  match mapM item_prov (take (Nat.min (Z.to_nat (QueryLimit d)) (page false)) (reverse records).*2) with
  | Some ps => ddb_GetProviders emit fuel d ctx key w =
      Ret (local_found ctx ps w, inr ((fun p => PeerInfo p w) <$> firsts ps))
  | None => exists e, ddb_GetProviders emit fuel d ctx key w = Ret (w, inl e)
  end.
Proof. apply ddb_GetProviders_quiet. Qed.

(** A second provider of a key is lost when it comes within the same second
    of expiry time: the first call has left a record, the condition of the
    second write fails, the error is dropped, and all the second call does is
    remember the provider's addresses. *)
Theorem ddb_same_second_lost `{!PutLaws W} d (key : list byte) (p1 p2 : AddrInfo)
    (now1 now2 : Z) (w w1 : W) :
  ddb_AddProvider d key p1 now1 w = (w1, None) ->
  ttlEpoch d now1 = ttlEpoch d now2 ->
  ddb_AddProvider d key p2 now2 w1 =
    (if decide (ai_ID p2 = Self d) then w1
     else AddAddrs (ai_ID p2) (ai_Addrs p2) AddressTTL w1, None).
Proof.
  intros H1 Ht. assert (has_item (TableName d) key (pretty (ttlEpoch d now2)) w1) as Hhas.
  { rewrite <-Ht. revert H1. unfold ddb_AddProvider.
    generalize (if decide (ai_ID p1 <> Self d)
      then AddAddrs (ai_ID p1) (ai_Addrs p1) AddressTTL w else w). intros w0.
    destruct (PutItem _ w0) as [w0' [e|]] eqn:HP; [|intros [= <-]; by eapply PutItem_done].
    destruct (isConditionalCheckFailed e) eqn:He; [|done].
    intros [= <-]. by eapply PutItem_conflict. }
  unfold ddb_AddProvider.
  destruct (decide (ai_ID p2 = Self d)) as [Hs|Hs];
    [rewrite decide_False by auto|rewrite decide_True by done].
  - destruct (PutItem_exists d key (ai_ID p2) now2 w1 Hhas) as (e & -> & ->). done.
  - destruct (PutItem_exists d key (ai_ID p2) now2
      (AddAddrs (ai_ID p2) (ai_Addrs p2) AddressTTL w1)) as (e & -> & ->); [|done].
    by apply AddAddrs_table.
Qed.
End theorems.

(** ** Rows

    What the program writes under a key: its providers by the second of expiry. *)

Definition row_item (key : list byte) (r : Z * ID) : Item :=
  {["key"%string := MemberB key; "prov"%string := MemberB (list_byte_of_string r.2);
    "ttl"%string := MemberN (pretty r.1)]}.
Definition row_record (key : list byte) (r : Z * ID) : Z * Item := (r.1, row_item key r).

Lemma item_prov_row key r : item_prov (row_item key r) = Some r.2.
Proof. unfold item_prov, row_item. simpl_map. by rewrite string_of_list_byte_of_string. Qed.

Lemma mapM_item_prov_rows key (rs : list (Z * ID)) : mapM item_prov (row_item key <$> rs) = Some rs.*2.
Proof.
  induction rs as [|r rs IH]; [done|]. cbn [fmap list_fmap mapM]. rewrite item_prov_row.
  cbn [mbind option_bind]. by rewrite IH.
Qed.

Definition expires_before (r1 r2 : Z * ID) : Prop := (r1.1 <= r2.1)%Z.
#[local] Instance expires_before_dec : RelDecision expires_before.
Proof. intros r1 r2. apply Z_le_dec. Defined.
#[local] Instance expires_before_total : Total expires_before.
Proof. intros r1 r2. unfold expires_before. lia. Qed.
#[local] Instance expires_before_trans : Transitive expires_before.
Proof. intros r1 r2 r3. unfold expires_before. lia. Qed.

(** The rows of a key by ascending expiry. *)
Definition sorted_rows (m : gmap Z ID) : list (Z * ID) := merge_sort expires_before (map_to_list m).

(** The providers of the rows that expire last, in that order. *)
Definition latest_first (m : gmap Z ID) : list ID := (reverse (sorted_rows m)).*2.

Lemma sorted_rows_perm m : sorted_rows m ≡ₚ map_to_list m.
Proof. apply merge_sort_Permutation. Qed.

Lemma sorted_rows_empty : sorted_rows ∅ = [].
Proof. done. Qed.

Lemma sorted_rows_sorted m : StronglySorted Z.lt (sorted_rows m).*1.
Proof.
  assert (NoDup (sorted_rows m).*1) as Hnd
    by (rewrite sorted_rows_perm; apply NoDup_fst_map_to_list).
  pose proof (StronglySorted_merge_sort expires_before (map_to_list m)) as Hs. fold (sorted_rows m) in Hs.
  induction (sorted_rows m) as [|r rs IH]; [constructor|]. rewrite fmap_cons in Hnd |- *.
  apply NoDup_cons in Hnd as [Hr Hnd]. apply StronglySorted_inv in Hs as [Hs Hall].
  constructor; [by apply IH|]. rewrite Forall_fmap. rewrite Forall_forall in Hall |- *. intros r' Hin.
  cbn. specialize (Hall r' Hin). unfold expires_before in Hall. assert (r.1 <> r'.1); [|lia].
  intros Heq. apply Hr. rewrite Heq. by apply list_elem_of_fmap_2.
Qed.

Lemma elem_of_latest_first m p : p ∈ latest_first m <-> exists t, m !! t = Some p.
Proof.
  unfold latest_first. rewrite list_elem_of_fmap. split.
  - intros ([t p'] & -> & Hin). exists t. by rewrite elem_of_reverse, sorted_rows_perm, elem_of_map_to_list in Hin.
  - intros [t Ht]. exists (t, p). by rewrite elem_of_reverse, sorted_rows_perm, elem_of_map_to_list.
Qed.

(** The records of these rows in a query of this program. *)
Lemma in_order_rows key (rs : list (Z * ID)) forward :
  in_order forward (row_record key <$> rs) = row_item key <$> (if forward then rs else reverse rs).
Proof.
  unfold in_order. destruct forward; [|rewrite <-(fmap_reverse (row_record key))]; by rewrite <-list_fmap_compose.
Qed.

(** The expiry fits a 64-bit integer, so that it can be read back. *)
Lemma ttlEpoch_range d now : (- 2 ^ 63 <= ttlEpoch d now < 2 ^ 63)%Z.
Proof.
  unfold ttlEpoch, wrap_i64. pose proof (wrap_signed_range 64 (now + TTL d) eq_refl) as Hr. revert Hr.
  generalize (wrap_signed 64 (now + TTL d)). intros x Hx. change (64 - 1)%Z with 63%Z in Hx.
  pose proof (Z.quot_rem' x 1000000000). pose proof (Z.rem_bound_abs x 1000000000 ltac:(lia)).
  pose proof (Z.quot_abs x 1000000000 ltac:(lia)). lia.
Qed.

(** ** A concrete table

    The world is the rows of every key, and a page holds one record. *)

Abbreviation row_world := (gmap (list byte) (gmap Z ID)).
Definition rows_of (key : list byte) (w : row_world) : gmap Z ID := default ∅ (w !! key).
Definition records_of (w : row_world) (key : list byte) : list (Z * Item) :=
  row_record key <$> sorted_rows (rows_of key w).

Definition sample_position (start : Item) : nat :=
  match start !! "pos"%string with Some (MemberB l) => length l | _ => 0 end.

Definition sample_last (pos total : nat) : Item :=
  if decide (total <= pos) then ∅ else {["pos"%string := MemberB (replicate pos Byte.x00)]}.

(** The page of one record that starts at a position. *)
Definition one_page (items : list Item) (start : Item) : QueryOutput :=
  let pos := sample_position start in
  let n := Nat.min (length items - pos) 1 in
  mkQueryOutput (take n (drop pos items)) (sample_last (pos + n) (length items)).

(** The key that a query asks for. *)
Definition key_of (i : QueryInput) : option AttributeValue :=
  if decide (q_KeyConditionExpression i = "#k = :key"%string /\
    q_ExpressionAttributeNames i !! "#k"%string = Some "key"%string)
  then q_ExpressionAttributeValues i !! ":key"%string else None.

(** The answer of a table to a query, given the records of each key. *)
Definition page_Query (records : list byte -> list (Z * Item)) (i : QueryInput) : result QueryOutput :=
  if (q_Limit i <? 1)%Z then inl (ErrorMsg "ValidationException") else
  match key_of i with
  | Some (MemberB key) =>
      inr (one_page (in_order (q_ScanIndexForward i) (records key)) (q_ExclusiveStartKey i))
  | _ => inl (ErrorMsg "ValidationException")
  end.

Definition row_PutItem (i : PutItemInput) (w : row_world) : row_world * option goerror :=
  match p_Item i !! "key"%string, p_Item i !! "ttl"%string, p_Item i !! "prov"%string with
  | Some (MemberB key), Some (MemberN ttl), Some (MemberB prov) =>
      match ParseInt ttl 64 with
      | inl _ => (w, Some (ErrorMsg "ValidationException"))
      | inr n =>
          match rows_of key w !! n with
          | Some _ => (w, Some (ErrorMsg "ConditionalCheckFailedException"))
          | None => (<[key := <[n := string_of_list_byte prov]> (rows_of key w)]> w, None)
          end
      end
  | _, _, _ => (w, Some (ErrorMsg "ValidationException"))
  end.

#[export] Instance row_ddb : DDBClient row_world := {|
  Query i w := (w, page_Query (records_of w) i);
  PutItem := row_PutItem;
  DescribeTable _ w := (w, inr (Z.of_nat (map_fold (fun _ m n => size m + n) 0 w)));
  isConditionalCheckFailed e :=
    match e with ErrorMsg "ConditionalCheckFailedException" => true | _ => false end
|}.

Definition row_peers : @PeerStore row_world sample_libp2p := {|
  PeerInfo id w := sample_ai id [];
  AddAddrs id addrs ttl w := w;
  AddressTTL := 3600000000000
|}.

Lemma rows_of_insert (key : list byte) (m : gmap Z ID) (w : row_world) : rows_of key (<[key := m]> w) = m.
Proof. unfold rows_of. by rewrite lookup_insert_eq. Qed.

(** Writing a row of a time in range. *)
Lemma row_PutItem_row i key (r : Z * ID) w :
  p_Item i = row_item key r -> (- 2 ^ 63 <= r.1 < 2 ^ 63)%Z ->
  row_PutItem i w =
    match rows_of key w !! r.1 with
    | Some _ => (w, Some (ErrorMsg "ConditionalCheckFailedException"))
    | None => (<[key := <[r.1 := r.2]> (rows_of key w)]> w, None)
    end.
Proof.
  intros Hi Hr. unfold row_PutItem. rewrite Hi. unfold row_item. simpl_map.
  by rewrite ParseInt_pretty, string_of_list_byte_of_string by (done || lia).
Qed.

Lemma page_Query_laws records i :
  ((1 <= q_Limit i)%Z -> forall out, page_Query records i = inr out ->
    (Z.of_nat (length (q_Items out)) <= q_Limit i)%Z /\
    (q_LastEvaluatedKey out = ∅ \/ q_Items out <> [])) /\
  ((q_Limit i < 1)%Z -> exists e, page_Query records i = inl e).
Proof.
  unfold page_Query. split; intros Hl.
  - intros out. rewrite (proj2 (Z.ltb_ge _ _)) by lia.
    destruct (key_of i) as [[key| |]|]; try done. intros [= <-]. unfold one_page. cbn [q_Items q_LastEvaluatedKey].
    generalize (in_order (q_ScanIndexForward i) (records key)) (sample_position (q_ExclusiveStartKey i)).
    intros recs pos. rewrite length_take, length_drop. split; [lia|]. unfold sample_last.
    destruct (decide _) as [?|Hne]; [by left|right]. intros Hnil.
    apply (f_equal length) in Hnil. rewrite length_take, length_drop in Hnil.
    simpl length in Hnil. lia.
  - rewrite (proj2 (Z.ltb_lt _ _)) by lia. by eexists.
Qed.

Lemma row_query_laws : @QueryLaws row_world row_ddb.
Proof. split; intros; cbn in *; by apply (page_Query_laws (records_of w)). Qed.

(** Pages of one record of a key. *)
Lemma page_Query_quiet {W} `{DDBClient W} t (key : list byte) (records : list byte -> list (Z * Item)) (w : W) :
  StronglySorted Z.lt (records key).*1 ->
  Forall (fun r => r.2 !! "ttl"%string = Some (MemberN (pretty r.1))) (records key) ->
  (forall i, q_TableName i = t -> Query i w = (w, page_Query records i)) ->
  quiet_table t key (records key) (fun _ => 1) w.
Proof.
  intros Hs Ht HQ. split; [done|done|lia|]. intros i [Htab Hc Hn Hv] Hl Hstart n.
  rewrite HQ by done. unfold page_Query, key_of. rewrite (proj2 (Z.ltb_ge _ _)) by lia.
  rewrite decide_True by done. rewrite Hv. unfold one_page. rewrite Hstart.
  change (sample_position ∅) with 0. cbn [drop]. rewrite Nat.sub_0_r, length_in_order.
  replace n with 1 by (unfold n; lia). eexists. split; [|split].
  - rewrite drop_0. assert (take (length (records key) `min` 1) (in_order (q_ScanIndexForward i) (records key)) =
      take 1 (in_order (q_ScanIndexForward i) (records key))) as ->; [|done].
    rewrite <-(length_in_order (q_ScanIndexForward i)). by destruct (in_order _ _) as [|? [|??]].
  - intros Hlen. unfold sample_last. rewrite decide_False by lia. apply insert_non_empty.
  - intros ->. done.
Qed.

Lemma row_quiet t key w : quiet_table t key (records_of w key) (fun _ => 1) w.
Proof.
  apply (page_Query_quiet t key (records_of w)); [..|done]; unfold records_of.
  - rewrite <-list_fmap_compose. apply sorted_rows_sorted.
  - apply Forall_fmap, Forall_forall. intros r _. cbn. unfold row_item. by simpl_map.
Qed.

Definition row_put_laws : @PutLaws row_world sample_libp2p row_peers row_ddb.
Proof.
  refine (@Build_PutLaws row_world sample_libp2p row_peers row_ddb
    (fun _ key ttl w => exists n, pretty n = ttl /\ is_Some (rows_of key w !! n)) _ _ _ _); [..|done];
    intros d key prov now w;
    pose proof (row_PutItem_row (putInput d key prov now) key (ttlEpoch d now, prov) w eq_refl
      (ttlEpoch_range d now)) as Hput; cbn [fst snd] in Hput.
  - intros (n & Hn & x & Hx). apply pretty_Z_inj in Hn as ->. cbn [PutItem row_ddb]. rewrite Hput, Hx. by eexists.
  - intros w' e HP _. cbn [PutItem row_ddb] in HP. rewrite Hput in HP.
    destruct (rows_of key w !! ttlEpoch d now) eqn:Hx; [|done]. injection HP as <- _.
    exists (ttlEpoch d now). split; [done|]. rewrite Hx. by eexists.
  - intros w' HP. cbn [PutItem row_ddb] in HP. rewrite Hput in HP.
    destruct (rows_of key w !! ttlEpoch d now) eqn:Hx; [done|]. injection HP as <-.
    exists (ttlEpoch d now). split; [done|]. rewrite rows_of_insert, lookup_insert_eq. by eexists.
Defined.

(** A store with an expiry of an hour and a query limit of 2, and a table with
    three records of a key. *)
Definition sample_store : dynamoDBProviderStore :=
  NewDynamoDBProviderStore "self" "table" 3600000000000 2.

Definition sample_world : row_world :=
  {[ [Byte.x01] := {[7%Z := "p"%string; 30%Z := "q"%string; 9%Z := "r"%string]} ]}.

Lemma ddb_GetProviders_terminates_witness :
  exists w' res, @ddb_GetProviders sample_libp2p _ row_ddb row_peers (fun _ w => w) 2
    sample_store sample_ctx [Byte.x01] sample_world = Ret (w', res).
Proof.
  apply (@ddb_GetProviders_terminates sample_libp2p _ row_ddb row_peers (fun _ w => w)
    row_query_laws 2 sample_store sample_ctx [Byte.x01] sample_world).
  - vm_compute. reflexivity.
  - vm_compute. reflexivity.
Defined.

(** The limit is 2, but the second round reads the page of the first one again. *)
Lemma ddb_GetProviders_first_page_witness :
  exists w', @ddb_GetProviders sample_libp2p _ row_ddb row_peers (fun _ w => w) 2
    sample_store sample_ctx [Byte.x01] sample_world = Ret (w', inr [sample_ai "q" []]).
Proof.
  eexists. exact (@ddb_GetProviders_first_page sample_libp2p _ row_ddb row_peers (fun _ w => w) 2
    sample_store sample_ctx [Byte.x01] (records_of sample_world [Byte.x01]) (fun _ => 1)
    sample_world (row_quiet _ _ _) ltac:(vm_compute; split; [discriminate|reflexivity])
    ltac:(vm_compute; lia)).
Defined.

(** Two providers 0.9 seconds apart. *)
Lemma ddb_same_second_lost_witness :
  let w1 := (@ddb_AddProvider sample_libp2p _ row_ddb row_peers sample_store [Byte.x01]
    (sample_ai "p" []) 0 ∅).1 in
  @ddb_AddProvider sample_libp2p _ row_ddb row_peers sample_store [Byte.x01]
    (sample_ai "q" []) 900000000 w1 = (w1, None).
Proof.
  apply (@ddb_same_second_lost sample_libp2p _ row_ddb row_peers row_put_laws sample_store
    [Byte.x01] (sample_ai "p" []) (sample_ai "q" []) 0 900000000 ∅).
  - vm_compute. reflexivity.
  - vm_compute. reflexivity.
Defined.
