(* ===== verification/Finder.v ===== *)
(** * The asynchronous providers finder (src/providers/finder.go)

    The finder's state with its bounded work queue, the set of pending keys and
    the negative cache; [Find], which its callers run under the lock of the
    pending keys; and the goroutines that [Run] starts, as a step function on
    events: a worker takes a request, receives a provider, sees the end of the
    lookup, releases the key; the metrics are published. Each event is a
    stretch of code that holds at most one lock. The world [V] is what the
    callbacks of the requests act on.

    The work queue is a buffered channel: the model covers queue sizes from 1
    on. *)
From S2P Require Import Prelude Metrics Stores.

(** ** The time cache

    [timecache.TimeCache] of the package whyrusleeping/timecache. *)
Class TimeCache (T : Type) := {
  NewTimeCache : Z -> T;
  tc_Has : string -> T -> bool;
  tc_Add : Z -> string -> T -> outcome T; (* the time, the element *)
  tc_Len : T -> nat;
}.

(** Adding an element twice panics; an element is in the cache right after it
    is added; adding one never makes another one appear. *)
Class TimeCacheLaws (T : Type) `{TimeCache T} : Prop := {
  NewTimeCache_Has : forall ttl s, tc_Has s (NewTimeCache ttl) = false;
  tc_Add_absent : forall now s c, tc_Has s c = false ->
    exists c', tc_Add now s c = Ret c' /\ tc_Has s c' = true /\
      forall s', s' <> s -> tc_Has s' c' = true -> tc_Has s' c = true;
  tc_Add_present : forall now s c, tc_Has s c = true -> tc_Add now s c = Panic;
}.

(** [Duration.Seconds], truncated. *)
Definition Seconds (d : Z) : Z := (d `quot` 1000000000)%Z.

Section finder.
Context `{Libp2p} {R T V : Type} `{TimeCache T}.

(** [idempotentTimeCache.Add] and its other methods. *)
Definition cache_Add (now : Z) (s : string) (c : T) : outcome T :=
  if negb (tc_Has s c) then tc_Add now s c else Ret c.
Definition cache_Len (c : T) : nat := tc_Len c.
Definition cache_Has (s : string) (c : T) : bool := tc_Has s c.

Record findRequest := mkRequest {
  fr_ctx : Ctx;
  fr_router : option R;
  fr_key : string;
  fr_onProvider : onProviderFunc;
}.

Record asyncProvidersFinder := mkAsync {
  workQueueSize : nat;
  workQueue : list findRequest;
  pending : gmap string bool;
  negativeCacheTTL : Z;
  negativeCache : T;
}.

(** [make] of a channel panics on a negative size. *)
Definition NewAsyncProvidersFinder (queueSize : Z) (ttl : Z) : outcome asyncProvidersFinder :=
  if (queueSize <? 0)%Z then Panic
  else Ret (mkAsync (Z.to_nat queueSize) [] ∅ ttl (NewTimeCache ttl)).

Definition set_pending (a : asyncProvidersFinder) p : asyncProvidersFinder :=
  mkAsync (workQueueSize a) (workQueue a) p (negativeCacheTTL a) (negativeCache a).
Definition set_workQueue (a : asyncProvidersFinder) q : asyncProvidersFinder :=
  mkAsync (workQueueSize a) q (pending a) (negativeCacheTTL a) (negativeCache a).
Definition set_negativeCache (a : asyncProvidersFinder) c : asyncProvidersFinder :=
  mkAsync (workQueueSize a) (workQueue a) (pending a) (negativeCacheTTL a) c.

(** [Find]: the new state and what is recorded; the error is always nil. *)
Definition finder_Find (a : asyncProvidersFinder) (ctx : Ctx) (router : option R) (key : string)
    (onProvider : onProviderFunc) : asyncProvidersFinder * list Recording :=
  if default false (pending a !! key) then (a, [])
  else if cache_Has key (negativeCache a) then (a, [recordPrefetches ctx "failed-cached" []])
  else if length (workQueue a) <? workQueueSize a then
    let a := set_workQueue a (workQueue a ++ [mkRequest ctx router key onProvider]) in
    (set_pending a (<[key := true]> (pending a)), [])
  else (a, [recordPrefetches ctx "discarded" []]).

(** ** The goroutines *)

(** Where a worker is: waiting in its [select]; in the loop of [handleRequest],
    with [foundProviders] and [startTime]; in the deferred function; returned,
    because the context of [Run] is done. *)
Inductive worker : Type :=
| Idle
| Working (req : findRequest) (foundProviders : bool) (startTime : Z)
| Releasing (req : findRequest)
| Stopped.

Record State := mkState {
  st_finder : asyncProvidersFinder;
  st_workers : list worker;
  st_world : V;
  st_log : list Recording;
}.

Inductive event : Type :=
| EvFind (ctx : Ctx) (router : option R) (key : string) (onProvider : onProviderFunc)
| EvTake (i : nat) (now : Z)
| EvProvider (i : nat) (ai : AddrInfo)
| EvClosed (i : nat) (now : Z)
| EvRelease (i : nat)
| EvStop (i : nat)
| EvPublish.

(** What a request's callback does to the world. *)
Context (call : onProviderFunc -> AddrInfo -> V -> V).
(** The context of [Run]. *)
Context (run_ctx : Ctx).

(** [tag.NewContext(ctx, tag.FromContext(req.ctx))] *)
Definition work_ctx (req : findRequest) : Ctx := mkCtx (ctx_tags (fr_ctx req)) (ctx_scope run_ctx).

Definition set_worker (s : State) (i : nat) (wk : worker) : State :=
  mkState (st_finder s) (<[i := wk]> (st_workers s)) (st_world s) (st_log s).
Definition set_finder (s : State) (a : asyncProvidersFinder) : State :=
  mkState a (st_workers s) (st_world s) (st_log s).
Definition set_world (s : State) (v : V) : State :=
  mkState (st_finder s) (st_workers s) v (st_log s).
Definition log (s : State) (rs : list Recording) : State :=
  mkState (st_finder s) (st_workers s) (st_world s) (st_log s ++ rs).

(** The measurements of the ticker goroutine. *)
Definition publish (a : asyncProvidersFinder) : list Recording :=
  [Record_ (ctx_tags run_ctx) [(PrefetchesPending, Z.of_nat (size (pending a)))];
   Record_ (ctx_tags run_ctx) [(PrefetchNegativeCacheSize, Z.of_nat (cache_Len (negativeCache a)))];
   Record_ (ctx_tags run_ctx) [(PrefetchNegativeCacheTTLSeconds, Seconds (negativeCacheTTL a))];
   Record_ (ctx_tags run_ctx) [(PrefetchesPendingLimit, Z.of_nat (workQueueSize a))]].

(** The end of the loop of [handleRequest]. *)
Definition finish_lookup (s : State) (i : nat) (req : findRequest) (foundProviders : bool)
    (startTime now : Z) : outcome State :=
  let findTime := (now - startTime)%Z in
  let took := [(PrefetchDuration, Milliseconds findTime)] in
  if negb foundProviders then
    c ← cache_Add now (fr_key req) (negativeCache (st_finder s));
    let s := set_finder s (set_negativeCache (st_finder s) c) in
    Ret (log (set_worker s i (Releasing req)) [recordPrefetches (work_ctx req) "failed" took])
  else
    Ret (log (set_worker s i (Releasing req)) [recordPrefetches (work_ctx req) "succeeded" took]).

(** One step; [None] when the event cannot happen in the state. A worker that
    takes a request calls its router at once: a nil router panics. *)
Definition fstep (s : State) (e : event) : outcome (option State) :=
  match e with
  | EvFind ctx router key onProvider =>
      let '(a, rs) := finder_Find (st_finder s) ctx router key onProvider in
      Ret (Some (log (set_finder s a) rs))
  | EvTake i now =>
      match st_workers s !! i, workQueue (st_finder s) with
      | Some Idle, req :: q =>
          match fr_router req with
          | None => Panic
          | Some _ =>
              Ret (Some (set_worker (set_finder s (set_workQueue (st_finder s) q)) i
                (Working req false now)))
          end
      | _, _ => Ret None
      end
  | EvProvider i ai =>
      match st_workers s !! i with
      | Some (Working req _ start) =>
          let s := set_world s (call (fr_onProvider req) ai (st_world s)) in
          Ret (Some (set_worker s i (Working req true start)))
      | _ => Ret None
      end
  | EvClosed i now =>
      match st_workers s !! i with
      | Some (Working req foundProviders start) =>
          s ← finish_lookup s i req foundProviders start now; Ret (Some s)
      | _ => Ret None
      end
  | EvRelease i =>
      match st_workers s !! i with
      | Some (Releasing req) =>
          let a := st_finder s in
          let s := set_finder s (set_pending a (delete (fr_key req) (pending a))) in
          Ret (Some (set_worker s i Idle))
      | _ => Ret None
      end
  | EvStop i =>
      match st_workers s !! i with
      | Some Idle => Ret (Some (set_worker s i Stopped))
      | _ => Ret None
      end
  | EvPublish => Ret (Some (log s (publish (st_finder s))))
  end.

(** [Run] on a new finder: the workers wait. *)
Definition Run (a : asyncProvidersFinder) (numWorkers : nat) (v : V) : State :=
  mkState a (replicate numWorkers Idle) v [].

(** A sequence of events; [None] when one of them cannot happen. *)
Fixpoint fsteps (s : State) (es : list event) : outcome (option State) :=
  match es with
  | [] => Ret (Some s)
  | e :: es =>
      s' ← fstep s e;
      match s' with
      | Some s' => fsteps s' es
      | None => Ret None
      end
  end.
End finder.
Arguments findRequest R : clear implicits.
Arguments asyncProvidersFinder R T : clear implicits.
Arguments worker R : clear implicits.
Arguments State R T V : clear implicits.
Arguments event {_} R.
