(* ===== verification/FinderSpec.v ===== *)
(** * Theorems on the finder (src/providers/finder.go) *)
From Stdlib Require Import Strings.String.
From S2P Require Import Prelude Metrics Stores StoresSpec Finder.
Open Scope nat_scope.

Section finder.
Context `{Libp2p} {R T V : Type} `{TimeCacheLaws T}.
Context (call : onProviderFunc -> AddrInfo -> V -> V) (run_ctx : Ctx).
Implicit Types (s : State R T V) (a : asyncProvidersFinder R T).

Abbreviation step := (fstep call run_ctx).
Abbreviation steps := (fsteps call run_ctx).

(** ** The invariant *)

Definition active (wk : worker R) : list string :=
  match wk with
  | Working req _ _ | Releasing req => [fr_key req]
  | Idle | Stopped => []
  end.

(** The keys of all requests: queued, and held by a worker. *)
Definition held s : list string :=
  (fr_key <$> workQueue (st_finder s)) ++ (st_workers s ≫= active).

(** The queue keeps to its bound; no key has two requests; the pending keys are
    exactly the keys of the requests; and no queued request has a nil router. *)
Record inv s : Prop := {
  inv_queue : length (workQueue (st_finder s)) <= workQueueSize (st_finder s);
  inv_unique : NoDup (held s);
  inv_pending : forall k,
    pending (st_finder s) !! k = if decide (k ∈ held s) then Some true else None;
  inv_router : Forall (fun req => is_Some (fr_router req)) (workQueue (st_finder s));
}.

(** Callers pass a router. *)
Definition routed (e : event R) : Prop :=
  match e with EvFind _ router _ _ => is_Some router | _ => True end.

Lemma inv_run (n : nat) a v :
  workQueue a = [] -> pending a = ∅ -> inv (Run a n v).
Proof.
  intros Hq Hp. assert (held (Run a n v) = []) as Hh.
  { unfold held. cbn. rewrite Hq. cbn. induction n; [done|]. done. }
  split; cbn; rewrite ?Hh, ?Hq; [simpl; lia|constructor| |constructor].
  intros k. rewrite Hp, lookup_empty, decide_False; [done|]. by apply not_elem_of_nil.
Qed.

(** A step that only reorders the requests. *)
Lemma inv_reorder s s' :
  inv s -> held s' ≡ₚ held s -> pending (st_finder s') = pending (st_finder s) ->
  length (workQueue (st_finder s')) <= workQueueSize (st_finder s') ->
  workQueue (st_finder s') `suffix_of` workQueue (st_finder s) -> inv s'.
Proof.
  intros [_ Hu Hp Hr] Hh Hpe Hq [l Hl]. rewrite Hl in Hr. apply Forall_app in Hr as [_ Hr].
  split; [done|by rewrite Hh| |done].
  intros k. rewrite Hpe, Hp. by repeat case_decide; try done; rewrite Hh in *.
Qed.

Lemma held_worker s i wk wk' a :
  st_workers s !! i = Some wk -> exists rest,
  held s ≡ₚ (fr_key <$> workQueue (st_finder s)) ++ active wk ++ rest /\
  held (set_worker (set_finder s a) i wk') ≡ₚ (fr_key <$> workQueue a) ++ active wk' ++ rest.
Proof.
  intros Hi. destruct (bind_insert_perm active _ _ _ Hi) as (rest & Hr & Hr').
  exists rest. unfold held. cbn. by rewrite Hr, Hr'.
Qed.

Lemma cache_Add_ok now k c :
  exists c', cache_Add now k c = Ret c' /\ tc_Has k c' = true.
Proof.
  unfold cache_Add. destruct (tc_Has k c) eqn:Hk; cbn; [by eauto|].
  destruct (tc_Add_absent now k c Hk) as (c' & ? & ? & _). by eauto.
Qed.
(** ** Preservation *)

Lemma not_pending s k :
  inv s -> default false (pending (st_finder s) !! k) = false -> k ∉ held s.
Proof. intros Hinv. rewrite (inv_pending _ Hinv). by case_decide. Qed.

Lemma inv_log s rs : inv s -> inv (log s rs).
Proof. intros [? ? ? ?]. by split. Qed.

Lemma inv_Find s ctx router key cb :
  inv s -> is_Some router -> inv (set_finder s (finder_Find (st_finder s) ctx router key cb).1).
Proof.
  intros Hinv Hrt. unfold finder_Find.
  destruct (default false _) eqn:Hp; [by destruct Hinv; split|].
  destruct (cache_Has _ _); [by destruct Hinv; split|].
  destruct (Nat.ltb_spec (length (workQueue (st_finder s))) (workQueueSize (st_finder s)));
    [|by destruct Hinv; split].
  pose proof (not_pending _ _ Hinv Hp) as Hk. cbn.
  assert (held (set_finder s (set_pending (set_workQueue (st_finder s)
    (workQueue (st_finder s) ++ [mkRequest ctx router key cb]))
    (<[key := true]> (pending (st_finder s))))) ≡ₚ key :: held s) as Hh.
  { unfold held. cbn. rewrite fmap_app, <-app_assoc. cbn. by rewrite Permutation_middle. }
  split; cbn.
  - rewrite length_app. simpl. lia.
  - rewrite Hh. by apply NoDup_cons, conj, Hinv.
  - intros k. destruct (decide (key = k)) as [<-|Hne].
    + rewrite lookup_insert_eq, decide_True; [done|]. rewrite Hh. by left.
    + rewrite lookup_insert_ne, (inv_pending _ Hinv) by done.
      repeat case_decide; try done; exfalso; set_solver.
  - apply Forall_app. split; [apply Hinv|]. by constructor.
Qed.

Lemma inv_release s i req :
  inv s -> st_workers s !! i = Some (Releasing req) ->
  inv (set_worker (set_finder s (set_pending (st_finder s)
    (delete (fr_key req) (pending (st_finder s))))) i Idle).
Proof.
  intros Hinv Hi.
  destruct (held_worker s i _ Idle (set_pending (st_finder s)
    (delete (fr_key req) (pending (st_finder s)))) Hi) as (rest & Hh & Hh').
  match goal with |- inv ?t => set (s' := t) in * end.
  assert (held s ≡ₚ fr_key req :: held s') as Hs.
  { rewrite Hh, Hh'. cbn. by rewrite <-Permutation_middle. }
  pose proof (inv_unique _ Hinv) as Hu. rewrite Hs in Hu. apply NoDup_cons in Hu as [Hk Hu].
  split; [apply Hinv|done| |apply Hinv]. intros k.
  change (pending (st_finder s')) with (delete (fr_key req) (pending (st_finder s))).
  destruct (decide (fr_key req = k)) as [<-|Hne].
  - by rewrite lookup_delete_eq, decide_False.
  - rewrite lookup_delete_ne, (inv_pending _ Hinv) by done.
    assert (k ∈ held s <-> k ∈ held s') as Hiff by (rewrite Hs; set_solver).
    destruct (decide (k ∈ held s)), (decide (k ∈ held s')); tauto.
Qed.

Lemma step_inv s e :
  inv s -> routed e -> exists o, step s e = Ret o /\ forall s', o = Some s' -> inv s'.
Proof.
  intros Hinv Hrt. destruct e as [ctx router key cb|i now|i ai|i now|i|i|]; cbn [fstep].
  - pose proof (inv_Find s ctx router key cb Hinv Hrt) as HF.
    destruct (finder_Find _ _ _ _ _) as [a rs]. eexists. split; [done|].
    intros s' [= <-]. by apply inv_log.
  - destruct (st_workers s !! i) as [[| | |]|] eqn:Hi; try (eexists; by split).
    destruct (workQueue (st_finder s)) as [|req q] eqn:Hq; [eexists; by split|].
    pose proof (inv_router _ Hinv) as Hreq. rewrite Hq in Hreq. apply Forall_cons in Hreq as [[r ->] _].
    eexists. split; [done|]. intros s' [= <-].
    destruct (held_worker s i _ (Working req false now) (set_workQueue (st_finder s) q) Hi)
      as (rest & Hh & Hh'). apply (inv_reorder s); [done| |done| |].
    + rewrite Hh, Hh', Hq. cbn. by rewrite <-Permutation_middle.
    + pose proof (inv_queue _ Hinv) as Hl. rewrite Hq in Hl. simpl in *. lia.
    + rewrite Hq. by apply suffix_cons_r.
  - destruct (st_workers s !! i) as [[|req b t| |]|] eqn:Hi; try (eexists; by split).
    eexists. split; [done|]. intros s' [= <-].
    destruct (held_worker s i _ (Working req true t) (st_finder s) Hi) as (rest & Hh & Hh').
    apply (inv_reorder s); [done| |done|apply Hinv|done]. by etrans; [exact Hh'|].
  - destruct (st_workers s !! i) as [[|req b t| |]|] eqn:Hi; try (eexists; by split).
    assert (forall a rs, workQueue a = workQueue (st_finder s) ->
      workQueueSize a = workQueueSize (st_finder s) -> pending a = pending (st_finder s) ->
      inv (log (set_worker (set_finder s a) i (Releasing req)) rs)) as Hgo.
    { intros a rs Hq Hz Hp. apply inv_log.
      destruct (held_worker s i _ (Releasing req) a Hi) as (rest & Hh & Hh').
      apply (inv_reorder s); [done|by rewrite Hh, Hh', Hq|done| |]; cbn; rewrite Hq, ?Hz;
        [apply Hinv|done]. }
    unfold finish_lookup. destruct b; cbn [negb].
    + eexists. split; [done|]. intros s' [= <-]. by apply (Hgo (st_finder s)).
    + destruct (cache_Add_ok now (fr_key req) (negativeCache (st_finder s))) as (c & -> & _).
      eexists. split; [done|]. intros s' [= <-]. by apply Hgo.
  - destruct (st_workers s !! i) as [[| |req|]|] eqn:Hi; try (eexists; by split).
    eexists. split; [done|]. intros s' [= <-].
    by apply inv_release.
  - destruct (st_workers s !! i) as [[| | |]|] eqn:Hi; try (eexists; by split).
    eexists. split; [done|]. intros s' [= <-].
    destruct (held_worker s i _ Stopped (st_finder s) Hi) as (rest & Hh & Hh').
    apply (inv_reorder s); [done| |done|apply Hinv|done]. by etrans; [exact Hh'|].
  - eexists. split; [done|]. intros s' [= <-]. by apply inv_log.
Qed.
Lemma steps_inv s es :
  inv s -> Forall routed es -> exists o, steps s es = Ret o /\ forall s', o = Some s' -> inv s'.
Proof.
  intros Hinv Hes. revert s Hinv.
  induction Hes as [|e es He Hes IH]; intros s Hinv; cbn [fsteps].
  { eexists. split; [done|]. by intros ? [= <-]. }
  destruct (step_inv s e Hinv He) as ([s'|] & -> & Hs'); cbn; [|by eexists].
  apply IH. by apply Hs'.
Qed.

Lemma steps_app s es1 es2 s1 :
  steps s es1 = Ret (Some s1) -> steps s (es1 ++ es2) = steps s1 es2.
Proof.
  revert s. induction es1 as [|e es1 IH]; intros s; cbn [fsteps app]; [by intros [= ->]|].
  destruct (step s e) as [[s'|]| |]; cbn; [apply IH|done..].
Qed.

(** ** Draining *)

(** The steps that only a worker takes to get on with a request. *)
Definition worker_event (e : event R) : bool :=
  match e with EvTake _ _ | EvClosed _ _ | EvRelease _ => true | _ => false end.

Definition live s : Prop := Exists (fun wk => wk <> Stopped) (st_workers s).

(** The worker events a worker still owes to its request, and those left. *)
Definition owed (wk : worker R) : list unit :=
  match wk with
  | Working _ _ _ => [tt; tt]
  | Releasing _ => [tt]
  | Idle | Stopped => []
  end.
Definition left_over s : nat := 3 * length (workQueue (st_finder s)) + length (st_workers s ≫= owed).

Lemma left_over_worker s i wk wk' a :
  st_workers s !! i = Some wk -> wk' <> Stopped ->
  length (owed wk') + 3 * length (workQueue a) < length (owed wk) + 3 * length (workQueue (st_finder s)) ->
  let s' := set_worker (set_finder s a) i wk' in left_over s' < left_over s /\ live s'.
Proof.
  intros Hi Hne Hlt. destruct (bind_insert_perm owed _ _ _ Hi) as (rest & Hr & Hr'). split.
  - unfold left_over. cbn. rewrite Hr, Hr', !length_app. lia.
  - unfold live. cbn. apply Exists_exists. exists wk'. split; [|done].
    eapply list_elem_of_lookup_2, list_lookup_insert_eq. by eapply lookup_lt_Some.
Qed.

Lemma left_over_log s rs : left_over (log s rs) = left_over s.
Proof. done. Qed.

(** A worker that holds a request can get on with it. *)
Lemma busy_progress s i wk :
  st_workers s !! i = Some wk -> active wk <> [] ->
  exists e s', step s e = Ret (Some s') /\ worker_event e = true /\
    left_over s' < left_over s /\ live s'.
Proof.
  intros Hi Hb. destruct wk as [|req b t|req|]; try done.
  - exists (EvClosed i t). cbn. rewrite Hi. unfold finish_lookup. destruct b; cbn [negb].
    + eexists. do 2 (split; [done|]). by apply (left_over_worker s i _ (Releasing req) (st_finder s) Hi); [|cbn; lia].
    + destruct (cache_Add_ok t (fr_key req) (negativeCache (st_finder s))) as (c & -> & _).
      eexists. do 2 (split; [done|]).
      by apply (left_over_worker s i _ (Releasing req) (set_negativeCache (st_finder s) c) Hi);
        [|cbn; lia].
  - exists (EvRelease i). cbn. rewrite Hi. eexists. do 2 (split; [done|]).
    by apply (left_over_worker s i _ Idle (set_pending (st_finder s) _) Hi); [|cbn; lia].
Qed.

Lemma progress s :
  inv s -> live s -> held s <> [] ->
  exists e s', step s e = Ret (Some s') /\ worker_event e = true /\
    left_over s' < left_over s /\ live s'.
Proof.
  intros Hinv Hlive Hheld.
  destruct (decide (Exists (fun wk => active wk <> []) (st_workers s))) as [Hb|Hb].
  { apply Exists_exists in Hb as (wk & [i Hi]%list_elem_of_lookup & Hb).
    by eapply busy_progress. }
  apply Exists_exists in Hlive as (wk & [i Hi]%list_elem_of_lookup & Hns).
  assert (forall j wk, st_workers s !! j = Some wk -> active wk = []) as Hidle.
  { intros j wk' Hj. destruct (decide (active wk' = [])) as [|Hne]; [done|].
    exfalso. apply Hb, Exists_exists. exists wk'. split; [by eapply list_elem_of_lookup_2|done]. }
  assert (wk = Idle) as ->.
  { specialize (Hidle i wk Hi). by destruct wk. }
  destruct (workQueue (st_finder s)) as [|req q] eqn:Hq.
  - exfalso. apply Hheld. unfold held. rewrite Hq. cbn.
    clear -Hidle. induction (st_workers s) as [|wk wks IH]; [done|]. cbn.
    rewrite (Hidle 0 wk) by done. apply IH. intros j. apply (Hidle (S j)).
  - pose proof (inv_router _ Hinv) as Hreq. rewrite Hq in Hreq. apply Forall_cons in Hreq as [[r Hr] _].
    exists (EvTake i 0%Z). eexists. split; [cbn; by rewrite Hi, Hq, Hr|]. split; [done|].
    apply (left_over_worker s i _ (Working req false 0%Z)
      (set_workQueue (st_finder s) q) Hi); [done|]. rewrite Hq. cbn. lia.
Qed.

Lemma drain s :
  inv s -> live s -> exists es s', steps s es = Ret (Some s') /\
    Forall (fun e => worker_event e = true) es /\ length es <= left_over s /\
    workQueue (st_finder s') = [] /\ pending (st_finder s') = ∅.
Proof.
  remember (left_over s) as n eqn:Hn. revert s Hn.
  induction n as [n IH] using lt_wf_ind. intros s -> Hinv Hlive.
  destruct (decide (held s = [])) as [Hnil|Hne].
  - exists [], s. split_and!; [done|constructor|simpl; lia| |].
    + unfold held in Hnil. apply app_nil in Hnil as [Hnil _]. by apply fmap_nil_inv in Hnil.
    + apply map_eq. intros k. rewrite (inv_pending _ Hinv), lookup_empty, decide_False; [done|].
      rewrite Hnil. apply not_elem_of_nil.
  - destruct (progress s Hinv Hlive Hne) as (e & s1 & Hst & Hwe & Hlt & Hlive1).
    assert (inv s1) as Hinv1.
    { destruct (step_inv s e Hinv) as (o & Ho & Hi); [by destruct e|]. apply Hi. congruence. }
    destruct (IH _ Hlt s1 eq_refl Hinv1 Hlive1) as (es & s' & Hsts & Hall & Hlen & Hq & Hp).
    exists (e :: es), s'. split_and!; [|by constructor|simpl; lia|done|done].
    cbn [fsteps]. by rewrite Hst.
Qed.
(** ** One lookup from end to end *)

Lemma providers_run s i req b t ais :
  st_workers s !! i = Some (Working req b t) ->
  exists s', steps s (EvProvider i <$> ais) = Ret (Some s') /\
    st_workers s' !! i = Some (Working req (b || bool_decide (ais <> [])) t) /\
    st_world s' = foldl (fun v ai => call (fr_onProvider req) ai v) (st_world s) ais /\
    st_finder s' = st_finder s /\ st_log s' = st_log s.
Proof.
  revert s b. induction ais as [|ai ais IH]; intros s b Hi.
  { exists s. by rewrite orb_false_r. }
  cbn [fmap list_fmap fsteps]. cbn [fstep]. rewrite Hi. run.
  destruct (IH (set_worker (set_world s (call (fr_onProvider req) ai (st_world s))) i
    (Working req true t)) true) as (s' & Hs & Hw & Hv & Hf & Hl).
  { apply list_lookup_insert_eq. by eapply lookup_lt_Some. }
  exists s'. split_and!; [done| |done|done|done]. rewrite Hw. cbn. by rewrite orb_true_r.
Qed.

(** The request of the head of the queue is looked up by worker [i], which
    receives [ais]. *)
Definition lookup_events (i : nat) (start stop : Z) (ais : list AddrInfo) : list (event R) :=
  [EvTake i start] ++ (EvProvider i <$> ais) ++ [EvClosed i stop; EvRelease i].

Lemma lookup_run s i start stop ais req q :
  st_workers s !! i = Some Idle -> workQueue (st_finder s) = req :: q ->
  is_Some (fr_router req) ->
  exists s', steps s (lookup_events i start stop ais) = Ret (Some s') /\
    st_world s' = foldl (fun v ai => call (fr_onProvider req) ai v) (st_world s) ais /\
    workQueue (st_finder s') = q /\
    pending (st_finder s') = delete (fr_key req) (pending (st_finder s)) /\
    (if decide (ais = []) then tc_Has (fr_key req) (negativeCache (st_finder s')) = true
     else negativeCache (st_finder s') = negativeCache (st_finder s)) /\
    st_log s' = st_log s ++ [recordPrefetches (work_ctx run_ctx req)
      (if decide (ais = []) then "failed" else "succeeded")
      [(PrefetchDuration, Milliseconds (stop - start))]].
Proof.
  intros Hi Hq [r Hr]. unfold lookup_events. cbn [app fsteps]. cbn [fstep]. rewrite Hi, Hq, Hr.
  run. set (s1 := set_worker _ i _).
  destruct (providers_run s1 i req false start ais) as (s2 & H2 & Hw2 & Hv2 & Hf2 & Hl2).
  { apply list_lookup_insert_eq. by eapply lookup_lt_Some. }
  rewrite (steps_app _ _ _ _ H2). cbn [fsteps]. cbn [fstep]. rewrite Hw2. cbn [orb].
  pose proof (lookup_lt_Some _ _ _ Hw2) as Hlt.
  destruct (decide (ais = [])) as [->|Hne].
  - rewrite bool_decide_eq_false_2 by auto. unfold finish_lookup. cbn [negb].
    destruct (cache_Add_ok stop (fr_key req) (negativeCache (st_finder s2))) as (c & -> & Hc).
    cbn. rewrite list_lookup_insert_eq by done. eexists. split; [reflexivity|].
    cbn. rewrite Hv2, Hf2, Hl2. done.
  - rewrite bool_decide_eq_true_2 by done. unfold finish_lookup. cbn.
    rewrite list_lookup_insert_eq by done. eexists. split; [reflexivity|].
    cbn. rewrite Hv2, Hf2, Hl2. done.
Qed.

(** ** Theorems *)

(** C2. If its callers pass a router, the finder is safe under every
    interleaving of lookups, workers, metrics and shutdown: no step panics; the queue never exceeds its size; no
    key ever has two requests, queued or in progress; and the pending keys are
    exactly the keys of those requests. *)
Theorem finder_invariant (queueSize ttl : Z) (numWorkers : nat) (v : V) (es : list (event R)) :
  (0 <= queueSize)%Z -> Forall routed es ->
  exists a, NewAsyncProvidersFinder queueSize ttl = Ret a /\
  exists o, steps (Run a numWorkers v) es = Ret o /\ forall s, o = Some s -> inv s.
Proof.
  intros Hsize Hes. unfold NewAsyncProvidersFinder. rewrite (proj2 (Z.ltb_ge _ _)) by done.
  eexists. split; [done|]. apply steps_inv; [by apply inv_run|done].
Qed.

(** C19. No key stays pending forever: from every reachable state in which some
    worker has not stopped, the workers alone, if every lookup ends, empty the
    queue and release every key within three events per queued request and two
    per lookup in progress. *)
Theorem finder_drains (queueSize ttl : Z) a (numWorkers : nat) (v : V) (es : list (event R)) s :
  NewAsyncProvidersFinder queueSize ttl = Ret a -> Forall routed es ->
  steps (Run a numWorkers v) es = Ret (Some s) -> live s ->
  exists es' s', steps s es' = Ret (Some s') /\
    Forall (fun e => worker_event e = true) es' /\ length es' <= left_over s /\
    workQueue (st_finder s') = [] /\ pending (st_finder s') = ∅.
Proof.
  unfold NewAsyncProvidersFinder. destruct (queueSize <? 0)%Z; [done|]. intros [= <-] Hes Hs Hlive.
  apply drain; [|done].
  match type of Hs with fsteps _ _ ?s0 _ = _ => destruct (steps_inv s0 es) as (o & Ho & Hinv) end;
    [by apply inv_run|done|].
  apply Hinv. congruence.
Qed.

(** C32. A failed lookup is remembered: when the lookup of a key ends, in any
    state, without a provider, the key is in the negative cache, and as long as
    it is there a new [Find] of the key queues nothing and changes nothing; it
    records a cached failure unless the key is still pending. A lookup that
    found a provider leaves the negative cache alone. *)
Theorem finder_negative_cache s i now req found start s' ctx router cb :
  st_workers s !! i = Some (Working req found start) ->
  step s (EvClosed i now) = Ret (Some s') ->
  if found then negativeCache (st_finder s') = negativeCache (st_finder s)
  else finder_Find (st_finder s') ctx router (fr_key req) cb =
    (st_finder s', if default false (pending (st_finder s) !! fr_key req) then []
                   else [recordPrefetches ctx "failed-cached" []]).
Proof.
  intros Hi. cbn. rewrite Hi. unfold finish_lookup. destruct found; cbn [negb].
  { by intros [= <-]. }
  destruct (cache_Add_ok now (fr_key req) (negativeCache (st_finder s))) as (c & -> & Hc).
  cbn. intros [= <-]. unfold finder_Find, cache_Has. cbn. rewrite Hc.
  by destruct (default false _).
Qed.
End finder.

(** ** The caching store on top of the finder *)

Section prefetch.
Context `{Libp2p} {R T V : Type} `{TimeCacheLaws T}.
Context (emit : Recording -> V -> V) (stores : nat -> ProviderStore V) (run_ctx : Ctx).

(** A store acts on the world of the finder's state. *)
Definition lift_store (ps : ProviderStore V) : ProviderStore (State R T V) := mkStore
  (fun ctx key ai s => let '(v, e) := AddProvider ps ctx key ai (st_world s) in (set_world s v, e))
  (fun ctx key s => let '(v, r) := GetProviders ps ctx key (st_world s) in (set_world s v, r)).

(** The finder as the caching store sees it: [Find] is the step of the event. *)
Definition lift_finder : ProvidersFinder (State R T V) R := mkFinder
  (fun ctx router key cb s =>
    let '(a, rs) := finder_Find (st_finder s) ctx router (string_of_list_byte key) cb in
    (log (set_finder s a) rs, None)).

(** Callbacks write to the store their caching store captured. *)
Definition cache_call (cb : onProviderFunc) (ai : AddrInfo) (v : V) : V :=
  cacheProvider emit (stores (cb_store cb)) cb ai v.

(** The state after a miss: the request is queued, and its key is pending. *)
Definition missed (s : State R T V) (v0 : V) (req : findRequest R) : State R T V :=
  log (set_finder (set_world s v0) (set_pending (set_workQueue (st_finder s) [req])
    (<[fr_key req := true]> (pending (st_finder s))))) [].
Definition miss_request (self : nat) (router : R) (ctx : Ctx) (key : list byte) : findRequest R :=
  mkRequest ctx (Some router) (string_of_list_byte key) (mkOnProvider self ctx key).

Lemma caching_miss (self : nat) (router : R) (ctx : Ctx) (key : list byte) (s : State R T V) (v0 : V) :
  let d := mkCaching self (lift_store (stores self)) (lift_store (stores self))
             lift_finder (Some router) in
  let k := string_of_list_byte key in
  GetProviders (stores self) ctx key (st_world s) = (v0, ([], None)) ->
  pending (st_finder s) !! k = None -> tc_Has k (negativeCache (st_finder s)) = false ->
  workQueue (st_finder s) = [] -> 0 < workQueueSize (st_finder s) ->
  caching_GetProviders d ctx key s = (missed s v0 (miss_request self router ctx key), ([], None)).
Proof using Type.
  intros d k HG Hp Hc Hq Hsize.
  unfold caching_GetProviders, d, lift_store, lift_finder. cbn -[finder_Find]. rewrite HG.
  cbn -[finder_Find]. unfold finder_Find, cache_Has. cbn -[Nat.ltb]. fold k.
  by rewrite Hp, Hc, Hq, (proj2 (Nat.ltb_lt _ _)) by (simpl; lia).
Qed.

(** While the key is pending, a miss queues nothing. *)
Lemma caching_wait (self : nat) (router : R) (ctx : Ctx) (key : list byte) (s : State R T V) (v0 : V) :
  let d := mkCaching self (lift_store (stores self)) (lift_store (stores self))
             lift_finder (Some router) in
  GetProviders (stores self) ctx key (st_world s) = (v0, ([], None)) ->
  pending (st_finder s) !! string_of_list_byte key = Some true ->
  caching_GetProviders d ctx key s =
    (log (set_finder (set_world s v0) (st_finder s)) [], ([], None)).
Proof using Type.
  intros d HG Hp. unfold caching_GetProviders, d, lift_store, lift_finder. cbn -[finder_Find].
  rewrite HG. cbn -[finder_Find]. unfold finder_Find. by rewrite Hp.
Qed.

(** C12. Prefetching from end to end: asked for a key that its store does not
    know, that is neither pending nor known to fail, while no request is queued and
    the queue has a place, the caching store returns nothing and no error at once;
    when an idle worker then handles the request, every provider the router yields,
    in order, is written to that store under the key, and each failure to write is
    counted; the queue and the pending keys are as before; and so is the negative
    cache, unless the router yielded none: then it has the key. *)
Theorem caching_prefetch (self : nat) (router : R) (ctx : Ctx) (key : list byte)
    (s : State R T V) (i : nat) (start stop : Z) (ais : list AddrInfo) (v0 : V) :
  let d := mkCaching self (lift_store (stores self)) (lift_store (stores self))
             lift_finder (Some router) in
  let k := string_of_list_byte key in
  GetProviders (stores self) ctx key (st_world s) = (v0, ([], None)) ->
  pending (st_finder s) !! k = None -> tc_Has k (negativeCache (st_finder s)) = false ->
  workQueue (st_finder s) = [] -> 0 < workQueueSize (st_finder s) ->
  st_workers s !! i = Some Idle ->
  exists s1 s2, caching_GetProviders d ctx key s = (s1, ([], None)) /\
    fsteps cache_call run_ctx s1 (lookup_events i start stop ais) = Ret (Some s2) /\
    st_world s2 = foldl (fun v ai =>
      match AddProvider (stores self) ctx key ai v with
      | (v, None) => v
      | (v, Some _) => emit (Record_ (ctx_tags ctx) [(PrefetchFailedToCache, 1%Z)]) v
      end) v0 ais /\
    workQueue (st_finder s2) = [] /\ pending (st_finder s2) = pending (st_finder s) /\
    if decide (ais = []) then tc_Has k (negativeCache (st_finder s2)) = true
    else negativeCache (st_finder s2) = negativeCache (st_finder s).
Proof.
  intros d k HG Hp Hc Hq Hsize Hi. set (req := miss_request self router ctx key).
  destruct (lookup_run cache_call run_ctx (missed s v0 req) i start stop ais req [])
    as (s2 & Hs2 & Hv & Hq2 & Hp2 & Hc2 & _); [done|done|by eexists|].
  exists (missed s v0 req), s2. split_and!; [by apply caching_miss|done|exact Hv|done| |exact Hc2].
  rewrite Hp2. cbn. by rewrite delete_insert_id.
Qed.
End prefetch.

(** ** Concrete finders *)

Definition sample_cache : TimeCache (gset string) := {|
  NewTimeCache ttl := ∅;
  tc_Has s c := bool_decide (s ∈ c);
  tc_Add now s c := if bool_decide (s ∈ c) then Panic else Ret ({[s]} ∪ c);
  tc_Len c := size c
|}.

Lemma sample_cache_laws : @TimeCacheLaws (gset string) sample_cache.
Proof.
  split; [done| |]; cbn; intros now s c; rewrite ?bool_decide_eq_false, ?bool_decide_eq_true;
    intros Hs.
  - rewrite bool_decide_eq_false_2 by done. eexists. split; [done|].
    split; [apply bool_decide_eq_true; set_solver|].
    intros s' Hne. rewrite !bool_decide_eq_true. set_solver.
  - by rewrite bool_decide_eq_true_2.
Qed.

(** A store that keeps pairs of a key and a provider's ID. *)
Definition sample_pairs : Type := list (list byte * ID).
Definition sample_pair_store : @ProviderStore sample_libp2p sample_pairs :=
  @mkStore sample_libp2p sample_pairs
    (fun _ key ai v => (v ++ [(key, @ai_ID sample_libp2p ai)], None))
    (fun _ key v => (v, ((fun p => sample_ai p.2 []) <$> filter (fun p => p.1 = key) v, None))).

Abbreviation sample_State := (State unit (gset string) sample_pairs).
Definition sample_call : onProviderFunc -> @AddrInfo sample_libp2p -> sample_pairs -> sample_pairs :=
  @cache_call sample_libp2p sample_pairs (fun _ v => v) (fun _ => sample_pair_store).

Definition sample_finder : asyncProvidersFinder unit (gset string) :=
  @mkAsync unit (gset string) 1 [] ∅ 0 ∅.
Definition sample_cb : onProviderFunc := mkOnProvider 0 sample_ctx [Byte.x6b].
Definition sample_find : @event sample_libp2p unit := EvFind sample_ctx (Some tt) "k" sample_cb.

(** A finder with one worker and a queued request for the key k. *)
Definition sample_queued : sample_State :=
  mkState (@mkAsync unit (gset string) 1 [mkRequest sample_ctx (Some tt) "k" sample_cb]
    {["k"%string := true]} 0 ∅) [Idle] [] [].

Lemma finder_invariant_witness :
  exists a, @NewAsyncProvidersFinder unit (gset string) sample_cache 1 0 = Ret a /\
  exists o, fsteps (H0 := sample_cache) sample_call sample_ctx (Run a 1 [])
    [sample_find; EvTake 0 0; EvClosed 0 0; EvRelease 0; sample_find] = Ret o /\
  forall s, o = Some s -> inv s.
Proof.
  apply (@finder_invariant sample_libp2p unit (gset string) sample_pairs sample_cache
    sample_cache_laws sample_call sample_ctx 1 0 1 []); [lia|].
  repeat constructor; eexists; reflexivity.
Defined.

Lemma finder_drains_witness :
  exists es s', fsteps (H0 := sample_cache) sample_call sample_ctx sample_queued es = Ret (Some s') /\
    length es <= 3 /\ pending (st_finder s') = ∅.
Proof.
  destruct (@finder_drains sample_libp2p unit (gset string) sample_pairs sample_cache
    sample_cache_laws sample_call sample_ctx 1 0 sample_finder 1 [] [sample_find] sample_queued)
    as (es & s' & Hs & _ & Hlen & _ & Hp).
  - vm_compute. reflexivity.
  - repeat constructor. eexists. reflexivity.
  - vm_compute. reflexivity.
  - unfold live, sample_queued. cbn. apply Exists_cons_hd. discriminate.
  - exists es, s'. split; [exact Hs|]. split; [exact Hlen|exact Hp].
Defined.

Definition sample_working : sample_State :=
  mkState (@mkAsync unit (gset string) 1 [] {["k"%string := true]} 0 ∅)
    [Working (mkRequest sample_ctx (Some tt) "k" sample_cb) false 0] [] [].

Lemma finder_negative_cache_witness :
  exists s', fstep (H0 := sample_cache) sample_call sample_ctx sample_working (EvClosed 0 5) = Ret (Some s') /\
    finder_Find (H0 := sample_cache) (st_finder s') sample_ctx None "k" sample_cb = (st_finder s', []).
Proof.
  eexists. split; [reflexivity|].
  refine (@finder_negative_cache sample_libp2p unit (gset string) sample_pairs sample_cache
    sample_cache_laws sample_call sample_ctx sample_working 0 5
    (mkRequest sample_ctx (Some tt) "k" sample_cb) false 0 _ sample_ctx None sample_cb _ _);
    reflexivity.
Defined.

Lemma caching_prefetch_witness :
  exists s1 s2,
    caching_GetProviders (mkCaching 0
      (@lift_store sample_libp2p unit (gset string) sample_pairs sample_pair_store)
      (lift_store sample_pair_store)
      (lift_finder (H0 := sample_cache)) (Some tt)) sample_ctx [Byte.x6b]
      (Run sample_finder 1 []) = (s1, ([], None)) /\
    fsteps (H0 := sample_cache) sample_call sample_ctx s1
      (lookup_events 0 0 7 [sample_ai "p" []; sample_ai "q" []]) = Ret (Some s2) /\
    st_world s2 = [([Byte.x6b], "p"%string); ([Byte.x6b], "q"%string)].
Proof.
  destruct (@caching_prefetch sample_libp2p unit (gset string) sample_pairs sample_cache
    sample_cache_laws (fun _ v => v) (fun _ => sample_pair_store) sample_ctx 0 tt sample_ctx
    [Byte.x6b] (Run sample_finder 1 []) 0 0 7 [sample_ai "p" []; sample_ai "q" []] [])
    as (s1 & s2 & Hg & Hs & Hv & _).
  - reflexivity.
  - reflexivity.
  - vm_compute. reflexivity.
  - reflexivity.
  - vm_compute. lia.
  - reflexivity.
  - exists s1, s2. split; [exact Hg|]. split; [exact Hs|]. rewrite Hv. reflexivity.
Defined.
