(* ===== verification/PrefetchSpec.v ===== *)
(** * Prefetching into DynamoDB (src/providers/caching.go, finder.go, ddb.go)

    The three components together, as a hydra with a DynamoDB provider store runs
    them: a miss of the caching store queues a lookup, a worker of the finder
    writes what its router yields to the table, and a later question is answered
    from the table. The lemmas are about one store; HeadStores joins them for the
    heads of a hydra. *)
From Stdlib Require Import Strings.String.
From stdpp Require Import pretty.
From S2P Require Import Prelude Metrics Stores StoresSpec DynamoDB DynamoDBSpec Finder FinderSpec.
Open Scope nat_scope.

(** ** A table that is available *)

(** A conditional write of a row: it is not to replace a row with the same key. *)
Record puts_row (i : PutItemInput) (t : string) (key : list byte) (r : Z * ID) : Prop := {
  puts_table : p_TableName i = t;
  puts_item : p_Item i = row_item key r;
  puts_condition :
    p_ConditionExpression i = "attribute_not_exists(#k) AND attribute_not_exists(#t)"%string;
  puts_names : p_ExpressionAttributeNames i !! "#k"%string = Some "key"%string /\
    p_ExpressionAttributeNames i !! "#t"%string = Some "ttl"%string;
}.

Lemma putInput_puts `{Libp2p} d key prov now :
  puts_row (putInput d key prov now) (TableName d) key (ttlEpoch d now, prov).
Proof. by split. Qed.

(** The rows of a table under a key, those of them that queries see already, since
    reads are not consistent at once, and how many records fit into a page. *)
Class Table (W : Type) := {
  rows : string -> list byte -> W -> gmap Z ID;
  visible : string -> list byte -> W -> gmap Z ID;
  page : string -> list byte -> W -> bool -> nat;
}.

(** The documented behaviour: a conditional write fails if its row exists, and else
    adds the row; a query yields what is visible, by its sort key. Recording
    measurements and remembering addresses do not touch the table. *)
Class TableLaws (W : Type) `{PeerStore W} `{!DDBClient W} `{!Table W} (emit : Recording -> W -> W) : Prop := {
  put_row : forall i t key r w, puts_row i t key r -> (- 2 ^ 63 <= r.1 < 2 ^ 63)%Z ->
    match rows t key w !! r.1 with
    | Some _ => exists e, PutItem i w = (w, Some e) /\ isConditionalCheckFailed e = true
    | None => exists w', PutItem i w = (w', None) /\ rows t key w' = <[r.1 := r.2]> (rows t key w)
    end;
  query_rows : forall t key w,
    quiet_table t key (row_record key <$> sorted_rows (visible t key w)) (page t key w) w;
  rows_AddAddrs : forall t key id addrs ttl w, rows t key (AddAddrs id addrs ttl w) = rows t key w;
  rows_emit : forall t key r w, rows t key (emit r w) = rows t key w;
  visible_emit : forall t key r w, visible t key (emit r w) = visible t key w;
}.

Section prefetch.
Context `{Libp2p} {R T W : Type} `{TimeCacheLaws T} `{!PeerStore W} `{!DDBClient W} `{!Table W}
  (emit : Recording -> W -> W) `{!TableLaws W emit}.
Context (d : dynamoDBProviderStore) (fuel : nat) (run_ctx : Ctx).
(** When a provider arrives. *)
Context (arrival : AddrInfo -> Z).

(** The DynamoDB store as a provider store; it has enough fuel. *)
Definition ddb_store : ProviderStore W := mkStore
  (fun _ key ai w => ddb_AddProvider d key ai (arrival ai) w)
  (fun ctx key w =>
    match ddb_GetProviders emit fuel d ctx key w with
    | Ret (w, inr providers) => (w, (providers, None))
    | Ret (w, inl err) => (w, ([], Some err))
    | Panic | Diverge => (w, ([], None))
    end).

Abbreviation second ai := (ttlEpoch d (arrival ai)).
Abbreviation table key w := (rows (TableName d) key w).
Abbreviation seen key w := (visible (TableName d) key w).

(** ** Writing *)

(** What writing providers in order leaves: the first for every second of expiry. *)
Fixpoint first_of_each_second (kept : gmap Z ID) (ais : list AddrInfo) : gmap Z ID :=
  match ais with
  | [] => kept
  | ai :: ais =>
      first_of_each_second
        (match kept !! second ai with Some _ => kept | None => <[second ai := ai_ID ai]> kept end) ais
  end.

Lemma ddb_AddProvider_rows key ai w :
  exists w', ddb_AddProvider d key ai (arrival ai) w = (w', None) /\
    table key w' = match table key w !! second ai with
                   | Some _ => table key w
                   | None => <[second ai := ai_ID ai]> (table key w)
                   end.
Proof using TableLaws0.
  unfold ddb_AddProvider.
  set (w0 := if decide (ai_ID ai <> Self d) then AddAddrs (ai_ID ai) (ai_Addrs ai) AddressTTL w else w).
  assert (table key w0 = table key w) as Hw0 by (unfold w0; case_decide; [apply rows_AddAddrs|done]).
  pose proof (put_row _ _ key _ w0 (putInput_puts d key (ai_ID ai) (arrival ai)) (ttlEpoch_range _ _)) as Hput.
  cbn [fst snd] in Hput. rewrite Hw0 in Hput. destruct (table key w !! second ai).
  - destruct Hput as (e & -> & ->). by exists w0.
  - destruct Hput as (w' & -> & Hw'). by exists w'.
Qed.

Lemma write_rows (ctx : Ctx) key ais : forall w,
  table key (foldl (fun v ai =>
    match AddProvider ddb_store ctx key ai v with
    | (v, None) => v
    | (v, Some _) => emit (Record_ (ctx_tags ctx) [(PrefetchFailedToCache, 1%Z)]) v
    end) w ais) = first_of_each_second (table key w) ais.
Proof using TableLaws0.
  induction ais as [|ai ais IH]; intros w; [done|]. cbn [foldl first_of_each_second].
  cbn [AddProvider ddb_store] in *. destruct (ddb_AddProvider_rows key ai w) as (w' & -> & Hw').
  by rewrite IH, Hw'.
Qed.

(** Of providers that arrive in one second all but the first are lost. *)
Lemma first_of_each_second_burst t ais : forall kept,
  (forall ai, ai ∈ ais -> second ai = t) -> is_Some (kept !! t) -> first_of_each_second kept ais = kept.
Proof.
  induction ais as [|ai ais IH]; intros kept Ht Hk; [done|]. cbn [first_of_each_second].
  rewrite (Ht ai) by left. destruct Hk as [x Hx]. rewrite Hx. apply IH; [|by exists x]. intros ai' Hin. apply Ht. by right.
Qed.

Lemma first_of_each_second_kept ais : forall kept, kept ⊆ first_of_each_second kept ais.
Proof.
  induction ais as [|ai ais IH]; intros kept; [reflexivity|]. cbn [first_of_each_second].
  etrans; [|apply IH]. destruct (kept !! second ai) eqn:Hk; [reflexivity|]. by apply insert_subseteq.
Qed.

Lemma first_of_each_second_not_nil kept ais : ais <> [] -> first_of_each_second kept ais <> ∅.
Proof.
  destruct ais as [|ai ais]; [done|]. intros _ Hnil. cbn [first_of_each_second] in Hnil.
  pose proof (first_of_each_second_kept ais
    (match kept !! second ai with Some _ => kept | None => <[second ai := ai_ID ai]> kept end)) as Hk.
  rewrite Hnil in Hk. destruct (kept !! second ai) as [x|] eqn:Hx.
  - apply (lookup_weaken _ ∅ _ _ Hx) in Hk. by rewrite lookup_empty in Hk.
  - assert (<[second ai := ai_ID ai]> kept !! second ai = Some (ai_ID ai)) as Hl by (by rewrite lookup_insert_eq).
    apply (lookup_weaken _ ∅ _ _ Hl) in Hk. by rewrite lookup_empty in Hk.
Qed.

(** ** Reading *)

(** What the store answers when [m] is visible: of the rows that expire last, as many
    as the limit allows and the first page holds. *)
Definition rows_answered (m : gmap Z ID) (key : list byte) (w : W) : list ID :=
  firsts (take (Nat.min (Z.to_nat (QueryLimit d)) (page (TableName d) key w false)) (latest_first m)).

Lemma records_read_rows key w :
  mapM item_prov (records_read d (page (TableName d) key w) (row_record key <$> sorted_rows (seen key w))) =
  Some (take (Nat.min (Z.to_nat (QueryLimit d)) (page (TableName d) key w false)) (latest_first (seen key w))).
Proof using Type.
  unfold records_read, latest_first. by rewrite in_order_rows, <-fmap_take, mapM_item_prov_rows, fmap_take.
Qed.

Lemma read_rows (ctx : Ctx) key w :
  (1 <= QueryLimit d < 2 ^ 31)%Z -> Z.to_nat (QueryLimit d) <= fuel ->
  exists w', GetProviders ddb_store ctx key w =
      (w', ((fun p => PeerInfo p w) <$> rows_answered (seen key w) key w, None)) /\
    table key w' = table key w /\ seen key w' = seen key w.
Proof using TableLaws0.
  intros Hlim Hfuel. pose proof (ddb_GetProviders_quiet emit fuel d ctx key _ _ w
    (query_rows (TableName d) key w) Hlim Hfuel) as Hr.
  rewrite records_read_rows in Hr. cbn [GetProviders ddb_store]. rewrite Hr.
  eexists. split; [done|]. unfold local_found. case_decide; by rewrite ?rows_emit, ?visible_emit.
Qed.

Lemma rows_answered_nil key w : rows_answered ∅ key w = [].
Proof. unfold rows_answered, latest_first. rewrite sorted_rows_empty. cbn [reverse rev_append fmap list_fmap]. by rewrite take_nil. Qed.

Lemma rows_answered_not_nil m key w : (1 <= QueryLimit d)%Z -> m <> ∅ -> rows_answered m key w <> [].
Proof using TableLaws0.
  intros Hlim Hm Hnil. apply firsts_nil in Hnil. apply map_choose in Hm as (t & p & Hp).
  assert (p ∈ latest_first m) as Hin by (apply elem_of_latest_first; by exists t).
  pose proof (quiet_page _ _ _ _ _ (query_rows (TableName d) key w) false).
  destruct (latest_first m) as [|q l]; [by apply not_elem_of_nil in Hin|].
  destruct (Nat.min _ _) eqn:Hn; [lia|done].
Qed.

(** A caching store over the table, for the store number [self]. *)
Abbreviation cache self router := (mkCaching self (lift_store (R := R) (T := T) ddb_store)
  (lift_store (R := R) (T := T) ddb_store) lift_finder (Some router)).

(** When rows of a key are visible it answers from the table, and asks the finder
    for nothing. *)
Lemma cache_hit (self : nat) (router : R) (ctx : Ctx) (key : list byte) (s : State R T W) :
  (1 <= QueryLimit d < 2 ^ 31)%Z -> Z.to_nat (QueryLimit d) <= fuel -> seen key (st_world s) <> ∅ ->
  exists s', caching_GetProviders (cache self router) ctx key s =
    (s', ((fun p => PeerInfo p (st_world s)) <$> rows_answered (seen key (st_world s)) key (st_world s), None)) /\
    st_finder s' = st_finder s.
Proof using TableLaws0.
  intros Hlim Hfuel Hne. destruct (read_rows ctx key (st_world s) Hlim Hfuel) as (w' & HG & _).
  exists (set_world s w'). split; [|done]. unfold caching_GetProviders, lift_store.
  cbn [ReadProviderStore GetProviders]. rewrite HG. cbn [fst snd].
  pose proof (rows_answered_not_nil _ key (st_world s) (proj1 Hlim) Hne).
  by destruct (rows_answered _ _ _).
Qed.

Lemma read_no_rows (ctx : Ctx) key w :
  (1 <= QueryLimit d < 2 ^ 31)%Z -> Z.to_nat (QueryLimit d) <= fuel -> seen key w = ∅ ->
  exists w', GetProviders ddb_store ctx key w = (w', ([], None)) /\
    table key w' = table key w /\ seen key w' = ∅.
Proof using TableLaws0.
  intros Hlim Hfuel Hw. destruct (read_rows ctx key w Hlim Hfuel) as (w' & HG & Ht & Hs).
  rewrite Hw, rows_answered_nil in HG. exists w'. by rewrite Hs.
Qed.

(** A worker that finds the request of the store [self] at the head of the queue
    writes to the table; [stores] are the stores that the callbacks write to. *)
Lemma lookup_writes (stores : nat -> ProviderStore W) (self : nat) (router : R) (ctx : Ctx)
    (key : list byte) (s : State R T W) (i : nat) (start stop : Z) (ais : list AddrInfo) q :
  stores self = ddb_store ->
  workQueue (st_finder s) = miss_request self router ctx key :: q -> st_workers s !! i = Some Idle ->
  exists s', fsteps (cache_call emit stores) run_ctx s (lookup_events i start stop ais) = Ret (Some s') /\
    table key (st_world s') = first_of_each_second (table key (st_world s)) ais.
Proof using All.
  intros Hself Hq Hi.
  destruct (lookup_run (cache_call emit stores) run_ctx s i start stop ais _ q Hi Hq)
    as (s' & Hs & Hv & _); [by eexists|].
  exists s'. split; [done|]. rewrite Hv, <-(write_rows ctx). f_equal.
  unfold miss_request, cache_call, cacheProvider. cbn. by rewrite Hself.
Qed.
End prefetch.

(** ** The concrete table *)

#[export] Instance row_table : Table row_world := {|
  rows _ key w := rows_of key w;
  visible _ key w := rows_of key w;
  page _ _ _ _ := 1
|}.

Lemma row_laws : @TableLaws row_world sample_libp2p row_peers row_ddb row_table (fun _ w => w).
Proof.
  split; [|intros t key w; apply row_quiet|done..]. intros i t key r w [_ Hitem _ _] Hr.
  cbn [rows row_table PutItem row_ddb]. rewrite (row_PutItem_row i key r w Hitem Hr).
  destruct (rows_of key w !! r.1); [by eexists|]. eexists. split; [done|]. by rewrite rows_of_insert.
Qed.

(** When providers arrive: r a second and a half after the others. *)
Definition row_arrival (ai : @AddrInfo sample_libp2p) : Z :=
  if decide (@ai_ID sample_libp2p ai = "r"%string) then 1500000000 else 0.

Abbreviation row_State := (State unit (gset string) row_world).
