(* ===== verification/HeadOptions.v ===== *)
(** * The options of a head (src/head/opts/options.go)

    The record [Options], one definition per option, [Defaults] and [Apply].
    Values of libraries are of types the section is parametric in; a nil
    pointer, interface, function or channel is [None]. *)
From S2P Require Import Prelude.
Open Scope nat_scope.

(** The types of the libraries, and their values that [Defaults] uses. *)
Class OptTypes := {
  o_Batching : Type;
  o_Peerstore : Type;
  o_Builder : Type;
  o_HTTPClient : Type;
  o_RoutingTable : Type;
  o_Multiaddr : Type;
  o_Limiter : Type;
  o_PrivKey : Type;
  o_Finder : Type;
  (** [dssync.MutexWrap(ds.NewMapDatastore())] *)
  NewMapDatastore : o_Batching;
  NewMultiaddr : string -> result o_Multiaddr;
  DefaultPrefix : string;
  DefaultBootstrapPeers : list o_Multiaddr;
}.

Section options.
Context `{OptTypes}.

Record Options := mkOptions {
  o_Datastore : option o_Batching;
  o_PeerstoreOpt : option o_Peerstore;
  o_ProviderStoreBuilder : option o_Builder;
  o_DelegateHTTPClient : option o_HTTPClient;
  o_RoutingTableOpt : option o_RoutingTable;
  o_EnableRelay : bool;
  o_Addrs : list (option o_Multiaddr);
  o_ProtocolPrefix : string;
  o_BucketSize : Z;
  o_LimiterOpt : option o_Limiter;
  o_BootstrapPeers : list o_Multiaddr;
  o_ID : option o_PrivKey;
  o_DisableProvGC : bool;
  o_DisableProvCounts : bool;
  o_DisableProviders : bool;
  o_DisableValues : bool;
  o_ProvidersFinder : option o_Finder;
  o_DisableResourceManager : bool;
  o_ResourceManagerLimitsFile : string;
  o_ConnMgrHighWater : Z;
  o_ConnMgrLowWater : Z;
  o_ConnMgrGracePeriod : Z;
}.

(** [opts.Options{}] *)
Definition zeroOptions : Options :=
  mkOptions None None None None None false [] "" 0 None [] None false false false false None false
    "" 0 0 0.

(** [type Option func(o) error]: the options after the call, and the error. *)
Definition Option : Type := Options -> Options * option goerror.

(** [Apply]: the loop stops at the first option that fails. *)
Fixpoint apply_from (i : nat) (o : Options) (opts : list Option) : Options * option (nat * goerror) :=
  match opts with
  | [] => (o, None)
  | opt :: opts =>
      let '(o, err) := opt o in
      match err with
      | Some err => (o, Some (i, err))
      | None => apply_from (S i) o opts
      end
  end.
Definition Apply (o : Options) (opts : list Option) : Options * option (nat * goerror) :=
  apply_from 0 o opts.

(** [ma, _ := multiaddr.NewMultiaddr(s)] *)
Definition multiaddr_or_nil (s : string) : option o_Multiaddr :=
  match NewMultiaddr s with inl _ => None | inr ma => Some ma end.

(** ** Setters of the fields *)

Definition set_Datastore (o : Options) (v : option o_Batching) : Options :=
  mkOptions v (o_PeerstoreOpt o) (o_ProviderStoreBuilder o) (o_DelegateHTTPClient o)
    (o_RoutingTableOpt o) (o_EnableRelay o) (o_Addrs o) (o_ProtocolPrefix o) (o_BucketSize o)
    (o_LimiterOpt o) (o_BootstrapPeers o) (o_ID o) (o_DisableProvGC o) (o_DisableProvCounts o)
    (o_DisableProviders o) (o_DisableValues o) (o_ProvidersFinder o) (o_DisableResourceManager
    o) (o_ResourceManagerLimitsFile o) (o_ConnMgrHighWater o) (o_ConnMgrLowWater o)
    (o_ConnMgrGracePeriod o).
Definition set_PeerstoreOpt (o : Options) (v : option o_Peerstore) : Options :=
  mkOptions (o_Datastore o) v (o_ProviderStoreBuilder o) (o_DelegateHTTPClient o)
    (o_RoutingTableOpt o) (o_EnableRelay o) (o_Addrs o) (o_ProtocolPrefix o) (o_BucketSize o)
    (o_LimiterOpt o) (o_BootstrapPeers o) (o_ID o) (o_DisableProvGC o) (o_DisableProvCounts o)
    (o_DisableProviders o) (o_DisableValues o) (o_ProvidersFinder o) (o_DisableResourceManager
    o) (o_ResourceManagerLimitsFile o) (o_ConnMgrHighWater o) (o_ConnMgrLowWater o)
    (o_ConnMgrGracePeriod o).
Definition set_ProviderStoreBuilder (o : Options) (v : option o_Builder) : Options :=
  mkOptions (o_Datastore o) (o_PeerstoreOpt o) v (o_DelegateHTTPClient o) (o_RoutingTableOpt o)
    (o_EnableRelay o) (o_Addrs o) (o_ProtocolPrefix o) (o_BucketSize o) (o_LimiterOpt o)
    (o_BootstrapPeers o) (o_ID o) (o_DisableProvGC o) (o_DisableProvCounts o)
    (o_DisableProviders o) (o_DisableValues o) (o_ProvidersFinder o) (o_DisableResourceManager
    o) (o_ResourceManagerLimitsFile o) (o_ConnMgrHighWater o) (o_ConnMgrLowWater o)
    (o_ConnMgrGracePeriod o).
Definition set_DelegateHTTPClient (o : Options) (v : option o_HTTPClient) : Options :=
  mkOptions (o_Datastore o) (o_PeerstoreOpt o) (o_ProviderStoreBuilder o) v (o_RoutingTableOpt
    o) (o_EnableRelay o) (o_Addrs o) (o_ProtocolPrefix o) (o_BucketSize o) (o_LimiterOpt o)
    (o_BootstrapPeers o) (o_ID o) (o_DisableProvGC o) (o_DisableProvCounts o)
    (o_DisableProviders o) (o_DisableValues o) (o_ProvidersFinder o) (o_DisableResourceManager
    o) (o_ResourceManagerLimitsFile o) (o_ConnMgrHighWater o) (o_ConnMgrLowWater o)
    (o_ConnMgrGracePeriod o).
Definition set_RoutingTableOpt (o : Options) (v : option o_RoutingTable) : Options :=
  mkOptions (o_Datastore o) (o_PeerstoreOpt o) (o_ProviderStoreBuilder o) (o_DelegateHTTPClient
    o) v (o_EnableRelay o) (o_Addrs o) (o_ProtocolPrefix o) (o_BucketSize o) (o_LimiterOpt o)
    (o_BootstrapPeers o) (o_ID o) (o_DisableProvGC o) (o_DisableProvCounts o)
    (o_DisableProviders o) (o_DisableValues o) (o_ProvidersFinder o) (o_DisableResourceManager
    o) (o_ResourceManagerLimitsFile o) (o_ConnMgrHighWater o) (o_ConnMgrLowWater o)
    (o_ConnMgrGracePeriod o).
Definition set_EnableRelay (o : Options) (v : bool) : Options :=
  mkOptions (o_Datastore o) (o_PeerstoreOpt o) (o_ProviderStoreBuilder o) (o_DelegateHTTPClient
    o) (o_RoutingTableOpt o) v (o_Addrs o) (o_ProtocolPrefix o) (o_BucketSize o) (o_LimiterOpt
    o) (o_BootstrapPeers o) (o_ID o) (o_DisableProvGC o) (o_DisableProvCounts o)
    (o_DisableProviders o) (o_DisableValues o) (o_ProvidersFinder o) (o_DisableResourceManager
    o) (o_ResourceManagerLimitsFile o) (o_ConnMgrHighWater o) (o_ConnMgrLowWater o)
    (o_ConnMgrGracePeriod o).
Definition set_Addrs (o : Options) (v : list (option o_Multiaddr)) : Options :=
  mkOptions (o_Datastore o) (o_PeerstoreOpt o) (o_ProviderStoreBuilder o) (o_DelegateHTTPClient
    o) (o_RoutingTableOpt o) (o_EnableRelay o) v (o_ProtocolPrefix o) (o_BucketSize o)
    (o_LimiterOpt o) (o_BootstrapPeers o) (o_ID o) (o_DisableProvGC o) (o_DisableProvCounts o)
    (o_DisableProviders o) (o_DisableValues o) (o_ProvidersFinder o) (o_DisableResourceManager
    o) (o_ResourceManagerLimitsFile o) (o_ConnMgrHighWater o) (o_ConnMgrLowWater o)
    (o_ConnMgrGracePeriod o).
Definition set_ProtocolPrefix (o : Options) (v : string) : Options :=
  mkOptions (o_Datastore o) (o_PeerstoreOpt o) (o_ProviderStoreBuilder o) (o_DelegateHTTPClient
    o) (o_RoutingTableOpt o) (o_EnableRelay o) (o_Addrs o) v (o_BucketSize o) (o_LimiterOpt o)
    (o_BootstrapPeers o) (o_ID o) (o_DisableProvGC o) (o_DisableProvCounts o)
    (o_DisableProviders o) (o_DisableValues o) (o_ProvidersFinder o) (o_DisableResourceManager
    o) (o_ResourceManagerLimitsFile o) (o_ConnMgrHighWater o) (o_ConnMgrLowWater o)
    (o_ConnMgrGracePeriod o).
Definition set_BucketSize (o : Options) (v : Z) : Options :=
  mkOptions (o_Datastore o) (o_PeerstoreOpt o) (o_ProviderStoreBuilder o) (o_DelegateHTTPClient
    o) (o_RoutingTableOpt o) (o_EnableRelay o) (o_Addrs o) (o_ProtocolPrefix o) v (o_LimiterOpt
    o) (o_BootstrapPeers o) (o_ID o) (o_DisableProvGC o) (o_DisableProvCounts o)
    (o_DisableProviders o) (o_DisableValues o) (o_ProvidersFinder o) (o_DisableResourceManager
    o) (o_ResourceManagerLimitsFile o) (o_ConnMgrHighWater o) (o_ConnMgrLowWater o)
    (o_ConnMgrGracePeriod o).
Definition set_LimiterOpt (o : Options) (v : option o_Limiter) : Options :=
  mkOptions (o_Datastore o) (o_PeerstoreOpt o) (o_ProviderStoreBuilder o) (o_DelegateHTTPClient
    o) (o_RoutingTableOpt o) (o_EnableRelay o) (o_Addrs o) (o_ProtocolPrefix o) (o_BucketSize o)
    v (o_BootstrapPeers o) (o_ID o) (o_DisableProvGC o) (o_DisableProvCounts o)
    (o_DisableProviders o) (o_DisableValues o) (o_ProvidersFinder o) (o_DisableResourceManager
    o) (o_ResourceManagerLimitsFile o) (o_ConnMgrHighWater o) (o_ConnMgrLowWater o)
    (o_ConnMgrGracePeriod o).
Definition set_BootstrapPeers (o : Options) (v : list o_Multiaddr) : Options :=
  mkOptions (o_Datastore o) (o_PeerstoreOpt o) (o_ProviderStoreBuilder o) (o_DelegateHTTPClient
    o) (o_RoutingTableOpt o) (o_EnableRelay o) (o_Addrs o) (o_ProtocolPrefix o) (o_BucketSize o)
    (o_LimiterOpt o) v (o_ID o) (o_DisableProvGC o) (o_DisableProvCounts o) (o_DisableProviders
    o) (o_DisableValues o) (o_ProvidersFinder o) (o_DisableResourceManager o)
    (o_ResourceManagerLimitsFile o) (o_ConnMgrHighWater o) (o_ConnMgrLowWater o)
    (o_ConnMgrGracePeriod o).
Definition set_ID (o : Options) (v : option o_PrivKey) : Options :=
  mkOptions (o_Datastore o) (o_PeerstoreOpt o) (o_ProviderStoreBuilder o) (o_DelegateHTTPClient
    o) (o_RoutingTableOpt o) (o_EnableRelay o) (o_Addrs o) (o_ProtocolPrefix o) (o_BucketSize o)
    (o_LimiterOpt o) (o_BootstrapPeers o) v (o_DisableProvGC o) (o_DisableProvCounts o)
    (o_DisableProviders o) (o_DisableValues o) (o_ProvidersFinder o) (o_DisableResourceManager
    o) (o_ResourceManagerLimitsFile o) (o_ConnMgrHighWater o) (o_ConnMgrLowWater o)
    (o_ConnMgrGracePeriod o).
Definition set_DisableProvGC (o : Options) (v : bool) : Options :=
  mkOptions (o_Datastore o) (o_PeerstoreOpt o) (o_ProviderStoreBuilder o) (o_DelegateHTTPClient
    o) (o_RoutingTableOpt o) (o_EnableRelay o) (o_Addrs o) (o_ProtocolPrefix o) (o_BucketSize o)
    (o_LimiterOpt o) (o_BootstrapPeers o) (o_ID o) v (o_DisableProvCounts o) (o_DisableProviders
    o) (o_DisableValues o) (o_ProvidersFinder o) (o_DisableResourceManager o)
    (o_ResourceManagerLimitsFile o) (o_ConnMgrHighWater o) (o_ConnMgrLowWater o)
    (o_ConnMgrGracePeriod o).
Definition set_DisableProvCounts (o : Options) (v : bool) : Options :=
  mkOptions (o_Datastore o) (o_PeerstoreOpt o) (o_ProviderStoreBuilder o) (o_DelegateHTTPClient
    o) (o_RoutingTableOpt o) (o_EnableRelay o) (o_Addrs o) (o_ProtocolPrefix o) (o_BucketSize o)
    (o_LimiterOpt o) (o_BootstrapPeers o) (o_ID o) (o_DisableProvGC o) v (o_DisableProviders o)
    (o_DisableValues o) (o_ProvidersFinder o) (o_DisableResourceManager o)
    (o_ResourceManagerLimitsFile o) (o_ConnMgrHighWater o) (o_ConnMgrLowWater o)
    (o_ConnMgrGracePeriod o).
Definition set_DisableProviders (o : Options) (v : bool) : Options :=
  mkOptions (o_Datastore o) (o_PeerstoreOpt o) (o_ProviderStoreBuilder o) (o_DelegateHTTPClient
    o) (o_RoutingTableOpt o) (o_EnableRelay o) (o_Addrs o) (o_ProtocolPrefix o) (o_BucketSize o)
    (o_LimiterOpt o) (o_BootstrapPeers o) (o_ID o) (o_DisableProvGC o) (o_DisableProvCounts o) v
    (o_DisableValues o) (o_ProvidersFinder o) (o_DisableResourceManager o)
    (o_ResourceManagerLimitsFile o) (o_ConnMgrHighWater o) (o_ConnMgrLowWater o)
    (o_ConnMgrGracePeriod o).
Definition set_DisableValues (o : Options) (v : bool) : Options :=
  mkOptions (o_Datastore o) (o_PeerstoreOpt o) (o_ProviderStoreBuilder o) (o_DelegateHTTPClient
    o) (o_RoutingTableOpt o) (o_EnableRelay o) (o_Addrs o) (o_ProtocolPrefix o) (o_BucketSize o)
    (o_LimiterOpt o) (o_BootstrapPeers o) (o_ID o) (o_DisableProvGC o) (o_DisableProvCounts o)
    (o_DisableProviders o) v (o_ProvidersFinder o) (o_DisableResourceManager o)
    (o_ResourceManagerLimitsFile o) (o_ConnMgrHighWater o) (o_ConnMgrLowWater o)
    (o_ConnMgrGracePeriod o).
Definition set_ProvidersFinder (o : Options) (v : option o_Finder) : Options :=
  mkOptions (o_Datastore o) (o_PeerstoreOpt o) (o_ProviderStoreBuilder o) (o_DelegateHTTPClient
    o) (o_RoutingTableOpt o) (o_EnableRelay o) (o_Addrs o) (o_ProtocolPrefix o) (o_BucketSize o)
    (o_LimiterOpt o) (o_BootstrapPeers o) (o_ID o) (o_DisableProvGC o) (o_DisableProvCounts o)
    (o_DisableProviders o) (o_DisableValues o) v (o_DisableResourceManager o)
    (o_ResourceManagerLimitsFile o) (o_ConnMgrHighWater o) (o_ConnMgrLowWater o)
    (o_ConnMgrGracePeriod o).
Definition set_DisableResourceManager (o : Options) (v : bool) : Options :=
  mkOptions (o_Datastore o) (o_PeerstoreOpt o) (o_ProviderStoreBuilder o) (o_DelegateHTTPClient
    o) (o_RoutingTableOpt o) (o_EnableRelay o) (o_Addrs o) (o_ProtocolPrefix o) (o_BucketSize o)
    (o_LimiterOpt o) (o_BootstrapPeers o) (o_ID o) (o_DisableProvGC o) (o_DisableProvCounts o)
    (o_DisableProviders o) (o_DisableValues o) (o_ProvidersFinder o) v
    (o_ResourceManagerLimitsFile o) (o_ConnMgrHighWater o) (o_ConnMgrLowWater o)
    (o_ConnMgrGracePeriod o).
Definition set_ResourceManagerLimitsFile (o : Options) (v : string) : Options :=
  mkOptions (o_Datastore o) (o_PeerstoreOpt o) (o_ProviderStoreBuilder o) (o_DelegateHTTPClient
    o) (o_RoutingTableOpt o) (o_EnableRelay o) (o_Addrs o) (o_ProtocolPrefix o) (o_BucketSize o)
    (o_LimiterOpt o) (o_BootstrapPeers o) (o_ID o) (o_DisableProvGC o) (o_DisableProvCounts o)
    (o_DisableProviders o) (o_DisableValues o) (o_ProvidersFinder o) (o_DisableResourceManager
    o) v (o_ConnMgrHighWater o) (o_ConnMgrLowWater o) (o_ConnMgrGracePeriod o).
Definition set_ConnMgrHighWater (o : Options) (v : Z) : Options :=
  mkOptions (o_Datastore o) (o_PeerstoreOpt o) (o_ProviderStoreBuilder o) (o_DelegateHTTPClient
    o) (o_RoutingTableOpt o) (o_EnableRelay o) (o_Addrs o) (o_ProtocolPrefix o) (o_BucketSize o)
    (o_LimiterOpt o) (o_BootstrapPeers o) (o_ID o) (o_DisableProvGC o) (o_DisableProvCounts o)
    (o_DisableProviders o) (o_DisableValues o) (o_ProvidersFinder o) (o_DisableResourceManager
    o) (o_ResourceManagerLimitsFile o) v (o_ConnMgrLowWater o) (o_ConnMgrGracePeriod o).
Definition set_ConnMgrLowWater (o : Options) (v : Z) : Options :=
  mkOptions (o_Datastore o) (o_PeerstoreOpt o) (o_ProviderStoreBuilder o) (o_DelegateHTTPClient
    o) (o_RoutingTableOpt o) (o_EnableRelay o) (o_Addrs o) (o_ProtocolPrefix o) (o_BucketSize o)
    (o_LimiterOpt o) (o_BootstrapPeers o) (o_ID o) (o_DisableProvGC o) (o_DisableProvCounts o)
    (o_DisableProviders o) (o_DisableValues o) (o_ProvidersFinder o) (o_DisableResourceManager
    o) (o_ResourceManagerLimitsFile o) (o_ConnMgrHighWater o) v (o_ConnMgrGracePeriod o).
Definition set_ConnMgrGracePeriod (o : Options) (v : Z) : Options :=
  mkOptions (o_Datastore o) (o_PeerstoreOpt o) (o_ProviderStoreBuilder o) (o_DelegateHTTPClient
    o) (o_RoutingTableOpt o) (o_EnableRelay o) (o_Addrs o) (o_ProtocolPrefix o) (o_BucketSize o)
    (o_LimiterOpt o) (o_BootstrapPeers o) (o_ID o) (o_DisableProvGC o) (o_DisableProvCounts o)
    (o_DisableProviders o) (o_DisableValues o) (o_ProvidersFinder o) (o_DisableResourceManager
    o) (o_ResourceManagerLimitsFile o) (o_ConnMgrHighWater o) (o_ConnMgrLowWater o) v.

Definition Defaults : Option := fun o =>
  let o := set_Datastore o (Some NewMapDatastore) in
  let tcpAddr := multiaddr_or_nil "/ip4/0.0.0.0/tcp/0" in
  let quicAddr := multiaddr_or_nil "/ip4/0.0.0.0/udp/0/quic" in
  let o := set_Addrs o [tcpAddr; quicAddr] in
  let o := set_ProtocolPrefix o DefaultPrefix in
  let o := set_BucketSize o 20 in
  let o := set_BootstrapPeers o DefaultBootstrapPeers in
  let o := set_ConnMgrHighWater o 1800 in
  let o := set_ConnMgrLowWater o 1200 in
  let o := set_ConnMgrGracePeriod o 60000000000 in
  (o, None).

(** ** The options *)

Definition Datastore (ds : option o_Batching) : Option := fun o => (set_Datastore o ds, None).
Definition Peerstore (ps : option o_Peerstore) : Option := fun o => (set_PeerstoreOpt o ps, None).
Definition ProviderStoreBuilder (builder : option o_Builder) : Option :=
  fun o => (set_ProviderStoreBuilder o builder, None).
Definition DelegateHTTPClient (c : option o_HTTPClient) : Option :=
  fun o => (set_DelegateHTTPClient o c, None).
Definition RoutingTable (rt : option o_RoutingTable) : Option :=
  fun o => (set_RoutingTableOpt o rt, None).
Definition EnableRelay : Option := fun o => (set_EnableRelay o true, None).
Definition Addrs (addrs : list (option o_Multiaddr)) : Option := fun o => (set_Addrs o addrs, None).
Definition ProtocolPrefix (pfx : string) : Option := fun o =>
  (if decide (pfx <> ""%string) then set_ProtocolPrefix o pfx else o, None).
Definition BucketSize (bucketSize : Z) : Option := fun o =>
  (if decide (bucketSize <> 0%Z) then set_BucketSize o bucketSize else o, None).
Definition Limiter (l : option o_Limiter) : Option := fun o => (set_LimiterOpt o l, None).
Definition BootstrapPeers (addrs : list o_Multiaddr) : Option := fun o =>
  (if decide (0 < length addrs) then set_BootstrapPeers o addrs else o, None).
Definition HeadID (id : option o_PrivKey) : Option := fun o =>
  (match id with Some _ => set_ID o id | None => o end, None).
Definition DisableProvGC : Option := fun o => (set_DisableProvGC o true, None).
Definition DisableProviders : Option := fun o => (set_DisableProviders o true, None).
Definition DisableValues : Option := fun o => (set_DisableValues o true, None).
Definition DisableProvCounts : Option := fun o => (set_DisableProvCounts o true, None).
Definition ProvidersFinder (f : option o_Finder) : Option := fun o => (set_ProvidersFinder o f, None).
Definition DisableResourceManager (b : bool) : Option :=
  fun o => (set_DisableResourceManager o b, None).
Definition ResourceManagerLimitsFile (f : string) : Option :=
  fun o => (set_ResourceManagerLimitsFile o f, None).
Definition ConnMgrHighWater (n : Z) : Option := fun o => (set_ConnMgrHighWater o n, None).
Definition ConnMgrLowWater (n : Z) : Option := fun o => (set_ConnMgrLowWater o n, None).
Definition ConnMgrGracePeriod (n : Z) : Option := fun o => (set_ConnMgrGracePeriod o n, None).
End options.
