(* ===== verification/Head.v ===== *)
(** * Heads (src/head/head.go, src/version/version.go)

    [buildRcmgr] and [NewHead] with the options they hand to libp2p and the
    DHT; and the goroutine of every head that connects to the bootstrap peers,
    as a step function on the heads that share a limiter. *)
From S2P Require Import Prelude Metrics Tasks HeadOptions.
Open Scope nat_scope.

Definition Version : string := "0.7.4".
Definition UserAgent : string := "hydra-booster/" +:+ Version.

(** ** The libraries *)

(** The fields of the scaling limits that the code sets; the others are [L]. *)
Record ScalingLimits (L : Type) := mkLimits {
  SystemBase_Conns : Z;
  SystemBase_ConnsInbound : Z;
  SystemBase_ConnsOutbound : Z;
  SystemIncrease_Conns : Z;
  SystemIncrease_ConnsInbound : Z;
  SystemIncrease_ConnsOutbound : Z;
  other_limits : L;
}.
Arguments mkLimits {L} _ _ _ _ _ _ _.
Arguments other_limits {L} _.

(** A limiter: without limits, read from a file, or scaled from limits. *)
Inductive RcmgrLimiter (F L : Type) : Type :=
| InfiniteLimits
| LimitsFromJSON (file : F)
| AutoScaled (limits : ScalingLimits L).
Arguments InfiniteLimits {F L}.
Arguments LimitsFromJSON {F L} _.
Arguments AutoScaled {F L} _.

Class RcmgrLibs := {
  LimitsFile : Type;
  OtherLimits : Type;
  os_Open : string -> result LimitsFile;
  (** The error of [rcmgr.NewDefaultLimiterFromJSON]. *)
  BadLimiterJSON : LimitsFile -> option goerror;
  DefaultLimits : ScalingLimits OtherLimits;
  SetDefaultServiceLimits : ScalingLimits OtherLimits -> ScalingLimits OtherLimits;
  (** The error of [rcmgr.NewResourceManager]. *)
  NewResourceManager : RcmgrLimiter LimitsFile OtherLimits -> string -> option goerror;
}.

Section rcmgr.
Context `{RcmgrLibs}.

(** The resource manager: its limiter, and the name its metrics carry. *)
Abbreviation ResourceManager := (RcmgrLimiter LimitsFile OtherLimits * string)%type.

Definition default_limiter : RcmgrLimiter LimitsFile OtherLimits :=
  let limits := mkLimits 256 128 128 1024 1024 1024 (other_limits DefaultLimits) in
  AutoScaled (SetDefaultServiceLimits limits).

Definition buildRcmgr (ctx : Tags) (disableRM : bool) (limitsFile : string)
    : result ResourceManager :=
  let limiter : result (RcmgrLimiter LimitsFile OtherLimits) :=
    if disableRM then inr InfiniteLimits
    else if decide (limitsFile <> ""%string) then
      match os_Open limitsFile with
      | inl err => inl (Errorf "opening Resource Manager limits file" err)
      | inr f =>
          match BadLimiterJSON f with
          | Some err => inl (Errorf "creating Resource Manager limiter" err)
          | None => inr (LimitsFromJSON f)
          end
      end
    else inr default_limiter in
  match limiter with
  | inl err => inl err
  | inr limiter =>
      match CreateRcmgrMetrics ctx with
      | inl err => inl (Errorf "creating Resource Manager metrics" err)
      | inr name =>
          match NewResourceManager limiter name with
          | Some err => inl (Errorf "constructing resource manager" err)
          | None => inr (limiter, name)
          end
      end
  end.
End rcmgr.

(** ** NewHead *)

Section head.
Context `{OptTypes, RcmgrLibs}.

Inductive Libp2pOption : Type :=
| L_UserAgent (ua : string)
| L_ListenAddrs (addrs : list (option o_Multiaddr))
| L_ConnectionManager (low high grace : Z)
| L_Identity (id : option o_PrivKey)
| L_EnableNATService
| L_AutoNATServiceRateLimit (global perPeer interval : Z)
| L_DefaultMuxers
| L_Transport (name : string)
| L_Security (name : string)
| L_ResourceManager (limiter : RcmgrLimiter LimitsFile OtherLimits) (name : string)
| L_Peerstore (ps : o_Peerstore)
| L_EnableRelay.

(** The store a head ends up with. *)
Inductive HeadStore (S : Type) : Type :=
| DefaultStore (gcDisabled : bool)
| BuiltStore (s : S)
| CachingStore (backend : HeadStore S) (finder : o_Finder).
Arguments DefaultStore {S} _.
Arguments BuiltStore {S} _.
Arguments CachingStore {S} _ _.

Inductive DhtOption (S : Type) : Type :=
| D_ModeServer
| D_ProtocolPrefix (pfx : string)
| D_BucketSize (n : Z)
| D_Datastore (ds : option o_Batching)
| D_PublicQueryFilter
| D_PublicRoutingTableFilter
| D_DisableValues
| D_Validator (namespaces : list string)
| D_DisableProviders
| D_ProviderStore (store : HeadStore S).
Arguments D_ModeServer {S}.
Arguments D_ProtocolPrefix {S} _.
Arguments D_BucketSize {S} _.
Arguments D_Datastore {S} _.
Arguments D_PublicQueryFilter {S}.
Arguments D_PublicRoutingTableFilter {S}.
Arguments D_DisableValues {S}.
Arguments D_Validator {S} _.
Arguments D_DisableProviders {S}.
Arguments D_ProviderStore {S} _.

(** The calls that can fail; a store has the type [S], a host [N]. *)
Record HeadLibs (N S : Type) := {
  NewConnManager : Z -> Z -> Z -> option goerror;
  libp2p_New : list Libp2pOption -> result N;
  run_Builder : o_Builder -> Options -> N -> result S;
  NewLRUWithExpire : Z -> Z -> option goerror;
  NewProviderManager : N -> option o_Batching -> bool -> option goerror;
  dht_New : N -> list (DhtOption S) -> option goerror;
}.
Arguments NewConnManager {N S} _ _ _ _.
Arguments libp2p_New {N S} _ _.
Arguments run_Builder {N S} _ _ _ _.
Arguments NewLRUWithExpire {N S} _ _ _.
Arguments NewProviderManager {N S} _ _ _ _.
Arguments dht_New {N S} _ _ _.

(** What a successful [NewHead] has built. *)
Record Head (N S : Type) := mkHead {
  h_Host : N;
  h_config : Options;
  h_libp2p : list Libp2pOption;
  h_dht : list (DhtOption S);
  h_store : HeadStore S;
  h_counts_records : bool; (* the task of NewProviderRecordsTask runs *)
}.
Arguments mkHead {N S} _ _ _ _ _ _.
Arguments h_Host {N S} _.
Arguments h_config {N S} _.
Arguments h_libp2p {N S} _.
Arguments h_dht {N S} _.
Arguments h_store {N S} _.
Arguments h_counts_records {N S} _.

(** What [NewHead] starts, and what it writes to the caching store: the goroutine
    that closes the node when the context is done, the task that counts provider
    records, the router of the caching store, [dhtNode.Bootstrap], and the
    goroutine that connects to the bootstrap peers (the model [Bootstrap]). *)
Inductive HeadEffect (N S : Type) : Type :=
| CloseOnDone (node : N)
| RunProviderRecordsTask (datastore : option o_Batching) (store : HeadStore S) (interval : Z)
| SetRouter
| DhtBootstrap
| GoBootstrap (limiter : option o_Limiter) (peers : list o_Multiaddr).
Arguments CloseOnDone {N S} _.
Arguments RunProviderRecordsTask {N S} _ _ _.
Arguments SetRouter {N S}.
Arguments DhtBootstrap {N S}.
Arguments GoBootstrap {N S} _ _.

Context {N S : Type} (libs : HeadLibs N S).

Definition provCacheSize : Z := 256.
Definition provCacheExpiry : Z := 3600000000000.

(** With the GC disabled the cleanup interval is a hundred years. *)
Definition newDefaultProviderStore (options : Options) (h : N) : result (HeadStore S) :=
  if o_DisableProvGC options then
    match NewLRUWithExpire libs provCacheSize provCacheExpiry with
    | Some err => inl err
    | None => option_to_result (NewProviderManager libs h (o_Datastore options) true) (DefaultStore true)
    end
  else option_to_result (NewProviderManager libs h (o_Datastore options) false) (DefaultStore false).

(** The error of [Apply] is dropped. *)
Definition head_config (options : list Option) : Options :=
  (Apply zeroOptions (Defaults :: options)).1.

Definition libp2p_options (cfg : Options) (rm : RcmgrLimiter LimitsFile OtherLimits * string)
    : list Libp2pOption :=
  [L_UserAgent UserAgent; L_ListenAddrs (o_Addrs cfg);
   L_ConnectionManager (o_ConnMgrLowWater cfg) (o_ConnMgrHighWater cfg) (o_ConnMgrGracePeriod cfg);
   L_Identity (o_ID cfg); L_EnableNATService; L_AutoNATServiceRateLimit 0 3 60000000000;
   L_DefaultMuxers; L_Transport "quic"; L_Transport "tcp"; L_Security "tls"; L_Security "noise";
   L_ResourceManager rm.1 rm.2] ++
  (match o_PeerstoreOpt cfg with Some ps => [L_Peerstore ps] | None => [] end) ++
  (if o_EnableRelay cfg then [L_EnableRelay] else []).

Definition dht_options (cfg : Options) (store : HeadStore S) : list (DhtOption S) :=
  [D_ModeServer; D_ProtocolPrefix (o_ProtocolPrefix cfg); D_BucketSize (o_BucketSize cfg);
   D_Datastore (o_Datastore cfg); D_PublicQueryFilter; D_PublicRoutingTableFilter] ++
  (if o_DisableValues cfg then [D_DisableValues] else [D_Validator ["pk"; "ipns"]%string]) ++
  (if o_DisableProviders cfg then [D_DisableProviders] else []) ++
  [D_ProviderStore store].

(** The provider store before the caching store is put in front of it. *)
Definition base_store (cfg : Options) (node : N) : result (HeadStore S) :=
  match o_ProviderStoreBuilder cfg with
  | None => newDefaultProviderStore cfg node
  | Some b =>
      match run_Builder libs b cfg node with
      | inl err => inl err
      | inr ps => inr (BuiltStore ps)
      end
  end.

(** [if cfg.ProvidersFinder != nil]: the caching store has no router yet. *)
Definition front_store (cfg : Options) (providerStore : HeadStore S) : HeadStore S :=
  match o_ProvidersFinder cfg with
  | Some f => CachingStore providerStore f
  | None => providerStore
  end.

Definition NewHead (ctx : Tags) (options : list Option) : started (HeadEffect N S) (Head N S) :=
  let cfg := head_config options in
  _ ← call (wrap_error "building connmgr" (option_to_result
    (NewConnManager libs (o_ConnMgrLowWater cfg) (o_ConnMgrHighWater cfg)
      (o_ConnMgrGracePeriod cfg)) tt));
  rm ← call (buildRcmgr ctx (o_DisableResourceManager cfg) (o_ResourceManagerLimitsFile cfg));
  let libp2pOpts := libp2p_options cfg rm in
  node ← call (wrap_error "failed to spawn libp2p node" (libp2p_New libs libp2pOpts));
  _ ← start (CloseOnDone node);
  providerStore ← call (base_store cfg node);
  _ ← start_if (negb (o_DisableProvCounts cfg))
    (RunProviderRecordsTask (o_Datastore cfg) providerStore providerRecordsTaskInterval);
  let store := front_store cfg providerStore in
  let dhtOpts := dht_options cfg store in
  _ ← call (wrap_error "failed to instantiate DHT"
    (option_to_result (dht_New libs node dhtOpts) tt));
  _ ← start_if (if o_ProvidersFinder cfg is Some _ then true else false) SetRouter;
  _ ← start DhtBootstrap;
  _ ← start (GoBootstrap (o_LimiterOpt cfg) (o_BootstrapPeers cfg));
  mret (mkHead node cfg libp2pOpts dhtOpts store (negb (o_DisableProvCounts cfg))).
End head.
Arguments DefaultStore {_ S} _.
Arguments BuiltStore {_ S} _.
Arguments CachingStore {_ S} _ _.
Arguments D_ModeServer {_ S}.
Arguments D_ProtocolPrefix {_ S} _.
Arguments D_BucketSize {_ S} _.
Arguments D_Datastore {_ S} _.
Arguments D_PublicQueryFilter {_ S}.
Arguments D_PublicRoutingTableFilter {_ S}.
Arguments D_DisableValues {_ S}.
Arguments D_Validator {_ S} _.
Arguments D_DisableProviders {_ S}.
Arguments D_ProviderStore {_ S} _.
Arguments CloseOnDone {_ N S} _.
Arguments RunProviderRecordsTask {_ N S} _ _ _.
Arguments SetRouter {_ N S}.
Arguments DhtBootstrap {_ N S}.
Arguments GoBootstrap {_ N S} _ _.
Arguments mkHead {_ _ N S} _ _ _ _ _ _.
Arguments h_Host {_ _ N S} _.
Arguments h_config {_ _ N S} _.
Arguments h_libp2p {_ _ N S} _.
Arguments h_dht {_ _ N S} _.
Arguments h_store {_ _ N S} _.
Arguments h_counts_records {_ _ N S} _.
Arguments NewConnManager {_ _ N S} _ _ _ _.
Arguments libp2p_New {_ _ N S} _ _.
Arguments run_Builder {_ _ N S} _ _ _ _.
Arguments NewLRUWithExpire {_ _ N S} _ _ _.
Arguments NewProviderManager {_ _ N S} _ _ _ _.
Arguments dht_New {_ _ N S} _ _ _.
#[global] Arguments NewHead : simpl never.
