(* ===== verification/Bootstrap.v ===== *)
(** * Bootstrapping (src/head/head.go, src/hydra/hydra.go)

    The goroutine of [NewHead] that takes a slot of the shared limiter,
    connects to the bootstrap peers and reports on a channel, for all heads of a
    hydra together with [handleBootstrapStatus], which reads the channels. A
    send on the unbuffered channel and its receipt are one step. *)
From S2P Require Import Prelude Metrics.
Open Scope nat_scope.

(** What a head sends on its channel. *)
Record BootstrapStatus := mkStatus {
  Done : bool;
  Err : option goerror;
}.

(** A goroutine that connects to one bootstrap peer: connecting, sending its
    error, or ended, with the peer protected or not. *)
Inductive attempt : Type :=
| Connecting
| Failing (err : goerror)
| Ended (protected : bool).

(** How the calls of the goroutine end: the address is not that of a peer, the
    connection fails, or it is there. [Errorf] keeps the text before the error. *)
Inductive connect_result : Type :=
| AddrInvalid (err : goerror)
| ConnectFailed (err : goerror)
| PeerConnected.

Definition after_connect (res : connect_result) : attempt :=
  match res with
  | AddrInvalid err => Failing (Errorf "failed to get random bootstrap multiaddr" err)
  | ConnectFailed err => Failing (Errorf "bootstrap connect failed with error" err)
  | PeerConnected => Ended true
  end.

(** Where the goroutine of a head is: sending to the limiter, with the number of
    bootstrap peers it will connect to; waiting for its attempts; sending
    [Done]; receiving from the limiter; closing the channel; past that; or
    returned early because the context is done, holding a slot or not. *)
Inductive bhead : Type :=
| Acquiring (peers : nat)
| Attempting (attempts : list attempt)
| SendingDone
| ReleasingSlot
| ClosingCh
| ChClosed
| Returned (holding : bool).

#[export] Instance attempt_eq_dec : EqDecision attempt.
Proof. solve_decision. Defined.
#[export] Instance bhead_eq_dec : EqDecision bhead.
Proof. solve_decision. Defined.

(** The limiter is a channel of capacity [b_cap] with [b_used] elements; [None]
    is the nil channel. *)
Record BState := mkB {
  b_cap : option nat;
  b_used : nat;
  b_heads : list bhead;
  b_cancelled : bool;
  b_log : list (nat * Recording); (* with the head whose status was read *)
}.

(** The steps of head [i] and of its attempt [j]. When the context is done, an
    attempt may give up sending its status, and the head may return early. *)
Inductive bevent : Type :=
| BAcquire (i : nat)
| BReturn (i : nat)
| BAttempt (i j : nat) (res : connect_result)
| BReport (i j : nat)
| BGiveUp (i j : nat)
| BWaited (i : nat)
| BDone (i : nat)
| BRelease (i : nat)
| BClose (i : nat)
| BCancel.

Definition set_bhead (s : BState) (i : nat) (h : bhead) : BState :=
  mkB (b_cap s) (b_used s) (<[i := h]> (b_heads s)) (b_cancelled s) (b_log s).
Definition set_used (s : BState) (n : nat) : BState :=
  mkB (b_cap s) n (b_heads s) (b_cancelled s) (b_log s).

(** After the limiter: the attempts start, if there are bootstrap peers. *)
Definition start_attempts (peers : nat) : bhead :=
  if 0 <? peers then Attempting (replicate peers Connecting) else ReleasingSlot.

Definition ended (a : attempt) : bool := match a with Ended _ => true | _ => false end.

Section bootstrap.
(** The context of [handleBootstrapStatus] for a head. *)
Context (head_ctx : nat -> Tags).

(** [handleBootstrapStatus] on a status; it prints the error. *)
Definition handle_status (s : BState) (i : nat) (status : BootstrapStatus) : BState :=
  if Done status then
    mkB (b_cap s) (b_used s) (b_heads s) (b_cancelled s)
      (b_log s ++ [(i, Record_ (head_ctx i) [(BootstrappedHeads, 1%Z)])])
  else s.

Definition bstep (s : BState) (e : bevent) : option BState :=
  match e with
  | BAcquire i =>
      match b_heads s !! i with
      | Some (Acquiring n) =>
          match b_cap s with
          | None => Some (set_bhead s i (start_attempts n))
          | Some cap =>
              if b_used s <? cap
              then Some (set_bhead (set_used s (S (b_used s))) i (start_attempts n))
              else None
          end
      | _ => None
      end
  | BReturn i =>
      if b_cancelled s then
        match b_heads s !! i with
        | Some (Acquiring _) =>
            if b_cap s is Some _ then Some (set_bhead s i (Returned false)) else None
        | Some (Attempting attempts) =>
            if forallb ended attempts then Some (set_bhead s i (Returned true)) else None
        | Some SendingDone => Some (set_bhead s i (Returned true))
        | _ => None
        end
      else None
  | BAttempt i j res =>
      match b_heads s !! i with
      | Some (Attempting attempts) =>
          match attempts !! j with
          | Some Connecting =>
              Some (set_bhead s i (Attempting (<[j := after_connect res]> attempts)))
          | _ => None
          end
      | _ => None
      end
  | BReport i j =>
      match b_heads s !! i with
      | Some (Attempting attempts) =>
          match attempts !! j with
          | Some (Failing err) =>
              Some (set_bhead (handle_status s i (mkStatus false (Some err))) i (Attempting (<[j := Ended false]> attempts)))
          | _ => None
          end
      | _ => None
      end
  | BGiveUp i j =>
      if b_cancelled s then
        match b_heads s !! i with
        | Some (Attempting attempts) =>
            match attempts !! j with
            | Some (Failing _) => Some (set_bhead s i (Attempting (<[j := Ended false]> attempts)))
            | _ => None
            end
        | _ => None
        end
      else None
  | BWaited i =>
      match b_heads s !! i with
      | Some (Attempting attempts) =>
          if forallb ended attempts && negb (b_cancelled s)
          then Some (set_bhead s i SendingDone) else None
      | _ => None
      end
  | BDone i =>
      match b_heads s !! i with
      | Some SendingDone => Some (set_bhead (handle_status s i (mkStatus true None)) i ReleasingSlot)
      | _ => None
      end
  | BRelease i =>
      match b_heads s !! i with
      | Some ReleasingSlot =>
          match b_cap s, b_used s with
          | None, _ => Some (set_bhead s i ClosingCh)
          | Some _, S used => Some (set_bhead (set_used s used) i ClosingCh)
          | Some _, O => None
          end
      | _ => None
      end
  | BClose i =>
      match b_heads s !! i with
      | Some ClosingCh => Some (set_bhead s i ChClosed)
      | _ => None
      end
  | BCancel => Some (mkB (b_cap s) (b_used s) (b_heads s) true (b_log s))
  end.

Fixpoint bsteps (s : BState) (es : list bevent) : option BState :=
  match es with
  | [] => Some s
  | e :: es => s' ← bstep s e; bsteps s' es
  end.

(** The heads of a hydra, each with its number of bootstrap peers. *)
Definition bstart (cap : option nat) (peers : list nat) : BState :=
  mkB cap 0 (Acquiring <$> peers) false [].
End bootstrap.
