(* ===== verification/BootstrapSpec.v ===== *)
(** * Theorems on bootstrapping (src/head/head.go, src/hydra/hydra.go) *)
From S2P Require Import Prelude Metrics Bootstrap.
Open Scope nat_scope.

Section bootstrap.
Context (head_ctx : nat -> Tags).
Implicit Types (s : BState) (h : bhead).

Abbreviation step := (bstep head_ctx).
Abbreviation steps := (bsteps head_ctx).

(** ** The invariant *)

(** The slot a head holds. *)
Definition slot h : list unit :=
  match h with
  | Attempting _ | SendingDone | ReleasingSlot | Returned true => [tt]
  | _ => []
  end.

(** How often a head has been counted as bootstrapped. *)
Definition counted s (i : nat) : nat := length (filter (fun p => p.1 = i) (b_log s)).

(** A head with [n] bootstrap peers that has been counted [c] times. *)
Definition head_ok (cancelled : bool) (n c : nat) h : Prop :=
  match h with
  | Acquiring m => m = n /\ c = 0
  | Attempting _ | SendingDone => 0 < n /\ c = 0
  | ReleasingSlot | ClosingCh | ChClosed => c = if 0 <? n then 1 else 0
  | Returned _ => c = 0 /\ cancelled = true
  end.

Record binv (cap : nat) (peers : list nat) s : Prop := {
  binv_cap : b_cap s = Some cap;
  binv_used : b_used s = length (b_heads s ≫= slot);
  binv_bound : b_used s <= cap;
  binv_heads : Forall2 (fun p h => head_ok (b_cancelled s) p.2 (counted s p.1) h)
    (imap pair peers) (b_heads s);
}.

Lemma binv_head cap peers s i h :
  binv cap peers s -> b_heads s !! i = Some h ->
  exists n, peers !! i = Some n /\ head_ok (b_cancelled s) n (counted s i) h.
Proof.
  intros Hinv Hi. destruct (Forall2_lookup_r _ _ _ _ _ (binv_heads _ _ _ Hinv) Hi)
    as ([j n] & Hj & Hok).
  rewrite list_lookup_imap in Hj. destruct (peers !! i) as [n'|]; [|done].
  simplify_eq/=. by exists n.
Qed.

(** A step of one head. *)
Lemma binv_step cap peers s s' i h h' :
  binv cap peers s -> b_heads s !! i = Some h ->
  b_cap s' = b_cap s -> b_cancelled s' = b_cancelled s -> b_heads s' = <[i := h']> (b_heads s) ->
  b_used s' + length (slot h) = b_used s + length (slot h') -> b_used s' <= cap ->
  (forall j, j <> i -> counted s' j = counted s j) ->
  (forall n, peers !! i = Some n -> head_ok (b_cancelled s) n (counted s i) h ->
    head_ok (b_cancelled s) n (counted s' i) h') ->
  binv cap peers s'.
Proof.
  intros Hinv Hi Hcap Hcan Hheads Hused Hbound Hother Hhead.
  destruct (bind_insert_perm slot _ _ _ Hi) as (rest & Hr & Hr').
  split; [by rewrite Hcap, (binv_cap _ _ _ Hinv)| |done|].
  - pose proof (binv_used _ _ _ Hinv) as Hu. rewrite Hheads. rewrite (Hr' h'), length_app.
    rewrite Hr, length_app in Hu. lia.
  - rewrite Hheads, Hcan. apply Forall2_lookup. intros j.
    pose proof (binv_heads _ _ _ Hinv) as HF. rewrite Forall2_lookup in HF. specialize (HF j).
    rewrite list_lookup_imap in *. destruct (decide (j = i)) as [->|Hne].
    + rewrite list_lookup_insert_eq by (by eapply lookup_lt_Some). rewrite Hi in HF.
      destruct (peers !! i) as [n|]; inversion HF; subst. constructor. by apply Hhead.
    + rewrite list_lookup_insert_ne by done.
      destruct (peers !! j) as [n|], (b_heads s !! j) as [hj|]; inversion HF; subst; constructor.
      simpl in *. by rewrite Hother.
Qed.

Lemma counted_done s i j :
  counted (handle_status head_ctx s i (mkStatus true None)) j = counted s j + if decide (i = j) then 1 else 0.
Proof.
  unfold counted, handle_status. cbn. rewrite filter_app, length_app, filter_cons, filter_nil. cbn.
  case_decide; done.
Qed.

Lemma binv_bstart cap peers : binv cap peers (bstart (Some cap) peers).
Proof.
  assert (forall l : list nat, (Acquiring <$> l) ≫= slot = []) as Hslots by (by induction l).
  split; cbn; rewrite ?Hslots; [done|done|simpl; lia|].
  apply Forall2_lookup. intros i. rewrite list_lookup_imap, list_lookup_fmap.
  destruct (peers !! i); by constructor.
Qed.

(** A step of attempt [j] of head [i]. *)
Ltac attempt_step cap peers s i j :=
  let Hi := fresh "Hi" in
  destruct (b_heads s !! i) as [[|att| | | | |]|] eqn:Hi; try done;
  destruct (att !! j) as [[| |]|]; try done; intros [= <-];
  by eapply (binv_step cap peers s _ i).

Lemma binv_bstep cap peers s e s' : binv cap peers s -> step s e = Some s' -> binv cap peers s'.
Proof.
  intros Hinv. pose proof (binv_cap _ _ _ Hinv) as Hcap. pose proof (binv_bound _ _ _ Hinv) as Hb.
  destruct e as [i|i|i j res|i j|i j|i|i|i|i|]; cbn [bstep].
  - destruct (b_heads s !! i) as [[n| | | | | |]|] eqn:Hi; try done. rewrite Hcap.
    destruct (Nat.ltb_spec (b_used s) cap); [|done]. intros [= <-].
    eapply (binv_step cap peers s _ i _ (start_attempts n)); try done.
    + unfold start_attempts. cbn. case_match; simpl; lia.
    + intros n' _ [-> Hc]. unfold start_attempts.
      destruct (Nat.ltb_spec 0 n') as [Hn|Hn]; [by split|].
      change (counted s i = if 0 <? n' then 1 else 0).
      by rewrite (proj2 (Nat.ltb_ge _ _)).
  - destruct (b_cancelled s) eqn:Hcan; [|done].
    destruct (b_heads s !! i) as [[n|att| | | | |]|] eqn:Hi; try done; rewrite ?Hcap.
    + intros [= <-]. by eapply (binv_step cap peers s _ i _ (Returned false)); try done; intros ? _ [_ ?].
    + destruct (forallb _ _); [|done]. intros [= <-].
      by eapply (binv_step cap peers s _ i _ (Returned true)); try done; intros ? _ [_ ?].
    + intros [= <-]. by eapply (binv_step cap peers s _ i _ (Returned true)); try done; intros ? _ [_ ?].
  - attempt_step cap peers s i j.
  - attempt_step cap peers s i j.
  - destruct (b_cancelled s) eqn:Hcan; [|done]. attempt_step cap peers s i j.
  - destruct (b_heads s !! i) as [[n|att| | | | |]|] eqn:Hi; try done.
    destruct (_ && _); [|done]. intros [= <-]. by eapply (binv_step cap peers s _ i).
  - destruct (b_heads s !! i) as [[n|att| | | | |]|] eqn:Hi; try done.
    intros [= <-]. eapply (binv_step cap peers s _ i); try done.
    + intros j Hj. change (counted (handle_status head_ctx s i (mkStatus true None)) j = counted s j).
      rewrite counted_done, decide_False by done. lia.
    + intros n _ [Hn Hc]. change (counted (handle_status head_ctx s i (mkStatus true None)) i =
        if 0 <? n then 1 else 0).
      rewrite counted_done, decide_True, Hc, (proj2 (Nat.ltb_lt _ _)) by done. done.
  - destruct (b_heads s !! i) as [[n|att| | | | |]|] eqn:Hi; try done. rewrite Hcap.
    destruct (b_used s) as [|u] eqn:Hu; [done|]. intros [= <-].
    eapply (binv_step cap peers s _ i); try done; cbn; lia.
  - destruct (b_heads s !! i) as [[n|att| | | | |]|] eqn:Hi; try done.
    intros [= <-]. by eapply (binv_step cap peers s _ i).
  - intros [= <-]. destruct Hinv as [? ? ? Hh]. split; [done..|]. cbn.
    eapply Forall2_impl; [exact Hh|]. intros [k n] h. by destruct h; cbn; naive_solver.
Qed.

Lemma binv_bsteps cap peers s es s' :
  binv cap peers s -> steps s es = Some s' -> binv cap peers s'.
Proof.
  revert s. induction es as [|e es IH]; intros s Hinv; cbn; [by intros [= <-]|].
  destruct (step s e) as [s1|] eqn:He; [|done]. cbn. apply IH. by eapply binv_bstep.
Qed.
(** ** Completion *)

(** The steps a head still owes. *)
Definition attempt_owes (a : attempt) : list unit :=
  match a with Connecting => [tt; tt] | Failing _ => [tt] | Ended _ => [] end.
Definition owes h : list unit :=
  match h with
  | Acquiring n => replicate (2 * n + 5) tt
  | Attempting att => (att ≫= attempt_owes) ++ replicate 4 tt
  | SendingDone => replicate 3 tt
  | ReleasingSlot => replicate 2 tt
  | ClosingCh => [tt]
  | ChClosed | Returned _ => []
  end.
Definition owed_total s : nat := length (b_heads s ≫= owes).

Lemma owed_step s s' i h h' :
  b_heads s !! i = Some h -> b_heads s' = <[i := h']> (b_heads s) ->
  length (owes h') < length (owes h) -> owed_total s' < owed_total s.
Proof.
  intros Hi Hs Hlt. destruct (bind_insert_perm owes _ _ _ Hi) as (rest & Hr & Hr').
  unfold owed_total. rewrite Hs, (Hr' h'), Hr, !length_app. lia.
Qed.

Lemma owes_start n : length (owes (start_attempts n)) < length (owes (Acquiring n)).
Proof.
  unfold start_attempts. destruct (0 <? n); cbn [owes]; rewrite ?length_app, !length_replicate; [|lia].
  assert (length (replicate n Connecting ≫= attempt_owes) = 2 * n) as ->; [|lia].
  induction n as [|n IH]; [done|]. cbn in *. lia.
Qed.

Lemma owes_attempt att j a a' :
  att !! j = Some a -> length (attempt_owes a') < length (attempt_owes a) ->
  length (owes (Attempting (<[j := a']> att))) < length (owes (Attempting att)).
Proof.
  intros Hj Hlt. destruct (bind_insert_perm attempt_owes _ _ _ Hj) as (rest & Hr & Hr').
  cbn [owes]. rewrite !length_app, (Hr' a'), Hr, !length_app. lia.
Qed.

(** A head that is neither waiting for a slot nor finished can go on. *)
Lemma head_progress cap peers s i h :
  binv cap peers s -> b_cancelled s = false -> b_heads s !! i = Some h ->
  (forall n, h <> Acquiring n) -> h <> ChClosed ->
  exists e s', step s e = Some s' /\ owed_total s' < owed_total s /\ b_cancelled s' = false.
Proof.
  intros Hinv Hcan Hi Hacq Hcl. destruct h as [n|att| | | | |hold]; [by destruct (Hacq n)|..|done|].
  - destruct (forallb ended att) eqn:Hall.
    + exists (BWaited i). cbn. rewrite Hi, Hall, Hcan. eexists. split; [done|]. split; [|done].
      eapply (owed_step s _ i _ SendingDone); [done..|]. cbn. rewrite length_app. simpl. lia.
    + assert (exists j a, att !! j = Some a /\ ended a = false) as (j & a & Hj & Ha).
      { clear -Hall. induction att as [|a att IH]; [done|]. cbn in Hall.
        apply andb_false_iff in Hall as [Ha|Ha]; [by exists 0, a|].
        destruct (IH Ha) as (j & b & ? & ?). by exists (S j), b. }
      destruct a as [|err|p]; [| |done].
      * exists (BAttempt i j PeerConnected). cbn. rewrite Hi, Hj. eexists. split; [done|]. split; [|done].
        eapply owed_step; [done..|]. eapply owes_attempt; [done|]. simpl. lia.
      * exists (BReport i j). cbn. rewrite Hi, Hj. eexists. split; [done|]. split; [|done].
        eapply owed_step; [done..|]. eapply owes_attempt; [done|]. simpl. lia.
  - exists (BDone i). cbn. rewrite Hi. eexists. split; [done|]. split; [|done].
    eapply owed_step; [done..|]. simpl. lia.
  - pose proof (binv_used _ _ _ Hinv) as Hu.
    destruct (bind_insert_perm slot _ _ _ Hi) as (rest & Hr & _).
    rewrite Hr in Hu. destruct (b_used s) as [|u] eqn:Hus; [done|].
    exists (BRelease i). cbn. rewrite Hi, (binv_cap _ _ _ Hinv), Hus.
    eexists. split; [done|]. split; [|done]. eapply owed_step; [done..|]. simpl. lia.
  - exists (BClose i). cbn. rewrite Hi. eexists. split; [done|]. split; [|done].
    eapply owed_step; [done..|]. simpl. lia.
  - destruct (binv_head _ _ _ _ _ Hinv Hi) as (n & _ & _ & Hc). congruence.
Qed.

Lemma bootstrap_progress cap peers s :
  binv cap peers s -> 0 < cap -> b_cancelled s = false ->
  (exists h, h ∈ b_heads s /\ h <> ChClosed) ->
  exists e s', step s e = Some s' /\ owed_total s' < owed_total s /\ b_cancelled s' = false.
Proof.
  intros Hinv Hcap Hcan (h0 & [i0 Hi0]%list_elem_of_lookup & Hne0).
  destruct (decide (Exists (fun h => slot h <> [] \/ h = ClosingCh) (b_heads s))) as [He|He].
  { apply Exists_exists in He as (h & [i Hi]%list_elem_of_lookup & Hh).
    eapply (head_progress _ _ _ i h); [done..| |]; [intros n ->|intros ->]; naive_solver. }
  assert (b_heads s ≫= slot = []) as Hslots.
  { clear -He. induction (b_heads s) as [|h hs IH]; [done|]. cbn.
    rewrite Exists_cons in He. rewrite IH by tauto. rewrite app_nil_r.
    destruct (slot h) eqn:Hs; [done|]. exfalso. apply He. left. left. congruence. }
  destruct h0 as [n|att| | | | |[]]; try (exfalso; apply He, Exists_exists; eexists;
    split; [by eapply list_elem_of_lookup_2|]; simpl; naive_solver).
  - exists (BAcquire i0). cbn [bstep]. rewrite Hi0, (binv_cap _ _ _ Hinv).
    rewrite (binv_used _ _ _ Hinv), Hslots, (proj2 (Nat.ltb_lt _ _)) by done.
    eexists. split; [done|]. split; [|done]. eapply owed_step; [done..|]. apply owes_start.
  - destruct (binv_head _ _ _ _ _ Hinv Hi0) as (n & _ & _ & Hc). congruence.
Qed.

Lemma bootstrap_completes_from cap peers s :
  binv cap peers s -> 0 < cap -> b_cancelled s = false ->
  exists es s', steps s es = Some s' /\ Forall (fun h => h = ChClosed) (b_heads s') /\
    length es <= owed_total s.
Proof.
  remember (owed_total s) as m eqn:Hm. revert s Hm.
  induction m as [m IH] using lt_wf_ind. intros s -> Hinv Hcap Hcan.
  destruct (decide (Forall (fun h => h = ChClosed) (b_heads s))) as [Hall|Hnot].
  { exists [], s. split_and!; [done..|simpl; lia]. }
  apply not_Forall_Exists in Hnot; [|apply _].
  destruct (bootstrap_progress cap peers s Hinv Hcap Hcan) as (e & s1 & He & Hlt & Hcan1).
  { apply Exists_exists in Hnot. naive_solver. }
  destruct (IH _ Hlt s1 eq_refl) as (es & s' & Hes & Hall & Hlen); [|done..|].
  { by eapply binv_bstep. }
  exists (e :: es), s'. split_and!; [|done|simpl; lia]. cbn. by rewrite He.
Qed.

Lemma steps_not_cancelled s es s' :
  BCancel ∉ es -> b_cancelled s = false -> steps s es = Some s' -> b_cancelled s' = false.
Proof.
  revert s. induction es as [|e es IH]; intros s Hes Hc; cbn; [by intros [= <-]|].
  destruct (step s e) as [s1|] eqn:He; [|done]. cbn. apply IH; [set_solver|].
  apply not_elem_of_cons in Hes as [Hne _].
  revert He. destruct e; cbn [bstep]; try (by destruct Hne);
    repeat (case_match; try done); by intros [= <-].
Qed.
End bootstrap.

(** ** Theorems *)

(** C14. While the heads of a hydra bootstrap, however their goroutines are
    interleaved and even when the context is cancelled, never more heads than
    the limiter has slots are connecting at the same time, a slot to be taken
    back is always there, and a head is counted as bootstrapped at most once:
    exactly once when its channel has been closed and it has bootstrap peers,
    and never when it has returned early. *)
Theorem bootstrap_bounded (head_ctx : nat -> Tags) (cap : nat) (peers : list nat)
    (es : list bevent) (s : BState) :
  bsteps head_ctx (bstart (Some cap) peers) es = Some s ->
  length (b_heads s ≫= slot) <= cap /\ b_used s = length (b_heads s ≫= slot) /\
  forall i n h, peers !! i = Some n -> b_heads s !! i = Some h -> counted s i <= 1 /\
    (h = ChClosed -> counted s i = if 0 <? n then 1 else 0) /\
    (forall holding, h = Returned holding -> counted s i = 0).
Proof.
  intros Hs. pose proof (binv_bsteps head_ctx cap peers _ es s (binv_bstart cap peers) Hs) as Hinv.
  rewrite <-(binv_used _ _ _ Hinv). split; [apply Hinv|]. split; [done|].
  intros i n h Hn Hh. destruct (binv_head _ _ _ _ _ Hinv Hh) as (n' & Hn' & Hok).
  rewrite Hn in Hn'. injection Hn' as <-.
  assert ((if 0 <? n then 1 else 0) <= 1) as Hle by (destruct (0 <? n); lia).
  destruct h; cbn [head_ok] in Hok; split_and!; try done; try lia; intros; naive_solver.
Qed.

(** With at least one slot, and as long as the context is not cancelled,
    bootstrapping never gets stuck: from every reachable state, if every
    connection attempt ends, all heads close their channels after finitely many
    steps. *)
Theorem bootstrap_completes (head_ctx : nat -> Tags) (cap : nat) (peers : list nat)
    (es : list bevent) (s : BState) :
  0 < cap -> BCancel ∉ es -> bsteps head_ctx (bstart (Some cap) peers) es = Some s ->
  exists es' s', bsteps head_ctx s es' = Some s' /\ length es' <= owed_total s /\
    Forall (fun h => h = ChClosed) (b_heads s').
Proof.
  intros Hcap Hes Hs.
  destruct (bootstrap_completes_from head_ctx cap peers s) as (es' & s' & ? & ? & ?).
  - eapply binv_bsteps; [apply binv_bstart|exact Hs].
  - done.
  - by eapply (steps_not_cancelled _ (bstart (Some cap) peers) es).
  - by exists es', s'.
Qed.

(** Two heads share one slot; the first is done, the second has a failing peer. *)
Definition sample_events : list bevent :=
  [BAcquire 0; BAttempt 0 0 PeerConnected; BWaited 0; BDone 0; BRelease 0; BClose 0;
   BAcquire 1; BAttempt 1 0 (ConnectFailed (ErrorMsg "no"))].

Definition sample_bstate : BState :=
  mkB (Some 1) 1 [ChClosed; Attempting [after_connect (ConnectFailed (ErrorMsg "no"))]] false
    [(0, Record_ ∅ [(BootstrappedHeads, 1%Z)])].

Lemma bootstrap_bounded_witness :
  bsteps (fun _ => ∅) (bstart (Some 1) [1; 1]) sample_events = Some sample_bstate /\
  length (b_heads sample_bstate ≫= slot) <= 1 /\ counted sample_bstate 0 = 1.
Proof.
  assert (bsteps (fun _ => ∅) (bstart (Some 1) [1; 1]) sample_events = Some sample_bstate) as Hs
    by (vm_compute; reflexivity).
  destruct (bootstrap_bounded (fun _ => ∅) 1 [1; 1] sample_events sample_bstate Hs)
    as (Hle & _ & Hheads).
  split; [exact Hs|]. split; [exact Hle|].
  exact (proj1 (proj2 (Hheads 0 1 ChClosed eq_refl eq_refl)) eq_refl).
Defined.

Lemma bootstrap_completes_witness :
  exists es' s', bsteps (fun _ => ∅) sample_bstate es' = Some s' /\ length es' <= 5 /\
    Forall (fun h => h = ChClosed) (b_heads s').
Proof.
  apply (bootstrap_completes (fun _ => ∅) 1 [1; 1] sample_events sample_bstate).
  - lia.
  - unfold sample_events. set_solver.
  - vm_compute. reflexivity.
Defined.
