(* ===== verification/Hydra.v ===== *)
(** * Hydras (src/hydra/hydra.go)

    The options of a hydra, the choice of its datastore and of its provider
    store from their strings, and the loop of [NewHydra] that spawns the heads:
    it takes a port, an identity and the list of head options for each of them
    and stops at the first error. *)
From Stdlib Require Import Strings.String.
From stdpp Require Import pretty.
From S2P Require Import Prelude GoStd Duration Interfaces Utils Metrics Tasks HeadOptions Head.
Open Scope nat_scope.

(** ** Strings that choose the stores *)

(** The closures of [newProviderStoreBuilder], by what they capture. *)
Inductive StoreBuilder : Type :=
| BuildNoop
| BuildHTTP (endpointURL : string)
| BuildDynamoDB (table : string) (ttl : Z) (queryLimit : Z).

Inductive DatastoreKind : Type :=
| PostgreSQL (url : string) (create : bool)
| DynamoDBDatastore (table : string)
| LevelDB (path : string).

Definition parseDDBTable (optsStr : string) : result string :=
  match ParseOptsString optsStr with
  | inl err => inl (Errorf "parsing DynamoDB config string" err)
  | inr opts =>
      match opts !! "table"%string with
      | None => inl (ErrorMsg "must specify table in DynamoDB opts string")
      | Some table => inr table
      end
  end.

Section builder.
(** The error of [config.LoadDefaultConfig]. *)
Context (LoadDefaultConfig : option goerror).

(** A missing key of a Go map reads as the empty string. *)
Definition opt_get (m : gmap string string) (k : string) : string := default ""%string (m !! k).

Definition newProviderStoreBuilder (providerStore : string) : result (option StoreBuilder) :=
  if decide (providerStore = "none"%string) then inr (Some BuildNoop)
  else if HasPrefix providerStore "https://" then inr (Some (BuildHTTP providerStore))
  else if HasPrefix providerStore "dynamodb://" then
    match ParseOptsString (TrimPrefix providerStore "dynamodb://") with
    | inl err => inl (Errorf "parsing DynamoDB config string" err)
    | inr ddbOpts =>
        let table := opt_get ddbOpts "table" in
        if decide (table = ""%string) then inl (ErrorMsg "DynamoDB table must be specified") else
        let ttlStr := opt_get ddbOpts "ttl" in
        if decide (ttlStr = ""%string) then inl (ErrorMsg "DynamoDB TTL must be specified") else
        match ParseDuration ttlStr with
        | inl err => inl (Errorf "parsing DynamoDB TTL" err)
        | inr ttl =>
            let queryLimitStr := opt_get ddbOpts "queryLimit" in
            if decide (queryLimitStr = ""%string)
            then inl (ErrorMsg "DynamoDB query limit must be specified") else
            match ParseInt queryLimitStr 32 with
            | inl err => inl (Errorf "parsing DynamoDB query limit" err)
            | inr queryLimit64 =>
                let queryLimit := wrap_i32 queryLimit64 in
                match LoadDefaultConfig with
                | Some err => inl (Errorf "loading AWS config" err)
                | None => inr (Some (BuildDynamoDB table ttl queryLimit))
                end
            end
        end
    end
  else inr None.
End builder.

(** ** NewHydra *)

Section hydra.
Context `{OptTypes, RcmgrLibs, TagLib} `{IdentityGenerator G o_PrivKey}.

(** [Options]; [GetPort] is the closure of a port selector, part of the state,
    and the identity generator is a generator of type [G]. The loop sleeps for
    [Stagger] before every head, which changes nothing here. *)
Record HydraOptions := mkHydraOptions {
  Name : string;
  DatastorePath : string;
  PeerstorePath : string;
  ProviderStoreOpt : string;
  DelegateTimeout : Z;
  NHeads : Z;
  hy_ProtocolPrefix : string;
  hy_BucketSize : Z;
  BsCon : Z;
  hy_EnableRelay : bool;
  Stagger : Z;
  hy_DisableProvGC : bool;
  hy_DisableProviders : bool;
  hy_DisableValues : bool;
  hy_BootstrapPeers : list o_Multiaddr;
  DisablePrefetch : bool;
  hy_DisableProvCounts : bool;
  DisableDBCreate : bool;
  hy_DisableResourceManager : bool;
  hy_ResourceManagerLimitsFile : string;
  hy_ConnMgrHighWater : Z;
  hy_ConnMgrLowWater : Z;
  hy_ConnMgrGracePeriod : Z;
}.

(** The tags of the context: the name, if the hydra has one. *)
Definition hydra_ctx (options : HydraOptions) : result Tags :=
  if decide (Name options <> ""%string) then tag_New ∅ [Insert KeyName (Name options)]
  else inr ∅.

(** What [NewHydra] starts: tasks, the workers of the providers finder, and for
    every head what [NewHead] starts, the metric of the heads, the notifier of its
    connections and the goroutine of [handleBootstrapStatus], both with the head's
    context; [Slept] is the pause before a head. *)
Inductive HydraEffect (N S : Type) : Type :=
| RunIPNSRecordsTask (interval : Z)
| RunFinder (timeout queueSize negativeCacheTTL numWorkers : Z)
| Slept (stagger : Z)
| OfHead (i : nat) (e : HeadEffect N S)
| Recorded (r : Recording)
| NotifyConnections (i : nat) (hdCtx : Tags)
| HandleBootstrapStatus (i : nat) (hdCtx : Tags)
| RunRoutingTableSizeTask (interval : Z)
| RunUniquePeersTask (interval : Z).
Arguments RunIPNSRecordsTask {N S} _.
Arguments RunFinder {N S} _ _ _ _.
Arguments Slept {N S} _.
Arguments OfHead {N S} _ _.
Arguments Recorded {N S} _.
Arguments NotifyConnections {N S} _ _.
Arguments HandleBootstrapStatus {N S} _ _.
Arguments RunRoutingTableSizeTask {N S} _.
Arguments RunUniquePeersTask {N S} _.

(** The datastore. The session of the DynamoDB client is made by [session.Must],
    which panics on an error. *)
Definition new_datastore {N S : Type} (open : DatastoreKind -> result o_Batching) (options : HydraOptions)
    : outcome (started (HydraEffect N S) o_Batching) :=
  let path := DatastorePath options in
  if HasPrefix path "postgresql://" then
    Ret (call (wrap_error "failed to create datastore"
      (open (PostgreSQL path (negb (DisableDBCreate options))))))
  else if HasPrefix path "dynamodb://" then
    match parseDDBTable (TrimPrefix path "dynamodb://") with
    | inl err => Ret (call (inl err))
    | inr table =>
        match open (DynamoDBDatastore table) with
        | inl err => Panic
        | inr ds => Ret (_ ← start (RunIPNSRecordsTask ipnsRecordsTaskInterval); mret ds)
        end
    end
  else Ret (call (wrap_error "failed to create datastore" (open (LevelDB path)))).

(** What the heads share. *)
Record Shared := mkShared {
  sh_ds : o_Batching;
  sh_builder : option o_Builder;
  sh_limiter : o_Limiter;
  sh_client : o_HTTPClient;
  sh_finder : o_Finder;
}.

Definition tcp_addr (port : Z) : option o_Multiaddr :=
  multiaddr_or_nil ("/ip4/0.0.0.0/tcp/" +:+ pretty port).
Definition quic_addr (port : Z) : option o_Multiaddr :=
  multiaddr_or_nil ("/ip4/0.0.0.0/udp/" +:+ pretty port +:+ "/quic").

(** [hdOpts] of head [i]. *)
Definition head_opts (options : HydraOptions) (sh : Shared) (i : nat) (port : Z) (priv : o_PrivKey)
    (pstore : option o_Peerstore) : list Option :=
  [Datastore (Some (sh_ds sh)); ProviderStoreBuilder (sh_builder sh);
   Addrs [tcp_addr port; quic_addr port]; ProtocolPrefix (hy_ProtocolPrefix options);
   BucketSize (hy_BucketSize options); Limiter (Some (sh_limiter sh)); HeadID (Some priv);
   BootstrapPeers (hy_BootstrapPeers options); DelegateHTTPClient (Some (sh_client sh));
   DisableResourceManager (hy_DisableResourceManager options);
   ResourceManagerLimitsFile (hy_ResourceManagerLimitsFile options);
   ConnMgrHighWater (hy_ConnMgrHighWater options); ConnMgrLowWater (hy_ConnMgrLowWater options);
   ConnMgrGracePeriod (hy_ConnMgrGracePeriod options)] ++
  (if hy_EnableRelay options then [EnableRelay] else []) ++
  (if hy_DisableProviders options then [DisableProviders] else []) ++
  (if hy_DisableValues options then [DisableValues] else []) ++
  (if hy_DisableProvGC options || (0 <? i) then [DisableProvGC] else []) ++
  (if hy_DisableProvCounts options || (0 <? i) then [DisableProvCounts] else []) ++
  (if negb (DisablePrefetch options) then [ProvidersFinder (Some (sh_finder sh))] else []) ++
  (match pstore with Some ps => [Peerstore (Some ps)] | None => [] end).

Context {N S : Type} (libs : HeadLibs N S).
(** Opening the LevelDB datastore of a peer store in a directory, and the peer store
    on it; the text of a host's ID and of an address, which may be nil. *)
Context (open_pstore : string -> result (result o_Peerstore)) (host_id : N -> string).
Context (addr_text : option o_Multiaddr -> string).

(** A head, and the tags of its context. *)
Record Spawned := mkSpawned {
  sp_head : Head N S;
  sp_ctx : Tags;
}.

Definition head_pstore (options : HydraOptions) (i : nat) : result (option o_Peerstore) :=
  if decide (PeerstorePath options <> ""%string) then
    match open_pstore (PeerstorePath options +:+ "/head-" +:+ pretty i) with
    | inl err => inl (Errorf "failed to create peerstore datastore" err)
    | inr (inl err) => inl (Errorf "failed to create peerstore" err)
    | inr (inr ps) => inr (Some ps)
    end
  else inr None.

(** Head [i], with the result of [AddBalanced]. *)
Definition spawn_head (options : HydraOptions) (ctx : Tags) (sh : Shared) (i : nat) (port : Z)
    (added : result o_PrivKey) : started (HydraEffect N S) Spawned :=
  _ ← start (Slept (Stagger options));
  priv ← call (wrap_error "failed to generate balanced private key" added);
  pstore ← call (head_pstore options i);
  let '(es, r) := NewHead libs ctx (head_opts options sh i port priv pstore) in
  hd ← (OfHead i <$> es, wrap_error ("failed to spawn node with swarm addresses " +:+
    addr_text (tcp_addr port) +:+ " " +:+ addr_text (quic_addr port)) r) : started _ _;
  hdCtx ← call (tag_New ctx [Insert KeyPeerID (host_id (h_Host hd))]);
  _ ← start (Recorded (Record_ hdCtx [(Heads, 1%Z)]));
  _ ← start (NotifyConnections i hdCtx);
  _ ← start (HandleBootstrapStatus i hdCtx);
  mret (mkSpawned hd hdCtx).

(** The loop; [n] heads are left, the next one is head [i]. *)
Fixpoint spawn (options : HydraOptions) (ctx : Tags) (sh : Shared) (n i : nat) (ports : PortSelector)
    (g : G) (hds : list Spawned) : outcome (G * started (HydraEffect N S) (list Spawned)) :=
  match n with
  | O => Ret (g, mret hds)
  | Datatypes.S n =>
      let '(ports, port) := next_port ports in
      '(g, added) ← ig_AddBalanced g;
      match spawn_head options ctx sh i port added with
      | (es, inl err) => Ret (g, (es, inl err))
      | (es, inr sp) =>
          '(g, (es', r)) ← spawn options ctx sh n (Datatypes.S i) ports g (hds ++ [sp]);
          Ret (g, (es ++ es', r))
      end
  end.

(** [Hydra]: its heads and their shared datastore. The sketch of the peers seen is
    with the tasks (the model [Tasks]). *)
Record Hydra := mkHydra {
  hy_Heads : list Spawned;
  SharedDatastore : o_Batching;
}.

(** What [NewHydra] needs from the libraries besides the heads. *)
Record HydraLibs := {
  open_datastore : DatastoreKind -> result o_Batching;
  hl_LoadDefaultConfig : option goerror;
  builder_value : StoreBuilder -> o_Builder;
  new_limiter : Z -> o_Limiter; (* [make(chan struct{}, n)] *)
  delegate_client : Z -> o_HTTPClient; (* the client with a timeout *)
  providers_finder : o_Finder;
}.

(** The finder's timeout, queue size, TTL and number of workers. *)
Definition run_finder : HydraEffect N S := RunFinder 5000000000 1000 3600000000000 1000.

(** The hydra of its heads, with its tasks. *)
Definition hydra_of (hds : list Spawned) (ds : o_Batching) : started (HydraEffect N S) Hydra :=
  let hydra := mkHydra hds ds in
  _ ← start (RunRoutingTableSizeTask routingTableSizeTaskInterval);
  _ ← start (RunUniquePeersTask uniquePeersTaskInterval);
  mret hydra.

(** [NewHydra]: a channel of negative capacity panics. *)
Definition NewHydra (hl : HydraLibs) (options : HydraOptions) (ports : PortSelector) (g : G)
    : outcome (G * started (HydraEffect N S) Hydra) :=
  match hydra_ctx options with
  | inl err => Ret (g, call (inl err))
  | inr ctx =>
      '(es, ds) ← new_datastore (open_datastore hl) options;
      match ds with
      | inl err => Ret (g, (es, inl err))
      | inr ds =>
          if (BsCon options <? 0)%Z then Panic else
          match newProviderStoreBuilder (hl_LoadDefaultConfig hl)
                  (ProviderStoreOpt options) with
          | inl err => Ret (g, (es, inl err))
          | inr builder =>
              let sh := mkShared ds (builder_value hl <$> builder) (new_limiter hl (BsCon options))
                          (delegate_client hl (DelegateTimeout options)) (providers_finder hl) in
              '(g, r) ← spawn options ctx sh (Z.to_nat (NHeads options)) 0 ports g [];
              Ret (g,
                _ ← ((es, inr tt) : started _ unit);
                _ ← start run_finder;
                hds ← r;
                hydra_of hds ds)
          end
      end
  end.

(** [GetRoutingTableSize], over the sizes of the heads' routing tables. *)
Definition GetRoutingTableSize (sizes : list Z) : Z :=
  foldl (fun rts n => wrap_int (rts + n)) 0%Z sizes.
End hydra.
Arguments RunIPNSRecordsTask {_ N S} _.
Arguments RunFinder {_ N S} _ _ _ _.
Arguments Slept {_ N S} _.
Arguments OfHead {_ N S} _ _.
Arguments Recorded {_ N S} _.
Arguments NotifyConnections {_ N S} _ _.
Arguments HandleBootstrapStatus {_ N S} _ _.
Arguments RunRoutingTableSizeTask {_ N S} _.
Arguments RunUniquePeersTask {_ N S} _.
