(* ===== verification/HydraSpec.v ===== *)
(** * Theorems on hydras (src/hydra/hydra.go, src/head/head.go, src/head/opts) *)
From Stdlib Require Import Strings.String.
From stdpp Require Import pretty.
From S2P Require Import Prelude GoStd Duration Interfaces IdGenClean Utils Metrics MetricsSpec Tasks HeadOptions Head Hydra.
Open Scope nat_scope.

Section config.
Context `{OptTypes}.

(** The configuration of head [i]: every field as the hydra's options determine
    it. *)
Definition expected_config (options : HydraOptions) (sh : Shared) (i : nat) (port : Z)
    (priv : o_PrivKey) (pstore : option o_Peerstore) : Options :=
  {| o_Datastore := Some (sh_ds sh);
     o_PeerstoreOpt := pstore;
     o_ProviderStoreBuilder := sh_builder sh;
     o_DelegateHTTPClient := Some (sh_client sh);
     o_RoutingTableOpt := None;
     o_EnableRelay := hy_EnableRelay options;
     o_Addrs := [tcp_addr port; quic_addr port];
     o_ProtocolPrefix :=
       if decide (hy_ProtocolPrefix options = ""%string) then DefaultPrefix else hy_ProtocolPrefix options;
     o_BucketSize := if decide (hy_BucketSize options = 0%Z) then 20%Z else hy_BucketSize options;
     o_LimiterOpt := Some (sh_limiter sh);
     o_BootstrapPeers :=
       match hy_BootstrapPeers options with [] => DefaultBootstrapPeers | peers => peers end;
     o_ID := Some priv;
     o_DisableProvGC := hy_DisableProvGC options || (0 <? i);
     o_DisableProvCounts := hy_DisableProvCounts options || (0 <? i);
     o_DisableProviders := hy_DisableProviders options;
     o_DisableValues := hy_DisableValues options;
     o_ProvidersFinder := if DisablePrefetch options then None else Some (sh_finder sh);
     o_DisableResourceManager := hy_DisableResourceManager options;
     o_ResourceManagerLimitsFile := hy_ResourceManagerLimitsFile options;
     o_ConnMgrHighWater := hy_ConnMgrHighWater options;
     o_ConnMgrLowWater := hy_ConnMgrLowWater options;
     o_ConnMgrGracePeriod := hy_ConnMgrGracePeriod options |}.

Lemma apply_from_cons i o o' (opt : Option) opts :
  opt o = (o', None) -> apply_from i o (opt :: opts) = apply_from (S i) o' opts.
Proof. intros Ho. cbn [apply_from]. by rewrite Ho. Qed.

Lemma apply_from_index i j o opts :
  (apply_from i o opts).1 = (apply_from j o opts).1.
Proof.
  revert i j o. induction opts as [|opt opts IH]; intros i j o; [done|]. cbn [apply_from].
  destruct (opt o) as [o' [e|]]; [done|]. apply IH.
Qed.

(** The conditional options, one at a time. *)
Lemma apply_from_app i o opts1 opts2 o' :
  apply_from i o opts1 = (o', None) ->
  (apply_from i o (opts1 ++ opts2)).1 = (apply_from i o' opts2).1.
Proof.
  revert i o. induction opts1 as [|opt opts1 IH]; intros i o; cbn [apply_from app].
  { by intros [= ->]. }
  destruct (opt o) as [o1 [e|]]; [done|]. intros Ho.
  rewrite (IH _ _ Ho). apply apply_from_index.
Qed.

Ltac apply_one := erewrite apply_from_app; [|vm_compute; reflexivity].

Lemma head_config_head_opts options sh i port priv pstore :
  head_config (head_opts options sh i port priv pstore) =
  expected_config options sh i port priv pstore.
Proof.
  destruct options as [nm dp pp ps dt nh pfx bs bc rel sg gc prov vals peers pf cnt dbc rm rmf hi lo gr].
  unfold head_config, Apply, head_opts, expected_config.
  generalize (tcp_addr port) (quic_addr port). intros tcp quic.
  cbn [hy_ProtocolPrefix hy_BucketSize hy_EnableRelay hy_DisableProvGC hy_DisableProviders
    hy_DisableValues hy_BootstrapPeers DisablePrefetch hy_DisableProvCounts
    hy_DisableResourceManager hy_ResourceManagerLimitsFile hy_ConnMgrHighWater
    hy_ConnMgrLowWater hy_ConnMgrGracePeriod].
  rewrite app_comm_cons.
  assert (exists gc', gc || (0 <? i) = gc') as [gc' ->] by eauto.
  assert (exists cnt', cnt || (0 <? i) = cnt') as [cnt' ->] by eauto.
  destruct pfx as [|c pfx]; destruct bs as [|bs|bs]; destruct peers as [|peer peers];
    rewrite ?decide_True, ?decide_False by done; apply_one.
  all: destruct rel; apply_one; destruct prov; apply_one; destruct vals; apply_one.
  all: destruct gc'; apply_one; destruct cnt'; apply_one; destruct pf; apply_one.
  all: destruct pstore; reflexivity.
Qed.
End config.

(** ** The loop that spawns the heads *)

Section spawning.
Context `{OptTypes, RcmgrLibs, TagLib} `{IGL : IdentityGeneratorLaws G o_PrivKey}.
Context {N S : Type} (libs : HeadLibs N S).
Context (open_pstore : string -> result (result o_Peerstore)) (host_id : N -> string).
Context (addr_text : option o_Multiaddr -> string).
Implicit Types (options : HydraOptions) (sh : Shared) (hds : list (Spawned (N := N) (S := S))).

(** The store behind the caching store. *)
Definition base_of (hd : Head N S) : HeadStore S :=
  match o_ProvidersFinder (h_config hd), h_store hd with
  | Some _, CachingStore base _ => base
  | _, store => store
  end.

(** What the start of a head starts, in order. *)
Definition head_effects (hd : Head N S) : list (HeadEffect N S) :=
  [CloseOnDone (h_Host hd)] ++
  (if h_counts_records hd then
     [RunProviderRecordsTask (o_Datastore (h_config hd)) (base_of hd) providerRecordsTaskInterval]
   else []) ++
  (if o_ProvidersFinder (h_config hd) is Some _ then [SetRouter] else []) ++
  [DhtBootstrap; GoBootstrap (o_LimiterOpt (h_config hd)) (o_BootstrapPeers (h_config hd))].

(** A head that [NewHead] has built keeps its configuration. *)
Lemma NewHead_config ctx opts es hd :
  NewHead libs ctx opts = (es, inr hd) ->
  es = head_effects hd /\ h_config hd = head_config opts /\
  h_counts_records hd = negb (o_DisableProvCounts (head_config opts)) /\
  base_store libs (head_config opts) (h_Host hd) = inr (base_of hd) /\
  h_store hd = front_store (head_config opts) (base_of hd).
Proof.
  unfold NewHead, head_effects, base_of, front_store, call. generalize (head_config opts). intros cfg.
  destruct (NewConnManager _ _ _ _); [done|]. cbn.
  destruct (buildRcmgr _ _ _); [done|]. cbn. destruct (libp2p_New _ _); [done|]. cbn.
  destruct (base_store _ _ _) eqn:Hb; [done|]. cbn. destruct (dht_New _ _ _); [done|].
  cbn. intros [= <- <-]. cbn.
  destruct (o_ProvidersFinder _), (o_DisableProvCounts _); by split_and!.
Qed.

(** A head that fails to start has no router and does not bootstrap; its node is
    left to the end of the context, and its records are counted. *)
Lemma NewHead_fails ctx opts es err :
  NewHead libs ctx opts = (es, inl err) ->
  es = [] \/ exists node, es = [CloseOnDone node] \/
    exists base, es = [CloseOnDone node; RunProviderRecordsTask (o_Datastore (head_config opts)) base
      providerRecordsTaskInterval].
Proof.
  unfold NewHead, call. generalize (head_config opts). intros cfg. destruct (NewConnManager _ _ _ _); [intros [= <- _]; by left|]. cbn.
  destruct (buildRcmgr _ _ _); [intros [= <- _]; by left|]. cbn.
  destruct (libp2p_New _ _) as [?|node]; [intros [= <- _]; by left|]. cbn.
  destruct (base_store _ _ _) as [?|base]; [intros [= <- _]; right; exists node; by left|]. cbn.
  destruct (dht_New _ _ _); [|done]. intros [= <- _]. right. exists node.
  destruct (o_DisableProvCounts _); [by left|]. right. by exists base.
Qed.

(** What is known of head [i], with its port, its key and its identity. *)
Definition spawned_ok options ctx sh (i : nat) (port : Z) (k : list byte)
    (sp : Spawned (N := N) (S := S)) : Prop :=
  exists priv pstore, ig_ident priv = Some k /\
    head_pstore open_pstore options i = inr pstore /\
    NewHead libs ctx (head_opts options sh i port priv pstore) =
      (head_effects (sp_head sp), inr (sp_head sp)) /\
    tag_New ctx [Insert KeyPeerID (host_id (h_Host (sp_head sp)))] = inr (sp_ctx sp).

(** What the start of head [i] starts. *)
Definition spawn_effects options (i : nat) (sp : Spawned (N := N) (S := S)) : list (HydraEffect N S) :=
  Slept (Stagger options) :: (OfHead i <$> head_effects (sp_head sp)) ++
  [Recorded (Record_ (sp_ctx sp) [(Heads, 1%Z)]); NotifyConnections i (sp_ctx sp);
   HandleBootstrapStatus i (sp_ctx sp)].

Lemma spawn_head_ok options ctx sh i port priv k es sp :
  ig_ident priv = Some k ->
  spawn_head libs open_pstore host_id addr_text options ctx sh i port (inr priv) = (es, inr sp) ->
  spawned_ok options ctx sh i port k sp /\ es = spawn_effects options i sp.
Proof.
  intros Hk. unfold spawn_head, call. cbn.
  destruct (head_pstore _ _ _) as [|pstore] eqn:Hps; [done|]. cbn.
  destruct (NewHead _ _ _) as [hes [|hd]] eqn:Hhd; [done|]. cbn.
  destruct (tag_New _ _) as [|hdCtx] eqn:Ht; [done|]. cbn. intros [= <- <-].
  apply NewHead_config in Hhd as Hc. destruct Hc as [-> _]. split; [by exists priv, pstore|done].
Qed.

(** The identities [ks] have been taken from a generator: they were not in its
    memory, are all different, and are in it now. *)
Record taken (g g' : G) (ks : list (list byte)) : Prop := {
  taken_inv : ig_inv g';
  taken_NoDup : NoDup ks;
  taken_new : forall k, k ∈ ks -> k ∉ ig_mem g;
  taken_mem : ig_mem g' = list_to_set ks ∪ ig_mem g;
}.

Lemma taken_nil g g' : ig_inv g' -> ig_mem g' = ig_mem g -> taken g g' [].
Proof. intros Hinv Hm. split; [done|constructor|set_solver|set_solver]. Qed.

Lemma taken_cons g g1 g' k ks :
  (k ∉ ig_mem g) -> ig_mem g1 = {[k]} ∪ ig_mem g -> taken g1 g' ks -> taken g g' (k :: ks).
Proof.
  intros Hk Hm1 [Hinv Hnd Hnew Hm]. split; [done|..].
  - apply NoDup_cons. split; [|done]. intros Hin. apply (Hnew k Hin). rewrite Hm1. set_solver.
  - intros k' [->|Hin]%elem_of_cons; [done|]. specialize (Hnew k' Hin). rewrite Hm1 in Hnew.
    set_solver.
  - rewrite Hm, Hm1. set_solver.
Qed.

(** How the loop ends: it has taken an identity for every head, and at most one
    more; if it ends well there is one head for each of them, and what was started
    is what these heads start. *)
Definition spawn_post options ctx sh (n i : nat) (ports : PortSelector) (g : G) hds
    (res : G * started (HydraEffect N S) (list (Spawned (N := N) (S := S)))) : Prop :=
  exists ks, taken g res.1 ks /\ length ks <= n /\
  match res.2.2 with
  | inl _ => True
  | inr hds' => exists new, hds' = hds ++ new /\ length new = n /\ length ks = n /\
      res.2.1 = concat (imap (fun j => spawn_effects options (i + j)) new) /\
      forall j sp, new !! j = Some sp -> exists port k,
        Utils.ports n ports !! j = Some port /\ ks !! j = Some k /\
        spawned_ok options ctx sh (i + j) port k sp
  end.

Lemma spawn_post_cons options ctx sh n i ports ports' port g g1 k sp hds g' es r :
  (k ∉ ig_mem g) -> ig_mem g1 = {[k]} ∪ ig_mem g -> next_port ports = (ports', port) ->
  spawned_ok options ctx sh i port k sp ->
  spawn_post options ctx sh n (Datatypes.S i) ports' g1 (hds ++ [sp]) (g', (es, r)) ->
  spawn_post options ctx sh (Datatypes.S n) i ports g hds (g', (spawn_effects options i sp ++ es, r)).
Proof.
  intros Hk Hm Hport Hsp (ks & Ht & Hlen & Hr). cbn [fst snd] in *.
  exists (k :: ks). split; [by eapply taken_cons|]. split; [simpl; lia|]. cbn [fst snd].
  destruct r as [err|hds']; [done|]. destruct Hr as (new & -> & Hl & Hlk & -> & Hnew).
  exists (sp :: new). rewrite <-app_assoc. split_and!; [done|simpl; lia|simpl; lia| |].
  { rewrite imap_cons. cbn [concat]. rewrite Nat.add_0_r. f_equal. f_equal.
    apply imap_ext. intros j x _. cbn. by rewrite Nat.add_succ_r. }
  cbn [Utils.ports]. rewrite Hport. intros [|j] sp' Hj; simpl in Hj.
  - injection Hj as <-. exists port, k. by rewrite Nat.add_0_r.
  - destruct (Hnew j sp' Hj) as (port' & k' & Hp' & Hk' & Hok). exists port', k'.
    split_and!; [done..|]. by replace (i + Datatypes.S j) with (Datatypes.S i + j) by lia.
Qed.

Lemma spawn_ok options ctx sh n i ports g hds :
  ig_inv g ->
  safe (spawn_post options ctx sh n i ports g hds)
    (spawn libs open_pstore host_id addr_text options ctx sh n i ports g hds).
Proof.
  revert i ports g hds. induction n as [|n IH]; intros i ports g hds Hinv; cbn [spawn].
  { exists []. split; [by apply taken_nil|]. split; [done|]. exists [].
    rewrite app_nil_r. by split_and!. }
  destruct (next_port ports) as [ports' port] eqn:Hport.
  eapply safe_bind; [by apply ig_AddBalanced_law|]. intros [g1 [err|priv]] [Hinv1 Hadd].
  { exists []. split; [by apply taken_nil|]. split; [simpl; lia|done]. }
  destruct Hadd as (k & Hk & Hnew & Hmem).
  destruct (spawn_head _ _ _ _ _ _ _ _ _ _) as [es [err|sp]] eqn:Hsp.
  { exists [k]. split; [|split; [simpl; lia|done]]. by eapply taken_cons; [..|by apply taken_nil]. }
  destruct (spawn_head_ok _ _ _ _ _ _ _ _ _ Hk Hsp) as [Hok ->].
  eapply safe_bind; [by apply IH|]. intros [g' [es' r]] Hpost. by eapply spawn_post_cons.
Qed.
End spawning.

(** ** The datastore *)

Section datastore.
Context `{OptTypes} {N S : Type}.

(** The path names a DynamoDB table. *)
Definition uses_dynamodb (options : HydraOptions) : bool :=
  negb (HasPrefix (DatastorePath options) "postgresql://") &&
  HasPrefix (DatastorePath options) "dynamodb://".

(** The session of the DynamoDB client, if there is one, can be made. *)
Definition session_opens (hl : HydraLibs) (options : HydraOptions) : Prop :=
  uses_dynamodb options = true -> forall table, exists ds,
    open_datastore hl (DynamoDBDatastore table) = inr ds.

Lemma new_datastore_returns (hl : HydraLibs) (options : HydraOptions) :
  session_opens hl options ->
  exists r, new_datastore (N := N) (S := S) (open_datastore hl) options = Ret r.
Proof.
  unfold session_opens, uses_dynamodb, new_datastore. intros Hopen.
  destruct (HasPrefix _ "postgresql://"); [by eexists|].
  destruct (HasPrefix _ "dynamodb://"); [|by eexists].
  destruct (parseDDBTable _) as [|table]; [by eexists|].
  destruct (Hopen eq_refl table) as [ds ->]. by eexists.
Qed.

(** The task that counts IPNS records runs on DynamoDB only. *)
Lemma new_datastore_started (hl : HydraLibs) (options : HydraOptions) es ds :
  new_datastore (N := N) (S := S) (open_datastore hl) options = Ret (es, inr ds) ->
  es = if uses_dynamodb options then [RunIPNSRecordsTask ipnsRecordsTaskInterval] else [].
Proof.
  unfold uses_dynamodb, new_datastore, call.
  destruct (HasPrefix _ "postgresql://"); [by intros [= <- _]|].
  destruct (HasPrefix _ "dynamodb://"); [|by intros [= <- _]].
  destruct (parseDDBTable _); [done|]. destruct (open_datastore _ _); [done|]. by intros [= <- _].
Qed.
End datastore.

(** ** A rule for any generator *)

Section rule.
Context `{OptTypes, RcmgrLibs, TagLib} {G : Type} {IG : IdentityGenerator G o_PrivKey}.
Context {N S : Type} (libs : HeadLibs N S).
Context (open_pstore : string -> result (result o_Peerstore)) (host_id : N -> string)
  (addr_text : option o_Multiaddr -> string) (hl : HydraLibs).

(** [I n g] holds of the generator after [n] calls. *)
Context (I : nat -> G -> Prop).
Context (I_step : forall n g, I n g -> safe (fun '(g', _) => I (Datatypes.S n) g') (ig_AddBalanced g)).

Lemma spawn_rule options ctx sh n i ports g hds m :
  I m g -> safe (fun '(g', _) => exists j, j <= n /\ I (m + j) g')
    (spawn libs open_pstore host_id addr_text options ctx sh n i ports g hds).
Proof using I_step.
  revert i ports g hds m. induction n as [|n IH]; intros i ports g hds m Hg; cbn [spawn].
  { exists 0. split; [done|]. by rewrite Nat.add_0_r. }
  destruct (next_port ports) as [ports' port].
  eapply safe_bind; [by apply I_step|]. intros [g1 r] Hg1.
  destruct (spawn_head _ _ _ _ _ _ _ _ _ _) as [es [err|sp]].
  { exists 1. split; [lia|]. by rewrite Nat.add_1_r. }
  eapply safe_bind; [by apply IH|]. intros [g' [es' r']] (j & Hj & Hr). exists (Datatypes.S j).
  split; [lia|]. by rewrite Nat.add_succ_r.
Qed.

(** [NewHydra] calls the generator at most once for every head. *)
Lemma NewHydra_rule options ports g :
  (0 <= BsCon options)%Z -> session_opens hl options -> I 0 g ->
  safe (fun '(g', _) => exists n, n <= Z.to_nat (NHeads options) /\ I n g')
    (NewHydra libs open_pstore host_id addr_text hl options ports g).
Proof using I_step.
  intros Hbs Hses Hg. unfold NewHydra.
  assert (exists n, n <= Z.to_nat (NHeads options) /\ I n g) as Hnone by (exists 0; split; [lia|done]).
  destruct (hydra_ctx options) as [err|ctx]; [done|].
  destruct (new_datastore_returns (N := N) (S := S) hl options Hses) as [[es [err|ds]] ->]; run; [done|].
  rewrite (proj2 (Z.ltb_ge _ _)) by done.
  destruct (newProviderStoreBuilder _ _) as [err|bld]; [done|].
  eapply safe_bind; [by apply spawn_rule with (m := 0)|]. by intros [g' r].
Qed.
End rule.

(** ** Theorems *)

Section theorems.
Context `{OptTypes, RcmgrLibs, TagLib} `{IGL : IdentityGeneratorLaws G o_PrivKey}.
Context {N S : Type} (libs : HeadLibs N S).
Context (open_pstore : string -> result (result o_Peerstore)) (host_id : N -> string)
  (addr_text : option o_Multiaddr -> string) (hl : HydraLibs).
Implicit Types (options : HydraOptions).

(** What the heads share, as the options say: the datastore that they name, the
    provider store that the string selects, the limiter of that capacity, the client
    with that timeout, and the finder. *)
Record shared_of options (sh : Shared) : Prop := {
  shared_ds : exists es,
    new_datastore (N := N) (S := S) (open_datastore hl) options = Ret (es, inr (sh_ds sh));
  shared_client : sh_client sh = delegate_client hl (DelegateTimeout options);
  shared_finder : sh_finder sh = providers_finder hl;
  shared_limiter : sh_limiter sh = new_limiter hl (BsCon options);
  shared_slots : (0 <= BsCon options)%Z;
  shared_builder : exists b,
    newProviderStoreBuilder (hl_LoadDefaultConfig hl) (ProviderStoreOpt options) = inr b /\
    sh_builder sh = builder_value hl <$> b;
}.

(** What [NewHydra] hands to the loop, and what it starts around it. *)
Lemma NewHydra_spawn options ports g g' tr r :
  ig_inv g -> NewHydra libs open_pstore host_id addr_text hl options ports g = Ret (g', (tr, r)) ->
  (exists err, r = inl err /\ g' = g) \/
  exists ctx sh es r', hydra_ctx options = inr ctx /\ shared_of options sh /\
    spawn_post libs open_pstore host_id options ctx sh (Z.to_nat (NHeads options)) 0 ports g []
      (g', (es, r')) /\
    match r' with
    | inl err => r = inl err
    | inr hds => r = inr (mkHydra hds (sh_ds sh)) /\
        tr = (if uses_dynamodb options then [RunIPNSRecordsTask ipnsRecordsTaskInterval] else []) ++
          [run_finder] ++ es ++
          [RunRoutingTableSizeTask routingTableSizeTaskInterval; RunUniquePeersTask uniquePeersTaskInterval]
    end.
Proof.
  intros Hinv. unfold NewHydra.
  destruct (hydra_ctx options) as [err|ctx]; [intros [= <- _ <-]; by left; eexists|].
  destruct (new_datastore _ _) as [[ds_es [err|ds]]| |] eqn:Hds; run;
    [intros [= <- _ <-]; by left; eexists| |done|done].
  destruct (_ <? 0)%Z eqn:Hbs; [done|]. apply Z.ltb_ge in Hbs.
  destruct (newProviderStoreBuilder _ _) as [err|bld] eqn:Hb; [intros [= <- _ <-]; by left; eexists|].
  match goal with |- context [spawn _ _ _ _ _ _ ?sh _ _ _ _ _] =>
    pose proof (spawn_ok libs open_pstore host_id addr_text options ctx sh
      (Z.to_nat (NHeads options)) 0 ports g [] Hinv) as Hp; set (shared := sh) in * end.
  destruct (spawn _ _ _ _ _ _ _ _ _ _ _ _) as [[g1 [es r']]| |]; run; [|done..].
  intros Heq. right. exists ctx, shared, es, r'.
  assert (shared_of options shared) by (split; [by exists ds_es|done..|by exists bld]).
  apply new_datastore_started in Hds as ->.
  destruct r' as [err|hds]; cbn in Heq; simplify_eq; split_and!; done.
Qed.

(** Without a name in the context there is no resource manager. *)
Lemma buildRcmgr_unnamed (b : bool) (f : string) : exists err, buildRcmgr ∅ b f = inl err.
Proof.
  unfold buildRcmgr, CreateRcmgrMetrics. rewrite lookup_empty. cbv zeta.
  destruct b; [by eexists|]. destruct (decide _); [|by eexists].
  destruct (os_Open f) as [err|d]; [by eexists|]. destruct (BadLimiterJSON d); by eexists.
Qed.

(** A hydra without a name cannot start any head: the metrics of the resource
    manager ask for a name in the context. *)
Lemma NewHydra_without_name options ports g g' tr r :
  ig_inv g -> Name options = ""%string -> (0 < NHeads options)%Z ->
  NewHydra libs open_pstore host_id addr_text hl options ports g = Ret (g', (tr, r)) ->
  exists err, r = inl err.
Proof.
  intros Hinv Hname Hheads Hn. destruct (NewHydra_spawn options ports g g' tr r Hinv Hn)
    as [(err & -> & _)|(ctx & sh & es & r' & Hctx & _ & (ks & _ & _ & Hr) & Hres)]; [by eexists|].
  cbn [fst snd] in Hr. destruct r' as [err|hds]; [by eexists|]. exfalso.
  destruct Hr as (new & _ & Hl & _ & _ & Hsp).
  unfold hydra_ctx in Hctx. rewrite decide_False in Hctx by (intros Hne; by apply Hne).
  injection Hctx as <-. destruct new as [|sp new]; [simpl in Hl; lia|].
  destruct (Hsp 0 sp eq_refl) as (port & k & _ & _ & priv & ps & _ & _ & Hhd & _).
  revert Hhd. unfold NewHead, call. destruct (NewConnManager _ _ _ _); [done|]. cbn.
  match goal with |- context [buildRcmgr ∅ ?b ?f] =>
    destruct (buildRcmgr_unnamed b f) as [err ->] end. done.
Qed.

(** C8. A hydra that starts has as many heads as asked for, with all different
    identities, none of which the generator had in its memory before, and which
    are exactly what its memory has gained; when starting fails, the identities
    taken so far, at most one for every head, stay in the memory. *)
Theorem NewHydra_identities options ports g g' tr r :
  ig_inv g -> NewHydra libs open_pstore host_id addr_text hl options ports g = Ret (g', (tr, r)) ->
  exists ks, NoDup ks /\ (forall k, k ∈ ks -> k ∉ ig_mem g) /\
    ig_mem g' = list_to_set ks ∪ ig_mem g /\ length ks <= Z.to_nat (NHeads options) /\
    forall hy, r = inr hy ->
      length (hy_Heads hy) = Z.to_nat (NHeads options) /\ length ks = length (hy_Heads hy) /\
      forall i sp, hy_Heads hy !! i = Some sp -> exists priv k,
        o_ID (h_config (sp_head sp)) = Some priv /\ ig_ident priv = Some k /\ ks !! i = Some k.
Proof.
  intros Hinv Hn. destruct (NewHydra_spawn options ports g g' tr r Hinv Hn)
    as [(err & -> & ->)|(ctx & sh & es & r' & _ & _ & (ks & [_ Hnd Hnew Hmem] & Hlen & Hr) & Hres)].
  - exists []. split_and!; [constructor|set_solver|set_solver|simpl; lia|done].
  - exists ks. split_and!; [done..|]. intros hy ->. cbn [fst snd] in Hr.
    destruct r' as [err|hds]; [done|]. destruct Hres as [[= ->] _].
    destruct Hr as (new & -> & Hl & Hlk & _ & Hsp). cbn [app hy_Heads]. split_and!; [done|congruence|].
    intros i sp Hi. destruct (Hsp i sp Hi) as (port & k & _ & Hk & priv & ps & Hid & _ & Hhd & _).
    exists priv, k. split_and!; [|done|done].
    apply NewHead_config in Hhd as (_ & -> & _). by rewrite head_config_head_opts.
Qed.

(** The measurements that a sequence of effects records. *)
Definition recorded : list (HydraEffect N S) -> list Recording :=
  omap (fun e => match e with Recorded r => Some r | _ => None end).

Lemma recorded_app es1 es2 : recorded (es1 ++ es2) = recorded es1 ++ recorded es2.
Proof. apply omap_app. Qed.

Lemma recorded_head options i sp :
  recorded (spawn_effects options i sp) = [Record_ (sp_ctx sp) [(Heads, 1%Z)]].
Proof.
  unfold spawn_effects. cbn [recorded]. unfold recorded. cbn [omap list_omap]. rewrite omap_app.
  assert (forall hes, omap (fun e : HydraEffect N S => match e with Recorded r => Some r | _ => None end)
    (OfHead i <$> hes) = []) as -> by (intros hes; by induction hes).
  done.
Qed.

Lemma recorded_heads options hds : forall i,
  recorded (concat (imap (fun j => spawn_effects options (i + j)) hds)) =
  (fun sp => Record_ (sp_ctx sp) [(Heads, 1%Z)]) <$> hds.
Proof.
  induction hds as [|sp hds IH]; intros i; [done|]. rewrite imap_cons. cbn [concat].
  rewrite recorded_app, recorded_head. cbn [app fmap list_fmap]. f_equal. rewrite <-(IH (Datatypes.S i)).
  do 2 f_equal. apply imap_ext. intros j x _. cbn. by rewrite Nat.add_succ_r.
Qed.

(** C22. Every head of a hydra that starts is configured as the options say, with the
    datastore, the limiter, the client, the provider store and the finder that the
    heads share: it listens on its own port of the selector's sequence, over TCP and
    QUIC, with the key of its identity and its own peer store; the protocol prefix,
    the bucket size and the bootstrap peers fall back to the defaults; only the first
    head collects garbage and counts provider records, if any does; with prefetching
    the heads' stores are caching ones on the shared finder; the head's context is that
    of the hydra with the head's peer ID; and in it the head is recorded, once, as all
    the measurements of the start are those of the heads in order. *)
Theorem NewHydra_heads options ports g g' tr hy (i : nat) sp :
  ig_inv g -> NewHydra libs open_pstore host_id addr_text hl options ports g = Ret (g', (tr, inr hy)) ->
  hy_Heads hy !! i = Some sp ->
  exists sh port priv k pstore ctx base,
    shared_of options sh /\ SharedDatastore hy = sh_ds sh /\
    Utils.ports (Z.to_nat (NHeads options)) ports !! i = Some port /\
    ig_ident priv = Some k /\ (k ∉ ig_mem g) /\ head_pstore open_pstore options i = inr pstore /\
    h_config (sp_head sp) = expected_config options sh i port priv pstore /\
    h_counts_records (sp_head sp) = negb (hy_DisableProvCounts options) && (i =? 0) /\
    base_store libs (h_config (sp_head sp)) (h_Host (sp_head sp)) = inr base /\
    (base = DefaultStore false -> hy_DisableProvGC options = false /\ i = 0) /\
    h_store (sp_head sp) =
      (if DisablePrefetch options then base else CachingStore base (sh_finder sh)) /\
    hydra_ctx options = inr ctx /\
    tag_New ctx [Insert KeyPeerID (host_id (h_Host (sp_head sp)))] = inr (sp_ctx sp) /\
    recorded tr = (fun sp => Record_ (sp_ctx sp) [(Heads, 1%Z)]) <$> hy_Heads hy.
Proof.
  intros Hinv Hn Hi. destruct (NewHydra_spawn options ports g g' tr _ Hinv Hn)
    as [(err & [=] & _)|(ctx & sh & es & [err|hds] & Hctx & Hsh & (ks & Ht & _ & Hr) & Hres)]; [done|].
  cbn [fst snd] in Hr. destruct Hr as (new & -> & _ & _ & -> & Hsp). destruct Hres as [[= ->] ->].
  destruct (Hsp i sp Hi) as (port & k & Hp & Hk & priv & ps & Hid & Hps & Hhd & Htag).
  apply NewHead_config in Hhd as (_ & Hcfg & Hcnt & Hbase & Hstore).
  rewrite <-Hcfg in Hbase. rewrite head_config_head_opts in *. cbn in Hcnt, Hstore.
  exists sh, port, priv, k, ps, ctx, (base_of (sp_head sp)).
  split_and!; [done|done|done|done| |done|done| |done| | |done|done| ].
  - apply (taken_new _ _ _ Ht). by eapply list_elem_of_lookup_2.
  - rewrite Hcnt. destruct (hy_DisableProvCounts options), i; done.
  - intros Hb. rewrite Hb, Hcfg in Hbase. unfold base_store, newDefaultProviderStore in Hbase. cbn in Hbase.
    destruct (sh_builder sh) as [b|]; [by destruct (run_Builder _ _ _ _)|].
    destruct (hy_DisableProvGC options) eqn:Hgc; cbn in Hbase.
    { destruct (NewLRUWithExpire _ _ _); [done|]. by destruct (NewProviderManager _ _ _ _). }
    destruct i; [done|]. cbn in Hbase.
    destruct (NewLRUWithExpire _ _ _); [done|]. by destruct (NewProviderManager _ _ _ _).
  - rewrite Hstore. unfold front_store. cbn. by destruct (DisablePrefetch options).
  - rewrite !recorded_app, recorded_heads. destruct (uses_dynamodb options); cbn; by rewrite app_nil_r.
Qed.

(** The store of a head of a hydra with a provider store of its own: the closure of
    the builder has built it for the head's host, with the caching store in front. *)
Lemma NewHydra_store options ports g g' tr hy (i : nat) sp b :
  ig_inv g -> NewHydra libs open_pstore host_id addr_text hl options ports g = Ret (g', (tr, inr hy)) ->
  hy_Heads hy !! i = Some sp ->
  newProviderStoreBuilder (hl_LoadDefaultConfig hl) (ProviderStoreOpt options) = inr (Some b) ->
  exists ps finder, run_Builder libs (builder_value hl b) (h_config (sp_head sp)) (h_Host (sp_head sp)) = inr ps /\
    h_store (sp_head sp) =
      if DisablePrefetch options then BuiltStore ps else CachingStore (BuiltStore ps) finder.
Proof.
  intros Hinv Hn Hi Hb. destruct (NewHydra_spawn options ports g g' tr _ Hinv Hn)
    as [(err & [=] & _)|(ctx & sh & es & [err|hds] & _ & Hsh & (ks & _ & _ & Hr) & Hres)]; [done|].
  cbn [fst snd] in Hr. destruct Hr as (new & -> & _ & _ & _ & Hsp). destruct Hres as [[= ->] _].
  destruct (Hsp i sp Hi) as (port & k & _ & _ & priv & ps & _ & _ & Hhd & _).
  apply NewHead_config in Hhd as (_ & Hcfg & _ & Hbase & Hstore).
  destruct (shared_builder _ _ Hsh) as (b' & Hb' & Hshb). rewrite Hb in Hb'. injection Hb' as <-.
  rewrite <-Hcfg in Hbase, Hstore. rewrite head_config_head_opts in Hcfg.
  unfold base_store in Hbase. unfold front_store in Hstore. rewrite Hcfg in Hbase, Hstore |- *.
  cbn [o_ProviderStoreBuilder o_ProvidersFinder expected_config] in Hbase, Hstore.
  rewrite Hshb in Hbase. cbn in Hbase.
  destruct (run_Builder _ _ _ _) as [|built]; [done|]. injection Hbase as Hbase.
  exists built, (sh_finder sh). split; [done|]. rewrite Hstore, <-Hbase. by destruct (DisablePrefetch options).
Qed.

(** What a sequence of effects starts of a kind. *)
Definition counts_records (e : HydraEffect N S) : bool :=
  match e with OfHead _ (RunProviderRecordsTask _ _ _) => true | _ => false end.

(** The bootstrap goroutines: the limiter and the peers of each. *)
Definition bootstraps : list (HydraEffect N S) -> list (option o_Limiter * list o_Multiaddr) :=
  omap (fun e => match e with OfHead _ (GoBootstrap l peers) => Some (l, peers) | _ => None end).

Lemma bootstraps_head options i sp :
  bootstraps (spawn_effects options i sp) =
  [(o_LimiterOpt (h_config (sp_head sp)), o_BootstrapPeers (h_config (sp_head sp)))].
Proof.
  unfold bootstraps, spawn_effects, head_effects. cbn [omap list_omap].
  destruct (h_counts_records _); destruct (o_ProvidersFinder _); reflexivity.
Qed.

Lemma counts_records_head options i sp :
  length (filter (fun e => counts_records e = true) (spawn_effects options i sp)) =
  if h_counts_records (sp_head sp) then 1 else 0.
Proof.
  unfold spawn_effects, head_effects.
  destruct (h_counts_records _); destruct (o_ProvidersFinder _); reflexivity.
Qed.

(** The bootstrap peers of the heads. *)
Definition hydra_peers options : list o_Multiaddr :=
  match hy_BootstrapPeers options with [] => DefaultBootstrapPeers | peers => peers end.

(** What matters of a head for the sequence. *)
Definition head_started options sh (i : nat) (sp : Spawned (N := N) (S := S)) : Prop :=
  o_LimiterOpt (h_config (sp_head sp)) = Some (sh_limiter sh) /\
  o_BootstrapPeers (h_config (sp_head sp)) = hydra_peers options /\
  h_counts_records (sp_head sp) = negb (hy_DisableProvCounts options) && (i =? 0).

Lemma spawned_head_started options ctx sh i port k sp :
  spawned_ok libs open_pstore host_id options ctx sh i port k sp -> head_started options sh i sp.
Proof.
  intros (priv & ps & _ & _ & Hhd & _). apply NewHead_config in Hhd as (_ & Hcfg & Hcnt & _).
  rewrite head_config_head_opts in *. unfold head_started. rewrite Hcfg, Hcnt.
  split_and!; [done|done|]. cbn. destruct (hy_DisableProvCounts options), i; done.
Qed.

Lemma bootstraps_app es1 es2 : bootstraps (es1 ++ es2) = bootstraps es1 ++ bootstraps es2.
Proof. apply omap_app. Qed.

Lemma heads_bootstrap options sh new : forall i,
  (forall j sp, new !! j = Some sp -> head_started options sh (i + j) sp) ->
  bootstraps (concat (imap (fun j => spawn_effects options (i + j)) new)) =
    replicate (length new) (Some (sh_limiter sh), hydra_peers options) /\
  length (filter (fun e => counts_records e = true)
      (concat (imap (fun j => spawn_effects options (i + j)) new))) =
    if negb (hy_DisableProvCounts options) && (i =? 0) && (0 <? length new) then 1 else 0.
Proof.
  induction new as [|sp new IH]; intros i Hall; [by rewrite andb_false_r|].
  rewrite imap_cons, Nat.add_0_r. cbn [concat length replicate].
  rewrite (imap_ext _ (fun j => spawn_effects options (Datatypes.S i + j)))
    by (intros j x _; cbn; by rewrite Nat.add_succ_r).
  destruct (Hall 0 sp eq_refl) as (Hl & Hp & Hc). rewrite Nat.add_0_r in Hc.
  destruct (IH (Datatypes.S i)) as [IHb IHc].
  { intros j sp' Hj. replace (Datatypes.S i + j) with (i + Datatypes.S j) by lia. by apply Hall. }
  split; [by rewrite bootstraps_app, bootstraps_head, IHb, Hl, Hp|].
  rewrite filter_app, length_app, counts_records_head, IHc, Hc.
  destruct (hy_DisableProvCounts options), i; simpl; lia.
Qed.

Lemma all_heads_bootstrap options sh hds :
  (forall j sp, hds !! j = Some sp -> head_started options sh j sp) ->
  bootstraps (concat (imap (spawn_effects options) hds)) =
    replicate (length hds) (Some (sh_limiter sh), hydra_peers options) /\
  length (filter (fun e => counts_records e = true) (concat (imap (spawn_effects options) hds))) =
    if negb (hy_DisableProvCounts options) && (0 <? length hds) then 1 else 0.
Proof.
  intros Hall. destruct (heads_bootstrap options sh hds 0 Hall) as [Hb Hc].
  rewrite andb_true_r in Hc. by split.
Qed.

(** What a hydra starts around the effects of its heads. *)
Definition hydra_effects options (es : list (HydraEffect N S)) : list (HydraEffect N S) :=
  (if uses_dynamodb options then [RunIPNSRecordsTask ipnsRecordsTaskInterval] else []) ++
  [run_finder] ++ es ++
  [RunRoutingTableSizeTask routingTableSizeTaskInterval; RunUniquePeersTask uniquePeersTaskInterval].

Lemma bootstraps_hydra options es : bootstraps (hydra_effects options es) = bootstraps es.
Proof.
  unfold hydra_effects. rewrite !bootstraps_app. cbn [bootstraps omap list_omap run_finder].
  rewrite app_nil_r. by destruct (uses_dynamodb options).
Qed.

Lemma NewHydra_heads_started options ports g g' tr hy :
  ig_inv g -> NewHydra libs open_pstore host_id addr_text hl options ports g = Ret (g', (tr, inr hy)) ->
  exists sh, sh_limiter sh = new_limiter hl (BsCon options) /\ (0 <= BsCon options)%Z /\
    length (hy_Heads hy) = Z.to_nat (NHeads options) /\
    tr = hydra_effects options (concat (imap (spawn_effects options) (hy_Heads hy))) /\
    forall j sp, hy_Heads hy !! j = Some sp -> head_started options sh j sp.
Proof.
  intros Hinv Hn. destruct (NewHydra_spawn options ports g g' tr _ Hinv Hn)
    as [(err & [=] & _)|(ctx & sh & es & [err|hds] & _ & [_ _ _ Hl Hbs _] & (ks & _ & _ & Hr) & Hres)]; [done|].
  cbn [fst snd] in Hr. destruct Hr as (new & -> & Hlen & _ & -> & Hsp). destruct Hres as [[= ->] ->].
  exists sh. split_and!; [done..|]. intros j sp Hj. destruct (Hsp j sp Hj) as (port & k & _ & _ & Hok).
  by eapply spawned_head_started.
Qed.

(** C23. What a hydra that starts has started, in order: the count of IPNS records if
    its datastore is a DynamoDB table, the finder with its thousand workers, the
    effects of its heads one after the other, and last the two tasks on routing
    tables and peers. At most one task counts provider records; and the heads'
    bootstrap goroutines, one for each, share one limiter, of the capacity asked
    for, and connect to the same peers. *)
Theorem NewHydra_starts options ports g g' tr hy :
  ig_inv g -> NewHydra libs open_pstore host_id addr_text hl options ports g = Ret (g', (tr, inr hy)) ->
  tr = (if uses_dynamodb options then [RunIPNSRecordsTask ipnsRecordsTaskInterval] else []) ++
       [run_finder] ++ concat (imap (spawn_effects options) (hy_Heads hy)) ++
       [RunRoutingTableSizeTask routingTableSizeTaskInterval; RunUniquePeersTask uniquePeersTaskInterval] /\
  bootstraps tr = replicate (Z.to_nat (NHeads options))
    (Some (new_limiter hl (BsCon options)), hydra_peers options) /\
  length (filter (fun e => counts_records e = true) tr) =
    if negb (hy_DisableProvCounts options) && (0 <? NHeads options)%Z then 1 else 0.
Proof.
  intros Hinv Hn.
  destruct (NewHydra_heads_started options ports g g' tr hy Hinv Hn) as (sh & Hl & _ & Hlen & -> & Hok).
  destruct (all_heads_bootstrap options sh (hy_Heads hy) Hok) as [Hb Hc]. split_and!; [done| |].
  - by rewrite bootstraps_hydra, <-Hl, <-Hlen.
  - unfold hydra_effects. rewrite !filter_app, !length_app.
    rewrite Hc, Hlen.
    destruct (hy_DisableProvCounts options); destruct (uses_dynamodb options);
      destruct (Z.ltb_spec 0 (NHeads options)); cbn;
      destruct (Z.to_nat (NHeads options)) eqn:HN; simpl; lia.
Qed.
End theorems.

(** ** Provider store strings *)

Lemma opt_get_Some (m : gmap string string) k v :
  v <> ""%string -> opt_get m k = v <-> m !! k = Some v.
Proof. unfold opt_get. intros Hv. destruct (m !! k) as [v'|]; simpl; naive_solver. Qed.

Lemma dynamodb_prefix s :
  HasPrefix s "dynamodb://" = true -> s <> "none"%string /\ HasPrefix s "https://" = false.
Proof.
  intros Hp%HasPrefix_split. rewrite Hp. by split.
Qed.

(** C30. A provider store string yields the DynamoDB store exactly when it is the
    prefix dynamodb:// followed by options in which table, ttl and queryLimit
    are not empty, the ttl is a duration and the limit is a decimal 32-bit
    number (which the store keeps as it is); and a string that is neither none
    nor has the prefix https:// or dynamodb:// is no error but silently selects
    the default store. *)
Theorem provider_store_strings (aws : option goerror) (s : string) :
  (forall table ttl queryLimit,
    newProviderStoreBuilder aws s = inr (Some (BuildDynamoDB table ttl queryLimit)) <->
    aws = None /\ table <> ""%string /\
    exists kvs ttlStr limitStr, kvs <> [] /\ Forall (fun kv => clean_opt kv = true) kvs /\
      s = "dynamodb://" +:+ render_opts kvs /\ ttlStr <> ""%string /\ limitStr <> ""%string /\
      let m := foldl (fun m kv => <[kv.1 := kv.2]> m) (∅ : gmap string string) kvs in
      m !! "table"%string = Some table /\ m !! "ttl"%string = Some ttlStr /\
      m !! "queryLimit"%string = Some limitStr /\
      ParseDuration ttlStr = inr ttl /\ ParseInt limitStr 32 = inr queryLimit) /\
  (newProviderStoreBuilder aws s = inr None <->
    s <> "none"%string /\ HasPrefix s "https://" = false /\ HasPrefix s "dynamodb://" = false).
Proof.
  unfold newProviderStoreBuilder. split; [intros table ttl limit; split|].
  - case_decide; [done|]. destruct (HasPrefix s "https://"); [done|].
    destruct (HasPrefix s "dynamodb://") eqn:Hp; [|done].
    destruct (ParseOptsString _) as [|m] eqn:HP; [done|].
    case_decide as Ht; [done|]. case_decide as Hd; [done|].
    destruct (ParseDuration _) as [|ttl'] eqn:Hpd; [done|]. case_decide as Hl; [done|].
    destruct (ParseInt _ 32) as [|n] eqn:Hn; [done|]. destruct aws; [done|]. intros [= <- <- <-].
    apply ParseOptsString_ok in HP as (kvs & Hnil & Hall & Hs & ->).
    split; [done|]. split; [done|]. do 3 eexists. split_and!; [exact Hnil|exact Hall| |exact Hd|exact Hl|..].
    + by rewrite <-Hs, <-HasPrefix_split.
    + by apply opt_get_Some.
    + by apply opt_get_Some.
    + by apply opt_get_Some.
    + done.
    + apply ParseInt_range in Hn as Hr; [|lia]. unfold wrap_i32.
      by rewrite wrap_signed_small.
  - intros (-> & Ht & kvs & ttlStr & limitStr & Hnil & Hall & -> & Htl & Hll & Hmt & Hml & Hmq & Hd & Hn).
    rewrite decide_False by done.
    change (HasPrefix ("dynamodb://" +:+ render_opts kvs) "https://") with false. cbn beta iota.
    rewrite HasPrefix_app, TrimPrefix_app.
    assert (ParseOptsString (render_opts kvs) =
      inr (foldl (fun m kv => <[kv.1 := kv.2]> m) ∅ kvs)) as -> by (apply ParseOptsString_ok; by exists kvs).
    apply opt_get_Some in Hmt, Hml, Hmq; [|done..]. rewrite Hmt, Hml, Hmq.
    rewrite !decide_False by done. rewrite Hd, decide_False by done. rewrite Hn.
    apply ParseInt_range in Hn as Hr; [|lia]. unfold wrap_i32. by rewrite wrap_signed_small.
  - case_decide as Hnone; [subst; naive_solver|].
    destruct (HasPrefix s "https://"); [naive_solver|].
    destruct (HasPrefix s "dynamodb://"); [|naive_solver].
    split; [|by intros (_ & _ & ?)]. intros Hr. exfalso. revert Hr.
    destruct (ParseOptsString _); [done|]. do 2 (case_decide; [done|]).
    destruct (ParseDuration _); [done|]. case_decide; [done|].
    destruct (ParseInt _ 32); [done|]. by destruct aws.
Qed.

(** ** A concrete hydra *)

Definition sample_types : OptTypes := {|
  o_Batching := unit; o_Peerstore := unit; o_Builder := StoreBuilder; o_HTTPClient := unit;
  o_RoutingTable := unit; o_Multiaddr := string; o_Limiter := Z; o_PrivKey := nat;
  o_Finder := unit; NewMapDatastore := tt; NewMultiaddr := inr; DefaultPrefix := "/ipfs";
  DefaultBootstrapPeers := ["boot"]%string
|}.

Definition sample_rcmgr : RcmgrLibs := {|
  LimitsFile := unit; OtherLimits := unit; os_Open _ := inr tt; BadLimiterJSON _ := None;
  DefaultLimits := mkLimits 0 0 0 0 0 0 tt; SetDefaultServiceLimits l := l;
  NewResourceManager _ _ := None
|}.

Definition sample_head_libs : @HeadLibs sample_types sample_rcmgr nat unit := {|
  NewConnManager _ _ _ := None; libp2p_New _ := inr 0; run_Builder _ _ _ := inr tt;
  NewLRUWithExpire _ _ := None; NewProviderManager _ _ _ := None; dht_New _ _ := None
|}.

Definition sample_hydra_libs : @HydraLibs sample_types := {|
  open_datastore _ := inr (tt : @o_Batching sample_types); hl_LoadDefaultConfig := None;
  builder_value b := b; new_limiter n := n; delegate_client _ := tt; providers_finder := tt
|}.

Definition sample_options : @HydraOptions sample_types :=
  @mkHydraOptions sample_types "hydra" "belly" "" "" 1000000000 2 "" 0 32 false 0 false false false [] false false
    false false "" 1800 1200 60.

Abbreviation sample_NewHydra := (@NewHydra sample_types sample_rcmgr sample_taglib (list nat)
  stuck_generator nat unit sample_head_libs (fun _ => inr (inr tt)) (fun _ => "id"%string)
  (fun _ => "addr"%string) sample_hydra_libs sample_options (NewPortSelector 3000) []).

Abbreviation sample_hydra_type := (@Hydra sample_types sample_rcmgr nat unit).

Definition sample_result : list (@HydraEffect sample_types nat unit) * sample_hydra_type :=
  match sample_NewHydra with Ret (_, (tr, inr hy)) => (tr, hy) | _ => ([], @mkHydra sample_types sample_rcmgr nat unit [] (tt : @o_Batching sample_types)) end.
Definition sample_started := sample_result.1.
Definition sample_hydra : sample_hydra_type := sample_result.2.

Lemma sample_NewHydra_heads : sample_NewHydra = Ret ([1; 0], (sample_started, inr sample_hydra)).
Proof. vm_compute. reflexivity. Qed.

Lemma sample_generator_inv : @ig_inv (list nat) nat stuck_generator stuck_laws [].
Proof. intros n Hn. inversion Hn. Qed.

Lemma NewHydra_identities_witness :
  length (hy_Heads sample_hydra) = 2 /\ exists ks : list (list byte), NoDup ks /\ length ks = 2.
Proof.
  destruct (@NewHydra_identities sample_types sample_rcmgr sample_taglib (list nat) stuck_generator
    stuck_laws nat unit sample_head_libs (fun _ => inr (inr tt)) (fun _ => "id"%string)
    (fun _ => "addr"%string) sample_hydra_libs sample_options (NewPortSelector 3000) [] [1; 0]
    sample_started (inr sample_hydra) sample_generator_inv sample_NewHydra_heads)
    as (ks & Hnd & _ & _ & _ & Hr).
  destruct (Hr sample_hydra eq_refl) as (Hlen & Hks & _).
  split; [exact Hlen|]. exists ks. split; [exact Hnd|]. rewrite Hks. exact Hlen.
Defined.

Lemma NewHydra_heads_witness :
  exists sp, hy_Heads sample_hydra !! 1 = Some sp /\ h_counts_records (sp_head sp) = false.
Proof.
  destruct (hy_Heads sample_hydra !! 1) as [sp|] eqn:Hsp; [|vm_compute in Hsp; discriminate Hsp].
  exists sp. split; [reflexivity|].
  destruct (@NewHydra_heads sample_types sample_rcmgr sample_taglib (list nat) stuck_generator
    stuck_laws nat unit sample_head_libs (fun _ => inr (inr tt)) (fun _ => "id"%string)
    (fun _ => "addr"%string) sample_hydra_libs sample_options (NewPortSelector 3000) [] [1; 0]
    sample_started sample_hydra 1 sp sample_generator_inv sample_NewHydra_heads Hsp)
    as (sh & port & priv & k & pstore & ctx & base & _ & _ & _ & _ & _ & _ & _ & Hc & _).
  rewrite Hc. reflexivity.
Defined.

(** Two heads that share a limiter of 32 slots. *)
Lemma NewHydra_starts_witness :
  length sample_started = 20 /\
  bootstraps sample_started = replicate 2 (Some 32%Z, ["boot"%string]) /\
  length (filter (fun e => counts_records e = true) sample_started) = 1.
Proof.
  destruct (@NewHydra_starts sample_types sample_rcmgr sample_taglib (list nat) stuck_generator
    stuck_laws nat unit sample_head_libs (fun _ => inr (inr tt)) (fun _ => "id"%string)
    (fun _ => "addr"%string) sample_hydra_libs sample_options (NewPortSelector 3000) [] [1; 0]
    sample_started sample_hydra sample_generator_inv sample_NewHydra_heads) as (_ & Hb & Hc).
  split; [vm_compute; reflexivity|]. split; [exact Hb|exact Hc].
Defined.
