(* ===== verification/HeadStores.v ===== *)
(** * The provider stores of a hydra's heads (src/hydra/hydra.go, src/head/head.go, src/providers)

    What the closures of [newProviderStoreBuilder] build, the store a head answers
    from, and what a hydra with a DynamoDB table promises: the heads share the
    table and the finder, so that what one head has looked up all of them can answer,
    as far as the first page of the table goes. *)
From Stdlib Require Import Strings.String.
From stdpp Require Import pretty.
From S2P Require Import Prelude Interfaces IdGenClean Utils Metrics MetricsSpec Stores StoresSpec DynamoDB DynamoDBSpec Finder FinderSpec PrefetchSpec HeadOptions Head Hydra HydraSpec.
Open Scope nat_scope.

Section stores.
Context `{Libp2p} {W N : Type} `{!DDBClient W} (emit : Recording -> W -> W).
(** [h.ID()] and [h.Peerstore()] *)
Context (host_ID : N -> ID) (Peerstore_of : N -> PeerStore W).
(** The fuel of the paging loop, and when a provider arrives. *)
Context (fuel : nat) (arrival : AddrInfo -> Z).
(** The HTTP client of a delegated routing endpoint: the error of its
    constructor, and its answers, which end: the providers received, and the error
    of the context if it is done first. *)
Context (drc_New : string -> option goerror) (Cast : list byte -> result (list byte)) (cidRaw : Z).
Context (answer : string -> Ctx -> Z * list byte -> list AddrInfo * option goerror).

Definition ended (a : list AddrInfo * option goerror) : list http_event :=
  (Received <$> a.1) ++ [match a.2 with Some err => CtxDone err | None => Closed end].

(** The HTTP store as a provider store. *)
Definition http_store (endpointURL : string) : ProviderStore W := mkStore
  (fun _ key prov w => (w, http_AddProvider key prov))
  (fun ctx key w =>
    match http_GetProviders Cast cidRaw (fun c _ => ended (answer endpointURL ctx c)) key with
    | Ret r => (w, r)
    | Panic | Diverge => (w, ([], None))
    end).

(** The DynamoDB store of the head with host [h]. *)
Definition head_ddb_store (h : N) (table : string) (ttl queryLimit : Z) : ProviderStore W :=
  @ddb_store _ W (Peerstore_of h) _ emit
    (NewDynamoDBProviderStore (host_ID h) table ttl queryLimit) fuel arrival.

(** The bodies of the closures. *)
Definition build_store (b : StoreBuilder) (h : N) : result (ProviderStore W) :=
  match b with
  | BuildNoop => inr NoopProviderStore
  | BuildHTTP endpointURL =>
      match NewHTTPProviderStore drc_New endpointURL with
      | Some err => inl err
      | None => inr (http_store endpointURL)
      end
  | BuildDynamoDB table ttl queryLimit => inr (head_ddb_store h table ttl queryLimit)
  end.

(** ** The store a head answers from *)

Context `{OptTypes, RcmgrLibs} {R T : Type} `{TimeCache T}.
(** The provider manager of the DHT package. *)
Context (ProviderManager : bool -> ProviderStore W).
Abbreviation SpawnedHead := (Spawned (N := N) (S := ProviderStore W)).

(** The store behind the caching one. *)
Fixpoint plain_store (store : HeadStore (ProviderStore W)) : ProviderStore W :=
  match store with
  | DefaultStore gcDisabled => ProviderManager gcDisabled
  | BuiltStore ps => ps
  | CachingStore backend _ => plain_store backend
  end.

(** The provider store of head number [i], with its DHT as the router: the world
    has the shared finder. *)
Definition head_store (i : nat) (router : R) (hd : Head N (ProviderStore W))
    : ProviderStore (State R T W) :=
  match h_store hd with
  | CachingStore backend _ =>
      let providerStore := lift_store (plain_store backend) in
      let d := NewCachingProviderStore i providerStore providerStore lift_finder None in
      caching_store (mkCaching (c_self d) (ReadProviderStore d) (WriteProviderStore d) (Finder d)
        (Some router))
  | store => lift_store (plain_store store)
  end.

(** The store that the callbacks of head number [i] write to. *)
Definition write_stores (hds : list SpawnedHead) (i : nat) : ProviderStore W :=
  match hds !! i with
  | Some sp => plain_store (h_store (sp_head sp))
  | None => NoopProviderStore
  end.
End stores.

(** An answer of the HTTP client that ends is returned whole, with its error; nothing
    is ever written. *)
Lemma http_loop_ended `{Libp2p} (ais : list AddrInfo) err : forall provs,
  http_loop (ended (ais, err)) provs = Ret (provs ++ ais, err).
Proof.
  unfold ended. cbn [fst snd]. induction ais as [|ai ais IH]; intros provs; cbn.
  - rewrite app_nil_r. by destruct err.
  - by rewrite IH, <-app_assoc.
Qed.

Lemma http_store_reads `{Libp2p} {W : Type} Cast cidRaw answer endpointURL ctx key (w : W) :
  GetProviders (http_store Cast cidRaw answer endpointURL) ctx key w =
    (w, match Cast key with
        | inl err => ([], Some err)
        | inr mh => answer endpointURL ctx (cidRaw, mh)
        end).
Proof.
  cbn. unfold http_GetProviders. destruct (Cast key) as [err|mh]; [done|].
  destruct (answer _ _ _) as [ais err]. by rewrite http_loop_ended.
Qed.

(** ** A hydra on a table *)

Section hydra.
Context `{OptTypes, RcmgrLibs, TagLib} `{IGL : IdentityGeneratorLaws G o_PrivKey}.
Context `{Libp2p} {W N : Type} `{!DDBClient W} `{!Table W} (emit : Recording -> W -> W).
Context {R T : Type} `{TimeCacheLaws T}.
Context (host_ID : N -> ID) (Peerstore_of : N -> PeerStore W)
  (laws : forall h, @TableLaws W _ (Peerstore_of h) _ _ emit).
Context (fuel : nat) (arrival : AddrInfo -> Z).
Context (drc_New : string -> option goerror) (Cast : list byte -> result (list byte)) (cidRaw : Z)
  (answer : string -> Ctx -> Z * list byte -> list AddrInfo * option goerror).
Context (ProviderManager : bool -> ProviderStore W) (router : nat -> R) (run_ctx : Ctx).
Context (libs : HeadLibs N (ProviderStore W)) (open_pstore : string -> result (result o_Peerstore))
  (addr_text : option o_Multiaddr -> string) (hl : HydraLibs).
(** Calling the builder of a head's options runs the body of the closure. *)
Context (builders_run : forall b cfg h, run_Builder libs (builder_value hl b) cfg h =
  build_store emit host_ID Peerstore_of fuel arrival drc_New Cast cidRaw answer b h).

Abbreviation HeadGetProviders i sp :=
  (GetProviders (head_store (T := T) ProviderManager i (router i) (sp_head sp))).
Abbreviation hydra_steps hy :=
  (fsteps (R := R) (T := T) (cache_call emit (write_stores ProviderManager (hy_Heads hy))) run_ctx).
Abbreviation ddb_of sp := (head_ddb_store emit host_ID Peerstore_of fuel arrival (h_Host (sp_head sp))).
Implicit Types (options : HydraOptions).

(** The heads of a hydra with a table and prefetching. *)
Definition on_table (table : string) (ttl queryLimit : Z)
    (hds : list (Spawned (N := N) (S := ProviderStore W))) : Prop :=
  forall i sp, hds !! i = Some sp ->
  write_stores ProviderManager hds i = ddb_of sp table ttl queryLimit /\
  head_store (R := R) (T := T) ProviderManager i (router i) (sp_head sp) =
    caching_store (mkCaching i (lift_store (ddb_of sp table ttl queryLimit))
      (lift_store (ddb_of sp table ttl queryLimit)) lift_finder (Some (router i))).

Lemma NewHydra_on_table options ports g g' tr hy table ttl queryLimit :
  ig_inv g -> NewHydra libs open_pstore host_ID addr_text hl options ports g = Ret (g', (tr, inr hy)) ->
  newProviderStoreBuilder (hl_LoadDefaultConfig hl) (ProviderStoreOpt options) =
    inr (Some (BuildDynamoDB table ttl queryLimit)) ->
  DisablePrefetch options = false -> on_table table ttl queryLimit (hy_Heads hy).
Proof using builders_run.
  intros Hinv Hn Hb Hpf i sp Hi.
  destruct (NewHydra_store libs open_pstore host_ID addr_text hl options ports g g' tr hy i sp _ Hinv Hn Hi Hb)
    as (ps & f & Hrun & Hst).
  rewrite builders_run in Hrun. injection Hrun as <-. rewrite Hpf in Hst.
  unfold write_stores, head_store. by rewrite Hi, Hst.
Qed.

(** C13. The heads of a hydra with a DynamoDB table and prefetching work together.
    A head asked for a key of which queries see no row answers with none at once; any
    head asked again meanwhile does the same, and no second lookup is queued. When a
    worker of the shared finder has looked the key up through the first head's DHT,
    the table has gained, of the providers yielded, the first for every second of
    expiry that it had no row for. As soon as queries see what has been written, every
    head, whichever asked, answers from the table without another lookup: with the
    providers that expire last, each once, as its own peer store knows them, but with
    no more of them than the query limit and the first page of the table allow. *)
Theorem hydra_prefetches options ports g g' tr hy table ttl queryLimit (a b : nat) spa spb
    (ctx ctx' : Ctx) (key : list byte) (s : State R T W) (i : nat) (start stop : Z) (ais : list AddrInfo) :
  let k := string_of_list_byte key in
  let found := first_of_each_second (NewDynamoDBProviderStore "" table ttl queryLimit) arrival
    (rows table key (st_world s)) ais in
  ig_inv g -> NewHydra libs open_pstore host_ID addr_text hl options ports g = Ret (g', (tr, inr hy)) ->
  newProviderStoreBuilder (hl_LoadDefaultConfig hl) (ProviderStoreOpt options) =
    inr (Some (BuildDynamoDB table ttl queryLimit)) ->
  DisablePrefetch options = false ->
  hy_Heads hy !! a = Some spa -> hy_Heads hy !! b = Some spb ->
  (1 <= queryLimit < 2 ^ 31)%Z -> Z.to_nat queryLimit <= fuel ->
  visible table key (st_world s) = ∅ ->
  pending (st_finder s) !! k = None -> tc_Has k (negativeCache (st_finder s)) = false ->
  workQueue (st_finder s) = [] -> 0 < workQueueSize (st_finder s) -> st_workers s !! i = Some Idle ->
  exists s1 s2 s3, HeadGetProviders a spa ctx key s = (s1, ([], None)) /\
    HeadGetProviders b spb ctx' key s1 = (s2, ([], None)) /\ st_finder s2 = st_finder s1 /\
    hydra_steps hy s2 (lookup_events i start stop ais) = Ret (Some s3) /\
    rows table key (st_world s3) = found /\
    (ais <> [] -> forall s', visible table key (st_world s') = found -> exists s'',
      HeadGetProviders b spb ctx' key s' =
        (s'', ((fun p => @PeerInfo _ _ (Peerstore_of (h_Host (sp_head spb))) p (st_world s')) <$>
               firsts (take (Nat.min (Z.to_nat queryLimit) (page table key (st_world s') false))
                 (latest_first found)), None)) /\
      st_finder s'' = st_finder s').
Proof.
  intros k found Hinv Hn Hbld Hpf Ha Hb Hlim Hfuel Hseen Hp Hc Hq Hsize Hi.
  pose proof (NewHydra_on_table _ _ _ _ _ _ _ _ _ Hinv Hn Hbld Hpf) as Hon.
  destruct (Hon a spa Ha) as [Hwa Hga], (Hon b spb Hb) as [_ Hgb]. rewrite Hga, Hgb.
  set (da := NewDynamoDBProviderStore (host_ID (h_Host (sp_head spa))) table ttl queryLimit).
  set (db := NewDynamoDBProviderStore (host_ID (h_Host (sp_head spb))) table ttl queryLimit).
  destruct (@read_no_rows _ W _ _ _ emit (laws (h_Host (sp_head spa))) da fuel arrival ctx key
    (st_world s) Hlim Hfuel Hseen) as (v1 & HG1 & Hv1 & Hs1).
  destruct (@read_no_rows _ W _ _ _ emit (laws (h_Host (sp_head spb))) db fuel arrival ctx' key
    v1 Hlim Hfuel Hs1) as (v2 & HG2 & Hv2 & _).
  set (s1 := missed s v1 (miss_request a (router a) ctx key)).
  set (s2 := log (set_finder (set_world s1 v2) (st_finder s1)) []).
  destruct (@lookup_writes _ R T W _ _ _ _ _ emit (laws (h_Host (sp_head spa))) da fuel run_ctx arrival
    (write_stores ProviderManager (hy_Heads hy)) a (router a) ctx key s2 i start stop ais [])
    as (s3 & Hs3 & Htable); [done..|].
  change (rows table key v1 = rows table key (st_world s)) in Hv1.
  change (rows table key v2 = rows table key v1) in Hv2.
  change (rows table key (st_world s3) = first_of_each_second da arrival (rows table key v2) ais) in Htable.
  rewrite Hv2, Hv1 in Htable.
  exists s1, s2, s3. split; [by apply (caching_miss (fun _ => ddb_of spa table ttl queryLimit) a)|].
  split; [apply (caching_wait (fun _ => ddb_of spb table ttl queryLimit) b);
    [done|cbn; by rewrite lookup_insert_eq]|].
  split_and!; [done..|]. intros Hne s' Hs'.
  destruct (@cache_hit _ R T W _ _ _ _ emit (laws (h_Host (sp_head spb))) db fuel arrival b (router b)
    ctx' key s' Hlim Hfuel) as (s'' & Hg & Hf).
  - change (visible table key (st_world s') <> ∅). rewrite Hs'. by apply first_of_each_second_not_nil.
  - exists s''. split; [|done]. unfold rows_answered in Hg.
    change (visible (TableName db) key (st_world s')) with (visible table key (st_world s')) in Hg.
    by rewrite Hs' in Hg.
Qed.
End hydra.

(** ** A concrete hydra on a table

    Two heads, whose hosts are their keys, on the table t with an expiry of an hour
    and a limit of ten. *)

Definition table_build : StoreBuilder -> nat -> result (@ProviderStore sample_libp2p row_world) :=
  @build_store sample_libp2p row_world nat row_ddb (fun _ w => w) (fun _ => "id"%string)
    (fun _ => row_peers) 10 row_arrival (fun _ => None) inr 85 (fun _ _ _ => ([], None)).

Definition table_host (opts : list (@Libp2pOption sample_types sample_rcmgr)) : result nat :=
  match opts with
  | _ :: _ :: _ :: @L_Identity _ _ (Some key) :: _ => inr (key : @o_PrivKey sample_types)
  | _ => inl (ErrorMsg "no identity")
  end.

Definition table_head_libs : @HeadLibs sample_types sample_rcmgr nat (@ProviderStore sample_libp2p row_world) :=
  @Build_HeadLibs sample_types sample_rcmgr nat (@ProviderStore sample_libp2p row_world)
    (fun _ _ _ => None) table_host (fun b _ h => table_build b h) (fun _ _ => None) (fun _ _ _ => None)
    (fun _ _ => None).

Definition table_options : @HydraOptions sample_types :=
  @mkHydraOptions sample_types "hydra" "belly" "" "dynamodb://table=t,ttl=1h,queryLimit=10" 1000000000
    2 "" 0 32 false 0 false false false [] false false false false "" 1800 1200 60.

Definition table_NewHydra := @NewHydra sample_types sample_rcmgr sample_taglib (list nat)
  stuck_generator nat (@ProviderStore sample_libp2p row_world) table_head_libs (fun _ => inr (inr tt))
  (fun _ => "id"%string) (fun _ => "addr"%string) sample_hydra_libs table_options (NewPortSelector 3000) [].

Definition result_of {A B C} (none : B * C) (o : outcome (A * (B * (goerror + C)))) : B * C :=
  match o with
  | Ret (_, (tr, inr hy)) => (tr, hy)
  | _ => none
  end.

(** The result, without evaluating the stores in it. *)
Lemma result_of_ok {B C} (none : B * C) (o : outcome (list nat * (B * (goerror + C)))) g :
  match o with Ret (g', (_, inr _)) => bool_decide (g' = g) | _ => false end = true ->
  o = Ret (g, ((result_of none o).1, inr (result_of none o).2)).
Proof. destruct o as [[g' [tr [err|hy]]]| |]; try done. by intros ->%bool_decide_eq_true. Qed.

Definition table_result := result_of ([], @mkHydra sample_types sample_rcmgr nat
  (@ProviderStore sample_libp2p row_world) [] (tt : @o_Batching sample_types)) table_NewHydra.

Lemma table_NewHydra_starts : table_NewHydra = Ret ([1; 0], (table_result.1, inr table_result.2)).
Proof.
  unfold table_result. generalize (eq_refl : match table_NewHydra with
    Ret (g', (_, inr _)) => bool_decide (g' = [1; 0]) | _ => false end = true).
  generalize table_NewHydra. intros o Ho. exact (result_of_ok _ o _ Ho).
Qed.

Lemma table_hosts : (fun sp => h_Host (sp_head sp)) <$> hy_Heads table_result.2 = [0; 1].
Proof. vm_compute. reflexivity. Qed.

Lemma table_head i h : [0; 1] !! i = Some h ->
  exists sp, hy_Heads table_result.2 !! i = Some sp /\ h_Host (sp_head sp) = h.
Proof.
  rewrite <-table_hosts, list_lookup_fmap. intros (sp & Hh & Hs)%fmap_Some. by exists sp.
Qed.

(** A page holds one record, so that every head knows one of the two providers. *)
Lemma hydra_prefetches_witness :
  exists spa spb (s1 s3 : row_State),
    hy_Heads table_result.2 !! 0 = Some spa /\ hy_Heads table_result.2 !! 1 = Some spb /\
    h_Host (sp_head spa) <> h_Host (sp_head spb) /\
    GetProviders (@head_store sample_libp2p row_world nat sample_types sample_rcmgr unit (gset string)
      sample_cache (fun _ => NoopProviderStore) 0 tt (sp_head spa)) sample_ctx [Byte.x6b]
      (Run sample_finder 1 ∅) = (s1, ([], None)) /\
    sorted_rows (rows_of [Byte.x6b] (st_world s3)) = [(3600%Z, "p"%string); (3601%Z, "r"%string)] /\
    exists s4, GetProviders (@head_store sample_libp2p row_world nat sample_types sample_rcmgr unit
      (gset string) sample_cache (fun _ => NoopProviderStore) 1 tt (sp_head spb)) sample_ctx [Byte.x6b] s3 =
      (s4, ([sample_ai "r" []], None)).
Proof.
  destruct (table_head 0 0 eq_refl) as (spa & Ha & Hha).
  destruct (table_head 1 1 eq_refl) as (spb & Hb & Hhb).
  destruct (@hydra_prefetches sample_types sample_rcmgr sample_taglib (list nat) stuck_generator stuck_laws
    sample_libp2p row_world nat row_ddb row_table (fun _ w => w) unit (gset string) sample_cache
    sample_cache_laws (fun _ => "id"%string) (fun _ => row_peers) (fun _ => row_laws) 10 row_arrival
    (fun _ => None) inr 85%Z (fun _ _ _ => ([], None)) (fun _ => NoopProviderStore) (fun _ => tt) sample_ctx
    table_head_libs (fun _ => inr (inr tt)) (fun _ => "addr"%string) sample_hydra_libs
    (fun _ _ _ => eq_refl) table_options (NewPortSelector 3000) [] [1; 0] table_result.1 table_result.2
    "t"%string 3600000000000%Z 10%Z 0 1 spa spb sample_ctx sample_ctx [Byte.x6b]
    (Run sample_finder 1 ∅) 0 0 7 [sample_ai "p" []; sample_ai "q" []; sample_ai "r" []])
    as (s1 & s2 & s3 & Hg & _ & _ & _ & Ht & Hr).
  - exact sample_generator_inv.
  - exact table_NewHydra_starts.
  - vm_compute. reflexivity.
  - reflexivity.
  - exact Ha.
  - exact Hb.
  - lia.
  - vm_compute. lia.
  - reflexivity.
  - reflexivity.
  - vm_compute. reflexivity.
  - reflexivity.
  - vm_compute. lia.
  - reflexivity.
  - exists spa, spb, s1, s3. split; [exact Ha|]. split; [exact Hb|].
    split; [rewrite Hha, Hhb; discriminate|].
    split; [exact Hg|]. split; [etrans; [exact (f_equal sorted_rows Ht)|vm_compute; reflexivity]|].
    destruct (Hr ltac:(discriminate) s3 Ht) as (s4 & Hl & _).
    exists s4. exact Hl.
Defined.
