(* ===== verification/HydraBoot.v ===== *)
(** * A hydra and its bootstrapping (src/hydra/hydra.go, src/head/head.go)

    What [NewHydra] starts put together with the model of the bootstrap goroutines:
    the goroutines are those of the heads, the limiter is the channel that they
    share, and what [handleBootstrapStatus] records goes to the contexts of the
    heads. *)
From Stdlib Require Import Strings.String.
From S2P Require Import Prelude GoStd Interfaces IdGenClean Utils Metrics MetricsSpec Bootstrap BootstrapSpec HeadOptions Head Hydra HydraSpec.
Open Scope nat_scope.

(** ** The log of bootstrapped heads *)

Section log.
Context (head_ctx : nat -> Tags).

Lemma bstep_log_range s e s' :
  bstep head_ctx s e = Some s' -> Forall (fun p => p.1 < length (b_heads s)) (b_log s) ->
  length (b_heads s') = length (b_heads s) /\ Forall (fun p => p.1 < length (b_heads s)) (b_log s').
Proof.
  intros Hs Hf. destruct e; cbn [bstep] in Hs; repeat (case_match; try done); simplify_eq/=;
    rewrite ?length_insert; split; try done.
  apply Forall_app. split; [done|]. apply Forall_singleton. cbn. by eapply lookup_lt_Some.
Qed.

Lemma bsteps_log_range s es s' :
  bsteps head_ctx s es = Some s' -> Forall (fun p => p.1 < length (b_heads s)) (b_log s) ->
  length (b_heads s') = length (b_heads s) /\ Forall (fun p => p.1 < length (b_heads s)) (b_log s').
Proof.
  revert s. induction es as [|e es IH]; intros s; cbn; [by intros [= <-]|].
  destruct (bstep head_ctx s e) as [s1|] eqn:He; [|done]. cbn. intros Hs Hf.
  destruct (bstep_log_range _ _ _ He Hf) as [Hl Hf1]. rewrite <-Hl in Hf1 |- *. by apply IH.
Qed.
End log.

Lemma bsteps_app ctx s1 s2 es1 es2 s3 :
  bsteps ctx s1 es1 = Some s2 -> bsteps ctx s2 es2 = Some s3 -> bsteps ctx s1 (es1 ++ es2) = Some s3.
Proof.
  revert s1. induction es1 as [|e es1 IH]; intros s1; cbn; [by intros [= <-]|].
  destruct (bstep ctx s1 e); [|done]. cbn. apply IH.
Qed.

Lemma counted_NoDup {B} (l : list (nat * B)) :
  (forall i, length (filter (fun p => p.1 = i) l) <= 1) -> NoDup l.*1.
Proof.
  induction l as [|[i b] l IH]; intros Hc; [constructor|]. rewrite fmap_cons. apply NoDup_cons. split.
  - cbn. intros ([j b'] & Hj & Hin)%list_elem_of_fmap. cbn in Hj. subst j.
    specialize (Hc i). rewrite filter_cons_True in Hc by done. simpl in Hc.
    assert ((i, b') ∈ filter (fun p => p.1 = i) l) as Hf by (by apply list_elem_of_filter).
    destruct (filter _ l); [by apply not_elem_of_nil in Hf|simpl in Hc; lia].
  - apply IH. intros j. specialize (Hc j). rewrite filter_cons in Hc. case_decide; simpl in Hc; lia.
Qed.

(** Every head is counted at most once, so there are at most as many counts as heads;
    when all are counted, there are as many. *)
Lemma log_length (n : nat) {B} (l : list (nat * B)) :
  (forall i, length (filter (fun p => p.1 = i) l) <= 1) -> Forall (fun p => p.1 < n) l ->
  length l <= n /\
  ((forall i, i < n -> length (filter (fun p => p.1 = i) l) = 1) -> length l = n).
Proof.
  intros Hc%counted_NoDup Hf. rewrite Forall_forall in Hf.
  assert (l.*1 ⊆+ seq 0 n) as Hsub.
  { apply NoDup_submseteq; [done|]. intros i ([j b] & -> & Hin)%list_elem_of_fmap.
    apply elem_of_seq. specialize (Hf _ Hin). cbn in *. lia. }
  pose proof (submseteq_length _ _ Hsub) as Hlen. rewrite length_fmap, length_seq in Hlen.
  split; [done|]. intros Hall.
  assert (seq 0 n ⊆+ l.*1) as Hsup.
  { apply NoDup_submseteq; [apply NoDup_seq|]. intros i [_ Hi]%elem_of_seq.
    specialize (Hall i Hi). destruct (filter _ l) as [|[j b] rest] eqn:Hfl; [done|].
    assert ((j, b) ∈ filter (fun p => p.1 = i) l) as Hin by (rewrite Hfl; by left).
    apply list_elem_of_filter in Hin as [Hj Hin]. cbn in Hj. subst.
    apply list_elem_of_fmap. by exists (i, b). }
  pose proof (submseteq_length _ _ Hsup) as Hlen'. rewrite length_fmap, length_seq in Hlen'. lia.
Qed.

(** Without a slot nothing happens: every head waits for one, or has returned. *)
Definition waiting (h : bhead) : bool :=
  match h with Acquiring _ | Returned _ => true | _ => false end.
Definition no_slots (s : BState) : Prop :=
  b_cap s = Some 0 /\ b_log s = [] /\ Forall (fun h => waiting h = true) (b_heads s).

Lemma no_slots_step ctx s e s' : no_slots s -> bstep ctx s e = Some s' -> no_slots s'.
Proof.
  intros (Hc & Hl & Hf) He.
  assert (forall i h, b_heads s !! i = Some h -> waiting h = true) as Hw
    by (by apply Forall_lookup).
  destruct e as [i|i|i j res|i j|i j|i|i|i|i|]; cbn [bstep] in He;
    [destruct (b_heads s !! i) as [h|] eqn:Hi..|]; try done;
    try (pose proof (Hw i h Hi); by destruct h).
  - rewrite Hc in He. destruct h; try done.
  - destruct (b_cancelled s); [|done]. pose proof (Hw i h Hi).
    destruct h; try done. rewrite Hc in He. injection He as <-.
    split_and!; [done..|]. by apply Forall_insert.
  - by destruct (b_cancelled s).
  - destruct (b_cancelled s); [|done]. pose proof (Hw i h Hi). by destruct h.
  - by destruct (b_cancelled s).
  - by injection He as <-.
Qed.

Lemma no_slot ctx peers es s :
  bsteps ctx (bstart (Some 0) peers) es = Some s -> b_log s = [].
Proof.
  assert (no_slots (bstart (Some 0) peers)) as Hno.
  { split_and!; [done..|]. cbn. apply Forall_fmap, Forall_true. done. }
  revert Hno. generalize (bstart (Some 0) peers).
  induction es as [|e es IH]; intros s0 Hno; cbn; [intros [= <-]; apply Hno|].
  destruct (bstep ctx s0 e) as [s1|] eqn:He; [|done]. cbn. apply IH. by eapply no_slots_step.
Qed.

(** ** A started hydra *)

Section boot.
Context `{OptTypes, RcmgrLibs, TagLib} `{IGL : IdentityGeneratorLaws G o_PrivKey}.
Context {N S : Type} (libs : HeadLibs N S) (open_pstore : string -> result (result o_Peerstore))
  (host_id : N -> string) (addr_text : option o_Multiaddr -> string) (hl : HydraLibs).
Implicit Types (options : HydraOptions).

(** The goroutines that a hydra has started, all at their beginning, with a limiter
    of the capacity [BsCon]. *)
Definition boot_state options (tr : list (HydraEffect N S)) : BState :=
  bstart (Some (Z.to_nat (BsCon options))) ((fun p => length p.2) <$> bootstraps tr).

(** The context of a head. *)
Definition boot_ctx (hy : Hydra (N := N) (S := S)) (i : nat) : Tags :=
  default ∅ (sp_ctx <$> hy_Heads hy !! i).

(** The counts of a reachable state. *)
Lemma boot_log ctx cap n m es s :
  bsteps ctx (bstart (Some cap) (replicate n m)) es = Some s ->
  length (b_log s) <= n /\
  (Forall (fun h => h = ChClosed) (b_heads s) -> length (b_log s) = if 0 <? m then n else 0).
Proof.
  intros Hs. pose proof (binv_bsteps ctx cap (replicate n m) _ es s (binv_bstart _ _) Hs) as Hinv.
  destruct (bsteps_log_range ctx _ es s Hs) as [Hlen Hrange]; [constructor|].
  cbn in Hlen, Hrange. rewrite length_fmap, length_replicate in Hlen, Hrange.
  assert (forall i, i < n -> exists h, b_heads s !! i = Some h /\
    head_ok (b_cancelled s) m (counted s i) h) as Hok.
  { intros i Hi. destruct (lookup_lt_is_Some_2 (b_heads s) i) as [h Hh]; [lia|].
    destruct (binv_head _ _ _ _ _ Hinv Hh) as (n' & Hn' & Hok).
    apply lookup_replicate in Hn' as [-> _]. by exists h. }
  assert (forall i, counted s i <= 1) as Hle.
  { intros i. destruct (decide (i < n)) as [Hi|Hi].
    - destruct (Hok i Hi) as (h & _ & Hh).
      assert ((if 0 <? m then 1 else 0) <= 1) by (destruct (0 <? m); lia).
      destruct h; cbn [head_ok] in Hh; lia.
    - unfold counted. destruct (filter _ _) as [|p rest] eqn:Hfl; [simpl; lia|]. exfalso.
      assert (p ∈ filter (fun p => p.1 = i) (b_log s)) as Hin by (rewrite Hfl; by left).
      apply list_elem_of_filter in Hin as [<- Hin]. rewrite Forall_forall in Hrange.
      by apply Hi, Hrange. }
  destruct (log_length n (b_log s) Hle Hrange) as [Hn Hall]. split; [done|]. intros Hclosed.
  rewrite Forall_forall in Hclosed.
  assert (forall i, i < n -> counted s i = if 0 <? m then 1 else 0) as Hcnt.
  { intros i Hi. destruct (Hok i Hi) as (h & Hh & Hk).
    rewrite (Hclosed h) in Hk by (by eapply list_elem_of_lookup_2). exact Hk. }
  destruct (0 <? m); [by apply Hall|].
  destruct (b_log s) as [|p rest] eqn:Hlog; [done|]. exfalso.
  apply Forall_cons in Hrange as [Hp _]. specialize (Hcnt _ Hp).
  unfold counted in Hcnt. rewrite Hlog, filter_cons_True in Hcnt by done. done.
Qed.

(** C15. The heads of a hydra that starts bootstrap together: however their goroutines
    interleave, at most [BsCon] heads connect at a time, and no more heads are counted
    as bootstrapped than there are. With at least one slot, and as long as the
    context is not cancelled, all of them can get to the end from every state that
    they reach, and then the count is the number of heads, or 0 if there are no
    bootstrap peers; without a slot no head ever connects. *)
Theorem hydra_bootstraps options ports g g' tr hy (es : list bevent) (s : BState) :
  ig_inv g -> NewHydra libs open_pstore host_id addr_text hl options ports g = Ret (g', (tr, inr hy)) ->
  bsteps (boot_ctx hy) (boot_state options tr) es = Some s ->
  length (b_heads s ≫= slot) <= Z.to_nat (BsCon options) /\
  length (b_log s) <= length (hy_Heads hy) /\
  ((0 < BsCon options)%Z -> BCancel ∉ es ->
    exists es' s', bsteps (boot_ctx hy) s es' = Some s' /\
      Forall (fun h => h = ChClosed) (b_heads s') /\
      length (b_log s') = if decide (hydra_peers options = []) then 0 else length (hy_Heads hy)) /\
  (BsCon options = 0%Z -> b_log s = []).
Proof.
  intros Hinv Hn Hs.
  destruct (NewHydra_heads_started _ _ _ _ _ _ _ _ _ _ _ Hinv Hn) as (sh & Hl & Hbs & Hlen & -> & Hok).
  destruct (all_heads_bootstrap options sh (hy_Heads hy) Hok) as [Hb _].
  assert (boot_state options (hydra_effects options (concat (imap (spawn_effects options) (hy_Heads hy)))) =
    bstart (Some (Z.to_nat (BsCon options))) (replicate (length (hy_Heads hy)) (length (hydra_peers options))))
    as Hst.
  { unfold boot_state. rewrite bootstraps_hydra. f_equal.
    by rewrite Hb, fmap_replicate. }
  rewrite Hst in Hs. clear Hst. split_and!.
  - rewrite <-(binv_used _ _ _ (binv_bsteps _ _ _ _ _ _ (binv_bstart _ _) Hs)).
    apply (binv_bound _ _ _ (binv_bsteps _ _ _ _ _ _ (binv_bstart _ _) Hs)).
  - by apply boot_log in Hs as [? _].
  - intros Hpos Hes.
    destruct (bootstrap_completes_from (boot_ctx hy) _ _ s (binv_bsteps _ _ _ _ _ _ (binv_bstart _ _) Hs))
      as (es' & s' & Hs' & Hall & _); [lia|by refine (steps_not_cancelled _ _ _ _ Hes _ Hs)|].
    exists es', s'. split_and!; [done..|].
    assert (bsteps (boot_ctx hy) (bstart (Some (Z.to_nat (BsCon options)))
      (replicate (length (hy_Heads hy)) (length (hydra_peers options)))) (es ++ es') = Some s') as Hss.
    { by eapply bsteps_app. }
    apply boot_log in Hss as [_ Hlog]. rewrite (Hlog Hall).
    destruct (hydra_peers options); by case_decide.
  - intros Hzero. rewrite Hzero in Hs. by eapply no_slot.
Qed.
End boot.

(** ** Witness *)

(** The sample hydra of two heads, with one bootstrap peer: the first head is done. *)
Definition sample_boot_events : list bevent :=
  [BAcquire 0; BAcquire 1; BAttempt 0 0 PeerConnected; BWaited 0; BDone 0; BRelease 0].

Definition sample_boot : BState :=
  match bsteps (boot_ctx sample_hydra) (boot_state sample_options sample_started) sample_boot_events with
  | Some s => s
  | None => bstart None []
  end.

Lemma sample_boot_uncancelled : BCancel ∉ sample_boot_events.
Proof. unfold sample_boot_events. set_solver. Qed.

Lemma hydra_bootstraps_witness :
  length (b_log sample_boot) = 1 /\ length (b_heads sample_boot ≫= slot) <= 32 /\
  exists es' s', bsteps (boot_ctx sample_hydra) sample_boot es' = Some s' /\
    Forall (fun h => h = ChClosed) (b_heads s') /\ length (b_log s') = 2.
Proof.
  assert (bsteps (boot_ctx sample_hydra) (boot_state sample_options sample_started) sample_boot_events =
    Some sample_boot) as Hs by (vm_compute; reflexivity).
  destruct (@hydra_bootstraps sample_types sample_rcmgr sample_taglib (list nat) stuck_generator
    stuck_laws nat unit sample_head_libs (fun _ => inr (inr tt)) (fun _ => "id"%string)
    (fun _ => "addr"%string) sample_hydra_libs sample_options (NewPortSelector 3000) [] [1; 0]
    sample_started sample_hydra sample_boot_events sample_boot sample_generator_inv
    sample_NewHydra_heads Hs) as (Hslots & _ & Hend & _).
  split; [vm_compute; reflexivity|]. split; [exact Hslots|].
  destruct (Hend eq_refl sample_boot_uncancelled) as (es' & s' & Hs' & Hall & Hlog).
  exists es', s'. split; [exact Hs'|]. split; [exact Hall|exact Hlog].
Defined.
