(* ===== verification/HeadTesting.v ===== *)
(** * Heads for tests (src/head/testing.go, src/testing/helpers.go)

    What the packages offer to tests: heads with their own datastore, a context
    with a name, and a writer on a channel. *)
From Stdlib Require Import Strings.String.
From S2P Require Import Prelude GoStd Interfaces Metrics HeadOptions Head Hydra HydraSpec.
Open Scope nat_scope.

Section spawning.
Context `{OptTypes, RcmgrLibs, TagLib} {N S : Type} (libs : HeadLibs N S).
(** [datastore.NewMapDatastore()], without the mutex of the default one. *)
Context (map_datastore : o_Batching).

(** What the helpers do besides: they read the channel of a new head until it is
    closed, printing the errors (the model [Bootstrap] says when that happens), and
    close nodes. *)
Inductive TestEffect : Type :=
| OfTestHead (e : HeadEffect N S)
| AwaitBootstrap
| CloseNode (node : N).

(** The options of a head come after the defaults of the test head. *)
Definition SpawnTestHead (ctx : Tags) (options : list Option) : started TestEffect (Head N S) :=
  let defaults := [Datastore (Some map_datastore); BootstrapPeers []] in
  let '(es, r) := NewHead libs ctx (defaults ++ options) in
  hd ← (OfTestHead <$> es, r) : started _ _;
  _ ← start AwaitBootstrap;
  mret hd.

Fixpoint spawn_test_heads (ctx : Tags) (n : nat) (options : list Option) (hds : list (Head N S))
    : started TestEffect (list (Head N S)) :=
  match n with
  | O => mret hds
  | Datatypes.S n =>
      match SpawnTestHead ctx options with
      | (es, inl err) => (es ++ (CloseNode <$> (h_Host <$> hds)), inl err)
      | (es, inr hd) =>
          let '(es', r) := spawn_test_heads ctx n options (hds ++ [hd]) in (es ++ es', r)
      end
  end.
Definition SpawnTestHeads (ctx : Tags) (n : Z) (options : list Option)
    : started TestEffect (list (Head N S)) := spawn_test_heads ctx (Z.to_nat n) options [].

Definition closed (e : TestEffect) : option N :=
  match e with CloseNode node => Some node | _ => None end.

Lemma SpawnTestHead_closes ctx options : omap closed (SpawnTestHead ctx options).1 = [].
Proof.
  unfold SpawnTestHead. destruct (NewHead _ _ _) as [es r].
  assert (omap closed (OfTestHead <$> es) = []) as Hes by (by induction es).
  destruct r as [err|hd]; cbn; [done|]. by rewrite omap_app, Hes.
Qed.

(** As many heads as asked for, and none of them closed; or an error, and the
    nodes of exactly the heads that were there are closed. *)
Lemma SpawnTestHeads_ok ctx n options hds0 es r :
  spawn_test_heads ctx n options hds0 = (es, r) ->
  match r with
  | inr hds => omap closed es = [] /\ length hds = length hds0 + n
  | inl _ => exists new, omap closed es = h_Host <$> (hds0 ++ new) /\ length new < n
  end.
Proof.
  revert hds0 es. induction n as [|n IH]; intros hds0 es; cbn [spawn_test_heads].
  { intros [= <- <-]. split; [done|lia]. }
  pose proof (SpawnTestHead_closes ctx options) as Hc.
  destruct (SpawnTestHead ctx options) as [es1 [err|hd]]; cbn [fst] in Hc.
  - intros [= <- <-]. exists []. rewrite app_nil_r, omap_app, Hc. split; [|simpl; lia].
    cbn [app]. induction hds0 as [|hd hds0 IH0]; [done|]. cbn. f_equal. apply IH0.
  - destruct (spawn_test_heads ctx n options (hds0 ++ [hd])) as [es2 r2] eqn:Hs.
    intros [= <- <-]. apply IH in Hs. rewrite omap_app, Hc. destruct r2 as [err|hds].
    + destruct Hs as (new & Hs & Hl). exists (hd :: new). rewrite <-app_assoc in Hs.
      split; [done|simpl; lia].
    + destruct Hs as [Hs Hl]. split; [done|]. rewrite Hl, length_app. simpl. lia.
Qed.

(** The default bootstrap peers are not replaced. *)
Lemma test_head_bootstraps ctx hd :
  (SpawnTestHead ctx []).2 = inr hd -> o_BootstrapPeers (h_config hd) = DefaultBootstrapPeers.
Proof.
  unfold SpawnTestHead. destruct (NewHead _ _ _) as [es [err|hd']] eqn:Hhd; [done|].
  cbn. intros [= ->]. apply NewHead_config in Hhd as (_ & -> & _). vm_compute. reflexivity.
Qed.

(** [NewContext] of src/testing/helpers.go. *)
Definition NewContext : outcome Tags :=
  match tag_New ∅ [Upsert "name" "test"] with inl _ => Panic | inr ctx => Ret ctx end.
End spawning.

(** [ChanWriter], with what has been received from its channel. A write sends a copy
    and returns when that is received. *)
Record ChanWriter := mkChanWriter { cw_received : list (list byte) }.
Definition NewChanWriter : ChanWriter := mkChanWriter [].
Definition chan_Write (w : ChanWriter) (p : list byte) : ChanWriter * (Z * option goerror) :=
  (mkChanWriter (cw_received w ++ [p]), (Z.of_nat (length p), None)).
