(* ===== verification/Ui.v ===== *)
(** * The terminal UI (src/ui, src/ui/opts)

    The options; the samples of a metric; the line of the theme Logey; and the
    screen of the theme Gooey: its data lines and its log, a ring buffer, with what
    they write to the terminal as strings. Then the loop of [Render] and the
    goroutine that polls the metrics. *)
From Stdlib Require Import Strings.Ascii Strings.String.
From stdpp Require Import pretty.
From S2P Require Import Prelude GoStd Floats Duration Metrics.
Local Open Scope nat_scope.

(** ** Options (src/ui/opts/options.go) *)

Record UiOptions (Writer : Type) := mkUiOptions {
  u_MetricsURL : string;
  u_Start : Z;
  u_Writer : option Writer;
  u_RefreshPeriod : Z;
}.
Arguments mkUiOptions {Writer} _ _ _ _.
Arguments u_MetricsURL {Writer} _.
Arguments u_Start {Writer} _.
Arguments u_Writer {Writer} _.
Arguments u_RefreshPeriod {Writer} _.

Section options.
Context {Writer : Type}.
Implicit Types (o : UiOptions Writer).

(** An option changes the options and may fail. *)
Definition UiOption : Type := UiOptions Writer -> UiOptions Writer * option goerror.

(** [Apply]: the error names the number of the option that failed. *)
Fixpoint ui_apply (i : nat) (opts : list UiOption) o : UiOptions Writer * option (nat * goerror) :=
  match opts with
  | [] => (o, None)
  | opt :: opts =>
      let '(o, err) := opt o in
      match err with
      | Some err => (o, Some (i, err))
      | None => ui_apply (S i) opts o
      end
  end.

Definition UiDefaults (now : Z) (stderr : Writer) : UiOption := fun o =>
  (mkUiOptions "http://127.0.0.1:8888/metrics" now (Some stderr) 5000000000, None).
Definition UiMetricsURL (url : string) : UiOption := fun o =>
  (mkUiOptions url (u_Start o) (u_Writer o) (u_RefreshPeriod o), None).
Definition UiStart (t : Z) : UiOption := fun o =>
  (mkUiOptions (u_MetricsURL o) t (u_Writer o) (u_RefreshPeriod o), None).
Definition UiWriter (w : Writer) : UiOption := fun o =>
  (mkUiOptions (u_MetricsURL o) (u_Start o) (Some w) (u_RefreshPeriod o), None).
Definition UiRefreshPeriod (rp : Z) : UiOption := fun o =>
  (mkUiOptions (u_MetricsURL o) (u_Start o) (u_Writer o) rp, None).

(** The options of [NewUI], which drops the error of [Apply]. *)
Definition NewUI (now : Z) (stderr : Writer) (opts : list UiOption) : UiOptions Writer :=
  (ui_apply 0 (UiDefaults now stderr :: opts) (mkUiOptions "" 0 None 0)).1.
End options.
Arguments UiOption : clear implicits.

(** ** Metrics (src/ui/ui.go) *)

(** [humanize.Bytes] of a uint64. *)
Class Humanize := { humanize_Bytes : Z -> string }.

Record Sample := mkSample {
  s_Labels : gmap string string;
  s_Value : float64;
}.
Record PromMetric := mkPromMetric {
  m_Name : string;
  m_Samples : list Sample;
}.

Definition PrometheusNamespace : string := "hydrabooster".
Definition nsName (m : Measure) : string := PrometheusNamespace +:+ "_" +:+ m_name m.

Definition findByName (ms : list PromMetric) (metricName : string) : option PromMetric :=
  List.find (fun m => bool_decide (m_Name m = metricName)) ms.

(** A sample without the label has the empty string. *)
Definition labelValues (m : option PromMetric) (labelKey : string) : list string :=
  match m with
  | Some m => (fun s => default ""%string (s_Labels s !! labelKey)) <$> m_Samples m
  | None => []
  end.

Definition sumSamples (m : option PromMetric) : float64 :=
  match m with
  | Some m => foldl (fun val s => f64_add val (s_Value s)) f64_zero (m_Samples m)
  | None => f64_zero
  end.

(** ** The screen (src/ui/gooey.go) *)

Definition ESC : string := String (ascii_of_nat 27) "".
Definition QClrLine : string := ESC +:+ "[K".
Definition QReset : string := ESC +:+ "[2J".
Definition newline : string := String (ascii_of_nat 10) "".
Definition width : nat := 25.

Fixpoint Repeat (s : string) (n : nat) : string :=
  match n with O => ""%string | S n => s +:+ Repeat s n end.

Definition putMessage (line : Z) (mes : string) : string :=
  ESC +:+ "[" +:+ pretty line +:+ ";0H" +:+ QClrLine +:+ mes.

(** [strings.Repeat] panics on a negative count. *)
Definition padPrint (line : Z) (label value : string) : outcome string :=
  if width <? String.length label then Panic
  else Ret (putMessage line (label +:+ Repeat " " (width - String.length label) +:+ value)).

Record DataLine := mkDataLine {
  Label : string;
  Line : Z;
  Default : string;
  LastVal : string;
}.

Definition dl_Print (dl : DataLine) : outcome string :=
  padPrint (Line dl) (Label dl)
    (if decide (LastVal dl <> ""%string) then LastVal dl else Default dl).

Definition SetVal (dl : DataLine) (s : string) : DataLine * outcome string :=
  let dl := mkDataLine (Label dl) (Line dl) (Default dl) s in (dl, dl_Print dl).

(** [beg] and [end_] are indices into [Messages]. *)
Record Log := mkLog {
  Size : Z;
  StartLine : Z;
  Messages : list string;
  beg : Z;
  end_ : Z;
}.

(** [make] panics on a negative size. *)
Definition NewLog (line size : Z) : outcome Log :=
  if (size <? 0)%Z then Panic
  else Ret (mkLog size line (replicate (Z.to_nat size) ""%string) 0 (-1)).

(** Go's [%] panics on 0, and an index out of range panics. *)
Definition go_rem (a b : Z) : outcome Z := if (b =? 0)%Z then Panic else Ret (Z.rem a b).
Definition go_index {A} (l : list A) (i : Z) : outcome A :=
  if (i <? 0)%Z then Panic
  else match l !! Z.to_nat i with Some x => Ret x | None => Panic end.

Definition log_Add (l : Log) (m : string) : outcome Log :=
  e ← go_rem (wrap_int (end_ l + 1)) (Size l);
  old ← go_index (Messages l) e;
  let b := if decide (old <> ""%string) then wrap_int (beg l + 1) else beg l in
  Ret (mkLog (Size l) (StartLine l) (<[Z.to_nat e := m]> (Messages l)) b e).

(** The messages that [Print] shows, from its line [i] on. *)
Fixpoint log_messages (l : Log) (i : Z) (n : nat) : outcome (list string) :=
  match n with
  | O => Ret []
  | S n =>
      j ← go_rem (wrap_int (beg l + i)) (Size l);
      m ← go_index (Messages l) j;
      ms ← log_messages l (i + 1) n;
      Ret (m :: ms)
  end.

Definition log_Print (l : Log) : outcome (list string) :=
  ms ← log_messages l 0 (Z.to_nat (Size l));
  Ret (imap (fun i m => putMessage (StartLine l + Z.of_nat i) m) ms).

(** What a [LogNotifee] sends to its channel for a connection of a peer; for the
    other events it sends nothing. *)
Inductive notifee_event : Type :=
| NListen | NListenClose | NConnected (peer : string) | NDisconnected (peer : string)
| NOpenedStream | NClosedStream.
Definition LogNotifee (e : notifee_event) : option string :=
  match e with
  | NConnected peer => Some ("New connection from " +:+ peer)
  | NDisconnected peer => Some ("Lost connection to " +:+ peer)
  | _ => None
  end.

Record GooeyApp := mkGooey {
  Title : string;
  DataFields : list DataLine;
  ga_Log : Log;
}.

Fixpoint print_lines (dls : list DataLine) : outcome (list string) :=
  match dls with
  | [] => Ret []
  | dl :: dls => s ← dl_Print dl; ss ← print_lines dls; Ret (s :: ss)
  end.

Definition ga_Print (a : GooeyApp) : outcome (list string) :=
  ss ← print_lines (DataFields a);
  ls ← log_Print (ga_Log a);
  Ret ((QReset +:+ newline) :: putMessage 1 (Title a) :: ss ++ ls).

(** A new line at the end of the lines, and its number, which stands for the
    pointer that the code gets. *)
Definition NewDataLine (a : GooeyApp) (line : Z) (label defval : string) : GooeyApp * nat :=
  let dl := mkDataLine label line defval "" in
  (mkGooey (Title a) (DataFields a ++ [dl]) (ga_Log a), length (DataFields a)).

(** The app of [Render], with its lines numbered from 0. *)
Definition gooey_app (l : Log) : GooeyApp :=
  let ga := mkGooey "Hydra Booster" [] l in
  let '(ga, ehds) := NewDataLine ga 3 "Head ID(s)" "" in
  let '(ga, econs) := NewDataLine ga 4 "Connections" "0" in
  let '(ga, uniqprs) := NewDataLine ga 5 "Unique Peers Seen" "0" in
  let '(ga, emem) := NewDataLine ga 6 "Memory Allocated" "0MB" in
  let '(ga, eprov) := NewDataLine ga 7 "Stored Provider Records" "0" in
  let '(ga, erts) := NewDataLine ga 8 "Routing Table Size" "0" in
  let '(ga, etime) := NewDataLine ga 9 "Uptime" "0h 0m 0s" in
  ga.

Fixpoint join_space (l : list string) : string :=
  match l with
  | [] => ""%string
  | [s] => s
  | s :: l => s +:+ " " +:+ join_space l
  end.

Section values.
Context `{Humanize}.

(** The conversion of a float64 to uint64; the memory is a number in its range. *)
Definition memory (ms : list PromMetric) : string :=
  humanize_Bytes (wrap_u64 (f64_trunc (sumSamples (findByName ms "go_memstats_alloc_bytes")))).
Definition total_of (ms : list PromMetric) (m : Measure) : string := Sprint (sumSamples (findByName ms (nsName m))).

(** The values that a round of metrics gives the data lines, with the numbers of
    the lines, in the order of the code. *)
Definition gooey_values (ms : list PromMetric) : list (nat * string) := [
  (0, "[" +:+ join_space (labelValues (findByName ms (nsName Heads)) "peer_id") +:+ "]");
  (3, memory ms);
  (1, total_of ms ConnectedPeers +:+ " peers");
  (2, total_of ms UniquePeers);
  (4, total_of ms ProviderRecords);
  (5, total_of ms RoutingTableSize)
].

(** The uptime [t] in hours, minutes and seconds: each is a float64 that is cut to
    an int. *)
Definition uptime (t : Z) : string :=
  let h := f64_to_int64 (Hours t) in
  let m := Z.rem (f64_to_int64 (Minutes t)) 60 in
  let s := Z.rem (f64_to_int64 (Seconds t)) 60 in
  pretty h +:+ "h " +:+ pretty m +:+ "m " +:+ pretty s +:+ "s".

(** [Duration.String] of a whole number of seconds. *)
Definition seconds_String (n : Z) : string :=
  let u := Z.abs n in
  let h := (u / 3600)%Z in
  let m := (u / 60 `mod` 60)%Z in
  let s := (u `mod` 60)%Z in
  (if (n <? 0)%Z then "-" else "") +:+
  (if (0 <? h)%Z then pretty h +:+ "h" else "") +:+
  (if (0 <? u / 60)%Z then pretty m +:+ "m" else "") +:+ pretty s +:+ "s".

(** The line of the theme Logey at the uptime [t]. *)
Definition logey_line (ms : list PromMetric) (t : Z) : string :=
  "[NumHeads: " +:+ total_of ms Heads +:+
  ", Uptime: " +:+ seconds_String (f64_to_int64 (Seconds t)) +:+
  ", MemoryUsage: " +:+ memory ms +:+
  ", PeersConnected: " +:+ total_of ms ConnectedPeers +:+
  ", TotalUniquePeersSeen: " +:+ total_of ms UniquePeers +:+
  ", BootstrapsDone: " +:+ total_of ms BootstrappedHeads +:+
  ", ProviderRecords: " +:+ total_of ms ProviderRecords +:+
  ", RoutingTableSize: " +:+ total_of ms RoutingTableSize +:+ "]" +:+ newline.

(** ** The loop of [Render] (src/ui/ui.go) *)

Inductive Theme : Type := Logey | Gooey.

(** What the loop selects: metrics, at an uptime, and the ticks of the clock. *)
Inductive ui_input : Type :=
| InMetrics (ms : list PromMetric) (t : Z)
| InSecond (t : Z).

(** [SetVal] of line [i]; [out] is what has been written. *)
Definition set_line (a : GooeyApp) (out : list string) (iv : nat * string)
    : outcome (GooeyApp * list string) :=
  match DataFields a !! iv.1 with
  | None => Panic
  | Some dl =>
      let '(dl, s) := SetVal dl iv.2 in
      s ← s;
      Ret (mkGooey (Title a) (<[iv.1 := dl]> (DataFields a)) (ga_Log a), out ++ [s])
  end.

Fixpoint set_lines (a : GooeyApp) (out : list string) (ivs : list (nat * string))
    : outcome (GooeyApp * list string) :=
  match ivs with
  | [] => Ret (a, out)
  | iv :: ivs => '(a, out) ← set_line a out iv; set_lines a out ivs
  end.

Definition gooey_start : outcome (GooeyApp * list string) :=
  l ← NewLog 15 15;
  let ga := gooey_app l in
  ss ← ga_Print ga;
  Ret (ga, ss).

Definition gooey_step (a : GooeyApp) (out : list string) (i : ui_input)
    : outcome (GooeyApp * list string) :=
  '(a, out) ← set_lines a out
    (match i with InMetrics ms _ => gooey_values ms | InSecond t => [(6, uptime t)] end);
  ss ← ga_Print a;
  Ret (a, out ++ ss).

Fixpoint gooey_loop (a : GooeyApp) (out : list string) (ins : list ui_input)
    : outcome (GooeyApp * list string) :=
  match ins with
  | [] => Ret (a, out)
  | i :: ins => '(a, out) ← gooey_step a out i; gooey_loop a out ins
  end.

(** What [Render] writes for the inputs that its loop selects. *)
Definition render (theme : Theme) (ins : list ui_input) : outcome (list string) :=
  match theme with
  | Logey => Ret (omap (fun i => match i with InMetrics ms t => Some (logey_line ms t) | InSecond _ => None end) ins)
  | Gooey => '(a, out) ← gooey_start; '(_, out) ← gooey_loop a out ins; Ret out
  end.

(** The goroutine that polls: it waits for its timer, or for the loop to take what
    it has fetched, or has returned. *)
Inductive poller : Type :=
| PollWaiting
| PollSending (ms : list PromMetric)
| PollReturned.

(** [r_inputs] are the inputs that the loop has selected. *)
Record RState := mkRState {
  r_poller : poller;
  r_cancelled : bool;
  r_running : bool;
  r_inputs : list ui_input;
}.

(** The timer fires and the metrics are fetched, or an error is printed; the loop
    takes the metrics or a tick; the context ends, the goroutine or the loop sees
    it. [None]: not possible in this state. *)
Inductive render_event : Type :=
| TimerFires (r : result (list PromMetric))
| TakeMetrics (t : Z)
| TakeSecond (t : Z)
| Cancel
| PollerDone
| LoopDone.

Definition rstep (theme : Theme) (s : RState) (e : render_event) : option RState :=
  match e, r_poller s with
  | TimerFires (inl _), PollWaiting => Some s
  | TimerFires (inr ms), PollWaiting =>
      Some (mkRState (PollSending ms) (r_cancelled s) (r_running s) (r_inputs s))
  | TakeMetrics t, PollSending ms =>
      if r_running s then
        Some (mkRState PollWaiting (r_cancelled s) true (r_inputs s ++ [InMetrics ms t]))
      else None
  | TakeSecond t, p =>
      match theme with
      | Gooey => if r_running s then Some (mkRState p (r_cancelled s) true (r_inputs s ++ [InSecond t])) else None
      | Logey => None
      end
  | Cancel, p => Some (mkRState p true (r_running s) (r_inputs s))
  | PollerDone, PollWaiting =>
      if r_cancelled s then Some (mkRState PollReturned true (r_running s) (r_inputs s)) else None
  | LoopDone, p =>
      if r_cancelled s && r_running s then Some (mkRState p true false (r_inputs s)) else None
  | _, _ => None
  end.
Definition rstart : RState := mkRState PollWaiting false true [].
End values.

(** ** The log shows its last messages *)

(** [ms] are the messages so far; slot [i mod n] holds message number [i] while
    it is one of the last [n]. *)
Definition log_inv (n : nat) (line : Z) (ms : list string) (l : Log) : Prop :=
  Size l = Z.of_nat n /\ StartLine l = line /\ length (Messages l) = n /\
  beg l = Z.of_nat (length ms - n) /\
  (forall i, i < length ms -> length ms <= i + n -> Messages l !! (i mod n) = ms !! i) /\
  (forall j, length ms <= j < n -> Messages l !! j = Some ""%string) /\
  (0 <= end_ l + 1)%Z /\ (end_ l + 1 <= Z.of_nat n)%Z /\
  Z.to_nat (end_ l + 1) mod n = length ms mod n.

Lemma go_rem_nat (a b : nat) : b <> 0 -> go_rem (Z.of_nat a) (Z.of_nat b) = Ret (Z.of_nat (a mod b)).
Proof.
  intros Hb. unfold go_rem. rewrite (proj2 (Z.eqb_neq _ 0)) by lia.
  by rewrite Z.rem_mod_nonneg, Nat2Z.inj_mod by lia.
Qed.

Lemma go_index_nat {A} (l : list A) (i : nat) x : l !! i = Some x -> go_index l (Z.of_nat i) = Ret x.
Proof.
  intros Hx. unfold go_index. rewrite (proj2 (Z.ltb_ge _ 0)) by lia. by rewrite Nat2Z.id, Hx.
Qed.

Lemma mod_eq_close (n i j : nat) : i mod n = j mod n -> i <= j < i + n -> i = j.
Proof.
  intros Heq Hij. assert (n <> 0) as Hn by lia.
  pose proof (Nat.div_mod i n Hn). pose proof (Nat.div_mod j n Hn).
  revert Hij. generalize dependent (i / n). generalize dependent (j / n). intros b Hb a Ha Hij.
  rewrite Heq in Ha. destruct (Nat.lt_trichotomy a b) as [Hab|[->|Hab]]; [|lia|]; nia.
Qed.

Lemma log_inv_new n line : n <> 0 ->
  exists l, NewLog line (Z.of_nat n) = Ret l /\ log_inv n line [] l.
Proof.
  intros Hn. unfold NewLog. rewrite (proj2 (Z.ltb_ge _ 0)) by lia. eexists. split; [done|].
  unfold log_inv. cbn. rewrite length_replicate, Nat2Z.id. split_and!; try done; try lia. intros j Hj.
  apply lookup_replicate. split; [done|lia].
Qed.

Lemma log_inv_add n line ms l m :
  n <> 0 -> m <> ""%string -> Forall (fun m => m <> ""%string) ms ->
  (Z.of_nat n < 2 ^ 63)%Z -> (Z.of_nat (length ms) + 1 < 2 ^ 63)%Z ->
  log_inv n line ms l -> exists l', log_Add l m = Ret l' /\ log_inv n line (ms ++ [m]) l'.
Proof.
  intros Hn Hm Hms Hsize Hlen (HS & HL & HM & Hbeg & Hslots & Hfree & He0 & He1 & Hmod).
  unfold log_Add. rewrite HS. pose proof (Z2Nat.id (end_ l + 1) He0) as HZ.
  rewrite (wrap_int_small (end_ l + 1)), <-HZ, go_rem_nat, Hmod by lia. run.
  set (e := length ms mod n). assert (e < n) as He by (by apply Nat.mod_upper_bound).
  assert (exists old, Messages l !! e = Some old /\ (old = ""%string <-> length ms < n)) as (old & Hold & Hempty).
  { destruct (decide (length ms < n)) as [Hlt|Hge].
    - exists ""%string. split; [|done]. apply Hfree. unfold e. rewrite Nat.mod_small by lia. lia.
    - assert ((length ms - n) mod n = e) as Hslot.
      { unfold e. replace (length ms) with (length ms - n + 1 * n) at 2 by lia. by rewrite Nat.Div0.mod_add. }
      destruct (lookup_lt_is_Some_2 ms (length ms - n)) as [old Hold]; [lia|]. exists old.
      split; [rewrite <-Hslot, Hslots by lia; done|].
      rewrite Forall_lookup in Hms. specialize (Hms _ _ Hold). naive_solver. }
  rewrite (go_index_nat _ _ _ Hold). run. rewrite Nat2Z.id.
  eexists. split; [done|]. unfold log_inv. cbn [Size StartLine Messages beg end_].
  rewrite length_insert, length_app. cbn [length].
  assert (forall i, i <= length ms -> length ms < i + n -> i mod n = e -> i = length ms) as Huniq
    by (intros i ?? Hi; apply (mod_eq_close n); [done|lia]).
  split_and!; try done; try lia.
  - rewrite Hbeg. destruct (decide (old <> ""%string)) as [Ho|Ho].
    + autorewrite with wrap. assert (~ length ms < n) by naive_solver. lia.
    + assert (length ms < n) by (apply Hempty; by destruct (decide (old = ""%string))). lia.
  - intros i Hi Hin. destruct (decide (i = length ms)) as [->|Hne].
    + rewrite list_lookup_insert_eq by lia. by rewrite list_lookup_middle.
    + rewrite list_lookup_insert_ne by (intros Heq; apply Hne, Huniq; lia).
      rewrite lookup_app_l by lia. apply Hslots; lia.
  - intros j Hj. rewrite list_lookup_insert_ne; [apply Hfree; lia|].
    unfold e. rewrite Nat.mod_small by lia. lia.
  - replace (Z.to_nat (Z.of_nat e + 1)) with (e + 1) by lia. unfold e.
    by rewrite Nat.Div0.add_mod_idemp_l.
Qed.

(** What a log of [n] lines shows after the messages [ms]. *)
Definition last_messages (n : nat) (ms : list string) : list string :=
  take n (drop (length ms - n) ms ++ replicate n ""%string).

Lemma log_messages_inv n line ms l k :
  n <> 0 -> (Z.of_nat n + Z.of_nat (length ms) < 2 ^ 63)%Z -> log_inv n line ms l -> k <= n ->
  log_messages l (Z.of_nat (n - k)) k = Ret (drop (n - k) (last_messages n ms)).
Proof.
  intros Hn Hsize (HS & HL & HM & Hbeg & Hslots & Hfree & _).
  assert (forall i, i < n -> Messages l !! ((length ms - n + i) mod n) = last_messages n ms !! i) as Hshow.
  { intros i Hi. unfold last_messages. rewrite lookup_take_lt by done.
    destruct (decide (length ms - n + i < length ms)) as [Hlt|Hge].
    - rewrite lookup_app_l, lookup_drop by (rewrite length_drop; lia). apply Hslots; lia.
    - rewrite lookup_app_r by (rewrite length_drop; lia). rewrite length_drop.
      rewrite Nat.mod_small by lia. rewrite Hfree by lia. symmetry.
      apply lookup_replicate. split; [done|lia]. }
  assert (length (last_messages n ms) = n) as Hlast.
  { unfold last_messages. rewrite length_take, length_app, length_drop, length_replicate. lia. }
  induction k as [|k IH]; intros Hk; cbn [log_messages].
  - rewrite drop_ge by (rewrite Hlast; lia). done.
  - destruct (lookup_lt_is_Some_2 (last_messages n ms) (n - S k)) as [m Hm]; [lia|].
    rewrite HS, Hbeg, <-Nat2Z.inj_add, wrap_int_small, go_rem_nat by lia. run.
    rewrite (go_index_nat _ _ m) by (rewrite Hshow by lia; done). run.
    replace (Z.of_nat (n - S k) + 1)%Z with (Z.of_nat (n - k)) by lia. rewrite IH by lia.
    run. rewrite (drop_S _ m _ Hm). by replace (S (n - S k)) with (n - k) by lia.
Qed.

Fixpoint add_all (l : Log) (ms : list string) : outcome Log :=
  match ms with [] => Ret l | m :: ms => l ← log_Add l m; add_all l ms end.

Lemma add_all_inv n line done ms l :
  n <> 0 -> Forall (fun m => m <> ""%string) (done ++ ms) ->
  (Z.of_nat n + Z.of_nat (length (done ++ ms)) < 2 ^ 63)%Z ->
  log_inv n line done l -> exists l', add_all l ms = Ret l' /\ log_inv n line (done ++ ms) l'.
Proof.
  intros Hn. revert done l. induction ms as [|m ms IH]; intros done l Hms Hlen Hinv.
  - exists l. by rewrite app_nil_r.
  - rewrite length_app in Hlen. cbn [length] in Hlen. apply Forall_app in Hms as [Hd Hm].
    apply Forall_cons in Hm as [Hm Hms]. destruct (log_inv_add n line done l m) as (l' & Hl' & Hinv');
      [done|done|done|lia|lia|done|]. cbn [add_all]. rewrite Hl'. run.
    rewrite (cons_middle m done ms), app_assoc. apply IH; [|rewrite !length_app; cbn [length]; lia|done].
    apply Forall_app. split; [|done]. apply Forall_app. by split; [|constructor].
Qed.

(** A log of [size] lines to which messages are added, none of them empty,
    never panics, and prints the last [size] of them, oldest first, one per line
    from its start line on; lines that have no message yet are cleared. *)
Theorem log_shows_last (size : nat) (line : Z) (ms : list string) :
  size <> 0 -> Forall (fun m => m <> ""%string) ms ->
  (Z.of_nat size + Z.of_nat (length ms) < 2 ^ 63)%Z ->
  (l ← NewLog line (Z.of_nat size); l ← add_all l ms; log_Print l) =
  Ret (imap (fun i m => putMessage (line + Z.of_nat i) m) (last_messages size ms)).
Proof.
  intros Hn Hms Hlen. destruct (log_inv_new size line Hn) as (l & -> & Hinv). run.
  destruct (add_all_inv size line [] ms l) as (l' & -> & Hinv'); [done..|]. cbn [mbind outcome_bind app].
  unfold log_Print. destruct Hinv' as (HS & HL & Hrest). rewrite HS, Nat2Z.id.
  pose proof (log_messages_inv size line ms l' size Hn Hlen (conj HS (conj HL Hrest)) (Nat.le_refl _)) as Hm.
  rewrite Nat.sub_diag in Hm. change (Z.of_nat 0) with 0%Z in Hm. rewrite Hm. run.
  by rewrite HL.
Qed.

Lemma log_shows_last_witness :
  (l ← NewLog 15 2; l ← add_all l ["a"; "b"; "c"]%string; log_Print l) =
  Ret [putMessage 15 "b"; putMessage 16 "c"].
Proof.
  apply (log_shows_last 2 15 ["a"; "b"; "c"]%string).
  - discriminate.
  - repeat constructor; discriminate.
  - reflexivity.
Defined.

(** The message that is written over an empty one does not move the start: the
    two last messages are then shown in the wrong order. *)
Lemma log_empty_message :
  (l ← NewLog 15 2; l ← add_all l ["a"; "b"; ""; "c"; "d"]%string; log_Print l) =
  Ret [putMessage 15 "d"; putMessage 16 "c"].
Proof. reflexivity. Qed.

(** A label of more than 25 characters panics. *)
Lemma padPrint_panics line label value :
  padPrint line label value = Panic <-> width < String.length label.
Proof. unfold padPrint. destruct (Nat.ltb_spec width (String.length label)); [done|split; [done|lia]]. Qed.
