(* ===== verification/MainConfig.v ===== *)
(** * The program's configuration (src/main.go)

    The command line flags after parsing, the environment, and the part of
    [main] that turns them into the options of a hydra and the choice of an
    identity generator. [log.Fatal] ends the program: it is an error of the
    result. *)
From Stdlib Require Import Strings.String.
From S2P Require Import Prelude GoStd Encoding Duration Utils Ui.

#[export] Instance result_ret : MRet (sum goerror) := fun A a => inr a.
#[export] Instance result_bind : MBind (sum goerror) := fun A B f m =>
  match m with inl err => inl err | inr a => f a end.

(** [os.Getenv]: a variable that is not set reads as the empty string. *)
Abbreviation Env := (string -> string).

Definition mustGetEnvInt (env : Env) (key : string) (def : Z) : result Z :=
  if decide (env key = ""%string) then inr def
  else match Atoi (env key) with
       | inl err => inl (Errorf ("invalid " +:+ key +:+ " env value") err)
       | inr val => inr val
       end.

Definition mustGetEnvBool (env : Env) (key : string) (def : bool) : result bool :=
  if decide (env key = ""%string) then inr def
  else match ParseBool (env key) with
       | inl err => inl (Errorf ("invalid " +:+ key +:+ " env value") err)
       | inr val => inr val
       end.

(** The values of the flags. *)
Record Flags := mkFlags {
  f_nheads : Z;
  f_randomSeed : string;
  f_idOffset : Z;
  f_dbpath : string;
  f_pstorePath : string;
  f_providerStore : string;
  f_delegateTimeout : Z;
  f_inmem : bool;
  f_enableRelay : bool;
  f_portBegin : Z;
  f_protocolPrefix : string;
  f_bucketSize : Z;
  f_bootstrapConcurrency : Z;
  f_bootstrapPeers : string;
  f_stagger : Z;
  f_name : string;
  f_idgenAddr : string;
  f_disableProvGC : bool;
  f_disableProviders : bool;
  f_disableValues : bool;
  f_disablePrefetch : bool;
  f_disableProvCounts : bool;
  f_disableDBCreate : bool;
  f_disableResourceManager : bool;
  f_resourceManagerLimits : string;
  f_connMgrHighWater : Z;
  f_connMgrLowWater : Z;
  f_connMgrGracePeriod : string;
  f_uiTheme : string;
  f_metricsAddr : string;
  f_httpAPIAddr : string;
}.

Definition defaultMetricsAddr : string := "127.0.0.1:9758".
Definition defaultHTTPAPIAddr : string := "127.0.0.1:7779".
Definition defaultConnMgrHighWater : Z := 1800.
Definition defaultConnMgrLowWater : Z := 1200.
Definition defaultConnMgrGracePeriod : string := "60s".

(** The values when no flag is given, with the DHT's default prefix. *)
Definition default_flags (DefaultPrefix : string) : Flags :=
  mkFlags (-1) "" (-1) "" "" "" 0 false false (-1) DefaultPrefix 20 32 "" 0 "" "" false false false
    false false false false "" defaultConnMgrHighWater defaultConnMgrLowWater
    defaultConnMgrGracePeriod "logey" defaultMetricsAddr defaultHTTPAPIAddr.

(** A flag that keeps a given value is replaced from the environment. *)
Definition int_or_env (env : Env) (v unset : Z) (key : string) (def : Z) : result Z :=
  if decide (v = unset) then mustGetEnvInt env key def else inr v.
Definition bool_or_env (env : Env) (v : bool) (key : string) : result bool :=
  if negb v then mustGetEnvBool env key false else inr v.
Definition string_or_env (env : Env) (v : string) (key : string) : string :=
  if decide (v = ""%string) then env key else v.

(** The identity generator: the package's own, one from a seed, or the cleaning
    one over a remote one. *)
Inductive GeneratorChoice : Type :=
| HydraGenerator
| SeededGenerator (seed : list byte) (idOffset : Z)
| RemoteGenerator (addr : string).

(** The UI of a theme and the address it polls, unless the theme is "none". *)
Definition choose_ui (uiTheme metricsAddr : string) : option (Theme * string) :=
  if decide (uiTheme <> "none"%string) then
    Some (if decide (uiTheme = "gooey"%string) then Gooey else Logey,
      "http://" +:+ metricsAddr +:+ "/metrics")
  else None.

Section main.
Context {Multiaddr : Type} (NewMultiaddr : string -> result Multiaddr).

(** The loop of [mustConvertToMultiaddr]. *)
Fixpoint convert_addrs (addrs : list string) (peers : list Multiaddr) : result (list Multiaddr) :=
  match addrs with
  | [] => inr peers
  | addr :: addrs =>
      match NewMultiaddr addr with
      | inl err => inl (Errorf ("invalid multiaddr " +:+ addr) err)
      | inr ma => convert_addrs addrs (peers ++ [ma])
      end
  end.

Definition mustConvertToMultiaddr (csv : string) : result (list Multiaddr) :=
  if decide (csv <> ""%string) then convert_addrs (Split csv comma) [] else inr [].

(** What [main] passes to [NewHydra], with the generator. *)
Record Config := mkConfig {
  c_Name : string;
  c_DatastorePath : string;
  c_PeerstorePath : string;
  c_ProviderStore : string;
  c_DelegateTimeout : Z;
  c_EnableRelay : bool;
  c_ProtocolPrefix : string;
  c_BucketSize : Z;
  c_GetPort : PortSelector;
  c_NHeads : Z;
  c_BsCon : Z;
  c_Stagger : Z;
  c_IDGenerator : GeneratorChoice;
  c_DisableProvGC : bool;
  c_DisableProviders : bool;
  c_DisableValues : bool;
  c_BootstrapPeers : list Multiaddr;
  c_DisablePrefetch : bool;
  c_DisableProvCounts : bool;
  c_DisableDBCreate : bool;
  c_DisableResourceManager : bool;
  c_ResourceManagerLimitsFile : string;
  c_ConnMgrHighWater : Z;
  c_ConnMgrLowWater : Z;
  c_ConnMgrGracePeriod : Z;
}.

Definition choose_generator (randomSeed idgenAddr : string) (idOffset : Z) : result GeneratorChoice :=
  if decide (randomSeed <> ""%string /\ idgenAddr <> ""%string)
  then inl (ErrorMsg "error: Should not set both idgen-addr and random-seed")
  else
    seeded ←
      (if decide (randomSeed <> ""%string) then
         match b64_decode (list_byte_of_string randomSeed) with
         | inl _ => inl (ErrorMsg "error: Could not base64 decode seed")
         | inr seed =>
             if decide (length seed <> 32)
             then inl (ErrorMsg "error: Seed should be 256bit in base64")
             else inr (SeededGenerator seed idOffset)
         end
       else inr HydraGenerator);
    inr (if decide (idgenAddr <> ""%string) then RemoteGenerator idgenAddr else seeded).

Definition db_path (f : Flags) (env : Env) : string :=
  if f_inmem f then ""
  else if decide (f_dbpath f = ""%string) then
    if decide (env "HYDRA_DB" = ""%string) then "hydra-belly" else env "HYDRA_DB"
  else f_dbpath f.

Definition grace_period (f : Flags) (env : Env) : string :=
  if decide (f_connMgrGracePeriod f = defaultConnMgrGracePeriod) then
    if decide (env "HYDRA_CONNMGR_GRACE_PERIOD" <> ""%string)
    then env "HYDRA_CONNMGR_GRACE_PERIOD" else f_connMgrGracePeriod f
  else f_connMgrGracePeriod f.

Definition configure (f : Flags) (env : Env) : result Config :=
  let dbpath := db_path f env in
  nheads ← int_or_env env (f_nheads f) (-1) "HYDRA_NHEADS" 1;
  let randomSeed := string_or_env env (f_randomSeed f) "HYDRA_RANDOM_SEED" in
  idOffset ← int_or_env env (f_idOffset f) (-1) "HYDRA_ID_OFFSET" 0;
  portBegin ← int_or_env env (f_portBegin f) (-1) "HYDRA_PORT_BEGIN" 0;
  let name := string_or_env env (f_name f) "HYDRA_NAME" in
  let idgenAddr := string_or_env env (f_idgenAddr f) "HYDRA_IDGEN_ADDR" in
  disableProvGC ← bool_or_env env (f_disableProvGC f) "HYDRA_DISABLE_PROV_GC";
  let bootstrapPeers := string_or_env env (f_bootstrapPeers f) "HYDRA_BOOTSTRAP_PEERS" in
  disablePrefetch ← bool_or_env env (f_disablePrefetch f) "HYDRA_DISABLE_PREFETCH";
  disableDBCreate ← bool_or_env env (f_disableDBCreate f) "HYDRA_DISABLE_DBCREATE";
  disableProvCounts ← bool_or_env env (f_disableProvCounts f) "HYDRA_DISABLE_PROV_COUNTS";
  let pstorePath := string_or_env env (f_pstorePath f) "HYDRA_PSTORE" in
  let providerStore := string_or_env env (f_providerStore f) "HYDRA_PROVIDER_STORE" in
  delegateTimeout ← int_or_env env (f_delegateTimeout f) 0 "HYDRA_DELEGATED_ROUTING_TIMEOUT" 1000;
  disableResourceManager ← bool_or_env env (f_disableResourceManager f) "DISABLE_RCMGR";
  let resourceManagerLimits := string_or_env env (f_resourceManagerLimits f) "RCMGR_LIMITS" in
  connMgrHighWater ← int_or_env env (f_connMgrHighWater f) defaultConnMgrHighWater
                       "HYDRA_CONNMGR_HIGH_WATER" defaultConnMgrHighWater;
  connMgrLowWater ← int_or_env env (f_connMgrLowWater f) defaultConnMgrLowWater
                      "HYDRA_CONNMGR_LOW_WATER" defaultConnMgrLowWater;
  connMgrGracePeriodDuration ← wrap_error "parsing grace period duration" (ParseDuration (grace_period f env));
  idGenerator ← choose_generator randomSeed idgenAddr idOffset;
  peers ← mustConvertToMultiaddr bootstrapPeers;
  inr (mkConfig name dbpath pstorePath providerStore (wrap_i64 (1000000 * delegateTimeout))
    (f_enableRelay f) (f_protocolPrefix f) (f_bucketSize f) (NewPortSelector portBegin) nheads
    (f_bootstrapConcurrency f) (f_stagger f) idGenerator disableProvGC (f_disableProviders f)
    (f_disableValues f) peers disablePrefetch disableProvCounts disableDBCreate
    disableResourceManager resourceManagerLimits connMgrHighWater connMgrLowWater
    connMgrGracePeriodDuration).
End main.
