(* ===== verification/MainSpec.v ===== *)
(** * Theorems on the program's configuration (src/main.go) *)
From Stdlib Require Import Strings.String.
From S2P Require Import Prelude GoStd Encoding Duration Utils MainConfig.
Open Scope nat_scope.

Definition is_error {A} (r : result A) : bool := match r with inl _ => true | inr _ => false end.

Lemma is_error_bind {A B} (r : result A) (f : A -> result B) (b : bool) :
  (forall a, r = inr a -> is_error (f a) = b) -> is_error (r ≫= f) = is_error r || b.
Proof. destruct r as [err|a]; simpl; [done|]. intros Hf. by apply Hf. Qed.

Lemma is_error_wrap {A} msg (r : result A) : is_error (wrap_error msg r) = is_error r.
Proof. by destruct r. Qed.

(** ** The variables that are read *)

(** The integer flags: value, the value that stands for a missing flag, and the
    variable; then the boolean and the string ones. *)
Definition int_flags (f : Flags) : list (Z * Z * string) :=
  [(f_nheads f, -1, "HYDRA_NHEADS"); (f_idOffset f, -1, "HYDRA_ID_OFFSET");
   (f_portBegin f, -1, "HYDRA_PORT_BEGIN");
   (f_delegateTimeout f, 0, "HYDRA_DELEGATED_ROUTING_TIMEOUT");
   (f_connMgrHighWater f, defaultConnMgrHighWater, "HYDRA_CONNMGR_HIGH_WATER");
   (f_connMgrLowWater f, defaultConnMgrLowWater, "HYDRA_CONNMGR_LOW_WATER")]%Z%string.

Definition bool_flags (f : Flags) : list (bool * string) :=
  [(f_disableProvGC f, "HYDRA_DISABLE_PROV_GC"); (f_disablePrefetch f, "HYDRA_DISABLE_PREFETCH");
   (f_disableDBCreate f, "HYDRA_DISABLE_DBCREATE");
   (f_disableProvCounts f, "HYDRA_DISABLE_PROV_COUNTS");
   (f_disableResourceManager f, "DISABLE_RCMGR")]%string.

Definition string_flags (f : Flags) : list (string * string) :=
  [(f_randomSeed f, "HYDRA_RANDOM_SEED"); (f_name f, "HYDRA_NAME");
   (f_idgenAddr f, "HYDRA_IDGEN_ADDR"); (f_bootstrapPeers f, "HYDRA_BOOTSTRAP_PEERS");
   (f_pstorePath f, "HYDRA_PSTORE"); (f_providerStore f, "HYDRA_PROVIDER_STORE");
   (f_resourceManagerLimits f, "RCMGR_LIMITS")]%string.

(** The integer and boolean variables that are read, and all of them. *)
Definition ints_read (f : Flags) : list string :=
  (filter (fun p => p.1.1 = p.1.2) (int_flags f)).*2.
Definition bools_read (f : Flags) : list string := (filter (fun p => p.1 = false) (bool_flags f)).*2.
Definition vars_read (f : Flags) : list string :=
  ints_read f ++ bools_read f ++
  (filter (fun p => p.1 = ""%string) (string_flags f)).*2 ++
  (if decide (f_inmem f = false /\ f_dbpath f = ""%string) then ["HYDRA_DB"%string] else []) ++
  (if decide (f_connMgrGracePeriod f = defaultConnMgrGracePeriod)
   then ["HYDRA_CONNMGR_GRACE_PERIOD"%string] else []).

(** A variable that is set to something that is no number, or no boolean. *)
Definition bad_int (env : Env) (key : string) : bool :=
  negb (bool_decide (env key = ""%string)) && is_error (Atoi (env key)).
Definition bad_bool (env : Env) (key : string) : bool :=
  negb (bool_decide (env key = ""%string)) && is_error (ParseBool (env key)).

Lemma int_or_env_error env v unset key def :
  is_error (int_or_env env v unset key def) = bool_decide (v = unset) && bad_int env key.
Proof.
  unfold int_or_env, mustGetEnvInt, bad_int. destruct (decide (v = unset)).
  - rewrite bool_decide_eq_true_2 by done. destruct (decide (env key = ""%string)).
    + by rewrite bool_decide_eq_true_2.
    + rewrite bool_decide_eq_false_2 by done. by destruct (Atoi _).
  - by rewrite bool_decide_eq_false_2.
Qed.

Lemma bool_or_env_error env v key :
  is_error (bool_or_env env v key) = negb v && bad_bool env key.
Proof.
  unfold bool_or_env, mustGetEnvBool, bad_bool. destruct v; cbn; [done|].
  destruct (decide (env key = ""%string)).
  - by rewrite bool_decide_eq_true_2.
  - rewrite bool_decide_eq_false_2 by done. by destruct (ParseBool _).
Qed.

(** ** Agreement of two environments *)

Section agree.
Context (env1 env2 : Env).

Lemma int_or_env_agree v unset key def :
  (v = unset -> env1 key = env2 key) ->
  int_or_env env1 v unset key def = int_or_env env2 v unset key def.
Proof.
  unfold int_or_env, mustGetEnvInt. intros He. destruct (decide (v = unset)); [|done].
  by rewrite He.
Qed.

Lemma bool_or_env_agree v key :
  (v = false -> env1 key = env2 key) -> bool_or_env env1 v key = bool_or_env env2 v key.
Proof.
  unfold bool_or_env, mustGetEnvBool. intros He. destruct v; [done|]. by rewrite He.
Qed.

Lemma string_or_env_agree v key :
  (v = ""%string -> env1 key = env2 key) -> string_or_env env1 v key = string_or_env env2 v key.
Proof. unfold string_or_env. intros He. case_decide; [by apply He|done]. Qed.

Lemma ints_read_elem f v unset key :
  (v, unset, key) ∈ int_flags f -> v = unset -> key ∈ vars_read f.
Proof.
  intros Hin ->. apply elem_of_app. left. apply list_elem_of_fmap.
  eexists (_, _, key). split; [done|]. by apply list_elem_of_filter.
Qed.

Lemma bools_read_elem f v key : (v, key) ∈ bool_flags f -> v = false -> key ∈ vars_read f.
Proof.
  intros Hin ->. apply elem_of_app. right. apply elem_of_app. left. apply list_elem_of_fmap.
  eexists (_, key). split; [done|]. by apply list_elem_of_filter.
Qed.

Lemma strings_read_elem f v key : (v, key) ∈ string_flags f -> v = ""%string -> key ∈ vars_read f.
Proof.
  intros Hin ->. do 2 (apply elem_of_app; right). apply elem_of_app. left.
  apply list_elem_of_fmap. eexists (_, key). split; [done|]. by apply list_elem_of_filter.
Qed.

Lemma db_path_agree f :
  (forall key, key ∈ vars_read f -> env1 key = env2 key) -> db_path f env1 = db_path f env2.
Proof.
  intros He. unfold db_path. destruct (f_inmem f) eqn:Hm; [done|]. case_decide as Hd; [|done].
  rewrite He; [done|]. do 3 (apply elem_of_app; right). apply elem_of_app. left.
  rewrite decide_True by done. by left.
Qed.

Lemma grace_period_agree f :
  (forall key, key ∈ vars_read f -> env1 key = env2 key) ->
  grace_period f env1 = grace_period f env2.
Proof.
  intros He. unfold grace_period. case_decide as Hd; [|done].
  rewrite He; [done|]. do 4 (apply elem_of_app; right). rewrite decide_True by done. by left.
Qed.
End agree.

(** ** Errors *)

Lemma exists_ints f env :
  (exists key, key ∈ ints_read f /\ bad_int env key = true) <->
  existsb (fun p => bool_decide (p.1.1 = p.1.2) && bad_int env p.2) (int_flags f) = true.
Proof.
  rewrite existsb_exists. split.
  - intros (key & ([[v u] k] & -> & [Hvu Hin]%list_elem_of_filter)%list_elem_of_fmap & Hb).
    exists (v, u, k). split; [by apply list_elem_of_In|]. cbn in *.
    by rewrite Hb, bool_decide_eq_true_2.
  - intros ([[v u] k] & Hin%list_elem_of_In & [Hvu%bool_decide_eq_true Hb]%andb_true_iff).
    exists k. split; [|done]. apply list_elem_of_fmap. exists (v, u, k). split; [done|].
    by apply list_elem_of_filter.
Qed.

Lemma exists_bools f env :
  (exists key, key ∈ bools_read f /\ bad_bool env key = true) <->
  existsb (fun p => negb p.1 && bad_bool env p.2) (bool_flags f) = true.
Proof.
  rewrite existsb_exists. split.
  - intros (key & ([v k] & -> & [Hvu Hin]%list_elem_of_filter)%list_elem_of_fmap & Hb).
    exists (v, k). split; [by apply list_elem_of_In|]. cbn in *. by rewrite Hb, Hvu.
  - intros ([v k] & Hin%list_elem_of_In & [Hv Hb]%andb_true_iff).
    exists k. split; [|done]. apply list_elem_of_fmap. exists (v, k). split; [done|].
    apply list_elem_of_filter. split; [|done]. by destruct v.
Qed.

Section errors.
Context {Multiaddr : Type} (NewMultiaddr : string -> result Multiaddr).

Lemma choose_generator_error seed addr off :
  is_error (choose_generator seed addr off) = true <->
  seed <> ""%string /\ (addr <> ""%string \/
    forall bytes, b64_decode (list_byte_of_string seed) = inr bytes -> length bytes <> 32).
Proof using Type.
  unfold choose_generator.
  destruct (decide (seed = ""%string)) as [->|Hs].
  { rewrite decide_False by (by intros [? _]). rewrite decide_False by auto. by split; [|intros [? _]]. }
  destruct (decide (addr = ""%string)) as [->|Ha].
  - rewrite decide_False by (by intros [_ ?]). rewrite decide_True by done.
    destruct (b64_decode (list_byte_of_string seed)) as [err|bytes]; simpl.
    { split; [|done]. intros _. split; [done|]. by right. }
    destruct (decide (length bytes = 32)) as [Hl|Hl].
    + rewrite decide_False by auto. simpl. split; [done|].
      intros [_ [?|Hb]]; [done|]. by destruct (Hb bytes).
    + rewrite decide_True by done. simpl. split; [|done]. intros _. split; [done|]. right.
      by intros ? [= <-].
  - rewrite decide_True by done. simpl. by split; [auto|].
Qed.

Lemma convert_addrs_error addrs peers :
  is_error (convert_addrs NewMultiaddr addrs peers) = true <->
  exists p, p ∈ addrs /\ is_error (NewMultiaddr p) = true.
Proof using Type.
  revert peers. induction addrs as [|a addrs IH]; intros peers; simpl.
  - split; [done|]. by intros (p & ?%elem_of_nil & _).
  - destruct (NewMultiaddr a) as [err|ma] eqn:Ha; simpl.
    + split; [|done]. intros _. exists a. split; [by left|]. by rewrite Ha.
    + rewrite IH. split.
      * intros (p & ? & ?). exists p. split; [by right|done].
      * intros (p & [->|?]%elem_of_cons & Hp); [by rewrite Ha in Hp|]. by exists p.
Qed.

Lemma mustConvert_error csv :
  is_error (mustConvertToMultiaddr NewMultiaddr csv) = true <->
  csv <> ""%string /\ exists p, p ∈ Split csv comma /\ is_error (NewMultiaddr p) = true.
Proof using Type.
  unfold mustConvertToMultiaddr. case_decide as Hc.
  - rewrite convert_addrs_error. naive_solver.
  - split; [done|]. by intros [? _].
Qed.

(** The errors of the steps do not depend on the values before them. *)
Lemma configure_error_bool f env :
  is_error (configure NewMultiaddr f env) =
  is_error (int_or_env env (f_nheads f) (-1) "HYDRA_NHEADS" 1) ||
  (is_error (int_or_env env (f_idOffset f) (-1) "HYDRA_ID_OFFSET" 0) ||
  (is_error (int_or_env env (f_portBegin f) (-1) "HYDRA_PORT_BEGIN" 0) ||
  (is_error (bool_or_env env (f_disableProvGC f) "HYDRA_DISABLE_PROV_GC") ||
  (is_error (bool_or_env env (f_disablePrefetch f) "HYDRA_DISABLE_PREFETCH") ||
  (is_error (bool_or_env env (f_disableDBCreate f) "HYDRA_DISABLE_DBCREATE") ||
  (is_error (bool_or_env env (f_disableProvCounts f) "HYDRA_DISABLE_PROV_COUNTS") ||
  (is_error (int_or_env env (f_delegateTimeout f) 0 "HYDRA_DELEGATED_ROUTING_TIMEOUT" 1000) ||
  (is_error (bool_or_env env (f_disableResourceManager f) "DISABLE_RCMGR") ||
  (is_error (int_or_env env (f_connMgrHighWater f) defaultConnMgrHighWater
     "HYDRA_CONNMGR_HIGH_WATER" defaultConnMgrHighWater) ||
  (is_error (int_or_env env (f_connMgrLowWater f) defaultConnMgrLowWater
     "HYDRA_CONNMGR_LOW_WATER" defaultConnMgrLowWater) ||
  (is_error (ParseDuration (grace_period f env)) ||
  (is_error (choose_generator (string_or_env env (f_randomSeed f) "HYDRA_RANDOM_SEED")
     (string_or_env env (f_idgenAddr f) "HYDRA_IDGEN_ADDR") 0) ||
  (is_error (mustConvertToMultiaddr NewMultiaddr
     (string_or_env env (f_bootstrapPeers f) "HYDRA_BOOTSTRAP_PEERS")) || false))))))))))))).
Proof.
  rewrite <-(is_error_wrap "parsing grace period duration" (ParseDuration _)).
  unfold configure. cbv zeta. do 1 (apply is_error_bind; intros ? _).
  apply is_error_bind. intros off _. do 10 (apply is_error_bind; intros ? _).
  match goal with |- _ = _ || ?b =>
    rewrite (is_error_bind _ _ b) by (intros ? _; by apply is_error_bind) end.
  f_equal. apply eq_true_iff_eq. by rewrite !choose_generator_error.
Qed.
End errors.

(** ** Theorems *)

(** Membership in a literal list. *)
Ltac pick_elem :=
  unfold int_flags, bool_flags, string_flags;
  repeat first [apply list_elem_of_here | apply list_elem_of_further].

Section theorems.
Context {Multiaddr : Type} (NewMultiaddr : string -> result Multiaddr).
Abbreviation configure := (configure NewMultiaddr).

(** The environment counts only where a flag has the value that stands for a
    missing flag: two environments that agree on the variables of those flags
    give the same configuration, or the same error. In particular, when every
    such flag has another value, the environment does not matter at all. *)
Theorem configure_reads (f : Flags) (env1 env2 : Env) :
  (forall key, key ∈ vars_read f -> env1 key = env2 key) ->
  configure f env1 = configure f env2.
Proof.
  intros He.
  assert (forall v unset key def, (v, unset, key) ∈ int_flags f ->
    int_or_env env1 v unset key def = int_or_env env2 v unset key def) as Hint
    by (intros; apply int_or_env_agree; intros; by eapply He, ints_read_elem).
  assert (forall v key, (v, key) ∈ bool_flags f ->
    bool_or_env env1 v key = bool_or_env env2 v key) as Hbool
    by (intros; apply bool_or_env_agree; intros; by eapply He, bools_read_elem).
  assert (forall v key, (v, key) ∈ string_flags f ->
    string_or_env env1 v key = string_or_env env2 v key) as Hstr
    by (intros; apply string_or_env_agree; intros; by eapply He, strings_read_elem).
  unfold MainConfig.configure.
  rewrite !Hint by pick_elem. rewrite !Hbool by pick_elem. rewrite !Hstr by pick_elem.
  by rewrite (db_path_agree env1 env2), (grace_period_agree env1 env2).
Qed.

(** C24. The configuration of the program, the part of [main] that reads flags and
    variables before it calls [NewHydra], fails exactly when an integer or boolean variable that is read is set
    to something else, the grace period is no duration, the seed is no base64 text of
    32 bytes or comes together with the address of an identity generator, or a
    bootstrap peer is no multiaddress. ([NewHydra] can fail after that: it reads the
    strings that choose the stores, and opens them.) *)
Theorem configure_error (f : Flags) (env : Env) :
  let seed := string_or_env env (f_randomSeed f) "HYDRA_RANDOM_SEED" in
  let addr := string_or_env env (f_idgenAddr f) "HYDRA_IDGEN_ADDR" in
  let peers := string_or_env env (f_bootstrapPeers f) "HYDRA_BOOTSTRAP_PEERS" in
  is_error (configure f env) = true <->
  (exists key, key ∈ ints_read f /\ bad_int env key = true) \/
  (exists key, key ∈ bools_read f /\ bad_bool env key = true) \/
  is_error (ParseDuration (grace_period f env)) = true \/
  (seed <> ""%string /\ (addr <> ""%string \/
    forall bytes, b64_decode (list_byte_of_string seed) = inr bytes -> length bytes <> 32)) \/
  (peers <> ""%string /\ exists p, p ∈ Split peers comma /\ is_error (NewMultiaddr p) = true).
Proof.
  intros seed addr peers. rewrite configure_error_bool. fold seed addr peers.
  rewrite !orb_true_iff, !int_or_env_error, !bool_or_env_error, exists_ints, exists_bools.
  cbn [int_flags bool_flags existsb fst snd]. rewrite !orb_true_iff, choose_generator_error,
    mustConvert_error. clear. intuition congruence.
Qed.
End theorems.

(** ** Concrete runs *)

(** Everything is in the environment, but the flag gives the number of heads. *)
Definition sample_env (nheads : string) : Env := fun key =>
  if decide (key = "HYDRA_NHEADS"%string) then nheads
  else if decide (key = "HYDRA_CONNMGR_HIGH_WATER"%string) then "500" else "".

Definition sample_flags : Flags :=
  let f := default_flags "/ipfs" in
  mkFlags 3 (f_randomSeed f) (f_idOffset f) (f_dbpath f) (f_pstorePath f) (f_providerStore f)
    (f_delegateTimeout f) (f_inmem f) (f_enableRelay f) (f_portBegin f) (f_protocolPrefix f)
    (f_bucketSize f) (f_bootstrapConcurrency f) (f_bootstrapPeers f) (f_stagger f) (f_name f)
    (f_idgenAddr f) (f_disableProvGC f) (f_disableProviders f) (f_disableValues f)
    (f_disablePrefetch f) (f_disableProvCounts f) (f_disableDBCreate f)
    (f_disableResourceManager f) (f_resourceManagerLimits f) (f_connMgrHighWater f)
    (f_connMgrLowWater f) (f_connMgrGracePeriod f) (f_uiTheme f) (f_metricsAddr f) (f_httpAPIAddr f).

(** The number of heads and the high water mark: the flag -nheads=3 hides the
    variable, the default high water mark does not. *)
Lemma configure_reads_witness :
  configure inr sample_flags (sample_env "7") =
  configure (inr : string -> result string) sample_flags
    (sample_env "x") /\
  (c ← configure (inr : string -> result string)
    sample_flags (sample_env "7"); inr (c_NHeads c, c_ConnMgrHighWater c)) = inr (3, 500)%Z.
Proof.
  split; [|vm_compute; reflexivity].
  apply (configure_reads inr sample_flags).
  intros key Hkey. unfold sample_env. destruct (decide (key = "HYDRA_NHEADS"%string)) as [->|Hne];
    [|reflexivity].
  exfalso. revert Hkey. apply (bool_decide_unpack _). vm_compute. exact I.
Defined.
