(* ===== verification/Process.v ===== *)
(** * The program from start to end (src/main.go)

    [main] after the configuration: it makes the identity generator, starts the
    hydra with it, and waits for a signal. When it returns, the deferred [Clean]
    gives the identities of a remote generator back; log.Fatal and a signal that
    is not caught end the process without it. *)
From Stdlib Require Import Strings.String.
From S2P Require Import Prelude GoStd Encoding Duration IdGen Interfaces IdGenClean Utils Metrics Stores HttpApi IdGenDelegated HeadOptions Head Hydra Ui MainConfig.
Open Scope nat_scope.

(** How the run of a program ends after the configuration. *)
Inductive ending : Type :=
| Killed (spawned : nat) (err : goerror)
    (** While [NewHydra] is at work, after so many heads: the metrics server
        fails, or a signal arrives before [signal.Notify]. *)
| ServerFailed (err : goerror)
    (** After [NewHydra]: a server or the UI fails, which is a log.Fatal. *)
| Interrupted.
    (** After [NewHydra]: SIGINT or SIGTERM. *)

(** How the process ends: without running the deferred functions, or by
    returning from [main], with the error that the deferred [Clean] prints. *)
Inductive exit_status {E : Type} : Type :=
| Fatal (err : goerror)
| Returned (printed : E).
Arguments exit_status : clear implicits.

Section process.
Context `{OptTypes, RcmgrLibs, TagLib, MultiError} `{KeyMaterial o_PrivKey, PrivKeyEquals o_PrivKey}
  `{KeyCodec o_PrivKey}.
Context {N S : Type} (libs : HeadLibs N S) (open_pstore : string -> result (result o_Peerstore))
  (host_id : N -> string) (addr_text : option o_Multiaddr -> string) (hl : HydraLibs).

(** The fields of [hydra.Options], but for the port selector and the generator. *)
Definition hydra_options (cfg : Config (Multiaddr := o_Multiaddr)) : HydraOptions := {|
  Name := c_Name cfg;
  DatastorePath := c_DatastorePath cfg;
  PeerstorePath := c_PeerstorePath cfg;
  ProviderStoreOpt := c_ProviderStore cfg;
  DelegateTimeout := c_DelegateTimeout cfg;
  NHeads := c_NHeads cfg;
  hy_ProtocolPrefix := c_ProtocolPrefix cfg;
  hy_BucketSize := c_BucketSize cfg;
  BsCon := c_BsCon cfg;
  hy_EnableRelay := c_EnableRelay cfg;
  Stagger := c_Stagger cfg;
  hy_DisableProvGC := c_DisableProvGC cfg;
  hy_DisableProviders := c_DisableProviders cfg;
  hy_DisableValues := c_DisableValues cfg;
  hy_BootstrapPeers := c_BootstrapPeers cfg;
  DisablePrefetch := c_DisablePrefetch cfg;
  hy_DisableProvCounts := c_DisableProvCounts cfg;
  DisableDBCreate := c_DisableDBCreate cfg;
  hy_DisableResourceManager := c_DisableResourceManager cfg;
  hy_ResourceManagerLimitsFile := c_ResourceManagerLimitsFile cfg;
  hy_ConnMgrHighWater := c_ConnMgrHighWater cfg;
  hy_ConnMgrLowWater := c_ConnMgrLowWater cfg;
  hy_ConnMgrGracePeriod := c_ConnMgrGracePeriod cfg;
|}.

(** The options with another number of heads: [NewHydra] uses the number only as
    the bound of its loop, so that its run with a smaller number is its run up to
    that head. *)
Definition with_NHeads (options : HydraOptions) (n : Z) : HydraOptions :=
  mkHydraOptions (Name options) (DatastorePath options) (PeerstorePath options)
    (ProviderStoreOpt options) (DelegateTimeout options) n (hy_ProtocolPrefix options)
    (hy_BucketSize options) (BsCon options) (hy_EnableRelay options) (Stagger options)
    (hy_DisableProvGC options) (hy_DisableProviders options) (hy_DisableValues options)
    (hy_BootstrapPeers options) (DisablePrefetch options) (hy_DisableProvCounts options)
    (DisableDBCreate options) (hy_DisableResourceManager options)
    (hy_ResourceManagerLimitsFile options) (hy_ConnMgrHighWater options)
    (hy_ConnMgrLowWater options) (hy_ConnMgrGracePeriod options).

(** From [NewHydra] to the end of [main], but for the deferred functions: whether
    [NewHydra] has returned without an error; and the hydra, or the error of a
    process that ends without returning from [main]. *)
Definition run_hydra {G : Type} {IG : IdentityGenerator G o_PrivKey} (cfg : Config) (e : ending) (g : G)
    : outcome (G * (bool * result (Hydra (N := N) (S := S)))) :=
  let options := hydra_options cfg in
  match e with
  | Killed n err =>
      let options := with_NHeads options (Z.min (Z.of_nat n) (NHeads options)) in
      '(g, (_, r)) ← NewHydra libs open_pstore host_id addr_text hl options (c_GetPort cfg) g;
      Ret (g, (false, match r with inl err => inl err | inr _ => inl err end))
  | ServerFailed err =>
      '(g, (_, r)) ← NewHydra libs open_pstore host_id addr_text hl options (c_GetPort cfg) g;
      Ret (g, match r with inl err => (false, inl err) | inr _ => (true, inl err) end)
  | Interrupted =>
      '(g, (_, r)) ← NewHydra libs open_pstore host_id addr_text hl options (c_GetPort cfg) g;
      Ret (g, match r with inl err => (false, inl err) | inr hy => (true, inr hy) end)
  end.

(** The hydras that a remote generator may be at. *)
Context {ND : Type} `{HostLibs ND W} {GD : Type} {IGD : IdentityGenerator GD o_PrivKey}.
Context (mux_match : list route -> string -> string -> routed) (server_addr : string)
  (server_heads : list ND) (ctx : Ctx).

(** The delegated generator for an address. *)
Definition delegated_at (addr : string) : IdentityGenerator (Network GD W) o_PrivKey := {|
  ig_AddBalanced := del_AddBalanced (net_Post mux_match server_addr server_heads ctx)
    (NewDelegatedIDGenerator addr);
  ig_Remove := del_Remove (net_Post mux_match server_addr server_heads ctx)
    (NewDelegatedIDGenerator addr);
|}.

(** What runs in a goroutine of its own: the metrics server, from before [NewHydra],
    the UI, if there is one, and the HTTP API. *)
Inductive Service : Type :=
| MetricsService (address : string)
| UIService (theme : Theme) (metricsURL : string)
| APIService (address : string).

Definition services (f : Flags) (hydra_started : bool) : list Service :=
  MetricsService (f_metricsAddr f) ::
  if hydra_started then
    (match choose_ui (f_uiTheme f) (f_metricsAddr f) with
     | Some (theme, url) => [UIService theme url]
     | None => []
     end) ++ [APIService (f_httpAPIAddr f)]
  else [].

(** The package variable [idgen.HydraIdentityGenerator], which is also the
    generator of the process's own API; the network; and the services that have
    been started. *)
Record Process := mkProcess {
  p_gen : BalancedIdentityGenerator;
  p_net : Network GD W;
  p_services : list Service;
}.

(** [main]; [fuel] bounds the tries of the local generators. *)
Definition main (fuel : nat) (f : Flags) (env : Env) (e : ending) (p : Process)
    : outcome (Process * exit_status (option multierror)) :=
  match configure NewMultiaddr f env with
  | inl err => Ret (p, Fatal err)
  | inr cfg =>
      match c_IDGenerator cfg with
      | HydraGenerator =>
          '(g, (started, r)) ← run_hydra (IG := balanced_generator fuel) cfg e (p_gen p);
          Ret (mkProcess g (p_net p) (services f started),
            match r with inl err => Fatal err | inr _ => Returned None end)
      | SeededGenerator seed idOffset =>
          g ← NewBalancedIdentityGeneratorFromSeed fuel seed idOffset;
          '(_, (started, r)) ← run_hydra (IG := balanced_generator fuel) cfg e g;
          Ret (mkProcess (p_gen p) (p_net p) (services f started),
            match r with inl err => Fatal err | inr _ => Returned None end)
      | RemoteGenerator addr =>
          '(dg, (started, r)) ← run_hydra
            (IG := @cleaning_generator (Network GD W) o_PrivKey (delegated_at addr) _)
            cfg e (NewCleaningIDGenerator (p_net p));
          match r with
          | inl err => Ret (mkProcess (p_gen p) (idgen dg) (services f started), Fatal err)
          | inr _ =>
              '(dg, errs) ← Clean (H := delegated_at addr) dg;
              Ret (mkProcess (p_gen p) (idgen dg) (services f started), Returned errs)
          end
      end
  end.
End process.
