(* ===== verification/ProcessSpec.v ===== *)
(** * Theorems on the program from start to end (src/main.go) *)
From Stdlib Require Import Strings.String.
From S2P Require Import Prelude GoStd Encoding Duration XorTrie TrieFacts TrieSpec IdGen IdGenFacts IdGenSpec Interfaces IdGenClean Utils Metrics MetricsSpec Stores StoresSpec HttpApi HttpApiSpec IdGenDelegated IdGenSession HeadOptions Head Hydra HydraSpec Ui MainConfig Process.
Open Scope nat_scope.

Section process.
Context `{OptTypes, RcmgrLibs, TagLib, MultiErrorLaws} `{KeyMaterialLaws o_PrivKey, PrivKeyEqualsLaws o_PrivKey}
  `{KeyCodecLaws o_PrivKey}.
Context {N S : Type} (libs : HeadLibs N S) (open_pstore : string -> result (result o_Peerstore))
  (host_id : N -> string) (addr_text : option o_Multiaddr -> string) (hl : HydraLibs).
Context {ND : Type} `{HostLibs ND W} {GD : Type} {IGD : IdentityGenerator GD o_PrivKey}
  {IGLD : @IdentityGeneratorLaws GD o_PrivKey IGD} {RK : @RemovesKnown GD o_PrivKey IGD IGLD}.
Context `{MuxLaws mux_match} (server_addr : string) (server_heads : list ND) (ctx : Ctx).

Abbreviation run_hydra := (run_hydra libs open_pstore host_id addr_text hl).
Abbreviation main := (main libs open_pstore host_id addr_text hl mux_match server_addr server_heads ctx).
Abbreviation mem net := (ig_mem (IdentityGeneratorLaws := IGLD) (net_g net)).
Abbreviation faults net := (faulty (net_fates net)).

(** The invariant of a generator through the start of the hydra. *)
Lemma run_hydra_rule {G : Type} {IG : IdentityGenerator G o_PrivKey} (I : nat -> G -> Prop) cfg e g :
  (forall n g, I n g -> safe (fun '(g', _) => I (Datatypes.S n) g') (ig_AddBalanced g)) ->
  (0 <= c_BsCon cfg)%Z -> session_opens hl (hydra_options cfg) -> I 0 g ->
  safe (fun '(g', (started, r)) => (exists n, n <= Z.to_nat (c_NHeads cfg) /\ I n g') /\
    (forall hy, r = inr hy -> e = Interrupted /\ started = true)) (run_hydra cfg e g).
Proof.
  intros HI Hbs Hses Hg. unfold Process.run_hydra. destruct e as [k err|err|].
  - eapply safe_bind; [by apply (NewHydra_rule libs open_pstore host_id addr_text hl I)|].
    intros [g' [tr r]] (n & Hn & Hg'). cbn in Hn. split; [exists n; split; [lia|done]|]. by destruct r.
  - eapply safe_bind; [by apply (NewHydra_rule libs open_pstore host_id addr_text hl I)|].
    intros [g' [tr r]] Hg'. by destruct r.
  - eapply safe_bind; [by apply (NewHydra_rule libs open_pstore host_id addr_text hl I)|].
    intros [g' [tr r]] Hg'. by destruct r.
Qed.

(** C9. A program that takes its identities from a remote generator leaves the
    local one alone, and what others have in the remote memory untouched. When a
    signal ends it, the remote memory keeps at most one identity for every
    message that went wrong: none over a reliable network, and then no error is
    printed. When it ends in any other way it gives nothing back, and the memory
    keeps at most one identity for every head. A session with DynamoDB, if the
    datastore needs one, is taken to open: the code panics otherwise. *)
Theorem main_remote (fuel : nat) (f : Flags) (env : Env) (e : ending) p cfg :
  configure NewMultiaddr f env = inr cfg -> c_IDGenerator cfg = RemoteGenerator server_addr ->
  (0 <= c_BsCon cfg)%Z -> session_opens hl (hydra_options cfg) -> ig_inv (IdentityGeneratorLaws := IGLD) (net_g (p_net p)) ->
  safe (fun '(p', ex) => p_gen p' = p_gen p /\
    exists kept, mem (p_net p') = mem (p_net p) ∪ kept /\ mem (p_net p) ## kept /\
      match ex with
      | Fatal _ => size kept <= Z.to_nat (c_NHeads cfg)
      | Returned errs => e = Interrupted /\ size kept <= faults (p_net p) /\
          (faults (p_net p) = 0 -> errs = None)
      end) (main fuel f env e p).
Proof.
  intros Hcfg Haddr Hbs Hses Hinv. unfold Process.main. rewrite Hcfg, Haddr.
  eapply safe_bind.
  { apply (run_hydra_rule (fun n c => session_inv (mem (p_net p)) (faults (p_net p)) n c)); [|done|done|].
    - intros n c Hc. by apply session_add.
    - by apply session_new. }
  intros [dg [started r]] [(n & Hn & Hdg) Hr]. destruct r as [err|hds].
  - cbn. split; [done|]. destruct (session_abandoned _ _ _ _ Hdg) as (kept & Hm & Hd & Hs).
    exists kept. split_and!; [done..|lia].
  - destruct (session_clean server_addr server_heads ctx _ _ _ _ Hdg)
      as (c' & errs & kept & HC & _ & Hm & Hd & Hs & He).
    change (delegated_at _ _ _ _ _) with
      (delegated_generator (mux_match := mux_match) server_addr server_heads ctx).
    rewrite HC. cbn. split; [done|]. exists kept. destruct (Hr _ eq_refl) as [-> _]. by split_and!.
Qed.

(** C25. A program with a local generator never talks to the network, and prints
    no error when a signal ends it. Without a seed its generator is the one that
    the API of the process uses too: it gains at most one new identity for every
    head and loses none, so that the API cannot hand these out again. With a
    seed, the API's generator learns nothing of the heads' identities. (As in
    [main_remote], a DynamoDB session opens.) *)
Theorem main_local (fuel : nat) (f : Flags) (env : Env) (e : ending) p cfg :
  configure NewMultiaddr f env = inr cfg -> (forall addr, c_IDGenerator cfg <> RemoteGenerator addr) ->
  (0 <= c_BsCon cfg)%Z -> session_opens hl (hydra_options cfg) -> bg_inv (p_gen p) ->
  safe (fun '(p', ex) => p_net p' = p_net p /\ (forall errs, ex = Returned errs -> e = Interrupted /\ errs = None) /\
    match c_IDGenerator cfg with
    | HydraGenerator => bg_inv (p_gen p') /\ exists ks, key_set (xorTrie (p_gen p')) = ks ∪ key_set (xorTrie (p_gen p)) /\
        key_set (xorTrie (p_gen p)) ## ks /\ size ks <= Z.to_nat (c_NHeads cfg)
    | _ => p_gen p' = p_gen p
    end) (main fuel f env e p).
Proof.
  intros Hcfg Haddr Hbs Hses Hinv. unfold Process.main. rewrite Hcfg.
  destruct (c_IDGenerator cfg) as [|seed off|addr]; [| |by destruct (Haddr addr)].
  - eapply safe_bind.
    { apply (run_hydra_rule (fun n g => bg_inv g /\ exists ks,
        key_set (xorTrie g) = ks ∪ key_set (xorTrie (p_gen p)) /\ key_set (xorTrie (p_gen p)) ## ks /\ size ks <= n));
        [|done|done|].
      - intros n g (Hg & ks & Hm & Hd & Hs).
        eapply safe_mono; [|by apply (ig_AddBalanced_law (IdentityGeneratorLaws := balanced_generator_laws fuel))].
        intros [g' [err|pk]] [Hg' Hr]; (split; [done|]); cbn in Hr.
        + exists ks. rewrite Hr. split_and!; [done..|lia].
        + destruct Hr as (k & _ & Hk & Hm'). rewrite Hm in Hk. exists ({[k]} ∪ ks).
          rewrite Hm', Hm, size_union, size_singleton by (revert Hk; clear; set_solver).
          split_and!; [clear; set_solver|revert Hd Hk; clear; set_solver|lia].
      - split; [done|]. exists ∅. rewrite size_empty. split_and!; [set_solver|set_solver|lia]. }
    intros [g [started r]] [(n & Hn & Hg & ks & Hm & Hd & Hs) Hr]. cbn. split; [done|]. split.
    + destruct r as [err|hds]; [done|]. intros errs [= <-]. by destruct (Hr _ eq_refl) as [-> _].
    + split; [done|]. exists ks. split_and!; [done..|lia].
  - eapply safe_bind; [apply (skip_ids_safe fuel), bg_inv_new|]. intros g Hg.
    eapply safe_bind.
    { apply (run_hydra_rule (fun _ => bg_inv)); [|done|done|done]. intros _ g' Hg'.
      eapply safe_mono; [|by apply (ig_AddBalanced_law (IdentityGeneratorLaws := balanced_generator_laws fuel))].
      by intros [? ?] [? _]. }
    intros [g' [started r]] [_ Hr]. cbn. split; [done|]. split; [|done].
    destruct r as [err|hds]; [done|]. intros errs [= <-]. by destruct (Hr _ eq_refl) as [-> _].
Qed.
End process.

(** ** Hydras on one seed *)

Section seeds.
Context `{OptTypes, RcmgrLibs, TagLib} `{KML : KeyMaterialLaws o_PrivKey}.
Context {N S : Type} (libs : HeadLibs N S) (open_pstore : string -> result (result o_Peerstore))
  (host_id : N -> string) (addr_text : option o_Multiaddr -> string) (hl : HydraLibs) (fuel : nat).

Abbreviation NewHydra := (NewHydra (H2 := balanced_generator fuel) libs open_pstore host_id addr_text hl).
Abbreviation FromSeed := (NewBalancedIdentityGeneratorFromSeed fuel).

(** The identity of a head. *)
Definition head_key (sp : Spawned (N := N) (S := S)) : option (list byte) :=
  match o_ID (h_config (sp_head sp)) with
  | Some priv => match privKeyToTrieKey priv with inl _ => None | inr k => Some k end
  | None => None
  end.

(** A hydra that starts takes as many identities as it has heads. *)
Lemma spawn_skips options ctx sh n i ports g hds g' es hds' :
  spawn (H2 := balanced_generator fuel) libs open_pstore host_id addr_text options ctx sh n i ports g hds =
    Ret (g', (es, inr hds')) ->
  skip_ids fuel n g = Ret g'.
Proof.
  revert i ports g hds es. induction n as [|n IH]; intros i ports g hds es; cbn [spawn skip_ids];
    [by intros [= <- _]|].
  destruct (next_port ports) as [ports' port]. cbn [ig_AddBalanced balanced_generator].
  destruct (AddBalanced fuel g) as [[g1 added]| |]; run; [|done..].
  destruct (spawn_head _ _ _ _ _ _ _ _ _ _) as [es1 [err|sp]]; [done|].
  destruct (spawn _ _ _ _ _ _ _ _ _ _ _ _) as [[g2 [es2 r]]| |] eqn:Hs; run; [|done..].
  intros [= <- _ ->]. by eapply IH.
Qed.

(** Skipping identities forgets none. *)
Lemma skip_ids_mem n g g' :
  bg_inv g -> skip_ids fuel n g = Ret g' -> key_set (xorTrie g) ⊆ key_set (xorTrie g').
Proof.
  revert g. induction n as [|n IH]; intros g Hinv; cbn [skip_ids]; [by intros [= <-]|].
  pose proof (ig_AddBalanced_law (IdentityGeneratorLaws := balanced_generator_laws fuel) g Hinv) as Hs.
  cbn [ig_AddBalanced balanced_generator] in Hs. destruct (AddBalanced fuel g) as [[g1 r]| |]; run; [|done|done].
  destruct Hs as [Hinv1 Hr]. intros Hn. etrans; [|by eapply IH]. cbn in Hr.
  destruct r as [err|pk]; [by rewrite Hr|]. destruct Hr as (k & _ & _ & ->). set_solver.
Qed.

(** What a hydra on a seed takes. *)
Lemma seeded_hydra options ports g g' tr hy :
  bg_inv g -> NewHydra options ports g = Ret (g', (tr, inr hy)) ->
  bg_inv g' /\ skip_ids fuel (Z.to_nat (NHeads options)) g = Ret g' /\
  forall sp, sp ∈ hy_Heads hy ->
    exists k, head_key sp = Some k /\ (k ∉ key_set (xorTrie g)) /\ k ∈ key_set (xorTrie g').
Proof.
  intros Hinv Hn.
  assert (skip_ids fuel (Z.to_nat (NHeads options)) g = Ret g') as Hskip.
  { revert Hn. unfold Hydra.NewHydra. destruct (hydra_ctx options); [done|].
    destruct (new_datastore _ _) as [[? [|?]]| |]; run; [done| |done..]. destruct (_ <? 0)%Z; [done|].
    destruct (newProviderStoreBuilder _ _); [done|].
    destruct (spawn _ _ _ _ _ _ _ _ _ _ _ _) as [[g2 [es2 [err|hds]]]| |] eqn:Hs; run; [done| |done..].
    intros [= <- _]. by apply spawn_skips in Hs. }
  destruct (NewHydra_spawn (IGL := balanced_generator_laws fuel) libs open_pstore host_id addr_text hl options ports g g' tr (inr hy) Hinv Hn)
    as [(err & [=] & _)|(ctx & sh & es & [err|hds] & _ & _ & (ks & [Hinv' _ Hnew Hmem] & _ & Hr) & Hres)]; [done|].
  cbn [fst snd] in Hr, Hmem, Hinv'. destruct Hr as (new & -> & Hl & Hlk & _ & Hsp). destruct Hres as [[= ->] _].
  split_and!; [done..|]. cbn [app hy_Heads]. intros sp [i Hi]%list_elem_of_lookup.
  destruct (Hsp i sp Hi) as (port & k & _ & Hk & priv & ps & Hid & _ & Hhd & _).
  apply NewHead_config in Hhd as (_ & Hcfg & _). apply list_elem_of_lookup_2 in Hk. exists k. split_and!.
  - unfold head_key. rewrite Hcfg, head_config_head_opts. exact Hid.
  - by apply Hnew.
  - change (k ∈ ig_mem (IdentityGeneratorLaws := balanced_generator_laws fuel) g').
    rewrite Hmem. apply elem_of_union_l. by apply elem_of_list_to_set.
Qed.

(** C17. Hydras on the same seed, one with an offset and another with an offset
    that is not less than the first one's offset plus its number of heads, have
    no identity in common. *)
Theorem offsets_disjoint (sd : list byte) (a b : Z) optsA portsA gA trA hyA optsB portsB gB trB hyB :
  (0 <= a)%Z -> (0 <= NHeads optsA)%Z -> (a + NHeads optsA <= b)%Z ->
  (g ← FromSeed sd a; NewHydra optsA portsA g) = Ret (gA, (trA, inr hyA)) ->
  (g ← FromSeed sd b; NewHydra optsB portsB g) = Ret (gB, (trB, inr hyB)) ->
  forall spA spB, spA ∈ hy_Heads hyA -> spB ∈ hy_Heads hyB ->
    exists kA kB, head_key spA = Some kA /\ head_key spB = Some kB /\ kA <> kB.
Proof.
  intros Ha Hn Hab HA HB spA spB HspA HspB. unfold NewBalancedIdentityGeneratorFromSeed in HA, HB.
  pose proof (fun n => skip_ids_safe fuel n _ (bg_inv_new sd)) as Hsafe.
  destruct (skip_ids fuel (Z.to_nat a) _) as [ga| |] eqn:Hga; [|done..]. cbn in HA.
  pose proof (Hsafe (Z.to_nat a)) as Hinva. rewrite Hga in Hinva.
  destruct (seeded_hydra optsA portsA ga gA trA hyA Hinva HA) as (HinvA & HskipA & HkA).
  replace (Z.to_nat b) with (Z.to_nat a + (Z.to_nat (NHeads optsA) + Z.to_nat (b - a - NHeads optsA))) in HB by lia.
  rewrite skip_ids_add, Hga in HB. run. cbn [mbind outcome_bind] in HB. rewrite skip_ids_add, HskipA in HB.
  cbn [mbind outcome_bind] in HB.
  pose proof (skip_ids_safe fuel (Z.to_nat (b - a - NHeads optsA)) gA HinvA) as Hinvb.
  destruct (skip_ids fuel _ gA) as [gb| |] eqn:Hgb; [|done..]. cbn in HB, Hinvb.
  destruct (seeded_hydra optsB portsB gb gB trB hyB Hinvb HB) as (_ & _ & HkB).
  apply skip_ids_mem in Hgb; [|done].
  destruct (HkA spA HspA) as (kA & HeA & _ & HinA). destruct (HkB spB HspB) as (kB & HeB & HnB & _).
  exists kA, kB. split_and!; [done..|]. intros ->. by apply HnB, Hgb.
Qed.
End seeds.

(** ** Concrete runs *)

Definition process_types : OptTypes := {|
  o_Batching := unit; o_Peerstore := unit; o_Builder := StoreBuilder; o_HTTPClient := Z;
  o_RoutingTable := unit; o_Multiaddr := string; o_Limiter := Z; o_PrivKey := Z;
  o_Finder := unit; NewMapDatastore := tt; NewMultiaddr := inr; DefaultPrefix := "/ipfs";
  DefaultBootstrapPeers := ["boot"]%string
|}.

Definition process_head_libs : @HeadLibs process_types sample_rcmgr nat unit := {|
  NewConnManager _ _ _ := None; libp2p_New _ := inr 0; run_Builder _ _ _ := inr tt;
  NewLRUWithExpire _ _ := None; NewProviderManager _ _ _ := None; dht_New _ _ := None
|}.

Definition process_hydra_libs : @HydraLibs process_types := {|
  open_datastore _ := inr (tt : @o_Batching process_types); hl_LoadDefaultConfig := None;
  builder_value b := b; new_limiter n := n; delegate_client t := t; providers_finder := tt
|}.

(** The flags -nheads, -name, -random-seed and -idgen-addr. *)
Definition process_flags (nheads : Z) (seed addr : string) : Flags :=
  let f := default_flags "/ipfs" in
  mkFlags nheads seed (f_idOffset f) (f_dbpath f) (f_pstorePath f) (f_providerStore f)
    (f_delegateTimeout f) (f_inmem f) (f_enableRelay f) (f_portBegin f) (f_protocolPrefix f)
    (f_bucketSize f) (f_bootstrapConcurrency f) (f_bootstrapPeers f) (f_stagger f) "hydra"
    addr (f_disableProvGC f) (f_disableProviders f) (f_disableValues f)
    (f_disablePrefetch f) (f_disableProvCounts f) (f_disableDBCreate f)
    (f_disableResourceManager f) (f_resourceManagerLimits f) (f_connMgrHighWater f)
    (f_connMgrLowWater f) (f_connMgrGracePeriod f) (f_uiTheme f) (f_metricsAddr f) (f_httpAPIAddr f).

Definition sample_main (seed addr : string) (e : ending) (fates : list fate) :=
  @main process_types sample_rcmgr sample_taglib list_multierror sample_keys Z_Equals Z_codec nat unit
    process_head_libs (fun _ => inr (inr tt)) (fun _ => "id"%string) (fun _ => "addr"%string) process_hydra_libs nat (list ID)
    sample_libp2p sample_hosts BalancedIdentityGenerator (balanced_generator 9) sample_mux "http://h:1"
    [0] sample_ctx 9 (process_flags 2 seed addr) (fun _ => ""%string) e
    (mkProcess sample_gen1 (sample_net sample_gen1 fates) []).

Abbreviation process_config := (Config (Multiaddr := @o_Multiaddr process_types)).
Abbreviation process_configure seed addr :=
  (configure (@NewMultiaddr process_types) (process_flags 2 seed addr) (fun _ => ""%string)).

Definition config_of (r : result process_config) (default : process_config) : process_config :=
  match r with inr cfg => cfg | inl _ => default end.
Definition empty_config : process_config :=
  @mkConfig string "" "" "" "" 0 false "" 0 (NewPortSelector 0) 0 0 0 HydraGenerator false false false
    [] false false false false "" 0 0 0.
Definition remote_config : process_config :=
  Eval vm_compute in config_of (process_configure "" "http://h:1") empty_config.
Definition local_config : process_config :=
  Eval vm_compute in config_of (process_configure "" "") empty_config.

Lemma remote_config_eq : process_configure "" "http://h:1" = inr remote_config.
Proof. vm_compute. reflexivity. Qed.
Lemma local_config_eq : process_configure "" "" = inr local_config.
Proof. vm_compute. reflexivity. Qed.

Lemma remote_opens options : @session_opens process_types process_hydra_libs options.
Proof. intros _ table. by exists tt. Qed.

(** Two heads, and the first message of [Clean] is not sent: one identity of two
    stays behind, and the error is printed. *)
Lemma main_remote_witness :
  exists p', sample_main "" "http://h:1" Interrupted [Delivered; Delivered; NotSent (ErrorMsg "refused")] =
      Ret (p', Returned (Some [ErrorMsg "refused"])) /\
    count (net_g (p_net p')) = 2%Z /\ p_gen p' = sample_gen1 /\
    exists kept : gset (list byte), size kept <= 1.
Proof.
  pose proof (@main_remote process_types sample_rcmgr sample_taglib list_multierror list_multierror_laws
    sample_keys Z_Equals Z_Equals_laws Z_codec Z_codec_laws nat unit
    process_head_libs (fun _ => inr (inr tt)) (fun _ => "id"%string) (fun _ => "addr"%string) process_hydra_libs nat (list ID)
    sample_libp2p sample_hosts BalancedIdentityGenerator (balanced_generator 9)
    (balanced_generator_laws 9) (balanced_removes_known 9) sample_mux sample_mux_laws "http://h:1"
    [0] sample_ctx 9 (process_flags 2 "" "http://h:1") (fun _ => ""%string) Interrupted
    (mkProcess sample_gen1
      (sample_net sample_gen1 [Delivered; Delivered; NotSent (ErrorMsg "refused")]) []) remote_config) as Hm.
  specialize (Hm remote_config_eq eq_refl ltac:(discriminate) (remote_opens _) sample_gen1_inv).
  match type of Hm with safe _ ?m => destruct m as [[p' ex]| |] eqn:Hrun end;
    [|vm_compute in Hrun; discriminate..].
  destruct Hm as (Hg & kept & _ & _ & Hs). vm_compute in Hrun. injection Hrun as <- <-.
  eexists. split; [vm_compute; reflexivity|]. split; [reflexivity|]. split; [exact Hg|].
  exists kept. exact (proj1 (proj2 Hs)).
Defined.

(** A server that fails after the start: the delegate keeps the identities of
    both heads. *)
Lemma fatal_keeps_identities :
  exists p', sample_main "" "http://h:1" (ServerFailed (ErrorMsg "address in use")) [] =
    Ret (p', Fatal (ErrorMsg "address in use")) /\ count (net_g (p_net p')) = 3%Z.
Proof. eexists. split; [vm_compute; reflexivity|reflexivity]. Qed.

Lemma main_local_witness :
  exists p', sample_main "" "" Interrupted [] = Ret (p', Returned None) /\
    count (p_gen p') = 3%Z /\ bg_inv (PrivKey := Z) (p_gen p') /\ p_net p' = sample_net sample_gen1 [].
Proof.
  pose proof (@main_local process_types sample_rcmgr sample_taglib list_multierror list_multierror_laws
    sample_keys sample_keys_laws Z_Equals Z_Equals_laws Z_codec Z_codec_laws nat unit
    process_head_libs (fun _ => inr (inr tt)) (fun _ => "id"%string) (fun _ => "addr"%string) process_hydra_libs nat (list ID)
    sample_libp2p sample_hosts BalancedIdentityGenerator (balanced_generator 9)
    (balanced_generator_laws 9) (balanced_removes_known 9) sample_mux sample_mux_laws "http://h:1"
    [0] sample_ctx 9 (process_flags 2 "" "") (fun _ => ""%string) Interrupted
    (mkProcess sample_gen1 (sample_net sample_gen1 []) []) local_config) as Hm.
  specialize (Hm local_config_eq ltac:(discriminate) ltac:(discriminate) (remote_opens _) sample_gen1_inv).
  match type of Hm with safe _ ?m => destruct m as [[p' ex]| |] eqn:Hrun end;
    [|vm_compute in Hrun; discriminate..].
  destruct Hm as (Hn & _ & Hg & _). vm_compute in Hrun. injection Hrun as <- <-.
  eexists. split; [vm_compute; reflexivity|]. split; [reflexivity|]. split; [exact Hg|exact Hn].
Defined.

(** Two hydras of two heads each on one seed, the second with the offset 2. *)
Abbreviation process_hydra := (@Hydra process_types sample_rcmgr nat unit).
Definition seeded_run (offset : Z)
    : outcome (BalancedIdentityGenerator * started (@HydraEffect process_types nat unit) process_hydra) :=
  g ← NewBalancedIdentityGeneratorFromSeed (PrivKey := @o_PrivKey process_types) 9 [] offset;
  @NewHydra process_types sample_rcmgr sample_taglib _ (balanced_generator 9) nat unit process_head_libs
    (fun _ => inr (inr tt)) (fun _ => "id"%string) (fun _ => "addr"%string) process_hydra_libs
    (hydra_options remote_config) (NewPortSelector 0) g.
Definition seeded_result (offset : Z)
    : BalancedIdentityGenerator * (list (@HydraEffect process_types nat unit) * process_hydra) :=
  match seeded_run offset with
  | Ret (g, (tr, inr hy)) => (g, (tr, hy))
  | _ => (sample_gen1, ([], @mkHydra process_types sample_rcmgr nat unit [] (tt : @o_Batching process_types)))
  end.

Lemma offsets_disjoint_witness :
  length (hy_Heads (seeded_result 0).2.2) = 2 /\
  forall spA spB, spA ∈ hy_Heads (seeded_result 0).2.2 -> spB ∈ hy_Heads (seeded_result 2).2.2 ->
    exists kA kB, head_key spA = Some kA /\ head_key spB = Some kB /\ kA <> kB.
Proof.
  split; [vm_compute; reflexivity|].
  apply (@offsets_disjoint process_types sample_rcmgr sample_taglib sample_keys sample_keys_laws nat unit
    process_head_libs (fun _ => inr (inr tt)) (fun _ => "id"%string) (fun _ => "addr"%string)
    process_hydra_libs 9 [] 0 2 (hydra_options remote_config) (NewPortSelector 0) (seeded_result 0).1
    (seeded_result 0).2.1 (seeded_result 0).2.2 (hydra_options remote_config) (NewPortSelector 0)
    (seeded_result 2).1 (seeded_result 2).2.1 (seeded_result 2).2.2).
  - discriminate.
  - discriminate.
  - discriminate.
  - vm_compute. reflexivity.
  - vm_compute. reflexivity.
Defined.
