(* ===== verification/ProcessFleet.v ===== *)
(** * Programs in a fleet (src/main.go)

    A program with a remote generator, from start to end, is one process of the fleet
    of its server: what holds of fleets holds of whole programs that run together. *)
From Stdlib Require Import Strings.String.
From S2P Require Import Prelude GoStd Encoding Duration XorTrie TrieFacts TrieSpec IdGen IdGenFacts IdGenSpec Interfaces IdGenClean Utils Metrics MetricsSpec Stores StoresSpec HttpApi HttpApiSpec IdGenDelegated IdGenSession Fleet HeadOptions Head Hydra HydraSpec Ui MainConfig Process ProcessSpec.
Open Scope nat_scope.

(** The process whose step an event is. *)
Definition proc_of (e : fleet_event) : option nat :=
  match e with
  | ServerAdds | Joins => None
  | Adds i | Stops i | Cleans i | Ends i => Some i
  end.

Section process.
Context `{OptTypes, RcmgrLibs, TagLib, MultiErrorLaws} `{KeyMaterialLaws o_PrivKey, PrivKeyEqualsLaws o_PrivKey}
  `{KeyCodecLaws o_PrivKey}.
Context {N S : Type} (libs : HeadLibs N S) (open_pstore : string -> result (result o_Peerstore))
  (host_id : N -> string) (addr_text : option o_Multiaddr -> string) (hl : HydraLibs).
Context {ND : Type} `{HostLibs ND W} {GD : Type} {IGD : IdentityGenerator GD o_PrivKey}
  {IGLD : @IdentityGeneratorLaws GD o_PrivKey IGD}.
Context `{MuxLaws mux_match} (server_addr : string) (server_heads : list ND) (ctx : Ctx).

Abbreviation main := (main (IGD := IGD) libs open_pstore host_id addr_text hl mux_match server_addr server_heads ctx).
Abbreviation runs := (fleet_run mux_match server_addr server_heads ctx).
Abbreviation remote :=
  (@delegated_generator ND _ _ _ GD o_PrivKey _ _ mux_match server_addr server_heads ctx).
Implicit Types (s : Fleet GD W o_PrivKey) (net : Network GD W) (c : CleaningIDGenerator (Network GD W) o_PrivKey).

(** The process [i] of the fleet [s] is with its generator at [c], by steps of its
    own. *)
Definition at_work s (i n : nat) c : Prop :=
  ig_inv (IdentityGeneratorLaws := IGLD) (net_g (idgen c)) /\ length (cl_keys c) <= n /\
  exists es, Forall (fun e => proc_of e = Some i) es /\
    runs s es = Ret (Some (set_proc s i (idgen c) (Running (cl_keys c)))).

Lemma set_proc_twice s i net1 p1 net2 p2 :
  set_proc (set_proc s i net1 p1) i net2 p2 = set_proc s i net2 p2.
Proof. unfold set_proc. cbn [fl_own fl_procs fl_abandoned]. by rewrite list_insert_insert_eq. Qed.

Lemma set_proc_lookup s i net p : i < length (fl_procs s) -> fl_procs (set_proc s i net p) !! i = Some p.
Proof. apply list_lookup_insert_eq. Qed.

Lemma at_work_step s i n c :
  i < length (fl_procs s) -> at_work s i n c ->
  safe (fun '(c', _) => at_work s i (Datatypes.S n) c') (clAddBalanced (H := remote) c).
Proof using All.
  intros Hi (Hg & Hlen & es & Hes & Hr).
  pose proof (del_AddBalanced_faults server_addr server_heads ctx (idgen c) Hg) as HA.
  assert (forall c' r, clAddBalanced (H := remote) c = Ret (c', r) ->
    runs s (es ++ [Adds i]) = Ret (Some (set_proc s i (idgen c') (Running (cl_keys c'))))) as Hrun.
  { intros c' r Hc. rewrite (fleet_run_app _ _ _ _ _ _ _ _ Hr). cbn [fleet_run fleet_step].
    rewrite set_proc_lookup by done. destruct c as [net ks]. cbn [fl_net set_proc idgen cl_keys]. rewrite Hc.
    run. f_equal. f_equal. apply set_proc_twice. }
  unfold clAddBalanced in *. cbn [ig_AddBalanced delegated_generator] in *.
  destruct (del_AddBalanced _ _ _) as [[net' r]| |]; [|done..]. cbn in HA. destruct HA as [Hg' _].
  destruct r as [err|pk]; run; specialize (Hrun _ _ eq_refl); cbn in Hrun |- *;
    (split; [done|]); cbn [cl_keys]; rewrite ?length_app; cbn [length]; (split; [lia|]);
    exists (es ++ [Adds i]); (split; [|done]); apply Forall_app; by split; [|constructor].
Qed.

(** The loop of [Clean]. *)
Lemma cleans s i (ks : list o_PrivKey) : forall net (errs : option multierror),
  i < length (fl_procs s) -> ig_inv (IdentityGeneratorLaws := IGLD) (net_g net) ->
  exists net' errs', clean_keys (H := remote) net ks errs = Ret (net', errs') /\
    runs (set_proc s i net (Cleaning ks)) (replicate (length ks) (Cleans i)) =
      Ret (Some (set_proc s i net' (Cleaning []))).
Proof using All.
  induction ks as [|pk ks IH]; intros net errs Hi Hg; cbn [clean_keys length replicate]; [by exists net, errs|].
  destruct (del_Remove_faults server_addr server_heads ctx net pk Hg) as (net1 & e & HR & Hg1 & _).
  cbn [fleet_run fleet_step]. rewrite set_proc_lookup by done.
  cbn [ig_Remove delegated_generator fl_net set_proc]. rewrite HR. run.
  change (mkFleet net _ _ _) with (set_proc s i net (Cleaning (pk :: ks))). rewrite set_proc_twice.
  destruct e as [err|]; by apply IH.
Qed.

(** A process that is at work ends. *)
Lemma ends s i n c :
  i < length (fl_procs s) -> at_work s i n c ->
  exists es s', Forall (fun e => proc_of e = Some i) es /\ runs s es = Ret (Some s') /\
    fl_net s' = idgen c /\ fl_own s' = fl_own s /\ fl_procs s' = <[i := Ended_]> (fl_procs s) /\
    fl_abandoned s' <= fl_abandoned s + n.
Proof using All.
  intros Hi (_ & Hlen & es & Hes & Hr). exists (es ++ [Ends i]). eexists. split.
  { apply Forall_app. split; [done|]. by constructor. }
  rewrite (fleet_run_app _ _ _ _ _ _ _ _ Hr). cbn [fleet_run fleet_step]. rewrite set_proc_lookup by done.
  split; [done|]. cbn. rewrite list_insert_insert_eq. split_and!; [done..|]. lia.
Qed.

(** A process that is at work cleans up, and ends. *)
Lemma cleans_and_ends s i n c :
  i < length (fl_procs s) -> at_work s i n c ->
  exists c' errs es s', Clean (H := remote) c = Ret (c', errs) /\
    Forall (fun e => proc_of e = Some i) es /\ runs s es = Ret (Some s') /\
    fl_net s' = idgen c' /\ fl_own s' = fl_own s /\ fl_procs s' = <[i := Ended_]> (fl_procs s) /\
    fl_abandoned s' = fl_abandoned s.
Proof using All.
  intros Hi (Hg & _ & es & Hes & Hr).
  destruct (cleans s i (cl_keys c) (idgen c) None Hi Hg) as (net' & errs & HC & Hrc).
  exists (mkCleaning net' []), errs, (es ++ Stops i :: replicate (length (cl_keys c)) (Cleans i) ++ [Ends i]).
  eexists. unfold Clean. rewrite HC. split; [done|]. split.
  { apply Forall_app. split; [done|]. constructor; [done|]. apply Forall_app. split; [by apply Forall_replicate|].
    by constructor. }
  rewrite (fleet_run_app _ _ _ _ _ _ _ _ Hr). cbn [fleet_run]. cbn [fleet_step]. rewrite set_proc_lookup by done.
  run. rewrite set_proc_twice. cbn [fl_net set_proc].
  rewrite (fleet_run_app _ _ _ _ _ _ _ _ Hrc). cbn [fleet_run fleet_step]. rewrite set_proc_lookup by done.
  split; [done|]. cbn. rewrite list_insert_insert_eq. split_and!; [done..|]. lia.
Qed.

(** C10. A program with a remote generator is a process of the fleet: whatever it does
    from its start to its end, of whichever kind, is a sequence of the steps of one
    process that takes identities, and after a signal gives them back one by one; it
    leaves the network and the server as these steps do, and abandons no identity
    after a signal and at most one for every head otherwise. *)
Theorem main_in_fleet (fuel : nat) (f : Flags) (env : Env) (e : ending) p cfg s i :
  configure NewMultiaddr f env = inr cfg -> c_IDGenerator cfg = RemoteGenerator server_addr ->
  (0 <= c_BsCon cfg)%Z -> session_opens hl (hydra_options cfg) ->
  ig_inv (IdentityGeneratorLaws := IGLD) (net_g (p_net p)) ->
  fl_net s = p_net p -> fl_procs s !! i = Some (Running []) ->
  safe (fun '(p', ex) => exists es s', Forall (fun e => proc_of e = Some i) es /\
    runs s es = Ret (Some s') /\ fl_net s' = p_net p' /\ fl_own s' = fl_own s /\
    fl_procs s' = <[i := Ended_]> (fl_procs s) /\
    match ex with
    | Returned _ => fl_abandoned s' = fl_abandoned s
    | Fatal _ => fl_abandoned s' <= fl_abandoned s + Z.to_nat (c_NHeads cfg)
    end) (main fuel f env e p).
Proof using All.
  intros Hcfg Haddr Hbs Hses Hinv Hnet Hp. pose proof (lookup_lt_Some _ _ _ Hp) as Hi.
  unfold Process.main. rewrite Hcfg, Haddr.
  eapply safe_bind.
  { apply (run_hydra_rule libs open_pstore host_id addr_text hl (at_work s i)); [|done|done|].
    - intros n c. by apply at_work_step.
    - split; [done|]. split; [simpl; lia|]. exists []. split; [constructor|]. cbn. do 2 f_equal.
      unfold set_proc. cbn [idgen cl_keys NewCleaningIDGenerator]. rewrite <-Hnet, list_insert_id by done.
      by destruct s. }
  intros [dg [started r]] [(n & Hn & Hw) _]. destruct r as [err|hds].
  - cbn. destruct (ends s i n dg Hi Hw) as (es & s' & ? & ? & ? & ? & ? & ?).
    exists es, s'. split_and!; [done..|lia].
  - destruct (cleans_and_ends s i n dg Hi Hw) as (c' & errs & es & s' & HC & ? & ? & ? & ? & ? & ?).
    change (delegated_at _ _ _ _ _) with remote. rewrite HC. cbn. by exists es, s'.
Qed.
End process.

(** ** The server *)

Section server.
Context `{OptTypes, RcmgrLibs, TagLib, MultiErrorLaws} `{KeyMaterialLaws o_PrivKey, PrivKeyEqualsLaws o_PrivKey}
  `{KeyCodecLaws o_PrivKey}.
Context {N S : Type} (libs : HeadLibs N S) (open_pstore : string -> result (result o_Peerstore))
  (host_id : N -> string) (addr_text : option o_Multiaddr -> string) (hl : HydraLibs).
Context {ND : Type} `{HostLibs ND W} {GD : Type} {IGD : IdentityGenerator GD o_PrivKey}.
Context `{MuxLaws mux_match} (server_addr : string) (server_heads : list ND) (ctx : Ctx) (fuel : nat).

Abbreviation main := (main (IGD := IGD) libs open_pstore host_id addr_text hl mux_match server_addr server_heads ctx).
Abbreviation runs := (fleet_run (IG := balanced_generator fuel) mux_match server_addr server_heads ctx).
Implicit Types (s : Fleet BalancedIdentityGenerator W o_PrivKey).

(** The server has made [n] calls for itself, and is with its generator at [g]. *)
Definition serving s (n : nat) (g : BalancedIdentityGenerator) : Prop :=
  bg_inv g /\ exists ks, length ks <= n /\ runs s (replicate n ServerAdds) =
    Ret (Some (mkFleet (mkNet g (net_w (fl_net s)) (net_fates (fl_net s))) (fl_own s ++ ks)
      (fl_procs s) (fl_abandoned s))).

Lemma serving_step s n g :
  serving s n g -> safe (fun '(g', _) => serving s (Datatypes.S n) g') (AddBalanced fuel g).
Proof using All.
  intros (Hg & ks & Hlen & Hr).
  pose proof (ig_AddBalanced_law (IdentityGeneratorLaws := balanced_generator_laws fuel) g Hg) as HA.
  cbn [ig_AddBalanced balanced_generator] in HA.
  destruct (AddBalanced fuel g) as [[g' r]| |] eqn:Ha; [|done..]. destruct HA as [Hg' _]. split; [done|].
  exists (ks ++ match r with inr pk => [pk] | inl _ => [] end).
  split; [rewrite length_app; destruct r; simpl; lia|].
  rewrite replicate_S_end, (fleet_run_app _ _ _ _ _ _ _ _ Hr). cbn [fleet_run fleet_step fl_net net_g].
  cbn [ig_AddBalanced balanced_generator]. rewrite Ha. run. cbn [fl_own fl_procs fl_abandoned net_w net_fates].
  destruct r; by rewrite ?app_nil_r, ?app_assoc.
Qed.

(** A program without a seed and without a remote generator is the server of the
    fleet: its generator, which its API serves, moves by the server's own steps, at
    most one for every head. *)
Theorem server_in_fleet (f : Flags) (env : Env) (e : ending) p cfg s :
  configure NewMultiaddr f env = inr cfg -> c_IDGenerator cfg = HydraGenerator ->
  (0 <= c_BsCon cfg)%Z -> session_opens hl (hydra_options cfg) -> bg_inv (p_gen p) ->
  net_g (fl_net s) = p_gen p ->
  safe (fun '(p', _) => exists n s', n <= Z.to_nat (c_NHeads cfg) /\
    runs s (replicate n ServerAdds) = Ret (Some s') /\ net_g (fl_net s') = p_gen p' /\
    fl_procs s' = fl_procs s /\ length (fl_own s') <= length (fl_own s) + n) (main fuel f env e p).
Proof using All.
  intros Hcfg Hgen Hbs Hses Hinv Hg. unfold Process.main. rewrite Hcfg, Hgen.
  eapply safe_bind.
  { apply (run_hydra_rule libs open_pstore host_id addr_text hl (serving s)); [|done|done|].
    - intros n g. by apply serving_step.
    - split; [done|]. exists []. split; [simpl; lia|]. cbn. rewrite app_nil_r, <-Hg. by destruct s as [[] ? ? ?]. }
  intros [g [started r]] [(n & Hn & _ & ks & Hlen & Hr) _]. exists n. eexists. split; [done|]. split; [exact Hr|].
  cbn. split_and!; [done..|]. rewrite length_app. lia.
Qed.
End server.

(** The sample program of two heads, as the only process of the fleet: it takes two
    identities and gives both back. *)
Definition sample_fleet0 : Fleet BalancedIdentityGenerator (list ID) Z :=
  mkFleet (sample_net sample_gen1 []) [] [Running []] 0.

Lemma main_in_fleet_witness :
  exists p' ex, sample_main "" "http://h:1" Interrupted [] = Ret (p', ex) /\ ex = Returned None /\
  exists es s', Forall (fun e => proc_of e = Some 0) es /\
    @fleet_run nat (list ID) sample_libp2p sample_hosts BalancedIdentityGenerator Z (balanced_generator 9)
      Z_codec sample_mux "http://h:1" [0] sample_ctx sample_fleet0 es = Ret (Some s') /\
    fl_net s' = p_net p' /\ fl_procs s' = [Ended_] /\ fl_abandoned s' = 0.
Proof.
  pose proof (@main_in_fleet process_types sample_rcmgr sample_taglib list_multierror list_multierror_laws
    sample_keys sample_keys_laws Z_Equals Z_Equals_laws Z_codec Z_codec_laws nat unit
    process_head_libs (fun _ => inr (inr tt)) (fun _ => "id"%string) (fun _ => "addr"%string) process_hydra_libs nat (list ID)
    sample_libp2p sample_hosts BalancedIdentityGenerator (balanced_generator 9)
    (balanced_generator_laws 9) sample_mux sample_mux_laws "http://h:1"
    [0] sample_ctx 9 (process_flags 2 "" "http://h:1") (fun _ => ""%string) Interrupted
    (mkProcess sample_gen1 (sample_net sample_gen1 []) []) remote_config sample_fleet0 0
    remote_config_eq eq_refl ltac:(discriminate) (remote_opens _) sample_gen1_inv eq_refl eq_refl) as Hm.
  match type of Hm with safe _ ?m => destruct m as [[p' ex]| |] eqn:Hrun end;
    [|vm_compute in Hrun; discriminate..].
  exists p', ex. split; [exact Hrun|]. destruct Hm as (es & s' & He & Hr & Hn & _ & Hp & Ha).
  assert (ex = Returned None) as -> by (vm_compute in Hrun; injection Hrun as _ <-; reflexivity).
  split; [reflexivity|]. exists es, s'.
  split; [exact He|]. split; [exact Hr|]. split; [exact Hn|]. split; [exact Hp|exact Ha].
Defined.
