(* ===== verification/UiSpec.v ===== *)
(** * Theorems on the terminal UI's loop (src/ui/ui.go) *)
From Stdlib Require Import Strings.Ascii Strings.String.
From stdpp Require Import pretty.
From S2P Require Import Prelude GoStd Floats Duration Metrics Ui.
Local Open Scope nat_scope.

(** ** The screen *)

Section screen.
Context `{Humanize}.
Implicit Types (ms : list PromMetric) (ins : list ui_input).

(** The last metrics and the last uptime among the inputs. *)
Definition last_metrics ins : option (list PromMetric) :=
  last (omap (fun i => match i with InMetrics ms _ => Some ms | InSecond _ => None end) ins).
Definition last_second ins : option Z :=
  last (omap (fun i => match i with InMetrics _ _ => None | InSecond t => Some t end) ins).

(** What the lines should show. *)
Definition screen (m : option (list PromMetric)) (t : option Z) : list DataLine :=
  let value (f : list PromMetric -> string) := match m with Some ms => f ms | None => ""%string end in
  [mkDataLine "Head ID(s)" 3 ""
     (value (fun ms => "[" +:+ join_space (labelValues (findByName ms (nsName Heads)) "peer_id") +:+ "]"));
   mkDataLine "Connections" 4 "0" (value (fun ms => total_of ms ConnectedPeers +:+ " peers"));
   mkDataLine "Unique Peers Seen" 5 "0" (value (fun ms => total_of ms UniquePeers));
   mkDataLine "Memory Allocated" 6 "0MB" (value memory);
   mkDataLine "Stored Provider Records" 7 "0" (value (fun ms => total_of ms ProviderRecords));
   mkDataLine "Routing Table Size" 8 "0" (value (fun ms => total_of ms RoutingTableSize));
   mkDataLine "Uptime" 9 "0h 0m 0s" (match t with Some t => uptime t | None => ""%string end)].

(** One line, and a whole frame: the screen is cleared, then come the title, the
    lines and an empty log. *)
Definition line_text (dl : DataLine) : string :=
  putMessage (Line dl) (Label dl +:+ Repeat " " (width - String.length (Label dl)) +:+
    (if decide (LastVal dl <> ""%string) then LastVal dl else Default dl)).
Definition empty_log : Log := mkLog 15 15 (replicate 15 ""%string) 0 (-1).
Definition frame (dls : list DataLine) : list string :=
  (QReset +:+ newline) :: putMessage 1 "Hydra Booster" ::
    (line_text <$> dls) ++ imap (fun i m => putMessage (15 + Z.of_nat i) m) (replicate 15 ""%string).

Lemma dl_Print_text dl : String.length (Label dl) <= width -> dl_Print dl = Ret (line_text dl).
Proof.
  intros Hl. unfold dl_Print, padPrint. by rewrite (proj2 (Nat.ltb_ge _ _)).
Qed.

Lemma print_lines_text dls :
  Forall (fun dl => String.length (Label dl) <= width) dls -> print_lines dls = Ret (line_text <$> dls).
Proof.
  induction 1 as [|dl dls Hl _ IH]; [done|]. cbn [print_lines]. rewrite dl_Print_text by done. run.
  by rewrite IH.
Qed.

Lemma screen_labels m t : Forall (fun dl => String.length (Label dl) <= width) (screen m t).
Proof. repeat constructor; apply (bool_decide_unpack _); vm_compute; exact I. Qed.

Lemma ga_Print_frame m t :
  ga_Print (mkGooey "Hydra Booster" (screen m t) empty_log) = Ret (frame (screen m t)).
Proof.
  unfold ga_Print, frame. cbn [DataFields ga_Log Title]. rewrite print_lines_text by apply screen_labels. run.
  assert (log_Print empty_log = Ret (imap (fun i m => putMessage (15 + Z.of_nat i) m) (replicate 15 ""%string)))
    as -> by (vm_compute; reflexivity).
  done.
Qed.

(** A line is set and printed. *)
Lemma set_line_text a out i v dl :
  DataFields a !! i = Some dl -> String.length (Label dl) <= width ->
  exists s, set_line a out (i, v) = Ret (mkGooey (Title a)
    (<[i := mkDataLine (Label dl) (Line dl) (Default dl) v]> (DataFields a)) (ga_Log a), out ++ [s]).
Proof.
  intros Hi Hl. unfold set_line. cbn [fst snd]. rewrite Hi. unfold SetVal.
  rewrite dl_Print_text by done. by eexists.
Qed.

Lemma gooey_step_screen m t out i :
  let a dls := mkGooey "Hydra Booster" dls empty_log in
  let '(m', t') := match i with InMetrics ms _ => (Some ms, t) | InSecond t => (m, Some t) end in
  exists pre, gooey_step (a (screen m t)) out i = Ret (a (screen m' t'), out ++ pre ++ frame (screen m' t')).
Proof.
  destruct i as [ms u|u]; cbv zeta; unfold gooey_step.
  - unfold gooey_values. cbn [set_lines].
    do 6 (edestruct set_line_text as [? ->]; [reflexivity|cbn; unfold width; lia|]; run).
    cbn [Title DataFields ga_Log]. 
    match goal with |- context [ga_Print (mkGooey _ ?dls _)] => change dls with (screen (Some ms) t) end.
    rewrite ga_Print_frame. run. rewrite <-!app_assoc. by eexists [_; _; _; _; _; _].
  - cbn [set_lines]. edestruct set_line_text as [? ->]; [reflexivity|cbn; unfold width; lia|]. run.
    cbn [Title DataFields ga_Log].
    match goal with |- context [ga_Print (mkGooey _ ?dls _)] => change dls with (screen m (Some u)) end.
    rewrite ga_Print_frame. run. rewrite <-!app_assoc. by eexists [_].
Qed.

Lemma last_metrics_snoc ins i :
  last_metrics (ins ++ [i]) = match i with InMetrics ms _ => Some ms | InSecond _ => last_metrics ins end.
Proof. unfold last_metrics. rewrite omap_app, last_app. destruct i; simpl; [done|]. by destruct (last _). Qed.

Lemma last_second_snoc ins i :
  last_second (ins ++ [i]) = match i with InMetrics _ _ => last_second ins | InSecond t => Some t end.
Proof. unfold last_second. rewrite omap_app, last_app. destruct i; simpl; [|done]. by destruct (last _). Qed.

(** C40. Whatever the loop of the theme Gooey selects, it never panics, and the last
    frame that it writes shows the values of the last metrics and the uptime of
    the last tick, each under its label, or the defaults before there are any. *)
Theorem render_shows_latest ins :
  exists pre, render Gooey ins = Ret (pre ++ frame (screen (last_metrics ins) (last_second ins))).
Proof.
  unfold render.
  assert (gooey_start = Ret (mkGooey "Hydra Booster" (screen None None) empty_log, frame (screen None None))) as ->.
  { unfold gooey_start. change (NewLog 15 15) with (Ret empty_log). run.
    change (gooey_app empty_log) with (mkGooey "Hydra Booster" (screen None None) empty_log). by rewrite ga_Print_frame. }
  run.
  assert (forall done pre, exists a pre', gooey_loop
      (mkGooey "Hydra Booster" (screen (last_metrics done) (last_second done)) empty_log)
      (pre ++ frame (screen (last_metrics done) (last_second done))) ins =
    Ret (a, pre' ++ frame (screen (last_metrics (done ++ ins)) (last_second (done ++ ins))))) as Hloop.
  { induction ins as [|i ins IH]; intros ds pre; cbn [gooey_loop]; [rewrite app_nil_r; by eexists _, pre|].
    pose proof (gooey_step_screen (last_metrics ds) (last_second ds)
      (pre ++ frame (screen (last_metrics ds) (last_second ds))) i) as Hstep. cbv zeta in Hstep.
    specialize (IH (ds ++ [i])). rewrite last_metrics_snoc, last_second_snoc, <-app_assoc in IH.
    destruct i as [ms u|u]; destruct Hstep as [pre' ->]; run; rewrite app_assoc; apply IH. }
  destruct (Hloop [] []) as (a & pre & Hl). cbn [app] in Hl.
  change (screen (last_metrics []) (last_second [])) with (screen None None) in Hl.
  rewrite Hl. run. by exists pre.
Qed.

(** ** The goroutine that polls *)

Definition reaches (theme : Theme) : relation RState := rtc (fun s s' => exists e, rstep theme s e = Some s').

(** The loop only ever gets the metrics that were fetched; once the context has
    ended and the loop has returned, the goroutine can return unless it has
    fetched metrics that nobody will take: then it is blocked for good. *)
Lemma poller_stuck theme s s' ms :
  r_running s = false -> r_poller s = PollSending ms -> reaches theme s s' -> r_poller s' = PollSending ms.
Proof.
  intros Hrun Hp Hr. assert (r_running s' = false /\ r_poller s' = PollSending ms) as [_ ?]; [|done].
  induction Hr as [s|s s1 s' [e He] _ IH]; [done|]. apply IH;
    destruct e as [[]| | | | |], theme; cbn in He; rewrite ?Hp, ?Hrun, ?andb_false_r in He; simplify_eq; done.
Qed.

Lemma poller_returns theme s :
  r_cancelled s = true -> r_running s = false -> (forall ms, r_poller s <> PollSending ms) ->
  exists s', reaches theme s s' /\ r_poller s' = PollReturned.
Proof.
  intros Hc Hr Hp. destruct (r_poller s) as [|ms|] eqn:He.
  - exists (mkRState PollReturned true (r_running s) (r_inputs s)). split; [|done].
    apply rtc_once. exists PollerDone. cbn. by rewrite He, Hc.
  - by destruct (Hp ms).
  - exists s. by split.
Qed.
End screen.

(** A run in which the goroutine is left behind. *)
Lemma poller_leak `{Humanize} : exists s, reaches Gooey rstart s /\ r_running s = false /\
  r_cancelled s = true /\ r_poller s = PollSending [].
Proof.
  exists (mkRState (PollSending []) true false []). split; [|done].
  eapply rtc_l; [by exists (TimerFires (inr []))|]. eapply rtc_l; [by exists Cancel|].
  eapply rtc_l; [by exists LoopDone|]. apply rtc_refl.
Qed.

(** ** Uptimes *)

(** The hours are rounded before they are cut: the last nanosecond
    before 8192 hours already shows them. *)
Lemma uptime_examples :
  uptime (3723 * Second) = "1h 2m 3s"%string /\ uptime (8192 * Hour - Second) = "8191h 59m 59s"%string /\
  uptime (8192 * Hour - 1) = "8192h 0m 0s"%string.
Proof. vm_compute. repeat split. Qed.
