(* ===== verification/Exporter.v ===== *)
(** * The metrics exporter and the PostgreSQL datastore (src/metrics/metrics.go, src/datastore/postgres.go)

    Both are sequences of calls to libraries that can fail: what is modelled is
    their order, their arguments and what an error leaves behind. *)
From Stdlib Require Import Strings.String.
From S2P Require Import Prelude GoStd Metrics MetricsSpec Ui.
Open Scope nat_scope.

(** ** The exporter *)

(** The calls of [ListenAndServe]: an error, if any. *)
Record ExporterLibs := mkExporterLibs {
  NewNodeCollector : option goerror;
  ToConfig : list (list string) -> option goerror; (* of the rules' [ExeRules] *)
  NewProcessCollector : option goerror;
  registry_panics : bool; (* [MustRegister] *)
  NewExporter : string -> option goerror; (* of a namespace *)
  OpenCensusViews : list View;
  view_Register : list View -> option goerror;
  http_ListenAndServe : string -> list string -> goerror; (* never returns without an error *)
}.

Definition buildProcCollector (libs : ExporterLibs) (arg0 : string) : option goerror :=
  match ToConfig libs [[arg0]] with
  | Some err => Some (Errorf "building process collector config" err)
  | None =>
      match NewProcessCollector libs with
      | Some err => Some (Errorf "creating process collector" err)
      | None => None
      end
  end.

(** The name tag is added to the views of the delegated routing client. *)
Definition name_view (v : View) : View := mkView (v_measure v) (v_TagKeys v ++ [KeyName]) (v_aggregation v).

Definition exported_views `{LibMetrics} (libs : ExporterLibs) : list View :=
  AllDefaultViews ++ (name_view <$> OpenCensusViews libs).

Definition exporter_paths : list string := [
  "/debug"; "/metrics"; "/debug/vars"; "/debug/pprof/"; "/debug/pprof/cmdline";
  "/debug/pprof/profile"; "/debug/pprof/symbol"; "/debug/pprof/trace"]%string.

(** The views that are registered, the paths that are served, and the error. *)
Definition ListenAndServe `{LibMetrics} (libs : ExporterLibs) (arg0 address : string)
    : outcome (list View * list string * goerror) :=
  match NewNodeCollector libs with
  | Some err => Ret ([], [], err)
  | None =>
      match buildProcCollector libs arg0 with
      | Some err => Ret ([], [], err)
      | None =>
          if registry_panics libs then Panic else
          match NewExporter libs PrometheusNamespace with
          | Some err => Ret ([], [], Errorf "failed to create exporter" err)
          | None =>
              let views := exported_views libs in
              match view_Register libs views with
              | Some err => Ret ([], [], Errorf "failed to register hydra views" err)
              | None => Ret (views, exporter_paths, http_ListenAndServe libs address exporter_paths)
              end
          end
      end
  end.

(** The views that cannot tell hydras apart: those of the DHT, and the hits of the
    negative cache. *)
Definition unnamed_views `{LibMetrics} : list View := [
  PrefetchNegativeCacheHitsView;
  ReceivedMessagesView; ReceivedMessageErrorsView; ReceivedBytesView; InboundRequestLatencyView;
  OutboundRequestLatencyView; SentMessagesView; SentMessageErrorsView; SentRequestsView;
  SentRequestErrorsView; SentBytesView].

Lemma default_views_named `{LibMetrics} v :
  v ∈ DefaultViews -> KeyName ∈ v_TagKeys v \/ v ∈ unnamed_views.
Proof.
  intros Hv. unfold DefaultViews in Hv. unfold unnamed_views.
  repeat (apply elem_of_cons in Hv as [->|Hv];
    [first [left; cbn; set_solver|right; repeat first [by left|right]]|]).
  by apply not_elem_of_nil in Hv.
Qed.

(** When the exporter serves, it has registered the program's views, the
    resource manager's and the routing client's, the latter with the name as one
    more tag; every view of the program carries the name, but for the DHT's and
    the hits of the negative cache. If the names of the client's views are new,
    no two registered views have the same name. *)
Theorem exporter_views `{LibMetricsLaws} (libs : ExporterLibs) arg0 address views paths err :
  ListenAndServe libs arg0 address = Ret (views, paths, err) -> paths <> [] ->
  err = http_ListenAndServe libs address paths /\ "/metrics"%string ∈ paths /\
  view_Register libs views = None /\ views = AllDefaultViews ++ (name_view <$> OpenCensusViews libs) /\
  (forall v, v ∈ DefaultViews \/ v ∈ (name_view <$> OpenCensusViews libs) ->
    KeyName ∈ v_TagKeys v \/ v ∈ unnamed_views) /\
  (NoDup (v_name <$> OpenCensusViews libs) ->
    (forall v, v ∈ OpenCensusViews libs -> v_name v ∉ v_name <$> AllDefaultViews) ->
    NoDup (v_name <$> views)).
Proof.
  unfold ListenAndServe. intros Hl Hp. destruct (NewNodeCollector libs); [by injection Hl|].
  destruct (buildProcCollector libs arg0); [by injection Hl|]. destruct (registry_panics libs); [done|].
  destruct (NewExporter libs _); [by injection Hl|].
  destruct (view_Register libs _) eqn:Hr; [by injection Hl|]. injection Hl as <- <- <-.
  split_and!; [done|do 1 right; left|done|done|..].
  - intros v [Hv|Hv]; [by apply default_views_named|]. left.
    apply list_elem_of_fmap in Hv as (w & -> & _). cbn. apply elem_of_app. right. by left.
  - intros Hnd Hnew. unfold exported_views. rewrite fmap_app, <-list_fmap_compose.
    change (v_name ∘ name_view) with v_name. apply NoDup_app. split_and!; [apply AllDefaultViews_NoDup| |done].
    intros n Hn Hn'. apply list_elem_of_fmap in Hn' as (v & -> & Hv). by eapply Hnew.
Qed.

(** ** The PostgreSQL datastore *)

Definition TableName : string := "records".
Definition create_table : string :=
  "CREATE TABLE IF NOT EXISTS " +:+ TableName +:+ " (key TEXT NOT NULL UNIQUE, data BYTEA)".
Definition create_index : string :=
  "CREATE INDEX IF NOT EXISTS " +:+ TableName +:+ "_key_text_pattern_ops_idx ON " +:+ TableName +:+
  " (key text_pattern_ops)".

(** What is done to the database: a pool is opened, executes statements and is
    closed; a datastore is opened on a table. *)
Inductive pg_action : Type :=
| PgConnect (connstr : string)
| PgExec (sql : string)
| PgClose
| PgOpen (connstr table : string).

Section postgres.
Context {DS : Type} (ParseConfig ConnectConfig : string -> option goerror) (Exec : string -> option goerror)
  (pgds_NewDatastore : string -> string -> result DS).

Definition pg_open (connstr : string) (done : list pg_action) : list pg_action * result DS :=
  (done ++ [PgOpen connstr TableName], pgds_NewDatastore connstr TableName).

Definition NewPostgreSQLDatastore (connstr : string) (createDB : bool) : list pg_action * result DS :=
  if createDB then
    match ParseConfig connstr with
    | Some err => ([], inl err)
    | None =>
        match ConnectConfig connstr with
        | Some err => ([], inl err)
        | None =>
            match Exec create_table with
            | Some err => ([PgConnect connstr; PgExec create_table], inl err)
            | None =>
                match Exec create_index with
                | Some err => ([PgConnect connstr; PgExec create_table; PgExec create_index], inl err)
                | None =>
                    pg_open connstr [PgConnect connstr; PgExec create_table; PgExec create_index; PgClose]
                end
            end
        end
    end
  else pg_open connstr [].

(** The pools that are still open. *)
Definition open_pools (done : list pg_action) : Z :=
  foldr (fun a n => match a with PgConnect _ => n + 1 | PgClose => n - 1 | _ => n end)%Z 0%Z done.

(** A datastore is opened only after the table and the index exist, if they are
    to be created, and with no pool left open; with an error a pool stays open
    exactly when a statement has failed. *)
Theorem postgres_order connstr createDB done r :
  NewPostgreSQLDatastore connstr createDB = (done, r) ->
  (forall ds, r = inr ds -> open_pools done = 0%Z /\ pgds_NewDatastore connstr TableName = inr ds /\
    done = (if createDB then [PgConnect connstr; PgExec create_table; PgExec create_index; PgClose] else []) ++
      [PgOpen connstr TableName]) /\
  (open_pools done <> 0%Z <-> createDB = true /\ ParseConfig connstr = None /\ ConnectConfig connstr = None /\
    (is_Some (Exec create_table) \/ is_Some (Exec create_index))).
Proof.
  unfold NewPostgreSQLDatastore, pg_open. intros Hp. destruct createDB; cycle 1.
  { injection Hp as <- <-. split; [|cbn; split; [done|by intros [? _]]]. intros ds Hds. by rewrite Hds. }
  destruct (ParseConfig connstr); [injection Hp as <- <-; cbn; naive_solver|].
  destruct (ConnectConfig connstr); [injection Hp as <- <-; cbn; naive_solver|].
  destruct (Exec create_table) as [e|] eqn:He1.
  { injection Hp as <- <-. cbn. split; [done|]. split; [|done]. intros _. split_and!; [done..|]. left. by eexists. }
  destruct (Exec create_index) as [e|] eqn:He2; injection Hp as <- <-.
  { cbn. split; [done|]. split; [|done]. intros _. split_and!; [done..|]. right. by eexists. }
  split; [intros ds Hds; by rewrite Hds|]. cbn. split; [done|].
  intros (_ & _ & _ & [[? ?]|[? ?]]); done.
Qed.
End postgres.

(** ** Witnesses *)

Definition sample_exporter : ExporterLibs :=
  mkExporterLibs None (fun _ => None) None false (fun _ => None) [] (fun _ => None)
    (fun _ _ => ErrorMsg "closed").

Lemma exporter_views_witness :
  exists views, @ListenAndServe sample_lib sample_exporter "hydra" ":9758" = Ret (views, exporter_paths, ErrorMsg "closed") /\
    NoDup (v_name <$> views).
Proof.
  eexists. split; [reflexivity|].
  refine (proj2 (proj2 (proj2 (proj2 (proj2 (@exporter_views sample_lib sample_lib_laws sample_exporter
    "hydra" ":9758" _ exporter_paths (ErrorMsg "closed") eq_refl _))))) _ _).
  - discriminate.
  - constructor.
  - intros v Hv. inversion Hv.
Defined.

(** The index cannot be created: the pool stays open. *)
Lemma postgres_order_witness :
  let Exec sql := if decide (sql = create_index) then Some (ErrorMsg "denied") else None in
  exists done, NewPostgreSQLDatastore (DS := unit) (fun _ => None) (fun _ => None) Exec (fun _ _ => inr tt)
      "postgresql://h" true = (done, inl (ErrorMsg "denied")) /\ open_pools done <> 0%Z.
Proof.
  eexists. split; [vm_compute; reflexivity|].
  refine (proj2 (proj2 (postgres_order (DS := unit) (fun _ => None) (fun _ => None)
    (fun sql => if decide (sql = create_index) then Some (ErrorMsg "denied") else None) (fun _ _ => inr tt)
    "postgresql://h" true _ (inl (ErrorMsg "denied")) _)) _).
  - vm_compute. reflexivity.
  - split; [reflexivity|]. split; [reflexivity|]. split; [reflexivity|]. right. eexists. vm_compute. reflexivity.
Defined.
